(* ===== verification/_CoqProject ===== *)
-Q . S2P
Prelude.v
GoErrors.v
Effects.v
GoTime.v
GoStrings.v
GoTimeFormat.v
GoJson.v
Interfaces.v
CircuitBreaker.v
Backoff.v
ConnString.v
Sql.v
Publisher.v
Dml.v
SqlText.v
PublisherSpec.v
Config.v
State.v
FileStore.v
FileStoreSpec.v
FileStoreProps.v
Server.v
Metrics.v
Halting.v
Engine.v
Trace.v
Delivery.v
EngineSpec.v
EngineInvariants.v
ExampleWorld.v
EngineProps.v
EngineStore.v
ServerProps.v
RetryProps.v
ExampleDatabase.v
PublisherProps.v
PublisherTables.v
ExampleKeyed.v
TablesProps.v
ConfigProps.v
Command.v
Logging.v
Coordinator.v
CoordinatorSpec.v
Failover.v
FailoverSpec.v
ExampleServer.v
FailoverProps.v
Lock.v
LockSpec.v
LockSystem.v
ExampleBucket.v
LockProps.v
FailoverCluster.v
Subscriber.v
SubscriberSpec.v
SubscriberProps.v
Pipeline.v
PipelineSpec.v
PipelineEngine.v
PipelineRuns.v
PipelineProps.v
