(* ===== verification/Prelude.v ===== *)
(** * A verification of the state sync engine

    The program (src/state-sync-engine, in Go) keeps a cloud PostgreSQL database
    in step with a local one.  A subscriber reads the logical replication stream
    of the local database and puts change events into a channel; the engine
    buffers them, publishes batches to the cloud through a publisher, under a
    circuit breaker and with retries, acknowledges positions and persists its
    state; a failover manager watches a distributed lock and switches the local
    database between read-only and read-write through a coordinator.

    ** How the program is modelled

    A Go function that touches its environment is a state transformer [Go W A]
    over a world [W] (below): it returns, panics, or says that its fuel is used
    up.  Go interfaces (pkg/interfaces) and the libraries the program calls are
    classes over [W]; nothing is assumed of an instance but what a theorem
    states.  The state of a component is a record passed along explicitly.
    Go's [int], [int64] and [time.Duration] are integers with their wrap-around
    written out where the code adds to them ([wrap64]); [float64] is binary64
    arithmetic; strings are sequences of bytes.  Logging is left out.

    ** The files

    - Prelude, GoErrors, GoTime, GoStrings: computations and total correctness
      ([wp]), machine integers; error values and their chains; instants; the
      string functions used.  Effects: programs as trees of calls, for the
      operations that can be interrupted or interleaved.  GoTimeFormat, GoJson:
      RFC 3339 and the calendar, and the JSON texts the program writes and
      reads, each read back as it was written.
    - Interfaces: pkg/interfaces/interfaces.go, and the promises between
      components: what a publisher promises the engine ([DeliveringPublisher],
      [AtomicPublisher]) and a coordinator the failover manager
      ([FaithfulCoordinator]).
    - CircuitBreaker, Backoff (internal/retry): the breaker and its abstract
      specification; delays and the retry loop [Do].  RetryProps has their
      properties: the breaker refines its specification (C33) and lets one
      probe through; the delays are exactly the capped powers of two (C34);
      what a retried operation comes to, and that it ends (C35).
    - ConnString: buildConnString of the subscriber and the coordinator over a
      model of net/url; which strings can be read, and what is read then (C40).
    - Sql, Publisher, Dml, SqlText, PublisherSpec: identifiers, the statements of
      events and the batches of internal/replication/publisher.go; the meaning of
      the statements, and a reader of their text; what [Publish] commits on a
      transactional database.  ExampleDatabase is a concrete one.  PublisherProps: quoting is safe (C23),
      statements do what their events ask (C24), updates without an old row are
      lost (C25), whole batches are committed in order (C26), an event that
      cannot be written blocks its list, and the engine over this publisher
      delivers (C27).  PublisherTables, TablesProps: what the engine does to the
      cloud's tables (C5), and how a commit whose answer is lost stops it over
      tables with primary keys (C28); ExampleKeyed is such a database.
    - Config (internal/config), ConfigProps: validation and loading (C37).
      Command (cmd/state-sync/main.go): the command, which loads a configuration
      and starts nothing.  Logging (internal/logging): the logger's configuration
      and correlation ids.
    - State, FileStore, FileStoreSpec (internal/state): the replication state,
      the store's interface, and the store on disk, its JSON included.
      FileStoreProps: a save is all or nothing and is read back (C36).  Server
      (internal/server): the metrics and status servers; ServerProps: what the
      status endpoint reports (C38), and what it misses (C39).
      Metrics (internal/metrics): the collectors, and the calls made on them.
    - Engine (internal/engine): [New], [Run], [loop], [flush], [shutdown], whose
      work may be left unfinished when its timer fires: Halting runs a
      computation up to a number of calls.
      Trace records the calls a component makes, without changing what it does
      ([erases]); Delivery relates the calls to what reaches the cloud;
      EngineSpec shows that every flush, iteration and run of the loop has one
      of a few outcomes, in every environment that answers, and that one which is
      left between two calls has made the first calls of such an outcome;
      EngineInvariants holds the inductions over runs.  ExampleWorld is a concrete environment.
      EngineProps: exactly-once and at-least-once delivery (C3, C4),
      acknowledgements only after publication (C6), counters and position (C8,
      C9), progress while the cloud is healthy (C11), orderly shutdown (C12),
      the breaker in the engine (C13), starting up.  EngineStore: over the store
      on disk a restart finds the last state saved (C7).
    - Coordinator, CoordinatorSpec (internal/coordinator): the operations, and
      the PostgreSQL session rules that decide what they do.  Failover,
      FailoverSpec (internal/failover): the manager and the outcomes of its
      checks.  ExampleServer is a concrete server.  FailoverProps: the manager
      follows the lock (C18), releases it only after a takeover (C19), stops
      local writes when its coordinator keeps its contract; over PostgreSQL,
      [GetState] is right but [SetReadOnly] reports a failure whatever it did
      (C21) and writes are never restored.
    - Lock (internal/lock): the four operations of the lock as trees of calls on
      the bucket.  LockSpec: the storage service, leases, and what an operation
      does alone.  LockSystem: processes whose calls interleave and which may
      crash, and their invariant.  ExampleBucket is a concrete bucket.  LockProps:
      at most one holder while no lease expires (C14), two once one has (C15),
      the lease each operation moves (C16), and the failover manager over this
      lock, which does not see that it is free (C17).  FailoverCluster: the
      manager over this lock and PostgreSQL together; a failover stops local
      writes (C20), and a recovery leaves no writable database (C22).
    - Subscriber, SubscriberSpec (internal/replication/subscriber.go): the life
      of a subscriber and the stream loop, with the transactions of a stream as
      specification.  SubscriberProps: the changes are emitted in order (C29) and
      confirmed too early, tuples are read by column, the operations keep the
      subscriber consistent (C30), closing races with the stream.
    - Pipeline: the subscriber, its channel and the engine in one process over a
      server with a log and a replication slot; the stream goroutine and the
      server act between any two calls of the engine, and processes are started,
      terminated and killed there.  PipelineSpec: what holds of the server, the
      wire and the channel at every moment; PipelineEngine: the calls of the
      engine and the start of a process in it; PipelineRuns: histories.
      PipelineProps: as long as a process runs, the changes from the slot on are
      committed in the cloud by the repository's publisher at least once and in
      order (C1), and exactly once over a publisher whose failures leave nothing
      behind (C10); no change is forgotten but by a process that ends (C2), and
      what is confirmed and not delivered when one ends, by a crash (C31) or a
      shutdown (C32), is lost.

    ** Fuel and bounds

    The retry loop takes as fuel the number of calls it may make: three for
    publishing, which is its bound, and any number above the failures that occur
    for connecting, where the code has none.  [publish_loop] takes the number of
    events, enough since a batch is not empty; [consume_loop] more than the
    messages the server sends.  The loop of the engine consumes a list of
    inputs, so no fuel is needed; its runs are prefixes of runs of the program.
    A start in Pipeline has fuel for one attempt to connect, enough because its
    server answers; a history is a list of inputs, and the interleaving a list
    of actions for each call.
    The JSON parser takes the length of its text, of which every call consumes a
    character; the operations of the lock and the store have no loop.

    ** Assumptions about code outside the repository

    PostgreSQL transactions ([TransactionalDB]), primary keys ([PrimaryKeys]),
    sessions ([PgServer]) and the replication protocol ([StreamWorld]), the
    storage service ([answers]) and the file system ([fs_answers]) are assumed
    to behave as documented, in the theorems that mention them; the decoders of
    pglogrepl and viper's reading of the configuration are parameters.  The
    local time zone of a process is a parameter too.

    ** Not modelled

    The libraries themselves: zap, net/http, promhttp, viper, pgx, pglogrepl,
    the storage client and the flag package are parameters where the code calls
    them.  Log lines have no counterpart.  Of the mutexes and goroutines, the
    stream goroutine runs interleaved with the engine's calls (Pipeline), and
    the goroutine of a shutdown comes to its end or stops after some of its
    calls: a call is never left half way, and the memory of a goroutine that was
    left is not described. *)
From stdpp Require Export prelude strings gmap.
From Stdlib Require Export ZArith Lia ZifyBool.

(** * Computations

    A Go function that may touch its environment is a state transformer over
    the world [W] it runs in.  Besides returning, a Go computation can panic
    (a run-time error such as a negative slice capacity or a nil dereference)
    and, because some loops of the program have no bound of their own, a
    definition given too little fuel says so instead of inventing a result. *)

Inductive outcome (A : Type) : Type :=
  | Ret (a : A)
  | Panic (msg : string)
  | OutOfFuel.
Arguments Ret {A} a.
Arguments Panic {A} msg.
Arguments OutOfFuel {A}.

Definition Go (W A : Type) : Type := W -> outcome A * W.

Section monad.
Context {W : Type}.

#[global] Instance Go_ret : MRet (Go W) := fun A a w => (Ret a, w).

#[global] Instance Go_bind : MBind (Go W) := fun A B f m w =>
  match m w with
  | (Ret a, w') => f a w'
  | (Panic msg, w') => (Panic msg, w')
  | (OutOfFuel, w') => (OutOfFuel, w')
  end.

(** A call into the environment: it always comes back with a value. *)
Definition call {A} (f : W -> A * W) : Go W A := fun w =>
  let '(a, w') := f w in (Ret a, w').

Definition panic {A} (msg : string) : Go W A := fun w => (Panic msg, w).
Definition out_of_fuel {A} : Go W A := fun w => (OutOfFuel, w).
End monad.

(** * Total correctness

    [wp m Q w]: started in world [w], the computation [m] returns (it neither
    panics nor runs out of fuel) with a value and a world that satisfy [Q]. *)

Definition wp {W A} (m : Go W A) (Q : A -> W -> Prop) (w : W) : Prop :=
  match m w with
  | (Ret a, w') => Q a w'
  | _ => False
  end.

Section wp_rules.
Context {W : Type}.

Lemma wp_ret {A} (a : A) (Q : A -> W -> Prop) w : Q a w -> wp (mret a) Q w.
Proof. done. Qed.

Lemma wp_bind {A B} (m : Go W A) (f : A -> Go W B) Q w :
  wp m (fun a => wp (f a) Q) w -> wp (m ≫= f) Q w.
Proof.
  unfold wp, mbind, Go_bind. by destruct (m w) as [[a|msg|] w'].
Qed.

Lemma wp_bind_inv {A B} (m : Go W A) (f : A -> Go W B) Q w :
  wp (m ≫= f) Q w -> wp m (fun a => wp (f a) Q) w.
Proof.
  unfold wp, mbind, Go_bind. by destruct (m w) as [[a|msg|] w'].
Qed.

Lemma wp_call {A} (f : W -> A * W) Q w :
  (forall a w', f w = (a, w') -> Q a w') -> wp (call f) Q w.
Proof. unfold wp, call. destruct (f w). eauto. Qed.

Lemma wp_mono {A} (m : Go W A) (P Q : A -> W -> Prop) w :
  wp m P w -> (forall a w', P a w' -> Q a w') -> wp m Q w.
Proof. unfold wp. destruct (m w) as [[a|msg|] w']; naive_solver. Qed.

Lemma wp_run {A} (m : Go W A) Q w :
  wp m Q w -> exists a w', m w = (Ret a, w') /\ Q a w'.
Proof. unfold wp. destruct (m w) as [[a|msg|] w']; naive_solver. Qed.

Lemma wp_of_run {A} (m : Go W A) (Q : A -> W -> Prop) w a w' :
  m w = (Ret a, w') -> wp m Q w -> Q a w'.
Proof. unfold wp. by intros ->. Qed.

(** However a computation ends. *)
Definition ends {A} (m : Go W A) (Q : outcome A -> W -> Prop) (w : W) : Prop :=
  Q (m w).1 (m w).2.

Lemma ends_bind {A B} (m : Go W A) (f : A -> Go W B) Q w :
  ends m (fun o w' => match o with
                      | Ret a => ends (f a) Q w'
                      | Panic msg => Q (Panic msg) w'
                      | OutOfFuel => Q OutOfFuel w'
                      end) w -> ends (m ≫= f) Q w.
Proof. unfold ends, mbind, Go_bind. by destruct (m w) as [[a|msg|] w']. Qed.

Lemma ends_wp {A} (m : Go W A) (P : A -> W -> Prop) Q w :
  wp m P w -> (forall a w', P a w' -> Q (Ret a) w') -> ends m Q w.
Proof. unfold wp, ends. destruct (m w) as [[a|msg|] w']; naive_solver. Qed.

(** A computation that returned: the shape in which partial results are
    inverted. *)
Lemma bind_Ret_inv {A B} (m : Go W A) (f : A -> Go W B) w b w' :
  (m ≫= f) w = (Ret b, w') ->
  exists a w1, m w = (Ret a, w1) /\ f a w1 = (Ret b, w').
Proof.
  unfold mbind, Go_bind. destruct (m w) as [[a|msg|] w1]; naive_solver.
Qed.
End wp_rules.

(** Computations that return and keep what [f] sees of the world. *)
Section preserves.
Context {W B : Type} (f : W -> B).

Definition preserves {A} (m : Go W A) : Prop := forall w, wp m (fun _ w' => f w' = f w) w.

Lemma preserves_ret {A} (a : A) : preserves (mret a).
Proof. by intros w. Qed.

Lemma preserves_bind {A C} (m : Go W A) (k : A -> Go W C) :
  preserves m -> (forall a, preserves (k a)) -> preserves (m ≫= k).
Proof.
  intros Hm Hk w. apply wp_bind. eapply wp_mono; [apply Hm|]. intros a w1 <-. apply Hk.
Qed.

Lemma preserves_call {A} (c : W -> A * W) : (forall w, f (c w).2 = f w) -> preserves (call c).
Proof. intros Hc w. apply wp_call. intros a w' Hcall. specialize (Hc w). by rewrite Hcall in Hc. Qed.
End preserves.

Create HintDb go.
Create Rewrite HintDb go.
#[export] Hint Resolve wp_ret : go.
#[export] Hint Resolve preserves_ret : go.

(** Through the structure of a computation, down to its calls. *)
Ltac preserves_tac :=
  lazymatch goal with
  | |- preserves _ (mbind _ _) => apply preserves_bind; [|intros ?]; preserves_tac
  | |- preserves _ (mret _) => apply preserves_ret
  | |- preserves _ (call _) => apply preserves_call; intros ?; eauto with go
  | |- preserves _ (let x := _ in _) => cbv zeta; preserves_tac
  | |- preserves _ (let '(_, _) := ?p in _) => destruct p; preserves_tac
  | |- preserves _ (match ?x with _ => _ end) => destruct x; preserves_tac
  | |- preserves _ ?m => eauto with go
  end.

(** One step of a proof about a computation: peel a bind, a return or a call
    into the environment, naming what the environment answered. *)
Ltac go_step :=
  lazymatch goal with
  | |- wp (mbind _ _) _ _ => apply wp_bind
  | |- wp (mret _) _ _ => apply wp_ret
  | |- wp (call _) _ _ => apply wp_call; intros
  | |- wp (let '(_, _) := ?p in _) _ _ => destruct p eqn:?
  | |- wp (match ?x with _ => _ end) _ _ => destruct x eqn:?
  end.

(** * Machine integers: Go's [int], [int64] and [time.Duration] *)

Definition int_min : Z := -9223372036854775808.
Definition int_max : Z := 9223372036854775807.
Definition in_int64 (z : Z) : Prop := (int_min <= z <= int_max)%Z.

(** Two's-complement wrap-around of an addition. *)
Definition wrap64 (z : Z) : Z :=
  ((z + 9223372036854775808) mod 18446744073709551616 - 9223372036854775808)%Z.

(** Saturation, used by [time.Time.Sub]. *)
Definition clamp64 (z : Z) : Z := Z.max int_min (Z.min int_max z).

Ltac int64 := unfold clamp64, in_int64, int_min, int_max in *.

Lemma wrap64_id (z : Z) : in_int64 z -> wrap64 z = z.
Proof. int64. intros. unfold wrap64. rewrite Z.mod_small; lia. Qed.

Lemma wrap64_range (z : Z) : in_int64 (wrap64 z).
Proof.
  int64. unfold wrap64.
  pose proof (Z.mod_pos_bound (z + 9223372036854775808) 18446744073709551616).
  lia.
Qed.

Lemma wrap64_shift (z k : Z) : wrap64 (z + k * 18446744073709551616) = wrap64 z.
Proof.
  unfold wrap64.
  replace (z + k * 18446744073709551616 + 9223372036854775808)%Z
    with (z + 9223372036854775808 + k * 18446744073709551616)%Z by lia.
  by rewrite Z_mod_plus_full.
Qed.

Lemma wrap64_add_l (a b : Z) : wrap64 (wrap64 a + b) = wrap64 (a + b).
Proof.
  rewrite <- (wrap64_shift (a + b) (- ((a + 9223372036854775808) / 18446744073709551616))).
  apply (f_equal wrap64). unfold wrap64.
  pose proof (Z.div_mod (a + 9223372036854775808) 18446744073709551616 ltac:(lia)). lia.
Qed.

Lemma clamp64_id (z : Z) : in_int64 z -> clamp64 z = z.
Proof. int64. lia. Qed.

Lemma clamp64_range (z : Z) : in_int64 (clamp64 z).
Proof. int64. lia. Qed.

#[export] Hint Resolve wrap64_range clamp64_range : go.
#[export] Hint Rewrite wrap64_add_l : go.

(** * Lists *)

Section lists.
Context {A : Type}.

Lemma take_add_drop (n m : nat) (l : list A) :
  take (n + m) l = take n l ++ take m (drop n l).
Proof. revert l. induction n; intros [|x l]; simpl; try done.
  - by rewrite take_nil.
  - by rewrite IHn. Qed.

Lemma filter_all (P : A -> Prop) `{!forall x, Decision (P x)} (l : list A) :
  Forall P l -> filter P l = l.
Proof.
  induction 1 as [|x l Hx _ IH]; [done|]. rewrite filter_cons, IH. by case_decide.
Qed.
End lists.
