(* ===== verification/GoErrors.v ===== *)
(** Go error values.

    An error keeps what the program builds it from: the format string and its
    arguments ([fmt.Errorf]), the wrapped cause ([%w]), or the message of
    [errors.New].  The errors the libraries hand back are the constructors of
    [lib_error]; the program inspects them with [errors.Is] and [errors.As]
    through any number of wrappings, and so does the model. *)
From S2P Require Import Prelude.

Inductive lib_error : Type :=
  | PgError (code : string)           (** pgconn.PgError, with its SQLSTATE *)
  | GoogleAPIError (code : Z)         (** googleapi.Error, with its HTTP code *)
  | StorageErrObjectNotExist          (** storage.ErrObjectNotExist *)
  | OsErrNotExist                     (** os.ErrNotExist *)
  | ContextCanceled                   (** context.Canceled *)
  | ContextDeadlineExceeded           (** context.DeadlineExceeded *)
  | ConfigFileNotFoundError           (** viper.ConfigFileNotFoundError *)
  | OtherLibError (msg : string).

(** Arguments of a format string. *)
Inductive arg : Type :=
  | AStr (s : string)
  | AInt (z : Z).

Inductive error : Type :=
  | ErrorsNew (msg : string)
  | Errorf (format : string) (args : list arg)
  | Wrapf (format : string) (args : list arg) (cause : error)
  | Lib (e : lib_error).

#[export] Instance lib_error_eq_dec : EqDecision lib_error.
Proof. solve_decision. Defined.
#[export] Instance arg_eq_dec : EqDecision arg.
Proof. solve_decision. Defined.
#[export] Instance error_eq_dec : EqDecision error.
Proof. solve_decision. Defined.

(** [errors.Unwrap], iterated: the library error at the root of the chain. *)
Fixpoint root_cause (e : error) : option lib_error :=
  match e with
  | Lib l => Some l
  | Wrapf _ _ cause => root_cause cause
  | ErrorsNew _ | Errorf _ _ => None
  end.

(** [errors.Is(err, target)] for a library sentinel. *)
Definition errors_Is (e : error) (target : lib_error) : bool :=
  bool_decide (root_cause e = Some target).

(** [errors.As(err, &pgErr)], returning the SQLSTATE. *)
Definition errors_As_PgError (e : error) : option string :=
  match root_cause e with Some (PgError code) => Some code | _ => None end.

(** [errors.As(err, &gerr)] for a googleapi.Error, returning its code. *)
Definition errors_As_GoogleAPI (e : error) : option Z :=
  match root_cause e with Some (GoogleAPIError code) => Some code | _ => None end.

(** Wrapping never hides a cause. *)
Lemma errors_Is_Wrapf (f : string) (args : list arg) (e : error) (l : lib_error) :
  errors_Is (Wrapf f args e) l = errors_Is e l.
Proof. done. Qed.
#[export] Hint Rewrite errors_Is_Wrapf : go.

(** The error-or-value pair of a Go function that returns both. *)
Inductive result (A : Type) : Type :=
  | Ok (a : A)
  | Err (e : error).
Arguments Ok {A} a.
Arguments Err {A} e.

Definition is_Ok {A} (r : result A) : bool :=
  match r with Ok _ => true | Err _ => false end.

#[export] Instance result_ret : MRet result := fun A a => Ok a.
#[export] Instance result_bind : MBind result := fun A B f r =>
  match r with Ok a => f a | Err e => Err e end.

Lemma result_bind_Ok_inv {A B} (r : result A) (f : A -> result B) (b : B) :
  (r ≫= f) = Ok b -> exists a, r = Ok a /\ f a = Ok b.
Proof. destruct r; [eauto | done]. Qed.

(** The first error of the two, as in [if shutdownErr == nil]. *)
Definition first_error (a b : option error) : option error :=
  match a with Some _ => a | None => b end.
