(* ===== verification/Effects.v ===== *)
(** Programs as trees of calls.

    An operation whose calls on its environment matter one by one (because
    other processes act between them, or because it may be interrupted between
    them) is written as a tree: it has ended, or makes a call of the signature
    [E] and goes on with the answer.  The same tree can be run alone, stopped at
    any call, and interleaved with others. *)
From S2P Require Import Prelude.

Inductive prog (E : Type -> Type) (A : Type) : Type :=
  | Done (a : A)
  | Vis {X : Type} (e : E X) (k : X -> prog E A).
Arguments Done {E A} a.
Arguments Vis {E A X} e k.

Fixpoint prog_bind {E A B} (f : A -> prog E B) (p : prog E A) : prog E B :=
  match p with
  | Done a => f a
  | Vis e k => Vis e (fun x => prog_bind f (k x))
  end.
#[export] Instance prog_mret {E} : MRet (prog E) := @Done E.
#[export] Instance prog_mbind {E} : MBind (prog E) := @prog_bind E.

Definition trigger {E X} (e : E X) : prog E X := Vis e Done.

(** An environment that answers the calls. *)
Class Handler (E : Type -> Type) (W : Type) : Type := {
  handle : forall {X : Type}, E X -> W -> X * W;
}.

Fixpoint run {E W A} `{Handler E W} (p : prog E A) : Go W A :=
  match p with
  | Done a => mret a
  | Vis e k => x ← call (handle e); run (k x)
  end.

(** [interrupted p w w']: a run of [p] from [w] that is stopped, at any point,
    leaves [w']. *)
Fixpoint interrupted {E W A} `{Handler E W} (p : prog E A) (w w' : W) : Prop :=
  w' = w \/
  match p with
  | Done _ => False
  | Vis e k => let '(x, w1) := handle e w in interrupted (k x) w1 w'
  end.

Section programs.
Context {E : Type -> Type} {W : Type} `{Handler E W}.

Lemma wp_run_bind {A B} (p : prog E A) (f : A -> prog E B) (Q : B -> W -> Prop) (w : W) :
  wp (run p) (fun a => wp (run (f a)) Q) w -> wp (run (p ≫= f)) Q w.
Proof.
  revert w. induction p as [a|X e k IH]; intros w; [done|]. intros Hp%wp_bind_inv.
  apply (wp_bind (call (handle e)) (fun x => run (k x ≫= f))). eapply wp_mono; [exact Hp|].
  intros x w'. apply IH.
Qed.

Lemma wp_run_trigger {X} (e : E X) (Q : X -> W -> Prop) (w : W) :
  (forall x w', handle e w = (x, w') -> Q x w') -> wp (run (trigger e)) Q w.
Proof.
  intros HQ. apply (wp_bind (call (handle e)) (fun x => run (Done x))), wp_call.
  intros x w' Hcall. apply wp_ret. by apply HQ.
Qed.

(** A program whose run alone returns. *)
Lemma run_returns {A} (p : prog E A) (w : W) : wp (run p) (fun _ _ => True) w.
Proof.
  revert w. induction p as [a|X e k IH]; intros w; [done|]. apply wp_bind, wp_call.
  intros x w' _. apply IH.
Qed.

(** Being stopped before the first call, or after it. *)
Lemma interrupted_trigger {X A} (e : E X) (k : X -> prog E A) (w w' : W) :
  interrupted (trigger e ≫= k) w w' ->
  w' = w \/ exists x w1, handle e w = (x, w1) /\ interrupted (k x) w1 w'.
Proof.
  cbn. intros [->|Hint]; [by left|]. right. destruct (handle e w) as [x w1]. eauto.
Qed.

Lemma interrupted_ret {A} (a : A) (w w' : W) : interrupted (mret a : prog E A) w w' -> w' = w.
Proof. by intros [->|[]]. Qed.
End programs.
