(* ===== verification/GoTime.v ===== *)
(** Instants and durations of Go's [time] package.

    A [Time] is a number of nanoseconds since the zero time (January 1 of year
    1, UTC), so that [IsZero] is equality with 0; a [Duration] is an [int64] of
    nanoseconds.  [Sub] saturates, as the package documents. *)
From S2P Require Import Prelude.
Local Open Scope Z_scope.

Definition Time : Type := Z.
Definition Duration : Type := Z.

Definition zero_time : Time := 0.
Definition Nanosecond : Duration := 1.
Definition Millisecond : Duration := 1000000.
Definition Second : Duration := 1000000000.
Definition Minute : Duration := 60 * Second.

Definition IsZero (t : Time) : bool := t =? zero_time.
Definition After (t u : Time) : bool := u <? t.
Definition Before (t u : Time) : bool := t <? u.
Definition Add (t : Time) (d : Duration) : Time := t + d.
Definition Sub (t u : Time) : Duration := clamp64 (t - u).

(** Comparing a saturated difference with a representable duration is
    comparing the exact difference. *)
Lemma Sub_ge (t u : Time) (d : Duration) :
  0 < d <= int_max -> (d <=? Sub t u) = (d <=? t - u).
Proof. unfold Sub. int64. intros. apply eq_true_iff_eq. rewrite !Z.leb_le. lia. Qed.

Lemma Sub_gt (t u : Time) (d : Duration) :
  0 <= d < int_max -> (d <? Sub t u) = (d <? t - u).
Proof. unfold Sub. int64. intros. apply eq_true_iff_eq. rewrite !Z.ltb_lt. lia. Qed.

Lemma Sub_range (t u : Time) : in_int64 (Sub t u).
Proof. apply clamp64_range. Qed.
#[export] Hint Resolve Sub_range : go.
