(* ===== verification/GoStrings.v ===== *)
(** The [strings], [strconv] and [sort] functions the program calls.

    A Go string is a sequence of bytes, here a [string] of 8-bit characters. *)
From S2P Require Import Prelude.
From Stdlib Require Import Ascii DecimalString.
From stdpp Require Import sorting.

(** * Searching and trimming *)

Fixpoint strip_prefix (p s : string) : option string :=
  match p, s with
  | EmptyString, _ => Some s
  | String a p', String b s' => if Ascii.eqb a b then strip_prefix p' s' else None
  | String _ _, EmptyString => None
  end.

Definition byte_string (codes : list nat) : string :=
  foldr (fun n s => String (ascii_of_nat n) s) EmptyString codes.

(** The UTF-8 encodings of the runes for which [unicode.IsSpace] holds. *)
Definition space_encodings : list string := byte_string <$>
  [[9]; [10]; [11]; [12]; [13]; [32]; [194; 133]; [194; 160]; [225; 154; 128];
   [226; 128; 128]; [226; 128; 129]; [226; 128; 130]; [226; 128; 131];
   [226; 128; 132]; [226; 128; 133]; [226; 128; 134]; [226; 128; 135];
   [226; 128; 136]; [226; 128; 137]; [226; 128; 138]; [226; 128; 168];
   [226; 128; 169]; [226; 128; 175]; [226; 129; 159]; [227; 128; 128]].

Fixpoint strip_any (ps : list string) (s : string) : option string :=
  match ps with
  | [] => None
  | p :: ps => match strip_prefix p s with Some r => Some r | None => strip_any ps s end
  end.

Fixpoint trim_with (ps : list string) (fuel : nat) (s : string) : string :=
  match fuel with
  | 0 => s
  | S fuel => match strip_any ps s with Some r => trim_with ps fuel r | None => s end
  end.

Definition TrimLeft_space (s : string) : string :=
  trim_with space_encodings (String.length s) s.
Definition TrimRight_space (s : string) : string :=
  String.rev (trim_with (String.rev <$> space_encodings) (String.length s) (String.rev s)).

(** [strings.TrimSpace] *)
Definition TrimSpace (s : string) : string := TrimRight_space (TrimLeft_space s).

(** The test the program writes as [strings.TrimSpace(s) == ""]. *)
Definition is_blank (s : string) : bool := String.eqb (TrimSpace s) "".

(** * Splitting, joining, replacing *)

(** [strings.Join] *)
Definition Join (parts : list string) (sep : string) : string := String.concat sep parts.

(** [strings.Split(s, sep)] for a separator of one byte. *)
Fixpoint Split (s : string) (sep : ascii) : list string :=
  match s with
  | EmptyString => [EmptyString]
  | String c s' =>
      if Ascii.eqb c sep then EmptyString :: Split s' sep
      else match Split s' sep with
           | [] => [String c EmptyString]
           | part :: parts => String c part :: parts
           end
  end.

(** [strings.ReplaceAll(s, old, new)] for an [old] of one byte. *)
Fixpoint ReplaceAll (s : string) (old : ascii) (new : string) : string :=
  match s with
  | EmptyString => EmptyString
  | String c s' =>
      if Ascii.eqb c old then new +:+ ReplaceAll s' old new
      else String c (ReplaceAll s' old new)
  end.

(** The ASCII part of [strings.ToLower]: enough for the program, which compares
    the result with ASCII words none of whose letters is the lower case of a
    rune outside ASCII. *)
Definition lower_ascii (c : ascii) : ascii :=
  let n := nat_of_ascii c in
  if (65 <=? n) && (n <=? 90) then ascii_of_nat (n + 32) else c.
Fixpoint ToLower (s : string) : string :=
  match s with
  | EmptyString => EmptyString
  | String c s' => String (lower_ascii c) (ToLower s')
  end.

(** * Numbers: the [%d] verb *)

Definition itoa (z : Z) : string := NilEmpty.string_of_int (Z.to_int z).

(** * Sorting: [sort.Strings] *)

Definition sort_Strings (l : list string) : list string := merge_sort String.le l.

Lemma sort_Strings_perm (l : list string) : sort_Strings l ≡ₚ l.
Proof. apply merge_sort_Permutation. Qed.

Lemma sort_Strings_sorted (l : list string) : StronglySorted String.le (sort_Strings l).
Proof. apply (StronglySorted_merge_sort _). Qed.

(** The result depends on the set of keys only, not on the order in which a
    map iteration produced them. *)
Lemma sort_Strings_ext (l k : list string) : l ≡ₚ k -> sort_Strings l = sort_Strings k.
Proof.
  intros Hperm. apply (StronglySorted_unique String.le).
  - apply sort_Strings_sorted.
  - apply sort_Strings_sorted.
  - by rewrite !sort_Strings_perm.
Qed.

(** * Lemmas *)

Lemma str_app_nil_r (s : string) : s +:+ EmptyString = s.
Proof. induction s; [done|]. unfold String.app in *; simpl. by f_equal. Qed.

Lemma str_app_assoc (s t u : string) : (s +:+ t) +:+ u = s +:+ (t +:+ u).
Proof. induction s; [done|]. unfold String.app in *; simpl. by f_equal. Qed.

Lemma str_app_cons (c : ascii) (s t : string) : String c s +:+ t = String c (s +:+ t).
Proof. done. Qed.
Lemma str_app_nil_l (s : string) : EmptyString +:+ s = s.
Proof. done. Qed.
Lemma str_length_app (s t : string) :
  String.length (s +:+ t) = (String.length s + String.length t)%nat.
Proof. induction s as [|c s IH]; [done|]. rewrite str_app_cons. simpl. by rewrite IH. Qed.
#[export] Hint Rewrite str_app_cons str_app_assoc str_app_nil_l str_app_nil_r : go.

Lemma Split_nonempty (s : string) (sep : ascii) : Split s sep <> [].
Proof.
  destruct s as [|c s]; simpl; [done|].
  destruct (Ascii.eqb c sep); [done|]. by destruct (Split s sep).
Qed.

(** Splitting loses nothing: joining with the separator gives the string back. *)
Lemma Join_Split (s : string) (sep : ascii) :
  Join (Split s sep) (String sep EmptyString) = s.
Proof.
  unfold Join. induction s as [|c s IH]; [done|]. simpl.
  pose proof (Split_nonempty s sep) as Hne.
  destruct (Ascii.eqb_spec c sep) as [->|Hc].
  - destruct (Split s sep) as [|p ps] eqn:E; [done|]. simpl in *.
    by rewrite IH.
  - destruct (Split s sep) as [|p ps] eqn:E; [done|]. simpl in *.
    destruct ps; simpl in *; by rewrite <- IH.
Qed.
