(* ===== verification/GoTimeFormat.v ===== *)
(** Writing and reading instants: [time.Format] and [time.Parse] with the layout
    [time.RFC3339], and the JSON form of a [time.Time] (RFC3339Nano).

    A [Time] is an instant; the offset from UTC (in seconds) with which it is
    written is that of its location, and is an argument here. *)
From S2P Require Import Prelude GoTime.
From Stdlib Require Import Ascii.
Local Open Scope Z_scope.

(** * Decimal digits *)

Definition digit (d : Z) : ascii := ascii_of_nat (48 + Z.to_nat d).

Definition digit_value (c : ascii) : option Z :=
  let n := Z.of_nat (nat_of_ascii c) in
  if (48 <=? n) && (n <=? 57) then Some (n - 48) else None.

(** The last [w] digits of [z], in front of [rest]. *)
Fixpoint fixed_digits (w : nat) (z : Z) (rest : string) : string :=
  match w with
  | O => rest
  | S w => fixed_digits w (z / 10) (String (digit (z mod 10)) rest)
  end.

(** All the digits of [a]; [fuel] is more than their number. *)
Fixpoint all_digits (fuel : nat) (a : Z) (rest : string) : string :=
  match fuel with
  | O => rest
  | S fuel =>
      let rest := String (digit (a mod 10)) rest in
      if a / 10 =? 0 then rest else all_digits fuel (a / 10) rest
  end.

(** [appendInt]: at least [w] digits, more when the number is larger. *)
Definition append_int (w : nat) (z : Z) (rest : string) : string :=
  let a := Z.abs z in
  let ds := if a <? 10 ^ Z.of_nat w then fixed_digits w a rest
            else all_digits (S (Z.to_nat (Z.log2 a))) a rest in
  if z <? 0 then String "-" ds else ds.

Fixpoint read_digits (w : nat) (s : string) (v : Z) : option (Z * string) :=
  match w with
  | O => Some (v, s)
  | S w =>
      match s with
      | EmptyString => None
      | String c s => d ← digit_value c; read_digits w s (10 * v + d)
      end
  end.

(** [getnum]: two digits, or one where the layout does not ask for two. *)
Definition getnum (fixed : bool) (s : string) : option (Z * string) :=
  match read_digits 2 s 0 with
  | Some r => Some r
  | None => if fixed then None else read_digits 1 s 0
  end.

Definition expect (c : ascii) (s : string) : option string :=
  match s with
  | String c' s => if Ascii.eqb c c' then Some s else None
  | EmptyString => None
  end.

(** * The calendar *)

Definition isLeap (y : Z) : bool :=
  (y mod 4 =? 0) && (negb (y mod 100 =? 0) || (y mod 400 =? 0)).

Definition month_lengths (y : Z) : list Z :=
  [31; if isLeap y then 29 else 28; 31; 30; 31; 30; 31; 31; 30; 31; 30; 31].

(** Days from January 1 of year 1 to January 1 of year [y]. *)
Definition days_before_year (y : Z) : Z :=
  let p := y - 1 in 365 * p + p / 4 - p / 100 + p / 400.

(** The year of a day and the day's number in it, through the cycles of 400,
    100, 4 and 1 years. *)
Definition year_of_days (d : Z) : Z * Z :=
  let n400 := d / 146097 in
  let d := d - 146097 * n400 in
  let n100 := Z.min (d / 36524) 3 in
  let d := d - 36524 * n100 in
  let n4 := d / 1461 in
  let d := d - 1461 * n4 in
  let n := Z.min (d / 365) 3 in
  let d := d - 365 * n in
  (400 * n400 + 100 * n100 + 4 * n4 + n + 1, d).

Fixpoint month_of_days (lengths : list Z) (m d : Z) : Z * Z :=
  match lengths with
  | [] => (m, d + 1)
  | l :: lengths => if d <? l then (m, d + 1) else month_of_days lengths (m + 1) (d - l)
  end.

Definition sumZ (l : list Z) : Z := foldr Z.add 0 l.

Definition days_of_civil (y m d : Z) : Z :=
  days_before_year y + sumZ (take (Z.to_nat (m - 1)) (month_lengths y)) + (d - 1).

Definition daysIn (m y : Z) : Z := default 0 (month_lengths y !! Z.to_nat (m - 1)).

(** * Writing *)

(** The part of a layout after the seconds: "Z" or a signed hh:mm. *)
Definition append_zone (offset : Z) (rest : string) : string :=
  if offset =? 0 then String "Z" rest else
  let zone := Z.quot offset 60 in
  let a := Z.abs zone in
  String (if zone <? 0 then "-"%char else "+"%char)
    (append_int 2 (a / 60) (String ":" (append_int 2 (a mod 60) rest))).

Definition append_clock (sod : Z) (rest : string) : string :=
  append_int 2 (sod / 3600) (String ":" (append_int 2 (sod mod 3600 / 60)
    (String ":" (append_int 2 (sod mod 60) rest)))).

Definition append_date (days : Z) (rest : string) : string :=
  let '(y, yday) := year_of_days days in
  let '(m, d) := month_of_days (month_lengths y) 1 yday in
  append_int 4 y (String "-" (append_int 2 m (String "-" (append_int 2 d rest)))).

(** Up to nine digits without trailing zeros, nothing for 0. *)
Fixpoint append_fraction (w : nat) (nsec : Z) (rest : string) : string :=
  match w with
  | O => rest
  | S w' =>
      if (nsec mod 10 =? 0) then append_fraction w' (nsec / 10) rest
      else String "." (fixed_digits w nsec rest)
  end.

Definition append_instant (fraction : bool) (offset : Z) (t : Time) : string :=
  let secs := (t + offset * Second) / Second in
  append_date (secs / 86400) (String "T" (append_clock (secs mod 86400)
    ((if fraction then append_fraction 9 (t mod Second) else id) (append_zone offset "")))).

(** [t.Format(time.RFC3339)] and [t.Format(time.RFC3339Nano)]. *)
Definition Format_RFC3339 : Z -> Time -> string := append_instant false.
Definition Format_RFC3339Nano : Z -> Time -> string := append_instant true.

Definition year_written (offset : Z) (t : Time) : Z :=
  (year_of_days ((t + offset * Second) / Second / 86400)).1.

(** [t.MarshalJSON], without the quotes: refused outside the years 0 to 9999
    and for an offset of 24 hours or more. *)
Definition Time_MarshalText (offset : Z) (t : Time) : option string :=
  let y := year_written offset t in
  if ((y <? 0) || (9999 <? y))%bool || (24 * 60 <=? Z.abs (Z.quot offset 60))
  then None else Some (Format_RFC3339Nano offset t).

(** * Reading *)

Fixpoint skip_digits (s : string) : string :=
  match s with
  | String c s' => if digit_value c is Some _ then skip_digits s' else s
  | EmptyString => s
  end.

(** [parseNanoseconds]: the first nine digits count. *)
Fixpoint read_fraction (w : nat) (s : string) (v : Z) : Z :=
  match w with
  | O => v
  | S w =>
      match s with
      | String c s' =>
          match digit_value c with
          | Some d => read_fraction w s' (10 * v + d)
          | None => read_fraction w s (10 * v)
          end
      | EmptyString => read_fraction w s (10 * v)
      end
  end.

(** A fraction may follow the seconds although the layout has none. *)
Definition read_nanoseconds (s : string) : Z * string :=
  match s with
  | String p s' =>
      if (Ascii.eqb p "." || Ascii.eqb p ",") && bool_decide (is_Some (read_digits 1 s' 0))
      then (read_fraction 9 s' 0, skip_digits s') else (0, s)
  | EmptyString => (0, s)
  end.

Definition guard_range (lo hi v : Z) : option unit :=
  if (lo <=? v) && (v <=? hi) then Some tt else None.

Definition read_zone (s : string) : option (Z * string) :=
  match s with
  | EmptyString => None
  | String c s =>
      if Ascii.eqb c "Z" then Some (0, s) else
      sign ← (if Ascii.eqb c "+" then Some 1 else if Ascii.eqb c "-" then Some (-1) else None);
      '(h, s) ← read_digits 2 s 0;
      s ← expect ":" s;
      '(m, s) ← read_digits 2 s 0;
      _ ← guard_range 0 24 h;
      _ ← guard_range 0 60 m;
      Some (sign * (h * 60 + m) * 60, s)
  end.

Definition read_date (s : string) : option (Z * string) :=
  '(y, s) ← read_digits 4 s 0;
  s ← expect "-" s;
  '(m, s) ← getnum true s;
  _ ← guard_range 1 12 m;
  s ← expect "-" s;
  '(d, s) ← getnum true s;
  _ ← guard_range 1 (daysIn m y) d;
  Some (days_of_civil y m d, s).

Definition read_clock (s : string) : option (Z * string) :=
  '(h, s) ← getnum false s;
  _ ← guard_range 0 23 h;
  s ← expect ":" s;
  '(m, s) ← getnum true s;
  _ ← guard_range 0 59 m;
  s ← expect ":" s;
  '(sec, s) ← getnum true s;
  _ ← guard_range 0 59 sec;
  Some (h * 3600 + m * 60 + sec, s).

(** [time.Parse(time.RFC3339, s)]; the program never looks into its errors. *)
Definition Parse_RFC3339 (s : string) : option Time :=
  '(days, s) ← read_date s;
  s ← expect "T" s;
  '(sod, s) ← read_clock s;
  let '(nsec, s) := read_nanoseconds s in
  '(offset, s) ← read_zone s;
  match s with
  | EmptyString => Some ((days * 86400 + sod - offset) * Second + nsec)
  | String _ _ => None
  end.

(** * Reading back *)

Lemma digit_value_digit (d : Z) : 0 <= d <= 9 -> digit_value (digit d) = Some d.
Proof.
  intros Hd. unfold digit_value, digit. rewrite nat_ascii_embedding by lia.
  destruct ((48 <=? _) && _)%bool eqn:E; [f_equal; lia|lia].
Qed.

Lemma read_digits_snoc (w : nat) (s : string) (v x d : Z) (c : ascii) (rest : string) :
  read_digits w s v = Some (x, String c rest) -> digit_value c = Some d ->
  read_digits (S w) s v = Some (10 * x + d, rest).
Proof.
  revert s v. induction w as [|w IH]; intros s v.
  - simpl. intros [= -> ->] Hc. by rewrite Hc.
  - destruct s as [|c' s]; [done|]. simpl. destruct (digit_value c') as [d'|]; [|done].
    simpl. apply IH.
Qed.

Lemma read_fixed_digits (w : nat) (z : Z) (rest : string) :
  0 <= z < 10 ^ Z.of_nat w -> read_digits w (fixed_digits w z rest) 0 = Some (z, rest).
Proof.
  revert z rest. induction w as [|w IH]; intros z rest Hz; [simpl in *; by replace z with 0 by lia|].
  assert (Hp : 10 ^ Z.of_nat (S w) = 10 * 10 ^ Z.of_nat w)
    by (rewrite Nat2Z.inj_succ, Z.pow_succ_r; lia).
  pose proof (Z.div_mod z 10 ltac:(done)). pose proof (Z.mod_pos_bound z 10 ltac:(done)).
  erewrite read_digits_snoc.
  2:{ simpl fixed_digits. apply IH. lia. }
  2:{ apply digit_value_digit. lia. }
  do 2 f_equal. lia.
Qed.

Lemma append_int_fixed (w : nat) (z : Z) (rest : string) :
  0 <= z < 10 ^ Z.of_nat w -> append_int w z rest = fixed_digits w z rest.
Proof.
  intros Hz. unfold append_int. rewrite Z.abs_eq by lia.
  destruct (Z.ltb_spec z 0); [lia|]. by destruct (Z.ltb_spec z (10 ^ Z.of_nat w)); [|lia].
Qed.

Lemma read_append_int (w : nat) (z : Z) (rest : string) :
  0 <= z < 10 ^ Z.of_nat w -> read_digits w (append_int w z rest) 0 = Some (z, rest).
Proof. intros Hz. rewrite append_int_fixed by done. by apply read_fixed_digits. Qed.

Lemma getnum_append_int (fixed : bool) (z : Z) (rest : string) :
  0 <= z < 100 -> getnum fixed (append_int 2 z rest) = Some (z, rest).
Proof. intros Hz. unfold getnum. by rewrite read_append_int. Qed.

Lemma guard_range_true (lo hi v : Z) : lo <= v <= hi -> guard_range lo hi v = Some tt.
Proof. intros Hv. unfold guard_range. destruct (_ && _) eqn:E; [done|lia]. Qed.

(** [lia] with the quotients and remainders by constants named. *)
Ltac dlia := unfold Second in *; Z.to_euclidean_division_equations; lia.

(** The cycles are cut correctly: the year begins at or before the day. *)
Lemma year_of_days_spec (d : Z) :
  let '(y, yday) := year_of_days d in
  days_before_year y + yday = d /\ 0 <= yday < sumZ (month_lengths y).
Proof.
  unfold year_of_days, days_before_year.
  pose proof (Z.div_mod d 146097 ltac:(done)). pose proof (Z.mod_pos_bound d 146097 ltac:(done)).
  set (a := d / 146097) in *. set (d1 := d - 146097 * a).
  assert (0 <= d1 < 146097) by lia.
  set (b := Z.min (d1 / 36524) 3). set (d2 := d1 - 36524 * b).
  assert (0 <= b <= 3 /\ 0 <= d2 /\ (b < 3 -> d2 < 36524) /\ (b = 3 -> d2 <= 36524)) as (Hb & ? & ? & ?)
    by (unfold b, d2; dlia).
  set (c := d2 / 1461). set (d3 := d2 - 1461 * c).
  assert (0 <= c <= 24 /\ 0 <= d3 < 1461 /\ (c = 24 -> b < 3 -> d3 < 1460)) as (Hc & ? & ?) by (unfold c, d3; dlia).
  set (e := Z.min (d3 / 365) 3). set (d4 := d3 - 365 * e).
  assert (0 <= e <= 3 /\ 0 <= d4 /\ (e < 3 -> d4 < 365) /\ d4 <= 365) as (He & ? & ? & ?)
    by (unfold e, d4; dlia).
  set (p := 400 * a + 100 * b + 4 * c + e).
  replace (p + 1 - 1) with p by lia.
  assert (p / 4 = 100 * a + 25 * b + c) by (unfold p; dlia).
  assert (p / 100 = 4 * a + b) by (unfold p; dlia).
  assert (p / 400 = a) by (unfold p; dlia).
  split; [lia|]. split; [done|].
  assert (Hsum : sumZ (month_lengths (p + 1)) = if isLeap (p + 1) then 366 else 365)
    by (unfold month_lengths; by destruct (isLeap (p + 1))).
  rewrite Hsum. destruct (isLeap (p + 1)) eqn:Hl; [lia|].
  destruct (Z.eq_dec d4 365) as [H365|]; [exfalso|lia].
  unfold isLeap in Hl. assert (e = 3) by lia.
  assert ((p + 1) mod 4 = 0) by (unfold p; dlia).
  assert (Hcase : c < 24 \/ (c = 24 /\ b = 3)) by lia.
  destruct Hcase as [Hc24|[-> ->]].
  - assert ((p + 1) mod 100 <> 0) by (unfold p; dlia). lia.
  - assert ((p + 1) mod 400 = 0) by (unfold p; dlia). lia.
Qed.

#[local] Arguments read_digits : simpl never.
#[local] Arguments append_int : simpl never.

(** The month and day of a day of the year count back to it. *)
Lemma month_of_days_spec (ls : list Z) (m d : Z) :
  0 <= d < sumZ ls ->
  let '(m', d') := month_of_days ls m d in
  exists n l, ls !! n = Some l /\ m' = m + Z.of_nat n /\ 1 <= d' <= l /\
    sumZ (take n ls) + (d' - 1) = d.
Proof.
  revert m d. induction ls as [|l ls IH]; intros m d Hd; simpl in *; [lia|].
  destruct (Z.ltb_spec d l) as [Hl|Hl].
  - exists O, l. simpl. split; [done|]. lia.
  - specialize (IH (m + 1) (d - l) ltac:(lia)).
    destruct (month_of_days ls (m + 1) (d - l)) as [m' d'].
    destruct IH as (n & l' & Hn & -> & Hr & Hs). exists (S n), l'. simpl.
    split; [done|]. lia.
Qed.

Lemma read_append_date (days : Z) (rest : string) :
  0 <= (year_of_days days).1 <= 9999 ->
  read_date (append_date days rest) = Some (days, rest).
Proof.
  intros Hy. unfold append_date. pose proof (year_of_days_spec days) as Hspec.
  destruct (year_of_days days) as [y yday]. simpl in Hy. destruct Hspec as [Hdays Hyday].
  pose proof (month_of_days_spec (month_lengths y) 1 yday Hyday) as Hmonth.
  destruct (month_of_days (month_lengths y) 1 yday) as [m d].
  destruct Hmonth as (n & l & Hn & -> & Hd & Hsum).
  assert (Hn12 : (n < 12)%nat) by (apply lookup_lt_Some in Hn; done).
  assert (Hl : l <= 31).
  { clear -Hn. unfold month_lengths in Hn.
    do 12 (destruct n as [|n]; [simpl in Hn; injection Hn as <-; by try destruct (isLeap y)|]).
    done. }
  unfold read_date. rewrite read_append_int by (simpl; lia). simpl.
  rewrite getnum_append_int by lia. simpl. rewrite guard_range_true by lia. simpl.
  rewrite getnum_append_int by lia. simpl.
  unfold daysIn, days_of_civil. replace (Z.to_nat (1 + Z.of_nat n - 1)) with n by lia.
  rewrite Hn. rewrite guard_range_true by (simpl; lia). simpl. do 2 f_equal. lia.
Qed.

Lemma read_append_clock (sod : Z) (rest : string) :
  0 <= sod < 86400 -> read_clock (append_clock sod rest) = Some (sod, rest).
Proof.
  intros Hs. unfold append_clock, read_clock.
  rewrite getnum_append_int by dlia. simpl. rewrite guard_range_true by dlia. simpl.
  rewrite getnum_append_int by dlia. simpl. rewrite guard_range_true by dlia. simpl.
  rewrite getnum_append_int by dlia. simpl. rewrite guard_range_true by dlia. simpl.
  do 2 f_equal. dlia.
Qed.

(** The offsets of the zones in use: whole minutes, less than a day. *)
Definition good_offset (offset : Z) : Prop :=
  exists m, offset = 60 * m /\ Z.abs m < 24 * 60.

Lemma read_append_zone (offset : Z) (rest : string) :
  good_offset offset -> read_zone (append_zone offset rest) = Some (offset, rest).
Proof.
  intros (m & -> & Hm). unfold append_zone. destruct (Z.eqb_spec (60 * m) 0) as [->|Hne]; [done|].
  replace (Z.quot (60 * m) 60) with m by (rewrite Z.mul_comm, Z.quot_mul; lia).
  simpl read_zone. destruct (Z.ltb_spec m 0); simpl.
  all: rewrite read_append_int by (simpl; dlia); simpl; rewrite read_append_int by (simpl; dlia); simpl.
  all: rewrite guard_range_true by dlia; simpl; rewrite guard_range_true by dlia; simpl.
  all: do 2 f_equal; dlia.
Qed.

(** What follows the seconds is no fraction. *)
Lemma read_nanoseconds_zone (offset : Z) :
  read_nanoseconds (append_zone offset "") = (0, append_zone offset "").
Proof.
  unfold append_zone. destruct (offset =? 0); [done|].
  by destruct (Z.quot offset 60 <? 0).
Qed.

Lemma skip_digits_zone (offset : Z) : skip_digits (append_zone offset "") = append_zone offset "".
Proof.
  unfold append_zone. destruct (offset =? 0); [done|]. by destruct (Z.quot offset 60 <? 0).
Qed.

Lemma read_digits_fraction (w k : nat) (s rest : string) (v x : Z) :
  read_digits w s v = Some (x, rest) ->
  read_fraction (w + k) s v = read_fraction k rest x /\ skip_digits s = skip_digits rest.
Proof.
  revert s v. induction w as [|w IH]; intros s v.
  - intros [= -> ->]. done.
  - destruct s as [|c s]; [done|]. unfold read_digits; fold read_digits. simpl.
    destruct (digit_value c); [|done]. apply IH.
Qed.

Lemma read_fraction_end (k : nat) (offset x : Z) :
  read_fraction k (append_zone offset "") x = x * 10 ^ Z.of_nat k.
Proof.
  revert x. induction k as [|k IH]; intros x; [simpl; lia|].
  rewrite Nat2Z.inj_succ, Z.pow_succ_r by lia.
  transitivity (read_fraction k (append_zone offset "") (10 * x)); [|rewrite IH; lia].
  unfold append_zone. destruct (offset =? 0); [done|]. by destruct (Z.quot offset 60 <? 0).
Qed.

(** The fraction is dropped when it is zero, and else ends in a digit that is not. *)
Lemma append_fraction_shape (w : nat) (nsec : Z) (rest : string) :
  0 <= nsec < 10 ^ Z.of_nat w ->
  (nsec = 0 /\ append_fraction w nsec rest = rest) \/
  exists w' k n, w = (S w' + k)%nat /\ nsec = n * 10 ^ Z.of_nat k /\ 0 <= n < 10 ^ Z.of_nat (S w') /\
    append_fraction w nsec rest = String "." (fixed_digits (S w') n rest).
Proof.
  revert nsec. induction w as [|w IH]; intros nsec Hn; [left; simpl in *; split; [lia|done]|].
  simpl append_fraction. destruct (Z.eqb_spec (nsec mod 10) 0) as [H0|H0].
  - assert (Hdiv : nsec = 10 * (nsec / 10)) by dlia.
    rewrite Nat2Z.inj_succ, Z.pow_succ_r in Hn by lia.
    destruct (IH (nsec / 10)) as [[H1 H2]|(w' & k & n & -> & H1 & Hr & H2)]; [lia|left; split; [lia|done]|].
    right. exists w', (S k), n. repeat split; [lia| |lia|lia|done].
    rewrite Nat2Z.inj_succ, Z.pow_succ_r by lia. lia.
  - right. exists w, O, nsec. repeat split; [lia|simpl; lia|lia|lia].
Qed.

Lemma read_append_fraction (nsec offset : Z) :
  0 <= nsec < Second ->
  read_nanoseconds (append_fraction 9 nsec (append_zone offset "")) =
    (nsec, append_zone offset "").
Proof.
  intros Hn. destruct (append_fraction_shape 9 nsec (append_zone offset ""))
    as [[-> ->]|(w & k & n & Hw & -> & Hr & ->)]; [done|apply read_nanoseconds_zone|].
  pose proof (read_fixed_digits _ _ (append_zone offset "") Hr) as Hread.
  assert (Hone : is_Some (read_digits 1 (fixed_digits (S w) n (append_zone offset "")) 0)).
  { revert Hread. destruct (fixed_digits (S w) n _) as [|c s]; [done|].
    unfold read_digits; fold read_digits. destruct (digit_value c); [|done]. by eexists. }
  destruct (read_digits_fraction (S w) k _ _ _ _ Hread) as [Hfrac Hskip].
  unfold read_nanoseconds. simpl orb. simpl andb. rewrite bool_decide_eq_true_2 by done.
  replace 9%nat with (S w + k)%nat by lia.
  rewrite Hfrac, Hskip, read_fraction_end, skip_digits_zone. done.
Qed.

#[local] Arguments append_fraction : simpl never.
#[local] Arguments append_zone : simpl never.

(** Reading what was written gives the instant back, up to its fraction of a
    second for the layout that has none. *)
Lemma Parse_append_instant (fraction : bool) (offset : Z) (t : Time) :
  good_offset offset -> 0 <= year_written offset t <= 9999 ->
  Parse_RFC3339 (append_instant fraction offset t) =
    Some (if fraction then t else t / Second * Second).
Proof.
  intros Hoff Hy. unfold year_written in Hy. unfold append_instant, Parse_RFC3339.
  set (secs := (t + offset * Second) / Second) in *.
  rewrite read_append_date by done. simpl.
  rewrite read_append_clock by dlia. cbn [mbind option_bind].
  pose proof (Z.mod_pos_bound t Second ltac:(done)).
  assert (Hsecs : secs = t / Second + offset) by (unfold secs; apply Z.div_add; done).
  destruct fraction.
  - rewrite read_append_fraction by done. cbn [mbind option_bind].
    rewrite read_append_zone by done. cbn [mbind option_bind]. f_equal. dlia.
  - unfold id. rewrite read_nanoseconds_zone. cbn [mbind option_bind].
    rewrite read_append_zone by done. cbn [mbind option_bind]. f_equal. dlia.
Qed.

Lemma Parse_Format_RFC3339 (offset : Z) (t : Time) :
  good_offset offset -> 0 <= year_written offset t <= 9999 ->
  Parse_RFC3339 (Format_RFC3339 offset t) = Some (t / Second * Second).
Proof. apply (Parse_append_instant false). Qed.

Lemma Parse_MarshalText (offset : Z) (t : Time) (s : string) :
  good_offset offset -> Time_MarshalText offset t = Some s -> Parse_RFC3339 s = Some t.
Proof.
  intros Hoff. unfold Time_MarshalText. destruct (_ || _) eqn:E; [done|]. intros [= <-].
  apply (Parse_append_instant true); [done|]. lia.
Qed.

(** Instants that are written with four digits of a year in every zone: from
    the second day of year 1 up to the last day of year 9999. *)
Definition writable (t : Time) : Prop := 86400 * Second <= t < 3652058 * 86400 * Second.

Lemma year_written_range (offset : Z) (t : Time) :
  good_offset offset -> writable t -> 0 <= year_written offset t <= 9999.
Proof.
  intros (m & -> & Hm) [Hlo Hhi]. unfold year_written.
  set (d := (t + 60 * m * Second) / Second / 86400).
  assert (Hd : 0 <= d < 3652059) by (unfold d; dlia).
  pose proof (year_of_days_spec d) as Hspec. destruct (year_of_days d) as [y yday]. simpl.
  destruct Hspec as [Hy Hyday]. unfold days_before_year in Hy.
  assert (Hlen : sumZ (month_lengths y) <= 366)
    by (unfold month_lengths; destruct (isLeap y); simpl; lia).
  clearbody d. clear Hlo Hhi Hm. dlia.
Qed.

(** A written instant is read back without its fraction of a second. *)
Lemma Parse_Format_writable (offset : Z) (t : Time) :
  good_offset offset -> writable t ->
  exists u, Parse_RFC3339 (Format_RFC3339 offset t) = Some u /\ t - Second < u <= t.
Proof.
  intros Hoff Ht. exists (t / Second * Second).
  split; [by apply Parse_Format_RFC3339, year_written_range|]. dlia.
Qed.
