(* ===== verification/GoJson.v ===== *)
(** The part of Go's [encoding/json] the program uses: objects of strings,
    integers and instants are written by [Marshal] and [MarshalIndent], and any
    text is read by [Unmarshal] into a struct with such fields.

    Strings are bytes; what is not UTF-8 becomes U+FFFD in both directions. *)
From S2P Require Import Prelude GoErrors GoTime GoTimeFormat GoStrings.
From Stdlib Require Import Ascii.

(** * UTF-8 *)

Definition byte_in (lo hi : N) (c : ascii) : bool :=
  ((lo <=? N_of_ascii c) && (N_of_ascii c <=? hi))%N.

(** What may follow a first byte above 127: the range of the second byte and
    the number of bytes after it ([utf8.DecodeRune]). *)
Definition second_byte (c : ascii) : option (N * N * nat) :=
  if byte_in 194 223 c then Some (128%N, 191%N, 0)
  else if byte_in 224 224 c then Some (160%N, 191%N, 1)
  else if byte_in 237 237 c then Some (128%N, 159%N, 1)
  else if byte_in 225 239 c then Some (128%N, 191%N, 1)
  else if byte_in 240 240 c then Some (144%N, 191%N, 2)
  else if byte_in 241 243 c then Some (128%N, 191%N, 2)
  else if byte_in 244 244 c then Some (128%N, 143%N, 2)
  else None.

Fixpoint continuation (n : nat) (s : string) : option (string * string) :=
  match n, s with
  | O, _ => Some (EmptyString, s)
  | S n, String c s =>
      if byte_in 128 191 c then '(cs, s) ← continuation n s; Some (String c cs, s) else None
  | S _, EmptyString => None
  end.

(** The rune above 127 at the head of a string, and the rest. *)
Definition multibyte (s : string) : option (string * string) :=
  match s with
  | String b0 (String b1 s) =>
      '(lo, hi, n) ← second_byte b0;
      if byte_in lo hi b1
      then '(cs, s) ← continuation n s; Some (String b0 (String b1 cs), s)
      else None
  | _ => None
  end.

Definition is_ascii (c : ascii) : bool := byte_in 0 127 c.

(** [utf8.ValidString] *)
Fixpoint valid_utf8_fuel (fuel : nat) (s : string) : bool :=
  match fuel, s with
  | _, EmptyString => true
  | O, _ => false
  | S fuel, String c s' =>
      if is_ascii c then valid_utf8_fuel fuel s'
      else match multibyte s with Some (_, s) => valid_utf8_fuel fuel s | None => false end
  end.
Definition valid_utf8 (s : string) : bool := valid_utf8_fuel (String.length s) s.

(** [utf8.EncodeRune], for a value below 0x110000 that is no surrogate. *)
Definition encode_rune (r : N) : string :=
  let byte (n : N) (s : string) := String (ascii_of_N n) s in
  let trail (k : N) := (128 + N.shiftr r (6 * k) mod 64)%N in
  (if r <? 128 then byte r ""
   else if r <? 2048 then byte (192 + N.shiftr r 6) (byte (trail 0) "")
   else if r <? 65536 then byte (224 + N.shiftr r 12) (byte (trail 1) (byte (trail 0) ""))
   else byte (240 + N.shiftr r 18) (byte (trail 2) (byte (trail 1) (byte (trail 0) ""))))%N.

Definition replacement : string := byte_string [239; 191; 189].

(** * Writing a string *)

Definition hex_digit (n : N) : ascii :=
  if (n <? 10)%N then ascii_of_N (48 + n) else ascii_of_N (87 + n).

Definition backslash : ascii := ascii_of_nat 92.
Definition quote : ascii := ascii_of_nat 34.

(** An ASCII byte; the quote, the backslash, control characters and the
    characters of HTML mark-up are escaped. *)
Definition escape_ascii (c : ascii) : string :=
  let n := N_of_ascii c in
  let short (l : ascii) : string := String backslash (String l "") in
  if Ascii.eqb c backslash || Ascii.eqb c quote then short c
  else if N.eqb n 8 then short "b"%char else if N.eqb n 12 then short "f"%char
  else if N.eqb n 10 then short "n"%char else if N.eqb n 13 then short "r"%char
  else if N.eqb n 9 then short "t"%char
  else if N.ltb n 32 || N.eqb n 60 || N.eqb n 62 || N.eqb n 38
  then String backslash (String "u" (String "0" (String "0"
         (String (hex_digit (n / 16)) (String (hex_digit (n mod 16)) "")))))
  else String c "".

(** A rune above 127; the separators U+2028 and U+2029 are escaped. *)
Definition escape_rune (chunk : string) : string :=
  if String.eqb chunk (byte_string [226; 128; 168]) then String backslash "u2028"
  else if String.eqb chunk (byte_string [226; 128; 169]) then String backslash "u2029"
  else chunk.

Fixpoint escape_fuel (fuel : nat) (s : string) : string :=
  match fuel, s with
  | S fuel, String c s' =>
      if is_ascii c then escape_ascii c +:+ escape_fuel fuel s'
      else match multibyte s with
           | Some (chunk, s) => escape_rune chunk +:+ escape_fuel fuel s
           | None => String backslash "ufffd" +:+ escape_fuel fuel s'
           end
  | _, _ => ""
  end.

(** The text between the quotes. *)
Definition escape (s : string) : string := escape_fuel (String.length s) s.

Definition string_text (s : string) : string := String quote (escape s +:+ String quote "").

Definition int_text (z : Z) : string :=
  let a := Z.abs z in
  let ds := all_digits (S (Z.to_nat (Z.log2 a))) a "" in
  if (z <? 0)%Z then String "-" ds else ds.

(** * Writing an object

    [Marshal] and [MarshalIndent] with two spaces differ in the white space. *)
Record layout : Type := { l_open : string; l_sep : string; l_colon : string; l_close : string }.

Definition newline : string := String (ascii_of_nat 10) "".
Definition compact : layout := {| l_open := ""; l_sep := ""; l_colon := ""; l_close := "" |}.
Definition indented : layout :=
  {| l_open := newline +:+ "  "; l_sep := newline +:+ "  "; l_colon := " "; l_close := newline |}.

Definition member_text (l : layout) (f : string * string) : string :=
  string_text f.1 +:+ String ":" (l_colon l +:+ f.2).

Fixpoint members_text (l : layout) (fs : list (string * string)) : string :=
  match fs with
  | [] => ""
  | [f] => member_text l f
  | f :: fs => member_text l f +:+ String "," (l_sep l +:+ members_text l fs)
  end.

Definition object_text (l : layout) (fs : list (string * string)) : string :=
  String "{" (l_open l +:+ (members_text l fs +:+ (l_close l +:+ String "}" ""))).

(** * Reading

    A string and a number are kept as they are written: [time.Time] reads the
    raw text. *)
#[warnings="-register-all"]
Inductive json : Type :=
  | JNull
  | JBool (b : bool)
  | JNum (text : string)
  | JStr (raw : string)
  | JArr (elems : list json)
  | JObj (members : list (string * json)).

Definition is_space (c : ascii) : bool :=
  (N_of_ascii c =? 32)%N || (N_of_ascii c =? 9)%N || (N_of_ascii c =? 10)%N || (N_of_ascii c =? 13)%N.

Fixpoint skip_space (s : string) : string :=
  match s with
  | String c s' => if is_space c then skip_space s' else s
  | EmptyString => s
  end.

Definition hex_value (c : ascii) : option N :=
  let n := N_of_ascii c in
  if byte_in 48 57 c then Some (n - 48)%N
  else if byte_in 97 102 c then Some (n - 87)%N
  else if byte_in 65 70 c then Some (n - 55)%N
  else None.

(** Four hexadecimal digits. *)
Definition read_u4 (s : string) : option (N * string) :=
  match s with
  | String a (String b (String c (String d s))) =>
      a ← hex_value a; b ← hex_value b; c ← hex_value c; d ← hex_value d;
      Some (((a * 16 + b) * 16 + c) * 16 + d, s)%N
  | _ => None
  end.

(** The character a short escape stands for. *)
Definition short_escape (c : ascii) : option ascii :=
  if Ascii.eqb c quote || Ascii.eqb c backslash || Ascii.eqb c "/" then Some c
  else if Ascii.eqb c "b" then Some (ascii_of_nat 8)
  else if Ascii.eqb c "f" then Some (ascii_of_nat 12)
  else if Ascii.eqb c "n" then Some (ascii_of_nat 10)
  else if Ascii.eqb c "r" then Some (ascii_of_nat 13)
  else if Ascii.eqb c "t" then Some (ascii_of_nat 9)
  else None.

(** The body of a string up to its closing quote, and the rest: control
    characters and unknown escapes are syntax errors. *)
Fixpoint scan_string (s : string) : option (string * string) :=
  match s with
  | EmptyString => None
  | String c s =>
      if Ascii.eqb c quote then Some (EmptyString, s)
      else if Ascii.eqb c backslash then
        match s with
        | String e s' =>
            if short_escape e is Some _ then
              '(raw, r) ← scan_string s'; Some (String c (String e raw), r)
            else if Ascii.eqb e "u" then
              match s' with
              | String a (String b (String d (String f s''))) =>
                  _ ← hex_value a; _ ← hex_value b; _ ← hex_value d; _ ← hex_value f;
                  '(raw, r) ← scan_string s'';
                  Some (String c (String e (String a (String b (String d (String f raw))))), r)
              | _ => None
              end
            else None
        | EmptyString => None
        end
      else if byte_in 0 31 c then None
      else '(raw, r) ← scan_string s; Some (String c raw, r)
  end.

Definition is_surrogate (r : N) : bool := ((55296 <=? r) && (r <? 57344))%N.

(** [utf16.DecodeRune] of a pair, when it is one. *)
Definition surrogate_pair (r1 r2 : N) : option N :=
  if ((r1 <? 56320) && (56320 <=? r2) && (r2 <? 57344))%N
  then Some (65536 + (r1 - 55296) * 1024 + (r2 - 56320))%N else None.

Fixpoint unquote_fuel (fuel : nat) (s : string) : string :=
  match fuel, s with
  | S fuel, String c s' =>
      if Ascii.eqb c backslash then
        match s' with
        | EmptyString => ""
        | String e s' =>
            match short_escape e with
            | Some c => String c (unquote_fuel fuel s')
            | None =>
                match read_u4 s' with
                | None => ""
                | Some (r, s') =>
                    if is_surrogate r then
                      match s' with
                      | String b (String u s'') =>
                          match (if Ascii.eqb b backslash && Ascii.eqb u "u"
                                 then '(r2, t) ← read_u4 s''; r ← surrogate_pair r r2; Some (r, t)
                                 else None) with
                          | Some (r, t) => encode_rune r +:+ unquote_fuel fuel t
                          | None => replacement +:+ unquote_fuel fuel s'
                          end
                      | _ => replacement +:+ unquote_fuel fuel s'
                      end
                    else encode_rune r +:+ unquote_fuel fuel s'
                end
            end
        end
      else if is_ascii c then String c (unquote_fuel fuel s')
      else match multibyte s with
           | Some (chunk, s) => chunk +:+ unquote_fuel fuel s
           | None => replacement +:+ unquote_fuel fuel s'
           end
  | _, _ => ""
  end.

(** The string a scanned body stands for. *)
Definition unquote (raw : string) : string := unquote_fuel (String.length raw) raw.

Fixpoint scan_digits (s : string) : string * string :=
  match s with
  | String c s' =>
      if digit_value c is Some _ then let '(ds, r) := scan_digits s' in (String c ds, r) else ("", s)
  | EmptyString => ("", s)
  end.

(** One digit or more. *)
Definition scan_digits1 (s : string) : option (string * string) :=
  match scan_digits s with
  | (EmptyString, _) => None
  | r => Some r
  end.

(** An integer without leading zeros. *)
Definition scan_int (s : string) : option (string * string) :=
  match s with
  | String c s' => if Ascii.eqb c "0" then Some ("0", s') else scan_digits1 s
  | EmptyString => None
  end.

Definition scan_frac (s : string) : option (string * string) :=
  match s with
  | String c s' =>
      if Ascii.eqb c "." then '(ds, r) ← scan_digits1 s'; Some (String c ds, r) else Some ("", s)
  | EmptyString => Some ("", s)
  end.

Definition scan_exp (s : string) : option (string * string) :=
  match s with
  | String c s' =>
      if Ascii.eqb c "e" || Ascii.eqb c "E" then
        match s' with
        | String sg s'' =>
            if Ascii.eqb sg "+" || Ascii.eqb sg "-"
            then '(ds, r) ← scan_digits1 s''; Some (String c (String sg ds), r)
            else '(ds, r) ← scan_digits1 s'; Some (String c ds, r)
        | EmptyString => None
        end
      else Some ("", s)
  | EmptyString => Some ("", s)
  end.

Definition scan_number (s : string) : option (string * string) :=
  let '(sign, s) := match s with
                    | String c s' => if Ascii.eqb c "-" then ("-", s') else ("", s)
                    | EmptyString => ("", s)
                    end in
  '(i, s) ← scan_int s;
  '(f, s) ← scan_frac s;
  '(e, s) ← scan_exp s;
  Some (sign +:+ i +:+ f +:+ e, s).

Definition maxNestingDepth : Z := 10000.

(** A value at nesting depth [depth].  Every call is made on a shorter text
    than the one before it, so the length of the text is enough fuel. *)
Fixpoint parse_value (fuel : nat) (depth : Z) (s : string) : option (json * string) :=
  match fuel with
  | O => None
  | S fuel =>
      let s := skip_space s in
      match s with
      | EmptyString => None
      | String c s' =>
          if Ascii.eqb c "{" then
            if (maxNestingDepth <=? depth)%Z then None else
            match skip_space s' with
            | String d r =>
                if Ascii.eqb d "}" then Some (JObj [], r)
                else '(ms, r) ← parse_members fuel (depth + 1) s'; Some (JObj ms, r)
            | EmptyString => None
            end
          else if Ascii.eqb c "[" then
            if (maxNestingDepth <=? depth)%Z then None else
            match skip_space s' with
            | String d r =>
                if Ascii.eqb d "]" then Some (JArr [], r)
                else '(vs, r) ← parse_elems fuel (depth + 1) s'; Some (JArr vs, r)
            | EmptyString => None
            end
          else if Ascii.eqb c quote then '(raw, r) ← scan_string s'; Some (JStr raw, r)
          else match strip_prefix "null" s, strip_prefix "true" s, strip_prefix "false" s with
               | Some r, _, _ => Some (JNull, r)
               | _, Some r, _ => Some (JBool true, r)
               | _, _, Some r => Some (JBool false, r)
               | _, _, _ => '(text, r) ← scan_number s; Some (JNum text, r)
               end
      end
  end
with parse_members (fuel : nat) (depth : Z) (s : string) : option (list (string * json) * string) :=
  match fuel with
  | O => None
  | S fuel =>
      s ← expect quote (skip_space s);
      '(key, s) ← scan_string s;
      s ← expect ":" (skip_space s);
      '(v, s) ← parse_value fuel depth s;
      match skip_space s with
      | String c s =>
          if Ascii.eqb c "," then '(ms, s) ← parse_members fuel depth s; Some ((key, v) :: ms, s)
          else if Ascii.eqb c "}" then Some ([(key, v)], s)
          else None
      | EmptyString => None
      end
  end
with parse_elems (fuel : nat) (depth : Z) (s : string) : option (list json * string) :=
  match fuel with
  | O => None
  | S fuel =>
      '(v, s) ← parse_value fuel depth s;
      match skip_space s with
      | String c s =>
          if Ascii.eqb c "," then '(vs, s) ← parse_elems fuel depth s; Some (v :: vs, s)
          else if Ascii.eqb c "]" then Some ([v], s)
          else None
      | EmptyString => None
      end
  end.

(** A whole text: one value between white space. *)
Definition parse (s : string) : option json :=
  '(v, r) ← parse_value (S (String.length s)) 0 s;
  match skip_space r with EmptyString => Some v | String _ _ => None end.

(** * Reading into a struct *)

Definition syntax_error : error := ErrorsNew "json: syntax error".
Definition type_error : error := ErrorsNew "json: cannot unmarshal into Go value".

(** Upper case letters, and the two runes outside ASCII whose case folds to an
    ASCII letter: the Kelvin sign and the long s. *)
Fixpoint fold_name (s : string) : string :=
  match s with
  | EmptyString => ""
  | String c s1 =>
      match s1 with
      | String d s2 =>
          if byte_in 197 197 c && byte_in 191 191 d then String "s" (fold_name s2) else
          match s2 with
          | String e s3 =>
              if byte_in 226 226 c && byte_in 132 132 d && byte_in 170 170 e
              then String "k" (fold_name s3)
              else String (lower_ascii c) (fold_name s1)
          | EmptyString => String (lower_ascii c) (fold_name s1)
          end
      | EmptyString => String (lower_ascii c) (fold_name s1)
      end
  end.

(** Whether a member of an object goes to the field called [name]. *)
Definition is_field (name key : string) : bool :=
  String.eqb (fold_name name) (fold_name (unquote key)).

(** A string field; [null] leaves a field as it is. *)
Definition decode_string (v : json) (old : string) : result string :=
  match v with
  | JStr raw => Ok (unquote raw)
  | JNull => Ok old
  | _ => Err type_error
  end.

Fixpoint digits_value (s : string) (v : Z) : option Z :=
  match s with
  | EmptyString => Some v
  | String c s => d ← digit_value c; digits_value s (10 * v + d)%Z
  end.

(** [strconv.ParseInt] and [strconv.ParseUint] on a number. *)
Definition decode_int (lo hi : Z) (v : json) (old : Z) : result Z :=
  match v with
  | JNum text =>
      match (match text with
             | String c s => if Ascii.eqb c "-" && (lo <? 0)%Z
                             then Z.opp <$> digits_value s 0 else digits_value text 0
             | EmptyString => None
             end) with
      | Some z => if ((lo <=? z) && (z <=? hi))%Z then Ok z else Err type_error
      | None => Err type_error
      end
  | JNull => Ok old
  | _ => Err type_error
  end.

(** [time.Time.UnmarshalJSON], which reads the raw text. *)
Definition decode_time (v : json) (old : Time) : result Time :=
  match v with
  | JStr raw => match Parse_RFC3339 raw with Some t => Ok t | None => Err type_error end
  | JNull => Ok old
  | _ => Err type_error
  end.

(** [json.Unmarshal(data, &x)]: [set key v x] is [x] with the member put into
    its field.  Members are taken in order, the last of a name wins; [null] for
    the struct itself leaves it as it is. *)
Definition Unmarshal {A} (set : string -> json -> A -> result A) (data : string) (x : A) : result A :=
  match parse data with
  | None => Err syntax_error
  | Some JNull => Ok x
  | Some (JObj ms) => foldl (fun r '(key, v) => r ≫= set key v) (Ok x) ms
  | Some _ => Err type_error
  end.

(** * Reading back what was written *)

Lemma byte_in_true (lo hi : N) (c : ascii) :
  byte_in lo hi c = true <-> (lo <= N_of_ascii c <= hi)%N.
Proof. unfold byte_in. rewrite andb_true_iff, !N.leb_le. done. Qed.

(** A byte above 127 is copied by the scanner. *)
Lemma high_byte (c : ascii) : (128 <= N_of_ascii c)%N ->
  Ascii.eqb c quote = false /\ Ascii.eqb c backslash = false /\
  byte_in 0 31 c = false /\ is_ascii c = false.
Proof.
  destruct c as [b0 b1 b2 b3 b4 b5 b6 b7]. destruct b7.
  - by destruct b0, b1, b2, b3, b4, b5, b6.
  - by destruct b0, b1, b2, b3, b4, b5, b6.
Qed.

Lemma scan_high_byte (c : ascii) (t raw r : string) : (128 <= N_of_ascii c)%N ->
  scan_string t = Some (raw, r) -> scan_string (String c t) = Some (String c raw, r).
Proof.
  intros (Hq & Hb & Hc & _)%high_byte Ht. simpl. by rewrite Hq, Hb, Hc, Ht.
Qed.

Lemma continuation_spec (n : nat) (s cs r : string) :
  continuation n s = Some (cs, r) ->
  s = cs +:+ r /\ (forall t, continuation n (cs +:+ t) = Some (cs, t)) /\
  (forall t raw r', scan_string t = Some (raw, r') -> scan_string (cs +:+ t) = Some (cs +:+ raw, r')).
Proof.
  revert s cs. induction n as [|n IH]; intros s cs; simpl; [by intros [= <- <-]|].
  destruct s as [|c s]; [done|]. destruct (byte_in 128 191 c) eqn:Hc; [|done].
  destruct (continuation n s) as [[cs' r']|] eqn:E; [|done]. intros [= <- <-].
  destruct (IH _ _ E) as (-> & Ht & Hscan). split; [done|]. split.
  - intros t. rewrite str_app_cons. simpl. by rewrite Hc, Ht.
  - intros t raw r'' Hraw. rewrite !str_app_cons. apply scan_high_byte; [|auto].
    apply byte_in_true in Hc. lia.
Qed.

Lemma second_byte_high (c : ascii) (lo hi : N) (n : nat) :
  second_byte c = Some (lo, hi, n) -> (128 <= N_of_ascii c /\ 128 <= lo)%N.
Proof.
  unfold second_byte. repeat (destruct (byte_in _ _ c) eqn:Hc; [apply byte_in_true in Hc|clear Hc]).
  all: intros [= <- <- <-] || done. all: lia.
Qed.

(** A rune is found again wherever its bytes are written. *)
Lemma multibyte_spec (s chunk r : string) :
  multibyte s = Some (chunk, r) ->
  s = chunk +:+ r /\ (forall t, multibyte (chunk +:+ t) = Some (chunk, t)) /\
  (forall t raw r', scan_string t = Some (raw, r') ->
     scan_string (chunk +:+ t) = Some (chunk +:+ raw, r')) /\
  exists c chunk', chunk = String c chunk' /\ (128 <= N_of_ascii c)%N.
Proof.
  unfold multibyte. destruct s as [|b0 [|b1 s]]; [done..|].
  destruct (second_byte b0) as [[[lo hi] n]|] eqn:H0; [|done]. simpl.
  destruct (byte_in lo hi b1) eqn:H1; [|done].
  destruct (continuation n s) as [[cs r']|] eqn:E; [|done]. intros [= <- <-].
  destruct (continuation_spec _ _ _ _ E) as (-> & Ht & Hscan).
  destruct (second_byte_high _ _ _ _ H0) as [Hb0 Hlo]. split; [done|]. split; [|split; [|by eauto]].
  - intros t. rewrite !str_app_cons. simpl. by rewrite H0; simpl; rewrite H1, Ht.
  - intros t raw r'' Hraw. rewrite !str_app_cons.
    apply scan_high_byte; [done|]. apply scan_high_byte; [|auto]. apply byte_in_true in H1. lia.
Qed.

(** The three ways an ASCII byte is written. *)
Inductive ascii_written (c : ascii) : string -> Prop :=
  | WrittenShort e : short_escape e = Some c ->
      ascii_written c (String backslash (String e ""))
  | WrittenHex a b x y : hex_value a = Some x -> hex_value b = Some y ->
      (x * 16 + y)%N = N_of_ascii c -> is_ascii c = true ->
      ascii_written c (String backslash (String "u" (String "0" (String "0" (String a (String b ""))))))
  | WrittenPlain : Ascii.eqb c quote = false -> Ascii.eqb c backslash = false ->
      byte_in 0 31 c = false -> is_ascii c = true -> ascii_written c (String c "").

Lemma escape_ascii_written (c : ascii) : is_ascii c = true -> ascii_written c (escape_ascii c).
Proof.
  destruct c as [b0 b1 b2 b3 b4 b5 b6 b7]. destruct b7; [by destruct b0, b1, b2, b3, b4, b5, b6|].
  intros _. destruct b0, b1, b2, b3, b4, b5, b6; vm_compute;
    first [ by apply WrittenPlain | by apply WrittenShort | by eapply WrittenHex ].
Qed.

Lemma read_u4_byte (a b : ascii) (x y : N) (t : string) :
  hex_value a = Some x -> hex_value b = Some y ->
  read_u4 (String "0" (String "0" (String a (String b t)))) = Some ((x * 16 + y)%N, t).
Proof.
  intros Ha Hb. unfold read_u4. change (hex_value "0") with (Some 0%N). cbn [mbind option_bind].
  rewrite Ha. cbn [mbind option_bind]. rewrite Hb. cbn [mbind option_bind]. do 2 f_equal; lia.
Qed.

#[local] Arguments read_u4 : simpl never.

Lemma scan_u4 (a b d f : ascii) (t raw r : string) :
  forallb (fun c => bool_decide (is_Some (hex_value c))) [a; b; d; f] = true ->
  scan_string t = Some (raw, r) ->
  scan_string (String backslash (String "u" (String a (String b (String d (String f t)))))) =
    Some (String backslash (String "u" (String a (String b (String d (String f raw))))), r).
Proof.
  cbn [forallb]. rewrite !andb_true_iff, !bool_decide_eq_true.
  intros ([x Ha] & [y Hb] & [z Hd] & [v Hf] & _) Ht. cbn -[hex_value].
  by rewrite Ha; cbn -[hex_value]; rewrite Hb; cbn -[hex_value]; rewrite Hd; cbn -[hex_value];
    rewrite Hf; cbn -[hex_value]; rewrite Ht.
Qed.

Lemma written_spec (c : ascii) (txt : string) : ascii_written c txt ->
  (forall t raw r, scan_string t = Some (raw, r) ->
     scan_string (txt +:+ t) = Some (txt +:+ raw, r)) /\
  (forall fuel t, unquote_fuel (S fuel) (txt +:+ t) = String c (unquote_fuel fuel t)) /\
  (0 < String.length txt)%nat.
Proof.
  intros [e He|a b x y Ha Hb Hxy Hc|Hq Hb Hl Hc]; (split; [|split; [|simpl; lia]]).
  - intros t raw r Ht. rewrite !str_app_cons, !str_app_nil_l. simpl. by rewrite He, Ht.
  - intros fuel t. rewrite !str_app_cons, !str_app_nil_l. simpl. by rewrite He.
  - intros t raw r Ht. rewrite !str_app_cons, !str_app_nil_l. apply scan_u4; [|done].
    cbn -[hex_value]. by rewrite Ha, Hb.
  - intros fuel t. rewrite !str_app_cons, !str_app_nil_l. simpl.
    rewrite (read_u4_byte _ _ _ _ _ Ha Hb), Hxy. apply byte_in_true in Hc.
    assert (Hs : is_surrogate (N_of_ascii c) = false) by (unfold is_surrogate; lia).
    rewrite Hs. unfold encode_rune. destruct (N.ltb_spec (N_of_ascii c) 128); [|lia].
    by rewrite ascii_N_embedding.
  - intros t raw r Ht. rewrite !str_app_cons, !str_app_nil_l. simpl. by rewrite Hq, Hb, Hl, Ht.
  - intros fuel t. rewrite !str_app_cons, !str_app_nil_l. simpl. by rewrite Hb, Hc.
Qed.

Lemma escape_rune_spec (s chunk r : string) : multibyte s = Some (chunk, r) ->
  (forall t raw r', scan_string t = Some (raw, r') ->
     scan_string (escape_rune chunk +:+ t) = Some (escape_rune chunk +:+ raw, r')) /\
  (forall fuel t, unquote_fuel (S fuel) (escape_rune chunk +:+ t) = chunk +:+ unquote_fuel fuel t) /\
  (0 < String.length (escape_rune chunk))%nat.
Proof.
  intros (-> & Ht & Hscan & c & chunk' & Hchunk & Hc)%multibyte_spec. unfold escape_rune.
  destruct (String.eqb_spec chunk (byte_string [226; 128; 168])) as [->|_].
  { split; [|split; [done|simpl; lia]].
    intros t raw r' Hraw. rewrite !str_app_cons. by apply scan_u4. }
  destruct (String.eqb_spec chunk (byte_string [226; 128; 169])) as [->|_].
  { split; [|split; [done|simpl; lia]].
    intros t raw r' Hraw. rewrite !str_app_cons. by apply scan_u4. }
  split; [done|]. destruct (high_byte c Hc) as (Hq & Hb & _ & Ha). split.
  - intros fuel t. specialize (Ht t). rewrite Hchunk, str_app_cons in Ht.
    rewrite Hchunk, str_app_cons. cbn [unquote_fuel]. by rewrite Hb, Ha, Ht.
  - rewrite Hchunk. simpl. lia.
Qed.

Lemma scan_escape_fuel (n : nat) (s rest : string) :
  scan_string (escape_fuel n s +:+ String quote rest) = Some (escape_fuel n s, rest).
Proof.
  revert s. induction n as [|n IH]; intros s; [done|]. destruct s as [|c s]; [done|].
  cbn [escape_fuel]. destruct (is_ascii c) eqn:Hc.
  - rewrite str_app_assoc. by apply (written_spec _ _ (escape_ascii_written c Hc)).
  - destruct (multibyte (String c s)) as [[chunk r]|] eqn:Hm.
    + rewrite str_app_assoc. by apply (escape_rune_spec _ _ _ Hm).
    + rewrite str_app_assoc. rewrite !str_app_cons. apply scan_u4; [done|apply IH].
Qed.

Lemma unquote_escape_fuel (n g : nat) (s : string) :
  valid_utf8_fuel n s = true -> (String.length (escape_fuel n s) <= g)%nat ->
  unquote_fuel g (escape_fuel n s) = s.
Proof.
  revert g s. induction n as [|n IH]; intros g s.
  - destruct s; [|done]. intros _ _. by destruct g.
  - destruct s as [|c s]; [intros _ _; by destruct g|]. cbn [valid_utf8_fuel escape_fuel].
    destruct (is_ascii c) eqn:Hc.
    + destruct (written_spec _ _ (escape_ascii_written c Hc)) as (_ & Hu & Hl).
      intros Hv Hg. rewrite str_length_app in Hg. destruct g as [|g]; [lia|].
      rewrite Hu. f_equal. apply IH; [done|lia].
    + destruct (multibyte (String c s)) as [[chunk r]|] eqn:Hm; [|done].
      destruct (escape_rune_spec _ _ _ Hm) as (_ & Hu & Hl). intros Hv Hg.
      rewrite str_length_app in Hg. destruct g as [|g]; [lia|]. rewrite Hu.
      destruct (multibyte_spec _ _ _ Hm) as (-> & _). f_equal. apply IH; [done|lia].
Qed.

Lemma unquote_escape (s : string) : valid_utf8 s = true -> unquote (escape s) = s.
Proof. intros Hs. by apply unquote_escape_fuel. Qed.

Lemma scan_escape (s rest : string) :
  scan_string (escape s +:+ String quote rest) = Some (escape s, rest).
Proof. apply scan_escape_fuel. Qed.

(** What comes after a value inside an object. *)
Definition follows (rest : string) : Prop :=
  exists c s, rest = String c s /\
    (Ascii.eqb c "," = true \/ Ascii.eqb c "}" = true \/ is_space c = true).

(** [txt] is read as the value [v], whatever follows in the object. *)
Definition value_text (txt : string) (v : json) : Prop :=
  forall fuel depth rest, follows rest ->
    parse_value (S fuel) depth (txt +:+ rest) = Some (v, rest).

Lemma value_text_string (s : string) : value_text (string_text s) (JStr (escape s)).
Proof.
  intros fuel depth rest _. unfold string_text. rewrite str_app_cons, str_app_assoc, str_app_cons.
  cbn [parse_value]. change (skip_space (String quote ?s)) with (String quote s).
  cbn -[scan_string]. by rewrite scan_escape.
Qed.

(** Decimal digits, without leading zeros, of value [a]. *)
Record decimal (ds : string) (a : Z) : Prop := {
  dec_value v : exists k, (0 <= k)%Z /\ digits_value ds v = Some (v * 10 ^ k + a)%Z;
  dec_head : exists c ds', ds = String c ds' /\ (Ascii.eqb c "0" = true -> a = 0%Z /\ ds' = "");
}.

Lemma digit_zero (d : Z) : (0 <= d <= 9)%Z -> Ascii.eqb (digit d) "0" = true -> d = 0%Z.
Proof.
  intros Hd. assert (Hcase : (d = 0 \/ d = 1 \/ d = 2 \/ d = 3 \/ d = 4 \/ d = 5 \/ d = 6 \/
    d = 7 \/ d = 8 \/ d = 9)%Z) by lia.
  by repeat destruct Hcase as [->|Hcase]; [..|subst].
Qed.

Lemma digits_value_snoc (ds : string) (c : ascii) (v x d : Z) :
  digits_value ds v = Some x -> digit_value c = Some d ->
  digits_value (ds +:+ String c "") v = Some (10 * x + d)%Z.
Proof.
  intros Hx Hd. revert v Hx. induction ds as [|c' ds IH]; intros v.
  - intros [= ->]. rewrite str_app_nil_l. cbn [digits_value]. by rewrite Hd.
  - rewrite str_app_cons. cbn [digits_value]. destruct (digit_value c'); [|done]. apply IH.
Qed.

Lemma all_digits_decimal (fuel : nat) (a : Z) :
  (0 <= a < 10 ^ Z.of_nat fuel)%Z -> fuel <> O ->
  exists ds, decimal ds a /\ forall rest, all_digits fuel a rest = ds +:+ rest.
Proof.
  revert a. induction fuel as [|fuel IH]; intros a Ha Hf; [done|]. cbn [all_digits].
  rewrite Nat2Z.inj_succ, Z.pow_succ_r in Ha by lia.
  assert (Hm : (0 <= a mod 10 <= 9)%Z) by dlia.
  pose proof (digit_value_digit _ Hm) as Hdv.
  destruct (Z.eqb_spec (a / 10) 0) as [H0|H0].
  - exists (String (digit (a mod 10)) ""). split; [|done]. split.
    + intros v. exists 1%Z. split; [done|]. rewrite <- (str_app_nil_l (String _ _)).
      rewrite (digits_value_snoc "" _ v v _ eq_refl Hdv). f_equal. dlia.
    + do 2 eexists. split; [done|]. intros Hz%digit_zero; [|done]. split; [dlia|done].
  - destruct (IH (a / 10)%Z) as (ds & [Hv Hh] & Hds); [dlia|destruct fuel; [simpl in Ha; dlia|done]|].
    exists (ds +:+ String (digit (a mod 10)) ""). split.
    2:{ intros rest. by rewrite Hds, str_app_assoc, str_app_cons, str_app_nil_l. }
    split.
    + intros v. destruct (Hv v) as (k & Hk & Hx). exists (k + 1)%Z. split; [lia|].
      rewrite (digits_value_snoc _ _ _ _ _ Hx Hdv), Z.pow_add_r by lia. f_equal. dlia.
    + destruct Hh as (c & ds' & -> & Hz). do 2 eexists. split; [by rewrite str_app_cons|].
      intros Hzero. by destruct (Hz Hzero).
Qed.

Lemma scan_digits_app (ds rest : string) (v x : Z) :
  digits_value ds v = Some x -> (forall c s, rest = String c s -> digit_value c = None) ->
  scan_digits (ds +:+ rest) = (ds, rest).
Proof.
  intros Hx Hrest. revert v Hx. induction ds as [|c ds IH]; intros v.
  - intros _. rewrite str_app_nil_l. destruct rest as [|c s]; [done|]. cbn [scan_digits].
    by rewrite (Hrest c s).
  - rewrite str_app_cons. cbn [digits_value scan_digits]. destruct (digit_value c); [|done].
    intros Hx. by rewrite (IH _ Hx).
Qed.

Lemma int_digits (a : Z) : (0 <= a)%Z ->
  exists ds, decimal ds a /\ all_digits (S (Z.to_nat (Z.log2 a))) a "" = ds.
Proof.
  intros Ha. destruct (all_digits_decimal (S (Z.to_nat (Z.log2 a))) a) as (ds & Hd & Hds); [|done|].
  - split; [done|]. pose proof (Z.log2_nonneg a).
    rewrite Nat2Z.inj_succ, Z2Nat.id by done.
    destruct (Z.eq_dec a 0) as [->|]; [done|]. pose proof (Z.log2_spec a ltac:(lia)) as [_ Hlt].
    eapply Z.lt_le_trans; [exact Hlt|]. apply Z.pow_le_mono_l. lia.
  - exists ds. by rewrite Hds, str_app_nil_r.
Qed.

Lemma follow_char (c : ascii) :
  Ascii.eqb c "," = true \/ Ascii.eqb c "}" = true \/ is_space c = true ->
  digit_value c = None /\ Ascii.eqb c "." = false /\ (Ascii.eqb c "e" || Ascii.eqb c "E") = false.
Proof.
  destruct c as [b0 b1 b2 b3 b4 b5 b6 b7].
  destruct b0, b1, b2, b3, b4, b5, b6, b7; vm_compute; intros [?|[?|?]]; done.
Qed.

Lemma number_char (c : ascii) : is_Some (digit_value c) \/ Ascii.eqb c "-" = true ->
  is_space c = false /\ Ascii.eqb c "{" = false /\ Ascii.eqb c "[" = false /\
  Ascii.eqb c quote = false /\ Ascii.eqb "n" c = false /\ Ascii.eqb "t" c = false /\
  Ascii.eqb "f" c = false /\ (is_Some (digit_value c) -> Ascii.eqb c "-" = false).
Proof.
  destruct c as [b0 b1 b2 b3 b4 b5 b6 b7].
  destruct b0, b1, b2, b3, b4, b5, b6, b7; vm_compute; intros [[? ?]|?]; try done;
    (split_and!; done || by intros [? ?]).
Qed.

Lemma scan_decimal (ds rest : string) (a : Z) : decimal ds a -> follows rest ->
  scan_int (ds +:+ rest) = Some (ds, rest) /\
  exists c ds', ds = String c ds' /\ is_Some (digit_value c).
Proof.
  intros [Hv (c & ds' & -> & Hz)] (c' & s & -> & Hc'%follow_char). destruct (Hv 0%Z) as (k & _ & Hx).
  split.
  - rewrite str_app_cons. cbn [scan_int]. destruct (Ascii.eqb_spec c "0") as [->|Hne].
    + destruct (Hz eq_refl) as [_ ->]. done.
    + unfold scan_digits1. rewrite <- str_app_cons.
      rewrite (scan_digits_app _ _ _ _ Hx); [done|]. intros ? ? [= <- <-]. apply Hc'.
  - do 2 eexists. split; [done|]. revert Hx. cbn [digits_value]. by destruct (digit_value c).
Qed.

Lemma scan_number_int (z : Z) (rest : string) : follows rest ->
  scan_number (int_text z +:+ rest) = Some (int_text z, rest) /\
  exists c s, int_text z = String c s /\ (is_Some (digit_value c) \/ Ascii.eqb c "-" = true).
Proof.
  intros Hf. unfold int_text. destruct (int_digits (Z.abs z)) as (ds & Hd & ->); [lia|].
  destruct (scan_decimal _ _ _ Hd Hf) as [Hscan (c & ds' & Hds & Hc)].
  assert (Hend : scan_frac rest = Some ("", rest) /\ scan_exp rest = Some ("", rest)).
  { destruct Hf as (c' & s & -> & (_ & Hdot & He)%follow_char). cbn [scan_frac scan_exp].
    by rewrite Hdot, He. }
  destruct Hend as [Hfrac Hexp]. destruct (z <? 0)%Z.
  - split; [|by eauto]. rewrite str_app_cons. unfold scan_number.
    change (Ascii.eqb "-" "-") with true. cbn beta iota zeta. rewrite Hscan. cbn [mbind option_bind].
    rewrite Hfrac. cbn [mbind option_bind]. rewrite Hexp. cbn [mbind option_bind].
    by autorewrite with go.
  - split; [|by eauto]. unfold scan_number.
    destruct (number_char c (or_introl Hc)) as (_ & _ & _ & _ & _ & _ & _ & Hm).
    rewrite Hds, str_app_cons in *. rewrite (Hm Hc). rewrite Hscan. cbn [mbind option_bind].
    rewrite Hfrac. cbn [mbind option_bind]. rewrite Hexp. cbn [mbind option_bind].
    by autorewrite with go.
Qed.

Lemma value_text_int (z : Z) : value_text (int_text z) (JNum (int_text z)).
Proof.
  intros fuel depth rest Hf. destruct (scan_number_int z rest Hf) as [Hscan (c & s & Hz & Hc)].
  destruct (number_char c Hc) as (Hsp & Ho & Ha & Hq & Hn & Ht & Hff & _).
  rewrite Hz, str_app_cons in *. cbn [parse_value skip_space]. rewrite Hsp, Ho, Ha, Hq.
  cbn [strip_prefix]. by rewrite Hn, Ht, Hff, Hscan.
Qed.

Lemma decode_int_text (lo hi z old : Z) : (lo <= z <= hi)%Z ->
  decode_int lo hi (JNum (int_text z)) old = Ok z.
Proof.
  intros Hz. unfold int_text, decode_int.
  destruct (int_digits (Z.abs z)) as (ds & [Hv (c & ds' & Hds & _)] & ->); [lia|].
  destruct (Hv 0%Z) as (k & _ & Hx). destruct (Z.ltb_spec z 0).
  - destruct (Z.ltb_spec lo 0); [|lia]. cbn [andb Ascii.eqb]. change (Ascii.eqb "-" "-" && true) with true.
    cbn iota. rewrite Hx. cbn. destruct (_ && _) eqn:E; [f_equal; lia|lia].
  - assert (Hc : is_Some (digit_value c)).
    { revert Hx. rewrite Hds. cbn [digits_value]. by destruct (digit_value c). }
    destruct (number_char c (or_introl Hc)) as (_ & _ & _ & _ & _ & _ & _ & Hm).
    rewrite Hds in *. rewrite (Hm Hc). cbn [andb]. rewrite Hx.
    replace (0 * 10 ^ k + Z.abs z)%Z with z by lia. by destruct (_ && _) eqn:E; [|lia].
Qed.

(** * Objects *)

Fixpoint blank (s : string) : bool :=
  match s with EmptyString => true | String c s => is_space c && blank s end.

Definition layout_ok (l : layout) : bool :=
  blank (l_open l) && blank (l_sep l) && blank (l_colon l) && blank (l_close l).

Lemma skip_blank (s t : string) : blank s = true -> skip_space (s +:+ t) = skip_space t.
Proof.
  induction s as [|c s IH]; [done|]. rewrite str_app_cons. cbn [blank skip_space].
  destruct (is_space c); [|done]. done.
Qed.

Lemma follows_blank (s t : string) : blank s = true -> follows t -> follows (s +:+ t).
Proof.
  destruct s as [|c s]; [done|]. cbn [blank]. intros [Hc _]%andb_true_iff _.
  rewrite str_app_cons. do 2 eexists. eauto.
Qed.

Lemma value_text_blank (s txt : string) (v : json) (fuel : nat) (depth : Z) (rest : string) :
  blank s = true -> value_text txt v -> follows rest ->
  parse_value (S fuel) depth (s +:+ (txt +:+ rest)) = Some (v, rest).
Proof.
  intros Hs Hv Hf. rewrite <- (Hv fuel depth rest Hf). cbn [parse_value]. by rewrite skip_blank.
Qed.

(** The members [ms] are what the fields [fs] are read as. *)
Definition members_of : list (string * string) -> list (string * json) -> Prop :=
  Forall2 (fun f m => m.1 = escape f.1 /\ value_text f.2 m.2).

Lemma parse_members_text (l : layout) (fs : list (string * string)) (ms : list (string * json))
    (pre rest : string) (k : nat) (depth : Z) :
  layout_ok l = true -> members_of fs ms -> fs <> [] -> blank pre = true ->
  parse_members (S (length fs) + k) depth
    (pre +:+ (members_text l fs +:+ (l_close l +:+ String "}" rest))) = Some (ms, rest).
Proof.
  unfold layout_ok. rewrite !andb_true_iff. intros [[[_ Hsep] Hcolon] Hclose] Hms.
  revert pre. induction Hms as [|[name txt] [key v] fs ms [Hkey Hv] Hms IH]; [done|].
  intros pre _ Hpre. simpl in Hkey, Hv. subst key.
  assert (Hhead : forall tail, follows tail ->
    parse_members (S (length ((name, txt) :: fs)) + k) depth
      (pre +:+ (member_text l (name, txt) +:+ tail)) =
    match skip_space tail with
    | String c s =>
        if Ascii.eqb c "," then
          '(ms, s) ← parse_members (S (length fs) + k) depth s; Some ((escape name, v) :: ms, s)
        else if Ascii.eqb c "}" then Some ([(escape name, v)], s) else None
    | EmptyString => None
    end).
  { intros tail Htail. cbn [length Nat.add parse_members].
    rewrite skip_blank by done. unfold member_text, string_text. cbn [fst snd].
    rewrite !str_app_cons, !str_app_assoc, !str_app_cons, !str_app_nil_l, !str_app_assoc.
    change (skip_space (String quote ?s)) with (String quote s). cbn [expect].
    change (Ascii.eqb quote quote) with true. cbn [mbind option_bind].
    rewrite scan_escape. cbn [mbind option_bind].
    change (skip_space (String ":" ?s)) with (String ":" s). cbn [expect].
    change (Ascii.eqb ":" ":") with true. cbn [mbind option_bind].
    by rewrite (value_text_blank _ _ v). }
  destruct fs as [|f fs].
  - inversion Hms; subst. cbn [members_text]. rewrite Hhead.
    + rewrite skip_blank by done. done.
    + apply follows_blank; [done|]. do 2 eexists. eauto.
  - change (members_text l ((name, txt) :: f :: fs)) with
      (member_text l (name, txt) +:+ String "," (l_sep l +:+ members_text l (f :: fs))).
    rewrite str_app_assoc, Hhead.
    + rewrite !str_app_cons, !str_app_assoc.
      change (skip_space (String "," ?s)) with (String "," s). cbn iota beta.
      change (Ascii.eqb "," ",") with true. cbn iota. by rewrite IH.
    + rewrite str_app_cons. do 2 eexists. eauto.
Qed.

Lemma members_text_head (l : layout) (f : string * string) (fs : list (string * string)) :
  exists s, members_text l (f :: fs) = String quote s.
Proof. destruct fs; eexists; cbn [members_text]; unfold member_text, string_text;
  by rewrite !str_app_cons. Qed.

Lemma members_text_length (l : layout) (fs : list (string * string)) :
  (length fs <= String.length (members_text l fs))%nat.
Proof.
  induction fs as [|f [|f' fs] IH]; [done| |].
  - destruct (members_text_head l f []) as [s ->]. cbn. lia.
  - change (members_text l (f :: f' :: fs)) with
      (member_text l f +:+ String "," (l_sep l +:+ members_text l (f' :: fs))).
    rewrite str_length_app. cbn [String.length]. rewrite str_length_app.
    cbn [length] in *. lia.
Qed.

(** Reading an object gives its members back; white space may follow it. *)
Lemma parse_object_text (l : layout) (fs : list (string * string)) (ms : list (string * json))
    (tail : string) :
  layout_ok l = true -> members_of fs ms -> fs <> [] -> skip_space tail = "" ->
  parse (object_text l fs +:+ tail) = Some (JObj ms).
Proof.
  intros Hl Hms Hne Htail. unfold parse, object_text. rewrite str_app_cons, !str_app_assoc, str_app_cons, str_app_nil_l.
  set (body := l_open l +:+ (members_text l fs +:+ (l_close l +:+ String "}" tail))).
  assert (Hlen : exists k, String.length (String "{" body) = (S (length fs) + k)%nat).
  { exists (String.length body - length fs)%nat. cbn [String.length]. unfold body.
    rewrite !str_length_app. pose proof (members_text_length l fs). lia. }
  destruct Hlen as [k ->]. cbn [parse_value].
  change (skip_space (String "{" body)) with (String "{" body). cbn iota beta.
  change (Ascii.eqb "{" "{") with true. cbn iota.
  change (maxNestingDepth <=? 0)%Z with false. cbn iota.
  pose proof Hl as Hblank. unfold layout_ok in Hblank. rewrite !andb_true_iff in Hblank.
  destruct Hblank as [[[Hopen _] _] _].
  assert (Hskip : exists s, skip_space body = String quote s).
  { unfold body. rewrite skip_blank by done. destruct fs as [|f fs]; [done|].
    destruct (members_text_head l f fs) as [s ->]. rewrite str_app_cons. by eexists. }
  destruct Hskip as [s ->]. cbn iota beta. change (Ascii.eqb quote "}") with false. cbn iota.
  unfold body. rewrite (parse_members_text l fs ms) by done. cbn [mbind option_bind]. by rewrite Htail.
Qed.

Lemma Unmarshal_object_tail {A} (set : string -> json -> A -> result A) (l : layout)
    (fs : list (string * string)) (ms : list (string * json)) (tail : string) (x : A) :
  layout_ok l = true -> members_of fs ms -> fs <> [] -> skip_space tail = "" ->
  Unmarshal set (object_text l fs +:+ tail) x = foldl (fun r '(key, v) => r ≫= set key v) (Ok x) ms.
Proof. intros. unfold Unmarshal. by rewrite (parse_object_text l fs ms). Qed.

Lemma Unmarshal_object_text {A} (set : string -> json -> A -> result A) (l : layout)
    (fs : list (string * string)) (ms : list (string * json)) (x : A) :
  layout_ok l = true -> members_of fs ms -> fs <> [] ->
  Unmarshal set (object_text l fs) x = foldl (fun r '(key, v) => r ≫= set key v) (Ok x) ms.
Proof.
  intros. rewrite <- (str_app_nil_r (object_text l fs)). by apply Unmarshal_object_tail.
Qed.

(** * Text that is written as it is *)

Definition plain_char (c : ascii) : bool :=
  is_ascii c && negb (Ascii.eqb c quote || Ascii.eqb c backslash || byte_in 0 31 c).

Fixpoint plain (s : string) : bool :=
  match s with EmptyString => true | String c s => plain_char c && plain s end.

Lemma plain_valid (s : string) : plain s = true -> valid_utf8 s = true.
Proof.
  unfold valid_utf8. induction s as [|c s IH]; [done|]. cbn [plain].
  intros [[Hc _]%andb_true_iff Hs]%andb_true_iff. cbn [String.length valid_utf8_fuel].
  rewrite Hc. auto.
Qed.

Lemma scan_plain (s rest : string) :
  plain s = true -> scan_string (s +:+ String quote rest) = Some (s, rest).
Proof.
  induction s as [|c s IH]; [done|]. cbn [plain].
  intros [[_ Hc]%andb_true_iff Hs]%andb_true_iff. rewrite !negb_orb, !andb_true_iff in Hc.
  destruct Hc as [[Hq%negb_true_iff Hb%negb_true_iff] Hl%negb_true_iff].
  rewrite str_app_cons. cbn [scan_string]. by rewrite Hq, Hb, Hl, IH.
Qed.

Lemma digit_plain (z : Z) : plain_char (digit (z mod 10)) = true.
Proof.
  assert (Hm : (0 <= z mod 10 <= 9)%Z) by dlia.
  assert (Hcase : (z mod 10 = 0 \/ z mod 10 = 1 \/ z mod 10 = 2 \/ z mod 10 = 3 \/ z mod 10 = 4 \/
    z mod 10 = 5 \/ z mod 10 = 6 \/ z mod 10 = 7 \/ z mod 10 = 8 \/ z mod 10 = 9)%Z) by lia.
  by repeat destruct Hcase as [->|Hcase]; [..|rewrite Hcase].
Qed.

Lemma fixed_digits_plain (w : nat) (z : Z) (rest : string) :
  plain (fixed_digits w z rest) = plain rest.
Proof.
  revert z rest. induction w as [|w IH]; intros z rest; [done|]. cbn [fixed_digits].
  rewrite IH. cbn [plain]. by rewrite digit_plain.
Qed.

Lemma all_digits_plain (fuel : nat) (z : Z) (rest : string) :
  plain (all_digits fuel z rest) = plain rest.
Proof.
  revert z rest. induction fuel as [|fuel IH]; intros z rest; [done|]. cbn [all_digits].
  destruct (z / 10 =? 0)%Z; [|rewrite IH]; cbn [plain]; by rewrite digit_plain.
Qed.

Lemma append_int_plain (w : nat) (z : Z) (rest : string) :
  plain (append_int w z rest) = plain rest.
Proof.
  unfold append_int. destruct (z <? 0)%Z, (Z.abs z <? _)%Z; cbn [plain];
    by rewrite ?fixed_digits_plain, ?all_digits_plain.
Qed.

Lemma append_fraction_plain (w : nat) (nsec : Z) (rest : string) :
  plain (append_fraction w nsec rest) = plain rest.
Proof.
  revert nsec. induction w as [|w IH]; intros nsec; [done|]. cbn [append_fraction].
  destruct (nsec mod 10 =? 0)%Z; [apply IH|]. cbn [plain]. by rewrite fixed_digits_plain.
Qed.

Lemma append_instant_plain (fraction : bool) (offset : Z) (t : Time) :
  plain (append_instant fraction offset t) = true.
Proof.
  assert (Hzone : plain (append_zone offset "") = true).
  { unfold append_zone. destruct (offset =? 0)%Z; [done|]. cbn [plain].
    rewrite append_int_plain. cbn [plain]. rewrite append_int_plain.
    by destruct (Z.quot offset 60 <? 0)%Z. }
  unfold append_instant, append_date. destruct (year_of_days _) as [y yday].
  destruct (month_of_days _ _ _) as [m d]. unfold append_clock.
  repeat (rewrite append_int_plain; cbn [plain]).
  destruct fraction; unfold id; by rewrite ?append_fraction_plain, Hzone.
Qed.

(** Such a text between quotes, as [time.Time] writes itself. *)
Definition quoted (s : string) : string := String quote (s +:+ String quote "").

Lemma value_text_quoted (s : string) : plain s = true -> value_text (quoted s) (JStr s).
Proof.
  intros Hs fuel depth rest _. unfold quoted. rewrite str_app_cons, str_app_assoc, str_app_cons.
  cbn [parse_value]. change (skip_space (String quote ?s)) with (String quote s).
  cbn -[scan_string]. by rewrite scan_plain.
Qed.
