(* ===== verification/Interfaces.v ===== *)
(** The package pkg/interfaces: the data exchanged by the components and the
    four interfaces they are written against.

    A Go interface becomes a class whose methods act on the world [W] of the
    implementation; a client is defined, and its theorems are proved, for every
    instance. *)
From S2P Require Import Prelude GoErrors GoTime.

(** * Data *)

(** A context: [Background] is never done, a cancellable one is told apart by
    an identifier; whether it is done is the environment's business. *)
Inductive Context : Type :=
  | Background
  | Cancellable (id : nat).

(** pglogrepl/interfaces LSN, a uint64. *)
Definition LSN : Type := Z.

(** The values of a [map[string]any] row.  The subscriber only ever stores
    [nil] and strings; the publisher hands any other value through. *)
Inductive any : Type :=
  | Nil
  | Str (s : string)
  | Int (z : Z)
  | Bool (b : bool).

Abbreviation Row := (gmap string any).

Definition Operation : Type := string.
Definition OperationInsert : Operation := "INSERT".
Definition OperationUpdate : Operation := "UPDATE".
Definition OperationDelete : Operation := "DELETE".

(** A nil row and an empty one are the same map: the program only takes
    lengths, ranges over the keys and reads. *)
Record ChangeEvent : Type := mkChangeEvent {
  ev_LSN : LSN;
  ev_Timestamp : Time;
  ev_Table : string;
  ev_Operation : Operation;
  ev_OldRow : Row;
  ev_NewRow : Row;
}.

Definition DatabaseState : Type := string.
Definition DatabaseStateReadOnly : DatabaseState := "read_only".
Definition DatabaseStateReadWrite : DatabaseState := "read_write".

Record DBConfig : Type := mkDBConfig {
  db_Host : string;
  db_Port : Z;
  db_Database : string;
  db_User : string;
  db_Password : string;
  db_SSLMode : string;
  db_SSLRootCertPath : string;
  db_ReplicationSlot : string;
}.

#[export] Instance any_eq_dec : EqDecision any.
Proof. solve_decision. Defined.
#[export] Instance Context_eq_dec : EqDecision Context.
Proof. solve_decision. Defined.
#[export] Instance ChangeEvent_eq_dec : EqDecision ChangeEvent.
Proof. intros [] []. unfold LSN, Time, Operation in *. solve_decision. Defined.
#[export] Instance DBConfig_eq_dec : EqDecision DBConfig.
Proof. solve_decision. Defined.
#[export] Instance ChangeEvent_inhabited : Inhabited ChangeEvent :=
  populate (mkChangeEvent 0%Z 0%Z "" "" ∅ ∅).

(** * The environment every component shares: the clock and the select of a
    timer against a context.  [rt_wait ctx d] is
    [select { case <-ctx.Done(): ctx.Err(); case <-time.After(d): nil }]. *)
Class Runtime (W : Type) : Type := {
  rt_now : W -> Time * W;
  rt_wait : Context -> Duration -> W -> option error * W;
}.

(** * The four interfaces *)

Class ReplicationSubscriber (W : Type) : Type := {
  sub_Connect : Context -> DBConfig -> Go W (option error);
  (** The channel is abstract: its events are the inputs of the engine's loop. *)
  sub_Subscribe : Context -> string -> list string -> Go W (option error);
  sub_Acknowledge : Context -> LSN -> Go W (option error);
  sub_Close : Go W (option error);
}.

Class ReplicationPublisher (W : Type) : Type := {
  pub_Publish : Context -> list ChangeEvent -> Go W (option error);
  pub_HealthCheck : Context -> Go W (option error);
}.

Class DistributedLock (W : Type) : Type := {
  lock_Acquire : Context -> string -> Duration -> Go W (bool * option error);
  lock_Renew : Context -> string -> Duration -> Go W (option error);
  lock_Release : Context -> string -> Go W (option error);
  lock_GetHolder : Context -> string -> Go W (string * option error);
}.

Class StateCoordinator (W : Type) : Type := {
  coord_SetReadOnly : Context -> DBConfig -> Go W (option error);
  coord_SetReadWrite : Context -> DBConfig -> Go W (option error);
  coord_GetState : Context -> DBConfig -> Go W (DatabaseState * option error);
}.

(** * What a publisher promises to the engine

    [effects w] is what has reached the cloud in world [w], and [effect ev] the
    effect of one event. *)
Class Delivery (W E : Type) : Type := {
  effects : W -> list E;
  effect : ChangeEvent -> E;
}.

(** A publisher always returns; on success all the events have taken effect, in
    order, and on failure a prefix of them may have. *)
Class DeliveringPublisher (W E : Type) `{ReplicationPublisher W, Delivery W E} : Prop := {
  publish_delivers (ctx : Context) (evs : list ChangeEvent) (w : W) :
    wp (pub_Publish ctx evs) (fun r w' =>
      exists n, effects w' = effects w ++ (effect <$> take n evs) /\
                (r = None -> n = length evs)) w;
}.

(** An atomic publisher: on failure nothing has taken effect. *)
Class AtomicPublisher (W E : Type) `{ReplicationPublisher W, Delivery W E} : Prop := {
  publish_atomic (ctx : Context) (evs : list ChangeEvent) (w : W) :
    wp (pub_Publish ctx evs) (fun r w' =>
      effects w' = effects w ++ match r with None => effect <$> evs | Some _ => [] end) w;
}.

#[export] Instance AtomicPublisher_delivers (W E : Type) `{AtomicPublisher W E} :
  DeliveringPublisher W E.
Proof.
  split. intros ctx evs w. eapply wp_mono; [apply publish_atomic|].
  intros [e|] w' Heff; simpl in Heff.
  - exists 0. by rewrite take_0.
  - exists (length evs). by rewrite firstn_all.
Qed.

(** * What a coordinator promises to the failover manager

    [mode db w] is whether database [db] takes writes by default in world [w].
    A switch that reports success has been made, one that reports a failure may
    have been; the state reported without error is the state. *)
Class DatabaseModes (W : Type) : Type := {
  mode : DBConfig -> W -> DatabaseState;
}.

Class FaithfulCoordinator (W : Type) `{StateCoordinator W, DatabaseModes W} : Prop := {
  set_read_only_mode (ctx : Context) (db : DBConfig) (w : W) :
    wp (coord_SetReadOnly ctx db) (fun r w' =>
      mode db w' = DatabaseStateReadOnly \/ (r <> None /\ mode db w' = mode db w)) w;
  set_read_write_mode (ctx : Context) (db : DBConfig) (w : W) :
    wp (coord_SetReadWrite ctx db) (fun r w' =>
      mode db w' = DatabaseStateReadWrite \/ (r <> None /\ mode db w' = mode db w)) w;
  get_state_mode (ctx : Context) (db : DBConfig) (w : W) :
    wp (coord_GetState ctx db) (fun '(s, err) w' =>
      mode db w' = mode db w /\ (err = None -> s = mode db w)) w;
}.
