(* ===== verification/CircuitBreaker.v ===== *)
(** internal/retry/circuitbreaker.go: the breaker that guards the cloud
    database, and the specification it refines.

    Each operation runs under the breaker's mutex, so it is one step.  The
    argument [now] is what the injected clock returns when the operation reads
    it. *)
From S2P Require Import Prelude GoErrors GoTime.
Local Open Scope Z_scope.

Inductive CircuitState : Type := CircuitClosed | CircuitOpen | CircuitHalfOpen.

#[export] Instance CircuitState_eq_dec : EqDecision CircuitState.
Proof. solve_decision. Defined.

(** The default branch ("unknown") is unreachable: no other value is built. *)
Definition CircuitState_String (s : CircuitState) : string :=
  match s with
  | CircuitClosed => "closed"
  | CircuitOpen => "open"
  | CircuitHalfOpen => "half-open"
  end.

(** The package declares this error; the engine makes its own. *)
Definition ErrCircuitOpen : error := ErrorsNew "circuit breaker is open".

Record CircuitBreaker : Type := mkCircuitBreaker {
  cb_state : CircuitState;
  cb_consecutiveFailures : Z;
  cb_failureThreshold : Z;
  cb_retryInterval : Duration;
  cb_lastFailureTime : Time;
}.

Record CircuitBreakerConfig : Type := mkCircuitBreakerConfig {
  FailureThreshold : Z;
  RetryInterval : Duration;
}.

Definition NewCircuitBreaker (cfg : CircuitBreakerConfig) : CircuitBreaker :=
  {| cb_state := CircuitClosed;
     cb_consecutiveFailures := 0;
     cb_failureThreshold :=
       if FailureThreshold cfg <=? 0 then 5 else FailureThreshold cfg;
     cb_retryInterval :=
       if RetryInterval cfg <=? 0 then 5 * Minute else RetryInterval cfg;
     cb_lastFailureTime := zero_time |}.

Definition set_cb_state (s : CircuitState) (cb : CircuitBreaker) : CircuitBreaker :=
  {| cb_state := s;
     cb_consecutiveFailures := cb_consecutiveFailures cb;
     cb_failureThreshold := cb_failureThreshold cb;
     cb_retryInterval := cb_retryInterval cb;
     cb_lastFailureTime := cb_lastFailureTime cb |}.

Definition Allow (now : Time) (cb : CircuitBreaker) : bool * CircuitBreaker :=
  match cb_state cb with
  | CircuitClosed => (true, cb)
  | CircuitOpen =>
      if cb_retryInterval cb <=? Sub now (cb_lastFailureTime cb)
      then (true, set_cb_state CircuitHalfOpen cb)
      else (false, cb)
  | CircuitHalfOpen => (false, cb)
  end.

Definition RecordSuccess (cb : CircuitBreaker) : CircuitBreaker :=
  {| cb_state := CircuitClosed;
     cb_consecutiveFailures := 0;
     cb_failureThreshold := cb_failureThreshold cb;
     cb_retryInterval := cb_retryInterval cb;
     cb_lastFailureTime := cb_lastFailureTime cb |}.

Definition RecordFailure (now : Time) (cb : CircuitBreaker) : CircuitBreaker :=
  let failures := wrap64 (cb_consecutiveFailures cb + 1) in
  {| cb_state :=
       if cb_failureThreshold cb <=? failures then CircuitOpen else cb_state cb;
     cb_consecutiveFailures := failures;
     cb_failureThreshold := cb_failureThreshold cb;
     cb_retryInterval := cb_retryInterval cb;
     cb_lastFailureTime := now |}.

Definition State (cb : CircuitBreaker) : CircuitState := cb_state cb.
Definition ConsecutiveFailures (cb : CircuitBreaker) : Z := cb_consecutiveFailures cb.

(** * Sequences of operations *)

Inductive op : Type :=
  | OpAllow (now : Time)
  | OpSuccess
  | OpFailure (now : Time).

Definition apply_op (o : op) (cb : CircuitBreaker) : option bool * CircuitBreaker :=
  match o with
  | OpAllow now => let '(b, cb) := Allow now cb in (Some b, cb)
  | OpSuccess => (None, RecordSuccess cb)
  | OpFailure now => (None, RecordFailure now cb)
  end.

(** The answers a client gets from a sequence of operations, in order. *)
Fixpoint answers (ops : list op) (cb : CircuitBreaker) : list (option bool) :=
  match ops with
  | [] => []
  | o :: ops => let '(a, cb) := apply_op o cb in a :: answers ops cb
  end.

Fixpoint apply_ops (ops : list op) (cb : CircuitBreaker) : CircuitBreaker :=
  match ops with
  | [] => cb
  | o :: ops => apply_ops ops (apply_op o cb).2
  end.

(** * The specification

    What the breaker promises, in terms of the failures recorded since the last
    success: requests pass while there are fewer than [threshold] of them; from
    then on they are blocked, except for one probe once [interval] has elapsed
    since the latest failure, whose outcome must be recorded before another. *)
Record spec_state : Type := mkSpec {
  failures_since_success : list Time;
  probing : bool;
}.

Section spec.
Context (threshold : Z) (interval : Duration).

Definition spec_open (s : spec_state) : bool :=
  threshold <=? Z.of_nat (length (failures_since_success s)).

Definition spec_op (o : op) (s : spec_state) : option bool * spec_state :=
  match o with
  | OpSuccess => (None, mkSpec [] false)
  | OpFailure now => (None, mkSpec (now :: failures_since_success s) false)
  | OpAllow now =>
      if negb (spec_open s) then (Some true, s)
      else if probing s then (Some false, s)
      else if interval <=? now - default zero_time (head (failures_since_success s))
      then (Some true, mkSpec (failures_since_success s) true)
      else (Some false, s)
  end.

Fixpoint spec_answers (ops : list op) (s : spec_state) : list (option bool) :=
  match ops with
  | [] => []
  | o :: ops => let '(a, s) := spec_op o s in a :: spec_answers ops s
  end.

(** The simulation between a breaker and its abstract state. *)
Record simulates (cb : CircuitBreaker) (s : spec_state) : Prop := {
  sim_threshold : cb_failureThreshold cb = threshold;
  sim_interval : cb_retryInterval cb = interval;
  sim_failures : cb_consecutiveFailures cb = Z.of_nat (length (failures_since_success s));
  sim_last : failures_since_success s <> [] ->
    cb_lastFailureTime cb = default zero_time (head (failures_since_success s));
  sim_state : cb_state cb =
    if spec_open s then (if probing s then CircuitHalfOpen else CircuitOpen)
    else CircuitClosed;
}.
End spec.

Section refinement.
Context (threshold : Z) (interval : Duration).
Context (Hthreshold : 0 < threshold) (Hinterval : 0 < interval <= int_max).

Lemma simulates_init (cfg : CircuitBreakerConfig) :
  simulates (cb_failureThreshold (NewCircuitBreaker cfg))
    (cb_retryInterval (NewCircuitBreaker cfg)) (NewCircuitBreaker cfg) (mkSpec [] false).
Proof.
  split; simpl; try done. unfold spec_open; simpl.
  destruct (FailureThreshold cfg <=? 0) eqn:E; [done|].
  by rewrite (proj2 (Z.leb_gt _ _)) by lia.
Qed.

(** A step of the breaker is a step of the specification, with the same
    answer, as long as the failure counter has room. *)
Lemma simulates_step (cb : CircuitBreaker) (s : spec_state) (o : op) :
  simulates threshold interval cb s ->
  Z.of_nat (length (failures_since_success s)) < int_max ->
  (apply_op o cb).1 = (spec_op threshold interval o s).1 /\
  simulates threshold interval (apply_op o cb).2 (spec_op threshold interval o s).2.
Proof.
  intros Hsim Hroom. pose proof Hsim as [Ht Hi Hf Hl Hs]. destruct o as [now| |now]; simpl.
  - unfold Allow. rewrite Hs. unfold spec_open in *.
    destruct (threshold <=? Z.of_nat (length (failures_since_success s))) eqn:Eo; simpl.
    + destruct (probing s) eqn:Ep; [done|].
      rewrite Hi, Sub_ge, Hl by (lia || by intros E; rewrite E in Eo; simpl in Eo; lia).
      destruct (interval <=? _); [|done].
      split; [done|]. split; simpl; try done. unfold spec_open; simpl. by rewrite Eo.
    + done.
  - split; [done|]. split; simpl; try done. unfold spec_open; simpl.
    by rewrite (proj2 (Z.leb_gt _ _)) by lia.
  - split; [done|].
    assert (wrap64 (cb_consecutiveFailures cb + 1) =
            Z.of_nat (S (length (failures_since_success s)))) as Hw.
    { rewrite Hf, wrap64_id; int64; lia. }
    split; simpl; try done. unfold spec_open in *; simpl. rewrite Hw, Ht, Hs.
    destruct (threshold <=? Z.of_nat (S _)) eqn:E1; [done|].
    by rewrite (proj2 (Z.leb_gt _ _)) by lia.
Qed.

Lemma spec_op_length (o : op) (s : spec_state) :
  (length (failures_since_success (spec_op threshold interval o s).2)
    <= S (length (failures_since_success s)))%nat.
Proof. destruct o; simpl; repeat case_match; simpl; lia. Qed.

Lemma simulates_answers (ops : list op) (cb : CircuitBreaker) (s : spec_state) :
  simulates threshold interval cb s ->
  Z.of_nat (length (failures_since_success s) + length ops) <= int_max ->
  answers ops cb = spec_answers threshold interval ops s.
Proof.
  revert cb s. induction ops as [|o ops IH]; intros cb s Hsim Hroom; [done|]. simpl in *.
  destruct (simulates_step cb s o Hsim ltac:(lia)) as [Ha Hsim'].
  pose proof (spec_op_length o s).
  destruct (apply_op o cb) as [a cb'], (spec_op threshold interval o s) as [a' s'].
  simpl in *. subst a'. f_equal. apply IH; [done|lia].
Qed.
End refinement.

(** * An open circuit *)

Definition allowed (a : option bool) : nat := if decide (a = Some true) then 1 else 0.

Lemma half_open_blocks (ts : list Time) (cb : CircuitBreaker) :
  cb_state cb = CircuitHalfOpen ->
  sum_list (allowed <$> answers (OpAllow <$> ts) cb) = 0%nat.
Proof.
  revert cb. induction ts as [|t ts IH]; intros cb Hs; [done|].
  simpl. unfold Allow. rewrite Hs. simpl. by apply IH.
Qed.

Lemma open_allows_once (ts : list Time) (cb : CircuitBreaker) :
  cb_state cb = CircuitOpen ->
  (sum_list (allowed <$> answers (OpAllow <$> ts) cb) <= 1)%nat.
Proof.
  revert cb. induction ts as [|t ts IH]; intros cb Hs; [simpl; lia|].
  simpl. unfold Allow. rewrite Hs.
  destruct (cb_retryInterval cb <=? _); simpl.
  - by rewrite half_open_blocks.
  - by apply IH.
Qed.
