(* ===== verification/Backoff.v ===== *)
(** internal/retry/backoff.go: exponential backoff and the retry loop.

    [float64] is the binary64 arithmetic of the Standard Library's
    [SpecFloat] (53 bits of precision, exponents below 1024), and [math.Pow] is
    the algorithm of Go's math package for the exponents [Delay] gives it, the
    positive integers. *)
From S2P Require Import Prelude GoErrors GoTime Interfaces.
From Stdlib Require Import SpecFloat.
Local Open Scope Z_scope.

(** * float64 *)

Definition float64 : Type := spec_float.

Definition f64_mul : float64 -> float64 -> float64 := SFmul 53 1024.
Definition f64_add : float64 -> float64 -> float64 := SFadd 53 1024.
Definition f64_ldexp : float64 -> Z -> float64 := SFldexp 53 1024.
Definition f64_frexp : float64 -> float64 * Z := SFfrexp 53 1024.
Definition f64_of_Z (z : Z) : float64 := binary_normalize 53 1024 z 0 false.

Definition f64_half : float64 := f64_ldexp (f64_of_Z 1) (-1).

(** Conversion to [int64] truncates; out of range it is the value amd64 gives. *)
Definition f64_to_int64 (f : float64) : Z :=
  let z := match f with
           | S754_zero _ => Some 0
           | S754_finite s m e =>
               let a := if 0 <=? e then Zpos m * 2 ^ e else Zpos m / 2 ^ (- e) in
               Some (if s then - a else a)
           | S754_infinity _ | S754_nan => None
           end in
  match z with
  | Some z => if (int_min <=? z) && (z <=? int_max) then z else int_min
  | None => int_min
  end.

(** The integer [float64(n)] stands for, for [n >= 0]: [n] rounded to 53
    significant bits, ties to even. *)
Definition round53 (n : Z) : Z :=
  if n <? 2 ^ 53 then n else
  let s := Z.log2 n - 52 in
  let q := n / 2 ^ s in
  let r := n mod 2 ^ s in
  let half := 2 ^ (s - 1) in
  (if (half <? r) || ((r =? half) && Z.odd q) then q + 1 else q) * 2 ^ s.

(** The loop of [math.Pow]: squares [x1 * 2^xe] along the bits of [i], least
    significant first, multiplying it into [a1 * 2^ae] at the set bits, and
    stops early when the exponent leaves the range of floats. *)
Fixpoint pow_loop (i : positive) (x1 : float64) (xe : Z) (a1 : float64) (ae : Z) : float64 * Z :=
  if (xe <? -4096) || (4096 <? xe) then (a1, ae + xe) else
  let '(a1, ae) :=
    match i with xO _ => (a1, ae) | _ => (f64_mul a1 x1, ae + xe) end in
  let x2 := f64_mul x1 x1 in
  let xe2 := 2 * xe in
  let '(x1, xe) := if SFltb x2 f64_half then (f64_add x2 x2, xe2 - 1) else (x2, xe2) in
  match i with
  | xH => (a1, ae)
  | xO i | xI i => pow_loop i x1 xe a1 ae
  end.

(** [math.Pow(x, y)] for an integer [y >= 1]. *)
Definition Pow (x : float64) (y : Z) : float64 :=
  if SFeqb x (f64_of_Z 1) then f64_of_Z 1
  else if y =? 1 then x
  else match x with
  | S754_nan => S754_nan
  | S754_zero s => if s && Z.odd y then x else S754_zero false
  | S754_infinity s => S754_infinity (s && Z.odd y)
  | S754_finite _ _ _ =>
      if 2 ^ 63 <=? y then
        if SFeqb x (f64_of_Z (-1)) then f64_of_Z 1
        else if SFltb (SFabs x) (f64_of_Z 1) then S754_zero false
        else S754_infinity false
      else
        let '(x1, xe) := f64_frexp x in
        let '(a1, ae) := pow_loop (Z.to_pos y) x1 xe (f64_of_Z 1) 0 in
        f64_ldexp a1 ae
  end.

(** * Backoff *)

Definition DefaultInitialDelay : Duration := 1 * Second.
Definition DefaultMaxDelay : Duration := 60 * Second.
Definition DefaultMultiplier : float64 := f64_of_Z 2.

Record BackoffConfig : Type := mkBackoffConfig {
  InitialDelay : Duration;
  MaxDelay : Duration;
  Multiplier : float64;
}.

Definition DefaultBackoff : BackoffConfig :=
  {| InitialDelay := DefaultInitialDelay;
     MaxDelay := DefaultMaxDelay;
     Multiplier := DefaultMultiplier |}.

Definition Delay (b : BackoffConfig) (attempt : Z) : Duration :=
  if attempt <=? 0 then InitialDelay b else
  let delay := f64_mul (f64_of_Z (InitialDelay b)) (Pow (Multiplier b) (round53 attempt)) in
  if SFltb (f64_of_Z (MaxDelay b)) delay then MaxDelay b
  else f64_to_int64 delay.

(** * The retry loop *)

Definition RetryFunc (W : Type) : Type := Context -> Go W (option error).
Definition LogFunc (W : Type) : Type := Z -> error -> Duration -> Go W unit.

Section Do.
Context {W : Type} `{Runtime W}.
Context (ctx : Context) (cfg : BackoffConfig) (maxAttempts : Z).
(** A nil [logFn] is [None]. *)
Context (logFn : option (LogFunc W)).
Context (fn : RetryFunc W).

Definition log_attempt (attempt : Z) (err : error) (delay : Duration) : Go W unit :=
  match logFn with Some f => f attempt err delay | None => mret tt end.

Definition attempts_exhausted (attempt : Z) : bool :=
  (0 <? maxAttempts) && (maxAttempts <=? wrap64 (attempt + 1)).

(** The loop of [Do] from a given attempt; [fuel] bounds the number of calls
    of [fn]. *)
Fixpoint Do_loop (fuel : nat) (attempt : Z) : Go W (option error) :=
  match fuel with
  | O => out_of_fuel
  | S fuel =>
      result ← fn ctx;
      match result with
      | None => mret None
      | Some err =>
          if attempts_exhausted attempt
          then mret (Some (Wrapf "failed after %d attempts: %w" [AInt (wrap64 (attempt + 1))] err))
          else
            let delay := Delay cfg attempt in
            _ ← log_attempt attempt err delay;
            done ← call (rt_wait ctx delay);
            match done with
            | Some ctx_err => mret (Some ctx_err)
            | None => Do_loop fuel (wrap64 (attempt + 1))
            end
      end
  end.

Definition Do (fuel : nat) : Go W (option error) := Do_loop fuel 0.
End Do.

(** * Powers of two in float64 *)

(** The float of value [2^k], for [-1022 <= k <= 1023]. *)
Definition pow2f (k : Z) : float64 := S754_finite false 4503599627370496 (k - 52).

(** Rounding leaves a 53-bit significand with an exponent in range alone, and
    overflows above it. *)
Lemma binary_round_aux_53 (m : positive) (e : Z) :
  digits2_pos m = 53%positive -> -1074 <= e ->
  binary_round_aux 53 1024 false (Zpos m) e loc_Exact =
  if e <=? 971 then S754_finite false m e else S754_infinity false.
Proof.
  intros Hm He. unfold binary_round_aux, shr_fexp, Zdigits2, fexp, emin. rewrite Hm.
  replace (Z.max (53 + e - 53) (3 - 1024 - 53) - e) with 0 by lia. simpl.
  unfold shr_fexp, Zdigits2, fexp, emin. rewrite Hm.
  replace (Z.max (53 + e - 53) (3 - 1024 - 53) - e) with 0 by lia. simpl.
  done.
Qed.

Lemma f64_ldexp_pow2f (k e : Z) :
  -1022 <= k + e ->
  f64_ldexp (pow2f k) e = if k + e <=? 1023 then pow2f (k + e) else S754_infinity false.
Proof.
  intros He. unfold f64_ldexp, SFldexp, pow2f, binary_round, fexp, emin.
  change (digits2_pos 4503599627370496) with 53%positive.
  replace (Z.max (53 + (k - 52 + e) - 53) (3 - 1024 - 53)) with (k - 52 + e) by lia.
  unfold shl_align. rewrite Z.sub_diag. rewrite binary_round_aux_53 by (done || lia).
  replace (k - 52 + e) with (k + e - 52) by lia.
  by replace (k + e - 52 <=? 971) with (k + e <=? 1023) by lia.
Qed.

(** Multiplying by a power of two shifts the exponent. *)
Lemma f64_mul_pow2f (m : positive) (e k : Z) :
  digits2_pos m = 53%positive -> -1074 <= e + k ->
  f64_mul (S754_finite false m e) (pow2f k) =
  if e + k <=? 971 then S754_finite false m (e + k) else S754_infinity false.
Proof.
  intros Hm He. unfold f64_mul, SFmul, pow2f. simpl xorb.
  rewrite Pos.mul_comm. unfold binary_round_aux. unfold shr_fexp at 1, Zdigits2, fexp, emin.
  assert (digits2_pos (4503599627370496 * m) = 105%positive) as ->.
  { change (digits2_pos (4503599627370496 * m)) with (Pos.iter Pos.succ (digits2_pos m) 52).
    by rewrite Hm. }
  replace (Z.max (105 + (e + (k - 52)) - 53) (3 - 1024 - 53) - (e + (k - 52))) with 52 by lia.
  change (shr _ (e + (k - 52)) 52) with (Build_shr_record (Zpos m) false false, e + (k - 52) + 52).
  replace (e + (k - 52) + 52) with (e + k) by lia.
  simpl. unfold shr_fexp, Zdigits2, fexp, emin. rewrite Hm.
  replace (Z.max (53 + (e + k) - 53) (3 - 1024 - 53) - (e + k)) with 0 by lia. done.
Qed.

(** The squaring loop on the base 2: after [c] rounds it holds [1/2 * 2^(2^c+1)],
    and what it accumulates is a power of two. *)
Lemma pow_loop_two (p : positive) (c j ae : Z) :
  0 <= j <= c -> c <= 12 -> j <= ae ->
  exists j' ae', pow_loop p (pow2f (-1)) (2 ^ c + 1) (pow2f (- j)) ae = (pow2f (- j'), ae') /\
    0 <= j' <= 13 /\
    (ae' - j' = ae - j + Zpos p * 2 ^ c \/
     1024 <= ae' - j' /\ 1024 <= ae - j + Zpos p * 2 ^ c).
Proof.
  assert (Hhalf : SFltb (f64_mul (pow2f (-1)) (pow2f (-1))) f64_half = true) by reflexivity.
  assert (Hdbl : f64_add (f64_mul (pow2f (-1)) (pow2f (-1))) (f64_mul (pow2f (-1)) (pow2f (-1)))
                 = pow2f (-1)) by reflexivity.
  revert c j ae. induction p as [p IH|p IH|]; intros c j ae Hj Hc Hae;
    pose proof (Z.pow_le_mono_r 2 0 c ltac:(lia) ltac:(lia)) as Hpow; simpl in Hpow;
    unfold pow_loop; fold pow_loop.
  all: destruct ((2 ^ c + 1 <? -4096) || (4096 <? 2 ^ c + 1)) eqn:Hbreak.
  all: try (exists j, (ae + (2 ^ c + 1)); split; [done|]; split; [lia|right; nia]).
  all: assert (c <= 11) by
    (destruct (Z.le_gt_cases c 11); [done|]; replace c with 12 in Hbreak by lia; done).
  all: rewrite ?Hhalf, ?Hdbl.
  all: replace (2 * (2 ^ c + 1) - 1) with (2 ^ (c + 1) + 1)
    by (rewrite Z.pow_add_r by lia; simpl; lia).
  all: assert (Hmul : f64_mul (pow2f (- j)) (pow2f (-1)) = pow2f (- (j + 1)))
    by (unfold pow2f at 1; rewrite f64_mul_pow2f by (done || lia);
        rewrite (proj2 (Z.leb_le _ _)) by lia; unfold pow2f; f_equal; lia).
  - rewrite Hmul. destruct (IH (c + 1) (j + 1) (ae + (2 ^ c + 1))) as (j' & ae' & -> & Hj' & Hv);
      [lia..|]. exists j', ae'. split; [done|]. rewrite Z.pow_add_r in Hv by lia. simpl in Hv.
    rewrite Pos2Z.inj_xI. split; [done|]. destruct Hv; [left|right]; lia.
  - destruct (IH (c + 1) j ae) as (j' & ae' & -> & Hj' & Hv); [lia..|].
    exists j', ae'. split; [done|]. rewrite Z.pow_add_r in Hv by lia. simpl in Hv.
    rewrite Pos2Z.inj_xO. split; [done|]. destruct Hv; [left|right]; lia.
  - rewrite Hmul. exists (j + 1), (ae + (2 ^ c + 1)). split; [done|]. split; [lia|left; lia].
Qed.

(** [math.Pow(2, n)] is exact, and infinite from [2^1024] on. *)
Lemma Pow_two (n : Z) :
  1 <= n -> Pow DefaultMultiplier n = if n <=? 1023 then pow2f n else S754_infinity false.
Proof.
  intros Hn. unfold Pow. change DefaultMultiplier with (pow2f 1).
  change (SFeqb (pow2f 1) (f64_of_Z 1)) with false. cbv iota.
  destruct (Z.eqb_spec n 1) as [->|Hn1]; [done|].
  unfold pow2f at 1. cbv iota beta.
  destruct (2 ^ 63 <=? n) eqn:Hbig.
  { change (SFeqb _ (f64_of_Z (-1))) with false.
    change (SFltb _ (f64_of_Z 1)) with false. cbv iota.
    by rewrite (proj2 (Z.leb_gt _ _)) by lia. }
  change (f64_of_Z 1) with (pow2f (- 0)).
  change (f64_frexp _) with (pow2f (-1), 2). cbv iota beta.
  destruct (pow_loop_two (Z.to_pos n) 0 0 0) as (j & ae & Hloop & Hj & Hv); [lia..|].
  change (2 ^ 0 + 1) with 2 in Hloop. rewrite Hloop.
  rewrite Z2Pos.id in Hv by lia. rewrite f64_ldexp_pow2f by lia.
  replace (- j + ae) with (ae - j) by lia.
  destruct Hv as [Hv|[Hv1 Hv2]].
  - replace (ae - j) with n by lia. done.
  - rewrite !(proj2 (Z.leb_gt _ _)) by lia. done.
Qed.

Lemma round53_small (n : Z) : n < 2 ^ 53 -> round53 n = n.
Proof. intros Hn. unfold round53. by rewrite (proj2 (Z.ltb_lt _ _)). Qed.

Lemma round53_large (n : Z) : 2 ^ 53 <= n -> 2 ^ 52 <= round53 n.
Proof.
  intros Hn. unfold round53. rewrite (proj2 (Z.ltb_ge _ _)) by lia.
  pose proof (Z.log2_spec n ltac:(lia)) as [Hlog _].
  pose proof (Z.log2_le_mono (2 ^ 53) n Hn) as Hl. rewrite Z.log2_pow2 in Hl by lia.
  set (s := Z.log2 n - 52) in *.
  assert (2 ^ 52 <= n / 2 ^ s) as Hq.
  { apply Z.div_le_lower_bound; [lia|]. rewrite <- Z.pow_add_r by lia.
    by replace (s + 52) with (Z.log2 n) by lia. }
  assert (1 <= 2 ^ s) by (pose proof (Z.pow_pos_nonneg 2 s); lia).
  destruct (_ || _); nia.
Qed.

(** Once the exponent of the product passes that of [MaxDelay], the delay is
    capped; before that it is the exact product. *)
Lemma Delay_capped (b : BackoffConfig) (m mM : positive) (e eM n : Z) :
  Multiplier b = DefaultMultiplier ->
  f64_of_Z (InitialDelay b) = S754_finite false m e -> digits2_pos m = 53%positive ->
  f64_of_Z (MaxDelay b) = S754_finite false mM eM ->
  -1074 <= e -> eM <= 971 -> eM < e + 1023 -> 1 <= n -> eM < e + n ->
  Delay b n = MaxDelay b.
Proof.
  intros Hmult Hinit Hm Hmax He HeM He' Hn Hcap. unfold Delay.
  rewrite (proj2 (Z.leb_gt n 0)) by lia. rewrite Hmult, Hinit, Hmax.
  assert (1 <= round53 n /\ eM < e + round53 n) as [Hr1 Hr2].
  { destruct (Z.lt_ge_cases n (2 ^ 53)) as [Hlt|Hge].
    - by rewrite round53_small.
    - pose proof (round53_large n Hge). lia. }
  rewrite Pow_two by done. destruct (round53 n <=? 1023); [|done].
  rewrite f64_mul_pow2f by (done || lia). destruct (_ <=? 971); [|done].
  unfold SFltb, SFcompare. by rewrite (proj2 (Z.compare_lt_iff _ _)) by done.
Qed.

(** * Lemmas on the retry loop *)

Section Do_lemmas.
Context {W : Type} `{Runtime W}.
Context (ctx : Context) (cfg : BackoffConfig) (maxAttempts : Z).
Context (logFn : option (Z -> error -> Duration -> Go W unit)).
Context (fn : Context -> Go W (option error)).
Definition gave_up (attempt : Z) (err : error) : error :=
  Wrapf "failed after %d attempts: %w" [AInt (attempt + 1)] err.

(** What one failed round must establish: either the attempts are used up, or
    after logging and waiting the loop invariant holds again (or the context
    was done). *)
Definition round_post (Inv : Z -> W -> Prop) (Q : option error -> W -> Prop)
    (k : Z) (r : option error) (w : W) : Prop :=
  match r with
  | None => Q None w
  | Some err =>
      if k + 1 =? maxAttempts then Q (Some (gave_up k err)) w
      else wp (log_attempt logFn k err (Delay cfg k))
             (fun _ w => forall out w', rt_wait ctx (Delay cfg k) w = (out, w') ->
                match out with Some e => Q (Some e) w' | None => Inv (k + 1) w' end) w
  end.

(** The proof rule for a bounded [Do]: with as much fuel as attempts it
    returns, and its result satisfies [Q]. *)
Lemma wp_Do_loop (Hmax : 0 < maxAttempts <= int_max) (Inv : Z -> W -> Prop)
    (Q : option error -> W -> Prop) :
  (forall k w, 0 <= k < maxAttempts -> Inv k w -> wp (fn ctx) (round_post Inv Q k) w) ->
  forall (fuel : nat) (k : Z) (w : W),
    0 <= k < maxAttempts -> maxAttempts <= k + Z.of_nat fuel -> Inv k w ->
    wp (Do_loop ctx cfg maxAttempts logFn fn fuel k) Q w.
Proof.
  intros Hround fuel. induction fuel as [|fuel IH]; intros k w Hk Hfuel Hinv; [lia|].
  simpl. apply wp_bind. eapply wp_mono; [by apply Hround|].
  intros [err|] w' Hpost; simpl in Hpost; [|by apply wp_ret].
  unfold attempts_exhausted. rewrite wrap64_id by (int64; lia).
  destruct (k + 1 =? maxAttempts) eqn:Elast.
  - rewrite (proj2 (Z.ltb_lt _ _)), (proj2 (Z.leb_le _ _)) by lia. by apply wp_ret.
  - rewrite (proj2 (Z.leb_gt _ _)), andb_false_r by lia.
    apply wp_bind. eapply wp_mono; [exact Hpost|]. intros u w2 Hwait. simpl in Hwait.
    apply wp_bind, wp_call. intros out w3 E. apply Hwait in E.
    destruct out; [by apply wp_ret|]. apply IH; [lia|lia|done].
Qed.

(** The world the loop is in when it makes its [k]-th call, all the earlier
    ones having failed. *)
Fixpoint after_failures (k : nat) (w : W) : W :=
  match k with
  | O => w
  | S k => let w1 := after_failures k w in
           (rt_wait ctx (Delay cfg (Z.of_nat k)) (fn ctx w1).2).2
  end.

Definition fails_at (k : nat) (w : W) (err : error) : Prop :=
  (fn ctx (after_failures k w)).1 = Ret (Some err).
Definition timer_fires_at (k : nat) (w : W) : Prop :=
  (rt_wait ctx (Delay cfg (Z.of_nat k)) (fn ctx (after_failures k w)).2).1 = None.

Context (Hlog : forall k err d w,
  log_attempt logFn k err d w = (Ret tt, w)).

(** While the attempts are not exhausted, failures only move the loop on. *)
Lemma Do_loop_skip (n : nat) (w : W) :
  (forall k, (k < n)%nat -> (exists err, fails_at k w err) /\ timer_fires_at k w /\
    attempts_exhausted maxAttempts (Z.of_nat k) = false) ->
  Z.of_nat n <= int_max ->
  forall fuel, Do ctx cfg maxAttempts logFn fn (n + fuel) w =
    Do_loop ctx cfg maxAttempts logFn fn fuel (Z.of_nat n) (after_failures n w).
Proof.
  unfold Do. induction n as [|n IH]; intros Hfail Hn fuel; [done|].
  replace (S n + fuel)%nat with (n + S fuel)%nat by lia.
  rewrite IH by (intros; try apply Hfail; lia).
  destruct (Hfail n ltac:(lia)) as ([err Herr] & Htimer & Hex).
  unfold fails_at, timer_fires_at in *. simpl. unfold mbind, Go_bind.
  destruct (fn ctx (after_failures n w)) as [o w1]; simpl in *. subst o. cbv beta.
  rewrite Hex. rewrite Hlog. unfold call.
  destruct (rt_wait ctx (Delay cfg (Z.of_nat n)) w1) as [out w2]; simpl in *. subst out.
  rewrite wrap64_id by (int64; lia).
  by replace (Z.of_nat n + 1) with (Z.of_nat (S n)) by lia.
Qed.

Lemma not_exhausted_unbounded (k : Z) :
  maxAttempts <= 0 -> attempts_exhausted maxAttempts k = false.
Proof. intros Hm. unfold attempts_exhausted. by rewrite (proj2 (Z.ltb_ge _ _)). Qed.

Lemma not_exhausted_bounded (k : Z) :
  0 <= k -> k + 1 < maxAttempts <= int_max -> attempts_exhausted maxAttempts k = false.
Proof.
  intros Hk Hm. unfold attempts_exhausted. rewrite wrap64_id by (int64; lia).
  by rewrite (proj2 (Z.leb_gt _ _)), andb_false_r by lia.
Qed.
End Do_lemmas.
