(* ===== verification/ConnString.v ===== *)
(** Connection strings: [buildConnString] of internal/replication/subscriber.go
    and of internal/coordinator/coordinator.go, with the part of Go's [net/url]
    they use, and a reader that follows [url.Parse].

    The coordinator's function is the subscriber's with [replicationMode] off. *)
From S2P Require Import Prelude GoStrings Interfaces.
From Stdlib Require Import Ascii DecimalString.

#[local] Arguments Nat.div : simpl never.
#[local] Arguments Nat.modulo : simpl never.
#[local] Arguments Nat.mul : simpl never.

(** * Escaping *)

Inductive encoding : Type :=
  | encodePath
  | encodeHost
  | encodeZone
  | encodeUserPassword
  | encodeQueryComponent.

#[export] Instance encoding_eq_dec : EqDecision encoding.
Proof. solve_decision. Defined.

Definition is_alnum (c : ascii) : bool :=
  let n := nat_of_ascii c in
  ((97 <=? n) && (n <=? 122)) || ((65 <=? n) && (n <=? 90)) || ((48 <=? n) && (n <=? 57)).

Fixpoint one_of (chars : string) (c : ascii) : bool :=
  match chars with
  | EmptyString => false
  | String d chars => Ascii.eqb c d || one_of chars c
  end.

(** The double quote, the last of the characters [encodeHost] lets through. *)
Definition host_chars : string := "!$&'()*+,;=:[]<>" +:+ String "034"%char EmptyString.

Definition shouldEscape (c : ascii) (mode : encoding) : bool :=
  if is_alnum c then false
  else if (bool_decide (mode = encodeHost) || bool_decide (mode = encodeZone)) &&
          one_of host_chars c then false
  else if one_of "-_.~" c then false
  else if one_of "$&+,/:;=?@" c then
    match mode with
    | encodePath => Ascii.eqb c "?"
    | encodeUserPassword => one_of "@/?:" c
    | encodeQueryComponent => true
    | encodeHost | encodeZone => true
    end
  else true.

Definition upperhex (n : nat) : ascii :=
  if n <? 10 then ascii_of_nat (48 + n) else ascii_of_nat (55 + n).

Fixpoint escape (s : string) (mode : encoding) : string :=
  match s with
  | EmptyString => EmptyString
  | String c s' =>
      if shouldEscape c mode then
        if Ascii.eqb c " " && bool_decide (mode = encodeQueryComponent)
        then String "+" (escape s' mode)
        else String "%" (String (upperhex (nat_of_ascii c / 16))
               (String (upperhex (nat_of_ascii c mod 16)) (escape s' mode)))
      else String c (escape s' mode)
  end.

(** * Building *)

(** [url.Values.Encode]: the keys in order. *)
Definition Encode (v : gmap string string) : string :=
  Join ((fun k => escape k encodeQueryComponent +:+ "=" +:+
                  escape (default "" (v !! k)) encodeQueryComponent) <$> sort_Strings (map_to_list v).*1)
    "&".

(** [URL.String] of a URL with a scheme, a user, a password and a host. *)
Definition starts_with_slash (s : string) : bool :=
  match s with String c _ => Ascii.eqb c "/" | EmptyString => false end.

Definition EscapedPath (path : string) : string :=
  if String.eqb path "*" then "*" else escape path encodePath.

Definition URL_String (scheme user password host path rawQuery : string) : string :=
  let escaped := EscapedPath path in
  scheme +:+ "://" +:+ escape user encodeUserPassword +:+ ":" +:+
  escape password encodeUserPassword +:+ "@" +:+ escape host encodeHost +:+
  (if negb (String.eqb escaped "") && negb (starts_with_slash escaped) && negb (String.eqb host "")
   then "/" else "") +:+ escaped +:+
  (if String.eqb rawQuery "" then "" else "?" +:+ rawQuery).

(** The query parameters of a connection string. *)
Definition conn_query (config : DBConfig) (replicationMode : bool) : gmap string string :=
  let query : gmap string string := ∅ in
  let query := if negb (is_blank (db_SSLMode config))
               then <["sslmode" := db_SSLMode config]> query else query in
  let query := if negb (is_blank (db_SSLRootCertPath config))
               then <["sslrootcert" := db_SSLRootCertPath config]> query else query in
  if replicationMode then <["replication" := "database"]> query else query.

Definition conn_host (config : DBConfig) : string :=
  db_Host config +:+ ":" +:+ itoa (db_Port config).

Definition buildConnString (config : DBConfig) (replicationMode : bool) : string :=
  URL_String "postgres" (db_User config) (db_Password config) (conn_host config)
    (db_Database config) (Encode (conn_query config replicationMode)).

(** * Reading

    [url.Parse] of Go 1.25.0, and [URL.Query]. *)

Definition unhex (c : ascii) : option nat :=
  let n := nat_of_ascii c in
  if (48 <=? n) && (n <=? 57) then Some (n - 48)
  else if (65 <=? n) && (n <=? 70) then Some (n - 55)
  else if (97 <=? n) && (n <=? 102) then Some (n - 87)
  else None.

(** Every byte of [s] satisfies [P]; [d] is not one of them. *)
Fixpoint every (P : ascii -> bool) (s : string) : bool :=
  match s with
  | EmptyString => true
  | String c s' => P c && every P s'
  end.

Abbreviation free d := (every (fun c => negb (Ascii.eqb c d))).

(** The bytes that may be written as an escape: in a host only those outside
    ASCII and the percent sign, in a zone those of a host that need no escape,
    the percent sign and the space. *)
Definition may_be_escaped (c : ascii) (mode : encoding) : bool :=
  match mode with
  | encodeHost => (128 <=? nat_of_ascii c) || Ascii.eqb c "%"
  | encodeZone => Ascii.eqb c "%" || Ascii.eqb c " " || negb (shouldEscape c encodeHost)
  | _ => true
  end.

(** The bytes that may be written as they are. *)
Definition may_be_plain (c : ascii) (mode : encoding) : bool :=
  match mode with
  | encodeHost | encodeZone => (128 <=? nat_of_ascii c) || negb (shouldEscape c mode)
  | _ => true
  end.

Fixpoint unescape (s : string) (mode : encoding) : option string :=
  match s with
  | EmptyString => Some EmptyString
  | String c s' =>
      if Ascii.eqb c "%" then
        match s' with
        | String h (String l s'') =>
            match unhex h, unhex l with
            | Some h, Some l =>
                let c := ascii_of_nat (16 * h + l) in
                if may_be_escaped c mode then String c <$> unescape s'' mode else None
            | _, _ => None
            end
        | _ => None
        end
      else if Ascii.eqb c "+" && bool_decide (mode = encodeQueryComponent)
      then String " " <$> unescape s' mode
      else if may_be_plain c mode then String c <$> unescape s' mode
      else None
  end.

(** [strings.Cut(s, sep)] at a byte: the parts before and after its first
    occurrence, and the same for its last ([strings.LastIndex]). *)
Fixpoint cut (sep : ascii) (s : string) : option (string * string) :=
  match s with
  | EmptyString => None
  | String c s' =>
      if Ascii.eqb c sep then Some (EmptyString, s')
      else '(a, b) ← cut sep s'; Some (String c a, b)
  end.

Fixpoint cut_last (sep : ascii) (s : string) : option (string * string) :=
  match s with
  | EmptyString => None
  | String c s' =>
      match cut_last sep s' with
      | Some (a, b) => Some (String c a, b)
      | None => if Ascii.eqb c sep then Some (EmptyString, s') else None
      end
  end.

Definition cut_or_all (sep : ascii) (s : string) : string * string :=
  default (s, EmptyString) (cut sep s).

Definition is_digit (c : ascii) : bool :=
  let n := nat_of_ascii c in (48 <=? n) && (n <=? 57).

(** [stringContainsCTLByte] *)
Definition not_control (c : ascii) : bool :=
  let n := nat_of_ascii c in (32 <=? n) && negb (n =? 127).

Definition validOptionalPort (port : string) : bool :=
  match port with
  | EmptyString => true
  | String c digits => Ascii.eqb c ":" && every is_digit digits
  end.

Definition validUserinfo (s : string) : bool :=
  every (fun c => is_alnum c || one_of "-._:~!$&'()*+,;=%@" c) s.

(** [strings.Index(s, "%25")]: the parts before it, and from it on. *)
Fixpoint cut_zone (s : string) : option (string * string) :=
  if strip_prefix "%25" s is Some _ then Some (EmptyString, s)
  else match s with
       | EmptyString => None
       | String c s' => '(a, b) ← cut_zone s'; Some (String c a, b)
       end.

Definition in_brackets (host : string) : bool :=
  match host with String c _ => Ascii.eqb c "[" | EmptyString => false end.

Definition parseHost (host : string) : option string :=
  if in_brackets host then
    '(name, port) ← cut_last "]" host;
    if validOptionalPort port then
      match cut_zone name with
      | Some (name, zone) =>
          name ← unescape name encodeHost; zone ← unescape zone encodeZone;
          port ← unescape (String "]" port) encodeHost; Some (name +:+ zone +:+ port)
      | None => unescape host encodeHost
      end
    else None
  else
    if (if cut_last ":" host is Some (_, port) then validOptionalPort (String ":" port) else true)
    then unescape host encodeHost
    else None.

(** The user and the password, if there are any, and the host. *)
Definition parseAuthority (authority : string) : option (option (string * option string) * string) :=
  match cut_last "@" authority with
  | None => host ← parseHost authority; Some (None, host)
  | Some (userinfo, host) =>
      host ← parseHost host;
      if negb (validUserinfo userinfo) then None
      else match cut ":" userinfo with
           | None => user ← unescape userinfo encodeUserPassword; Some (Some (user, None), host)
           | Some (user, password) =>
               user ← unescape user encodeUserPassword;
               password ← unescape password encodeUserPassword;
               Some (Some (user, Some password), host)
           end
  end.

(** [ParseQuery], without the errors, which [URL.Query] discards: the pairs in
    the order they are written. *)
Definition read_pair (s : string) : option (string * string) :=
  if String.eqb s "" || negb (free ";" s) then None
  else
    let '(k, v) := cut_or_all "=" s in
    k ← unescape k encodeQueryComponent; v ← unescape v encodeQueryComponent; Some (k, v).

Definition read_query (s : string) : list (string * string) := omap read_pair (Split s "&").

Record parsed : Type := mkParsed {
  p_user : option (string * option string);
  p_host : string;     (** host and port *)
  p_path : string;
  p_query : list (string * string);
}.

(** [url.Parse] of a text with the scheme [postgres], which makes what follows
    an authority and a path; the fragment is dropped. *)
Definition read_conn_string (s : string) : option parsed :=
  let '(u, _) := cut_or_all "#" s in
  if negb (every not_control u) then None
  else
    rest ← strip_prefix "postgres://" u;
    let '(rest, query) := cut_or_all "?" rest in
    let '(authority, path) :=
      if cut "/" rest is Some (authority, path) then (authority, String "/" path) else (rest, "") in
    '(user, host) ← parseAuthority authority;
    path ← unescape path encodePath;
    Some (mkParsed user host path (read_query query)).

(** * What is written is read back *)

Lemma every_app (P : ascii -> bool) (s t : string) : every P (s +:+ t) = every P s && every P t.
Proof.
  induction s as [|c s IH]; [done|]. rewrite str_app_cons. simpl. by rewrite IH, andb_assoc.
Qed.
#[export] Hint Rewrite every_app : go.

Lemma every_cons (P : ascii -> bool) (c : ascii) (s : string) :
  every P (String c s) = P c && every P s.
Proof. done. Qed.

Lemma cut_free (d : ascii) (s t : string) :
  free d s = true -> cut d (s +:+ String d t) = Some (s, t).
Proof.
  induction s as [|c s IH].
  - intros _. rewrite str_app_nil_l. simpl. by rewrite Ascii.eqb_refl.
  - rewrite str_app_cons. simpl. rewrite andb_true_iff, negb_true_iff. intros [-> Hs].
    by rewrite IH.
Qed.

Lemma cut_none (d : ascii) (s : string) : free d s = true -> cut d s = None.
Proof.
  induction s as [|c s IH]; [done|]. simpl. rewrite andb_true_iff, negb_true_iff.
  intros [-> Hs]. by rewrite IH.
Qed.

Lemma cut_last_none (d : ascii) (s : string) : free d s = true -> cut_last d s = None.
Proof.
  induction s as [|c s IH]; [done|]. simpl. rewrite andb_true_iff, negb_true_iff.
  intros [-> Hs]. by rewrite IH.
Qed.

Lemma cut_last_free (d : ascii) (s t : string) :
  free d t = true -> cut_last d (s +:+ String d t) = Some (s, t).
Proof.
  intros Ht. induction s as [|c s IH].
  - rewrite str_app_nil_l. simpl. by rewrite cut_last_none, Ascii.eqb_refl.
  - rewrite str_app_cons. simpl. by rewrite IH.
Qed.

(** The last occurrence, if there is one. *)
Lemma cut_last_spec (d : ascii) (s : string) :
  match cut_last d s with
  | Some (a, b) => s = a +:+ String d b /\ free d b = true
  | None => free d s = true
  end.
Proof.
  induction s as [|c s IH]; [done|]. simpl. destruct (cut_last d s) as [[a b]|].
  - destruct IH as [-> Hb]. by rewrite str_app_cons.
  - destruct (Ascii.eqb_spec c d) as [->|]; [by rewrite str_app_nil_l|done].
Qed.

(** ** Byte by byte *)

Lemma escape_cons (c : ascii) (s : string) (mode : encoding) :
  escape (String c s) mode = escape (String c "") mode +:+ escape s mode.
Proof. simpl. destruct (shouldEscape c mode); [destruct (_ && _)|]; done. Qed.

Lemma escape_app (s t : string) (mode : encoding) :
  escape (s +:+ t) mode = escape s mode +:+ escape t mode.
Proof.
  induction s as [|c s IH]; [done|].
  by rewrite str_app_cons, escape_cons, (escape_cons c s), IH, str_app_assoc.
Qed.

(** A fact about all the bytes, by cases. *)
Ltac each_byte c := destruct c as [[] [] [] [] [] [] [] []].

Lemma every_escape (P : ascii -> bool) (s : string) (mode : encoding) :
  (forall c, every P (escape (String c "") mode) = true) -> every P (escape s mode) = true.
Proof.
  intros Hc. induction s as [|c s IH]; [done|]. by rewrite escape_cons, every_app, Hc, IH.
Qed.

Ltac known_escape :=
  repeat match goal with
  | |- context [escape (String ?c "") ?mode] =>
      let t := eval vm_compute in (escape (String c "") mode) in
      change (escape (String c "") mode) with t
  end.

(** No escape has a byte that is always escaped, or a control byte. *)
Definition delimiter (d : ascii) (mode : encoding) : Prop :=
  forall c, free d (escape (String c "") mode) = true.

Lemma free_escape (d : ascii) (s : string) (mode : encoding) :
  delimiter d mode -> free d (escape s mode) = true.
Proof. apply every_escape. Qed.

Lemma escape_not_control (s : string) (mode : encoding) : every not_control (escape s mode) = true.
Proof. apply every_escape. intros c. by destruct mode; each_byte c. Qed.

Lemma escape_userinfo (s : string) : validUserinfo (escape s encodeUserPassword) = true.
Proof. apply every_escape. intros c. by each_byte c. Qed.

(** The bytes that can be read back when they are written with [escape]. *)
Definition readable (mode : encoding) (c : ascii) : bool :=
  may_be_escaped c mode || negb (shouldEscape c mode).

(** A text is read in the mode it was written in, or in a zone as a host. *)
Definition read_as (mode mode' : encoding) : bool :=
  match mode, mode' with
  | encodeZone, _ => false
  | encodeHost, encodeZone => true
  | _, _ => bool_decide (mode = mode')
  end.

Lemma unescape_byte (c : ascii) (s : string) (mode mode' : encoding) :
  read_as mode mode' = true ->
  unescape (escape (String c "") mode +:+ s) mode' =
  if readable mode' c then String c <$> unescape s mode' else None.
Proof. intros Hm. destruct mode, mode'; try done; clear Hm; by each_byte c. Qed.

Lemma unescape_escape (s : string) (mode mode' : encoding) :
  read_as mode mode' = true ->
  unescape (escape s mode) mode' = if every (readable mode') s then Some s else None.
Proof.
  intros Hm. induction s as [|c s IH]; [done|].
  rewrite escape_cons, unescape_byte, IH, every_cons by done.
  destruct (readable mode' c), (every (readable mode') s); done.
Qed.

Lemma every_true (P : ascii -> bool) (s : string) : (forall c, P c = true) -> every P s = true.
Proof. intros HP. induction s as [|c s IH]; [done|]. simpl. by rewrite HP, IH. Qed.

Lemma unescape_escape_same (s : string) (mode : encoding) :
  mode <> encodeHost -> mode <> encodeZone -> unescape (escape s mode) mode = Some s.
Proof.
  intros Hh Hz. rewrite unescape_escape by by destruct mode.
  rewrite every_true; [done|]. intros c. by destruct mode.
Qed.

(** Solves [free d (escape s mode) = true] and the like. *)
Ltac escaped_free := apply free_escape; let d := fresh in intros d; by each_byte d.

(** ** The query *)

Lemma read_pair_encoded (k v : string) :
  read_pair (escape k encodeQueryComponent +:+ "=" +:+ escape v encodeQueryComponent) = Some (k, v).
Proof.
  unfold read_pair, cut_or_all. change ("=" +:+ ?t) with (String "=" t).
  assert (String.eqb (escape k encodeQueryComponent +:+
    String "=" (escape v encodeQueryComponent)) "" = false) as ->.
  { by destruct (escape k _); rewrite ?str_app_nil_l, ?str_app_cons. }
  rewrite every_app, every_cons, cut_free by escaped_free.
  assert (free ";" (escape k encodeQueryComponent) = true) as -> by escaped_free.
  assert (free ";" (escape v encodeQueryComponent) = true) as -> by escaped_free.
  simpl. rewrite !unescape_escape_same by done. done.
Qed.

Lemma Split_free (d : ascii) (s : string) : free d s = true -> Split s d = [s].
Proof.
  induction s as [|c s IH]; [done|]. simpl. rewrite andb_true_iff, negb_true_iff.
  intros [-> Hs]. by rewrite IH.
Qed.

Lemma Split_cons (d : ascii) (s t : string) :
  free d s = true -> Split (s +:+ String d t) d = s :: Split t d.
Proof.
  induction s as [|c s IH].
  - intros _. rewrite str_app_nil_l. simpl. by rewrite Ascii.eqb_refl.
  - rewrite str_app_cons. simpl. rewrite andb_true_iff, negb_true_iff. intros [-> Hs].
    by rewrite IH.
Qed.

Lemma Split_Join (d : ascii) (parts : list string) :
  parts <> [] -> Forall (fun p => free d p = true) parts ->
  Split (Join parts (String d EmptyString)) d = parts.
Proof.
  intros Hne Hall. unfold Join. induction Hall as [|p parts Hp Hall IH]; [done|].
  destruct parts as [|q parts]; [by apply Split_free|].
  change (String.concat (String d "") (p :: q :: parts))
    with (p +:+ (String d "" +:+ String.concat (String d "") (q :: parts))).
  rewrite str_app_cons, str_app_nil_l, Split_cons by done. f_equal. by apply IH.
Qed.

Lemma read_query_Encode (v : gmap string string) :
  read_query (Encode v) = (fun k => (k, default "" (v !! k))) <$> sort_Strings (map_to_list v).*1.
Proof.
  unfold read_query, Encode. set (keys := sort_Strings (map_to_list v).*1). clearbody keys.
  destruct (decide (keys = [])) as [->|Hne]; [done|].
  rewrite Split_Join; [| |].
  - induction keys as [|k keys IH]; [done|]. rewrite !fmap_cons. simpl.
    rewrite read_pair_encoded. f_equal. destruct keys; [done|by apply IH].
  - by destruct keys.
  - apply Forall_fmap, Forall_true. intros k. simpl. rewrite !every_app.
    assert (Hf : forall s, free "&" (escape s encodeQueryComponent) = true)
      by (intros s; escaped_free).
    by rewrite !Hf.
Qed.

(** Encoding a query adds no byte but [=] and [&]. *)
Lemma every_Encode (P : ascii -> bool) (v : gmap string string) :
  (forall c, every P (escape (String c "") encodeQueryComponent) = true) ->
  P "="%char = true -> P "&"%char = true -> every P (Encode v) = true.
Proof.
  intros HP Heq Hamp. unfold Encode, Join. induction (sort_Strings _) as [|k keys IH]; [done|].
  assert (Hk : every P (escape k encodeQueryComponent +:+ "=" +:+
      escape (default "" (v !! k)) encodeQueryComponent) = true).
  { by rewrite !every_app, !every_escape, every_cons, Heq by done. }
  rewrite fmap_cons. destruct keys as [|k2 keys]; [exact Hk|].
  change (String.concat "&" (?p :: (?f <$> k2 :: keys)))
    with (p +:+ ("&" +:+ String.concat "&" (f <$> k2 :: keys))).
  rewrite every_app, Hk, every_app, every_cons, Hamp. exact IH.
Qed.

(** ** The host *)

(** The hosts that [url.Parse] reads back: a name of which every byte is
    readable, or one in brackets, whose zone (after a percent sign) is readable
    as a zone. *)
Definition host_readable (host : string) : bool :=
  if in_brackets host then
    match cut_last "]" host with
    | Some (name, EmptyString) =>
        match cut "%" name with
        | Some (name, zone) => every (readable encodeHost) name && every (readable encodeZone) zone
        | None => every (readable encodeHost) name
        end
    | _ => false
    end
  else every (readable encodeHost) host.

Lemma cut_spec (d : ascii) (s a b : string) : cut d s = Some (a, b) -> s = a +:+ String d b.
Proof.
  revert a. induction s as [|c s IH]; intros a; [done|]. simpl.
  destruct (Ascii.eqb_spec c d) as [->|_]; [by intros [= <- <-]|].
  destruct (cut d s) as [[a' b']|]; [|done]. simpl. intros [= <- <-].
  by rewrite str_app_cons, <- (IH a').
Qed.

Lemma cut_zone_byte (c : ascii) (s : string) :
  Ascii.eqb c "%" = false ->
  cut_zone (escape (String c "") encodeHost +:+ s) =
  ('(a, b) ← cut_zone s; Some (escape (String c "") encodeHost +:+ a, b)).
Proof.
  intros Hc. each_byte c; try done; clear Hc; known_escape; rewrite ?str_app_cons, ?str_app_nil_l; cbn;
    destruct (cut_zone s) as [[a b]|]; done.
Qed.

Lemma cut_zone_escape (s : string) :
  cut_zone (escape s encodeHost) =
  ('(a, b) ← cut "%" s; Some (escape a encodeHost, escape (String "%" b) encodeHost)).
Proof.
  induction s as [|c s IH]; [done|]. destruct (Ascii.eqb c "%") eqn:Hc.
  - apply Ascii.eqb_eq in Hc. by subst c.
  - rewrite escape_cons, cut_zone_byte, IH by done. cbn [cut]. rewrite Hc.
    destruct (cut "%" s) as [[a b]|]; cbn [mbind option_bind]; [|done].
    by rewrite (escape_cons c a).
Qed.

(** ** The port *)

Lemma digits_uint (d : Decimal.uint) : every is_digit (NilEmpty.string_of_uint d) = true.
Proof. by induction d. Qed.

Lemma every_uint (P : ascii -> bool) (d : Decimal.uint) :
  (forall c, is_digit c = true -> P c = true) -> every P (NilEmpty.string_of_uint d) = true.
Proof.
  intros HP. pose proof (digits_uint d) as Hd. revert Hd.
  induction (NilEmpty.string_of_uint d) as [|c t IH]; [done|]. simpl.
  intros [Hc Ht]%andb_true_iff. by rewrite HP, IH.
Qed.

Lemma every_itoa (P : ascii -> bool) (z : Z) :
  (forall c, is_digit c = true -> P c = true) -> P "-"%char = true ->
  every P (itoa z) = true.
Proof.
  intros HP Hm. unfold itoa. destruct (Z.to_int z) as [d|d]; simpl; rewrite ?Hm; by apply every_uint.
Qed.

Lemma digits_itoa (z : Z) : every is_digit (itoa z) = (0 <=? z)%Z.
Proof. unfold itoa. destruct z; simpl; by rewrite ?digits_uint. Qed.

Lemma escape_itoa (z : Z) : escape (itoa z) encodeHost = itoa z.
Proof.
  assert (Hall : every (fun c => is_digit c || Ascii.eqb c "-") (itoa z) = true).
  { apply every_itoa; [by intros c ->|done]. }
  revert Hall. induction (itoa z) as [|c t IH]; [done|]. rewrite every_cons.
  intros [Hc Ht]%andb_true_iff. rewrite escape_cons, IH by done. clear -Hc. by each_byte c.
Qed.

Ltac itoa_every := apply every_itoa; [let d := fresh in intros d; by each_byte d|done].

Lemma in_brackets_escape (host t : string) :
  in_brackets (escape host encodeHost +:+ String ":" t) = in_brackets host.
Proof. destruct host as [|c host]; [done|]. rewrite escape_cons. by each_byte c. Qed.

Lemma in_brackets_name (name t u : string) :
  in_brackets (escape name encodeHost +:+ String "]" t) = in_brackets (name +:+ String "]" u).
Proof. destruct name as [|c name]; [done|]. rewrite escape_cons. by each_byte c. Qed.

Lemma no_port (c : ascii) (s t : string) :
  validOptionalPort ((escape (String c "") encodeHost +:+ s) +:+ String ":" t) = false.
Proof.
  rewrite str_app_assoc. each_byte c; known_escape; rewrite str_app_cons; try done.
  rewrite str_app_nil_l. unfold validOptionalPort. rewrite every_app. by apply andb_false_r.
Qed.

Lemma every_escape_in (P : ascii -> bool) (s : string) (mode : encoding) :
  (forall c, P c = true -> every P (escape (String c "") mode) = true) ->
  every P s = true -> every P (escape s mode) = true.
Proof.
  intros Hc. induction s as [|c s IH]; [done|]. rewrite every_cons.
  intros [Hp Hs]%andb_true_iff. by rewrite escape_cons, every_app, Hc, IH.
Qed.

Lemma free_bracket (s : string) : free "]" s = true -> free "]" (escape s encodeHost) = true.
Proof. apply every_escape_in. intros c. by each_byte c. Qed.

(** Text that is escaped as it is. *)
Lemma escape_port (port : Z) : escape (String ":" (itoa port)) encodeHost = String ":" (itoa port).
Proof. by rewrite escape_cons, escape_itoa. Qed.

Lemma readable_port (port : Z) : every (readable encodeHost) (String ":" (itoa port)) = true.
Proof. rewrite every_cons, every_itoa; [done| |done]. intros c. by each_byte c. Qed.

(** The host in brackets, before its last bracket, and the port after it. *)
Lemma parseHost_brackets (name : string) (port : Z) :
  in_brackets (name +:+ "]") = true ->
  parseHost (escape name encodeHost +:+ String "]" (String ":" (itoa port))) =
  if (match cut "%" name with
      | Some (name, zone) => every (readable encodeHost) name && every (readable encodeZone) zone
      | None => every (readable encodeHost) name
      end) && (0 <=? port)%Z
  then Some (name +:+ String "]" (String ":" (itoa port))) else None.
Proof.
  intros Hbr. set (port' := String ":" (itoa port)).
  assert (Hport : escape (String "]" port') encodeHost = String "]" port')
    by (rewrite escape_cons; unfold port'; by rewrite escape_port).
  assert (Hread : every (readable encodeHost) (String "]" port') = true)
    by (rewrite every_cons; unfold port'; by rewrite readable_port).
  assert (Hback : unescape (String "]" port') encodeHost = Some (String "]" port')).
  { pose proof (unescape_escape (String "]" port') encodeHost encodeHost eq_refl) as Hu.
    by rewrite Hport, Hread in Hu. }
  unfold parseHost.
  rewrite (in_brackets_name _ _ ""), Hbr, cut_last_free by (unfold port'; simpl; by itoa_every). cbn [mbind option_bind].
  change (validOptionalPort port') with (every is_digit (itoa port)). rewrite digits_itoa.
  rewrite andb_comm. destruct (0 <=? port)%Z; [|done]. rewrite andb_true_l, cut_zone_escape.
  destruct (cut "%" name) as [[x z]|] eqn:Hcut; cbn [mbind option_bind].
  - apply cut_spec in Hcut as ->. rewrite !unescape_escape, every_cons by done.
    change (readable encodeZone "%") with true. rewrite andb_true_l.
    destruct (every (readable encodeHost) x), (every (readable encodeZone) z); try done.
    cbn [mbind option_bind andb]. rewrite Hback. cbn [mbind option_bind].
    by rewrite str_app_assoc.
  - pose proof (unescape_escape (name +:+ String "]" port') encodeHost encodeHost eq_refl) as Hu.
    by rewrite escape_app, Hport, every_app, Hread, andb_true_r in Hu.
Qed.

(** The host and the port, escaped and read back. *)
Lemma parseHost_escape (host : string) (port : Z) :
  parseHost (escape (host +:+ ":" +:+ itoa port) encodeHost) =
  if host_readable host && (0 <=? port)%Z then Some (host +:+ ":" +:+ itoa port) else None.
Proof.
  change (":" +:+ itoa port) with (String ":" (itoa port)). rewrite escape_app, escape_port.
  unfold host_readable. destruct (in_brackets host) eqn:Hbr.
  - pose proof (cut_last_spec "]" host) as Hspec. destruct (cut_last "]" host) as [[name b]|].
    + destruct Hspec as [-> Hb]. rewrite escape_app, (escape_cons "]").
      change (escape (String "]" "") encodeHost +:+ ?t) with (String "]" t).
      destruct b as [|c b].
      * rewrite !str_app_assoc. by apply parseHost_brackets.
      * unfold parseHost. rewrite str_app_assoc, str_app_cons, escape_cons.
        rewrite cut_last_free.
        2:{ rewrite !every_app, <- every_app, <- escape_cons, free_bracket by done.
            simpl. by itoa_every. }
        cbn [mbind option_bind]. rewrite no_port.
        by rewrite (in_brackets_name _ _ (String c b)), Hbr.
    + unfold parseHost. rewrite in_brackets_escape, Hbr.
      rewrite cut_last_none; [done|]. rewrite every_app, free_bracket by done. simpl. by itoa_every.
  - unfold parseHost. rewrite in_brackets_escape, Hbr, cut_last_free by itoa_every.
    change (validOptionalPort (String ":" (itoa port))) with (every is_digit (itoa port)).
    pose proof (unescape_escape (host +:+ String ":" (itoa port)) encodeHost encodeHost eq_refl)
      as Hback.
    rewrite escape_app, escape_port, every_app, readable_port, andb_true_r in Hback.
    rewrite digits_itoa, Hback, andb_comm. by destruct (0 <=? port)%Z.
Qed.

(** ** The whole string *)

Definition path_of (database : string) : string :=
  if String.eqb database "" then "" else
  if starts_with_slash database then database else "/" +:+ database.

(** The path as it is written. *)
Definition written_path (database : string) : string :=
  let escaped := EscapedPath database in
  (if negb (String.eqb escaped "") && negb (starts_with_slash escaped) then "/" else "") +:+ escaped.

Lemma written_path_escape (database : string) :
  written_path database = escape (path_of database) encodePath \/
  database = "*" /\ written_path database = "/*".
Proof.
  unfold written_path, EscapedPath, path_of.
  destruct (String.eqb_spec database "*") as [->|_]; [by right|left].
  destruct database as [|c database]; [done|].
  rewrite (escape_cons c). each_byte c; known_escape; done.
Qed.

Lemma every_written_path (P : ascii -> bool) (database : string) :
  (forall c, every P (escape (String c "") encodePath) = true) -> P "*"%char = true ->
  P "/"%char = true -> every P (written_path database) = true.
Proof.
  intros HP Hstar Hslash. destruct (written_path_escape database) as [->|[_ ->]].
  - by apply every_escape.
  - simpl. by rewrite Hstar, Hslash.
Qed.

Lemma unescape_written_path (database : string) :
  unescape (written_path database) encodePath = Some (path_of database).
Proof.
  destruct (written_path_escape database) as [->|[-> ->]]; [by apply unescape_escape_same|done].
Qed.

(** It starts where the authority ends. *)
Lemma cut_written_path (authority database : string) :
  free "/" authority = true ->
  (if cut "/" (authority +:+ written_path database) is Some (authority, path)
   then (authority, String "/" path) else (authority +:+ written_path database, "")) =
  (authority, written_path database).
Proof.
  intros Hfree.
  assert (written_path database = "" \/ exists t, written_path database = String "/" t)
    as [->|[t ->]].
  { destruct (written_path_escape database) as [->|[_ ->]]; [|right; by eexists].
    unfold path_of. destruct (String.eqb database ""); [by left|right].
    destruct (starts_with_slash database) eqn:Hs; [|by eexists].
    destruct database as [|c database]; [done|]. apply Ascii.eqb_eq in Hs as ->. by eexists. }
  - by rewrite str_app_nil_r, cut_none.
  - by rewrite cut_free.
Qed.

(** The query as it is written. *)
Definition written_query (query : string) : string :=
  if String.eqb query "" then "" else String "?" query.

Lemma cut_query (main query : string) :
  free "?" main = true -> cut_or_all "?" (main +:+ written_query query) = (main, query).
Proof.
  intros Hmain. unfold written_query, cut_or_all. destruct (String.eqb_spec query "") as [->|_].
  - by rewrite str_app_nil_r, cut_none.
  - by rewrite cut_free.
Qed.
Definition written_authority (config : DBConfig) : string :=
  (escape (db_User config) encodeUserPassword +:+ ":" +:+
   escape (db_Password config) encodeUserPassword) +:+ "@" +:+ escape (conn_host config) encodeHost.

Lemma buildConnString_parts (config : DBConfig) (replicationMode : bool) :
  buildConnString config replicationMode =
  "postgres://" +:+ (written_authority config +:+ written_path (db_Database config)) +:+
  written_query (Encode (conn_query config replicationMode)).
Proof.
  unfold buildConnString, URL_String, written_authority, written_path, written_query.
  assert (String.eqb (conn_host config) "" = false) as ->.
  { unfold conn_host. destruct (db_Host config); by rewrite ?str_app_nil_l, ?str_app_cons. }
  simpl negb at 3. rewrite andb_true_r, !str_app_assoc. done.
Qed.

Lemma every_authority (P : ascii -> bool) (config : DBConfig) :
  (forall c mode, mode = encodeUserPassword \/ mode = encodeHost ->
    every P (escape (String c "") mode) = true) ->
  P ":"%char = true -> P "@"%char = true -> every P (written_authority config) = true.
Proof.
  intros HP Hcolon Hat. unfold written_authority. rewrite !every_app, !every_cons, Hcolon, Hat.
  rewrite !every_escape by auto. done.
Qed.

Lemma parseAuthority_written (config : DBConfig) :
  parseAuthority (written_authority config) =
  if host_readable (db_Host config) && (0 <=? db_Port config)%Z
  then Some (Some (db_User config, Some (db_Password config)), conn_host config) else None.
Proof.
  unfold parseAuthority, written_authority. change ("@" +:+ ?t) with (String "@" t).
  rewrite cut_last_free by escaped_free. unfold conn_host. rewrite parseHost_escape.
  destruct (_ && _); [|done]. cbn [mbind option_bind].
  assert (validUserinfo (escape (db_User config) encodeUserPassword +:+ ":" +:+
    escape (db_Password config) encodeUserPassword) = true) as ->.
  { pose proof escape_userinfo as Hv. unfold validUserinfo in *.
    by rewrite !every_app, every_cons, !Hv. }
  cbn [negb]. change (":" +:+ ?t) with (String ":" t). rewrite cut_free by escaped_free.
  rewrite unescape_escape_same by done. cbn [mbind option_bind].
  by rewrite unescape_escape_same.
Qed.

(** C40: how a connection string is read.  It can be read as a URL exactly when
    the port is not negative and the host is readable: in a host, no ASCII byte
    that has to be escaped but the percent sign is understood, and brackets have
    to enclose all of it.  Then, whatever they contain (delimiters, percent
    signs, spaces, control bytes or bytes outside ASCII), the user, the password,
    the host with the port and the parameters that were set are read back as they
    are, and the path is the database name after a slash; an empty name gives no
    path, and a name that starts with a slash gets no other. *)
Theorem buildConnString_reads_back (config : DBConfig) (replicationMode : bool) :
  let query := conn_query config replicationMode in
  let database := db_Database config in
  read_conn_string (buildConnString config replicationMode) =
  if host_readable (db_Host config) && (0 <=? db_Port config)%Z then
    Some {| p_user := Some (db_User config, Some (db_Password config));
            p_host := db_Host config +:+ ":" +:+ itoa (db_Port config);
            p_path := if String.eqb database "" then ""
                      else if starts_with_slash database then database else "/" +:+ database;
            p_query := (fun k => (k, default "" (query !! k))) <$>
                         sort_Strings (map_to_list query).*1 |}
  else None.
Proof.
  intros query database. rewrite buildConnString_parts. fold query database.
  set (main := written_authority config +:+ written_path database).
  assert (Hmain : forall P, (forall c mode, every P (escape (String c "") mode) = true) ->
    P ":"%char = true -> P "@"%char = true -> P "/"%char = true -> P "*"%char = true ->
    every P main = true).
  { intros P HP Hcolon Hat Hslash Hstar. unfold main.
    by rewrite every_app, every_authority, every_written_path by auto. }
  assert (Hquery : forall P, (forall c, every P (escape (String c "") encodeQueryComponent) = true) ->
    P "?"%char = true -> P "="%char = true -> P "&"%char = true ->
    every P (written_query (Encode query)) = true).
  { intros P HP Hmark Heq Hamp. unfold written_query. destruct (String.eqb (Encode query) ""); [done|].
    by rewrite every_cons, Hmark, every_Encode. }
  assert (Hfragment : free "#" ("postgres://" +:+ main +:+ written_query (Encode query)) = true).
  { rewrite !every_app, Hmain, Hquery; try done; [intros c|intros c mode; destruct mode];
      by each_byte c. }
  assert (Hcontrol : every not_control ("postgres://" +:+ main +:+ written_query (Encode query)) = true).
  { rewrite !every_app, Hmain, Hquery; try done; intros; apply escape_not_control. }
  unfold read_conn_string, cut_or_all at 1. rewrite cut_none by done. simpl default. cbv iota beta.
  rewrite Hcontrol. cbn [negb].
  change (strip_prefix "postgres://" ("postgres://" +:+ ?t)) with (Some t).
  cbn [mbind option_bind]. rewrite cut_query.
  2:{ apply Hmain; try done. intros c mode. destruct mode; by each_byte c. }
  unfold main. rewrite cut_written_path.
  2:{ apply every_authority; [|done..]. intros c mode [-> | ->]; by each_byte c. }
  rewrite parseAuthority_written. destruct (_ && _); [|done]. cbn [mbind option_bind].
  rewrite unescape_written_path, read_query_Encode. done.
Qed.

(** A host in brackets with a zone, a password of delimiters, and a database
    name that is none. *)
Example odd_connection :
  read_conn_string (buildConnString
    (mkDBConfig "[fe80::1%en0]" 5432 "" "sync@site" "p:/?#% +" "verify-full" "" "slot") true) =
  Some {| p_user := Some ("sync@site", Some "p:/?#% +"); p_host := "[fe80::1%en0]:5432";
          p_path := ""; p_query := [("replication", "database"); ("sslmode", "verify-full")] |}.
Proof. reflexivity. Qed.
