(* ===== verification/Sql.v ===== *)
(** SQL identifiers (internal/replication/subscriber.go, lines 493-525, and
    internal/coordinator/coordinator.go, lines 172-175), and the statements the
    publisher writes with them: their text and their meaning. *)
From S2P Require Import Prelude GoErrors GoStrings Interfaces.
From Stdlib Require Import Ascii.

(** * Identifiers *)

(** The double quote, and two of them. *)
Definition dquote : ascii := "034"%char.
Definition dquote_s : string := String dquote EmptyString.
Definition dquote2_s : string := String dquote dquote_s.

Definition quoteIdentifier (identifier : string) : string :=
  dquote_s +:+ ReplaceAll identifier dquote dquote2_s +:+ dquote_s.

(** The test of one rune.  The loop ranges over runes; a byte above 127 belongs
    to a rune above 127 (or decodes to U+FFFD), which is refused, so the bytes
    can be tested one by one. *)
Definition safe_rune (c : ascii) : bool :=
  let n := nat_of_ascii c in
  ((97 <=? n) && (n <=? 122)) || ((65 <=? n) && (n <=? 90)) ||
  ((48 <=? n) && (n <=? 57)) || (n =? 95).

Fixpoint all_safe (s : string) : bool :=
  match s with
  | EmptyString => true
  | String c s => if safe_rune c then all_safe s else false
  end.

Definition isSafeIdentifier (identifier : string) : bool :=
  if String.eqb identifier "" then false else all_safe identifier.

Definition invalid_table (table : string) : error :=
  Errorf "invalid table name %q" [AStr table].

Definition quoteQualifiedTable (table : string) : result string :=
  match Split table "."%char with
  | [part] =>
      if negb (isSafeIdentifier part) then Err (invalid_table table)
      else Ok (quoteIdentifier part)
  | [schema; name] =>
      if negb (isSafeIdentifier schema) || negb (isSafeIdentifier name)
      then Err (invalid_table table)
      else Ok (quoteIdentifier schema +:+ "." +:+ quoteIdentifier name)
  | _ => Err (invalid_table table)
  end.

(** * Reading a quoted identifier back

    PostgreSQL's lexical rule: after the opening quote, a doubled quote stands
    for a quote and a single one ends the identifier. *)

Fixpoint read_quoted (s : string) : option (string * string) :=
  match s with
  | EmptyString => None
  | String c s' =>
      if Ascii.eqb c dquote then
        match s' with
        | String d s'' =>
            if Ascii.eqb d dquote then
              match read_quoted s'' with
              | Some (ident, rest) => Some (String dquote ident, rest)
              | None => None
              end
            else Some (EmptyString, s')
        | EmptyString => Some (EmptyString, EmptyString)
        end
      else
        match read_quoted s' with
        | Some (ident, rest) => Some (String c ident, rest)
        | None => None
        end
  end.

Definition read_identifier (s : string) : option (string * string) :=
  match s with
  | String c s' => if Ascii.eqb c dquote then read_quoted s' else None
  | EmptyString => None
  end.

(** What may follow an identifier for it to end there: not another quote. *)
Definition no_quote_ahead (rest : string) : Prop :=
  match rest with String c _ => c <> dquote | EmptyString => True end.

Lemma dquote2_app (s : string) : dquote2_s +:+ s = String dquote (String dquote s).
Proof. done. Qed.

Lemma read_quoted_replace (s rest : string) :
  no_quote_ahead rest ->
  read_quoted (ReplaceAll s dquote dquote2_s +:+ String dquote rest) = Some (s, rest).
Proof.
  intros Hrest. induction s as [|c s IH].
  - simpl. destruct rest as [|d rest]; [done|]. simpl in *.
    by destruct (Ascii.eqb_spec d dquote).
  - simpl. destruct (Ascii.eqb_spec c dquote) as [->|Hc].
    + rewrite str_app_assoc, dquote2_app. simpl. by rewrite IH.
    + autorewrite with go. simpl. rewrite IH.
      by destruct (Ascii.eqb_spec c dquote).
Qed.

Lemma read_identifier_quote (s rest : string) :
  no_quote_ahead rest -> read_identifier (quoteIdentifier s +:+ rest) = Some (s, rest).
Proof.
  intros Hrest. unfold quoteIdentifier, dquote_s. autorewrite with go. simpl.
  by apply read_quoted_replace.
Qed.

Lemma quoteIdentifier_inj (s t : string) : quoteIdentifier s = quoteIdentifier t -> s = t.
Proof.
  intros Heq.
  pose proof (read_identifier_quote s "" I) as Hs.
  pose proof (read_identifier_quote t "" I) as Ht.
  rewrite Heq in Hs. congruence.
Qed.

(** Quoting a safe identifier only puts quotes around it. *)
Lemma ReplaceAll_safe (s : string) : all_safe s = true -> ReplaceAll s dquote dquote2_s = s.
Proof.
  induction s as [|c s IH]; [done|]. simpl. destruct (safe_rune c) eqn:Hc; [|done].
  intros Hs. rewrite IH by done. by destruct (Ascii.eqb_spec c dquote) as [->|].
Qed.

Lemma all_safe_Split (s : string) (sep : ascii) :
  safe_rune sep = false -> all_safe s = true -> Split s sep = [s].
Proof.
  intros Hsep. induction s as [|c s IH]; [done|]. simpl.
  destruct (safe_rune c) eqn:Hc; [|done]. intros Hs.
  destruct (Ascii.eqb_spec c sep); [congruence|]. by rewrite IH.
Qed.

Lemma isSafeIdentifier_all_safe (s : string) :
  isSafeIdentifier s = true <-> s <> "" /\ all_safe s = true.
Proof.
  unfold isSafeIdentifier. destruct (String.eqb_spec s "") as [->|Hne]; [naive_solver|].
  split; [done|by intros [_ ?]].
Qed.

Lemma Split_qualified (schema name : string) :
  all_safe schema = true -> all_safe name = true ->
  Split (schema +:+ "." +:+ name) "."%char = [schema; name].
Proof.
  intros Hs Hn. induction schema as [|c s IH]; simpl in *.
  - rewrite (all_safe_Split name) by done. done.
  - change (String "." ("" +:+ name)) with ("." +:+ name).
    destruct (safe_rune c) eqn:Hc; [|done].
    destruct (Ascii.eqb_spec c "."%char) as [->|]; [done|].
    rewrite IH by done. done.
Qed.

(** The accepted table names are [name] and [schema.name] over safe identifiers. *)
Lemma quoteQualifiedTable_spec (table quoted : string) :
  quoteQualifiedTable table = Ok quoted <->
  (isSafeIdentifier table = true /\ quoted = quoteIdentifier table) \/
  (exists schema name, isSafeIdentifier schema = true /\ isSafeIdentifier name = true /\
     table = schema +:+ "." +:+ name /\
     quoted = quoteIdentifier schema +:+ "." +:+ quoteIdentifier name).
Proof.
  split.
  - pose proof (Join_Split table "."%char) as Hjoin. unfold quoteQualifiedTable.
    destruct (Split table "."%char) as [|p [|q [|r l]]] eqn:E; try done.
    + unfold Join in Hjoin; simpl in Hjoin. subst p.
      destruct (isSafeIdentifier table) eqn:Hsafe; naive_solver.
    + unfold Join in Hjoin; simpl in Hjoin. subst table.
      destruct (isSafeIdentifier p) eqn:Hp, (isSafeIdentifier q) eqn:Hq; simpl; try done.
      intros [= <-]. right. by exists p, q.
  - unfold quoteQualifiedTable.
    intros [[Hsafe ->]|(schema & name & Hs & Hn & -> & ->)].
    + pose proof Hsafe as [_ Hall]%isSafeIdentifier_all_safe.
      rewrite all_safe_Split by done. by rewrite Hsafe.
    + pose proof Hs as [_ Hs']%isSafeIdentifier_all_safe.
      pose proof Hn as [_ Hn']%isSafeIdentifier_all_safe.
      rewrite Split_qualified by done. by rewrite Hs, Hn.
Qed.
