(* ===== verification/Publisher.v ===== *)
(** internal/replication/publisher.go: change events become SQL statements, and
    batches of statements become transactions of the cloud database.

    The pgx pool is a class: [pool_BeginTx], [tx_Exec] and so on act on the
    world of the database. *)
From S2P Require Import Prelude GoErrors GoStrings Interfaces ConnString Sql.

(** * Building statements *)

(** [sortedKeys]: the iteration order of the map does not matter. *)
Definition sortedKeys (m : Row) : list string := sort_Strings (map_to_list m).*1.

(** [row[key]]: nil for an absent key. *)
Definition row_get (row : Row) (key : string) : any := default Nil (row !! key).

Definition invalid_column (key : string) : error :=
  Errorf "invalid column name %q" [AStr key].

(** The loop of [buildInsertSQL]: columns, placeholders and arguments. *)
Fixpoint insert_columns (row : Row) (keys : list string) (idx : Z)
    : result (list string * list string * list any) :=
  match keys with
  | [] => Ok ([], [], [])
  | key :: keys =>
      if negb (isSafeIdentifier key) then Err (invalid_column key) else
      match insert_columns row keys (idx + 1) with
      | Err e => Err e
      | Ok (columns, placeholders, args) =>
          Ok (quoteIdentifier key :: columns,
              ("$" +:+ itoa (idx + 1)) :: placeholders,
              row_get row key :: args)
      end
  end.

Definition buildInsertSQL (table : string) (row : Row) : result (string * list any) :=
  if decide (size row = 0) then Err (ErrorsNew "insert event missing new row data") else
  match insert_columns row (sortedKeys row) 0 with
  | Err e => Err e
  | Ok (columns, placeholders, args) =>
      Ok ("INSERT INTO " +:+ table +:+ " (" +:+ Join columns ", " +:+ ") VALUES ("
            +:+ Join placeholders ", " +:+ ")", args)
  end.

(** The loop of [buildWhereClause]. *)
Fixpoint where_parts (predicate : Row) (keys : list string) (next : Z)
    : result (list string * list any) :=
  match keys with
  | [] => Ok ([], [])
  | key :: keys =>
      if negb (isSafeIdentifier key) then Err (invalid_column key) else
      let value := row_get predicate key in
      if decide (value = Nil) then
        match where_parts predicate keys next with
        | Err e => Err e
        | Ok (parts, args) => Ok ((quoteIdentifier key +:+ " IS NULL") :: parts, args)
        end
      else
        match where_parts predicate keys (next + 1) with
        | Err e => Err e
        | Ok (parts, args) =>
            Ok ((quoteIdentifier key +:+ " = $" +:+ itoa next) :: parts, value :: args)
        end
  end.

Definition buildWhereClause (predicate : Row) (startParam : Z) : result (string * list any) :=
  match where_parts predicate (sortedKeys predicate) startParam with
  | Err e => Err e
  | Ok (parts, args) => Ok (Join parts " AND ", args)
  end.

(** The loop of [buildUpdateSQL] over the columns to set. *)
Fixpoint set_clauses (newRow : Row) (keys : list string) (nextParam : Z)
    : result (list string * list any * Z) :=
  match keys with
  | [] => Ok ([], [], nextParam)
  | key :: keys =>
      if negb (isSafeIdentifier key) then Err (invalid_column key) else
      match set_clauses newRow keys (nextParam + 1) with
      | Err e => Err e
      | Ok (clauses, args, last) =>
          Ok ((quoteIdentifier key +:+ " = $" +:+ itoa nextParam) :: clauses,
              row_get newRow key :: args, last)
      end
  end.

Definition buildUpdateSQL (table : string) (newRow predicate : Row)
    : result (string * list any) :=
  if decide (size newRow = 0) then Err (ErrorsNew "update event missing new row data")
  else if decide (size predicate = 0)
  then Err (ErrorsNew "update event missing predicate row data") else
  match set_clauses newRow (sortedKeys newRow) 1 with
  | Err e => Err e
  | Ok (setClauses, args, nextParam) =>
      match buildWhereClause predicate nextParam with
      | Err e => Err e
      | Ok (whereClause, whereArgs) =>
          Ok ("UPDATE " +:+ table +:+ " SET " +:+ Join setClauses ", "
                +:+ " WHERE " +:+ whereClause, args ++ whereArgs)
      end
  end.

Definition buildDeleteSQL (table : string) (predicate : Row) : result (string * list any) :=
  if decide (size predicate = 0) then Err (ErrorsNew "delete event missing predicate row data")
  else
  match buildWhereClause predicate 1 with
  | Err e => Err e
  | Ok (whereClause, args) => Ok ("DELETE FROM " +:+ table +:+ " WHERE " +:+ whereClause, args)
  end.

Definition choosePredicateRow (oldRow fallback : Row) : Row :=
  if decide (0 < size oldRow) then oldRow else fallback.

Definition buildDML (event : ChangeEvent) : result (string * list any) :=
  match quoteQualifiedTable (ev_Table event) with
  | Err err => Err (Wrapf "invalid table for replication event: %w" [] err)
  | Ok table =>
      if decide (ev_Operation event = OperationInsert)
      then buildInsertSQL table (ev_NewRow event)
      else if decide (ev_Operation event = OperationUpdate)
      then buildUpdateSQL table (ev_NewRow event)
             (choosePredicateRow (ev_OldRow event) (ev_NewRow event))
      else if decide (ev_Operation event = OperationDelete)
      then buildDeleteSQL table (choosePredicateRow (ev_OldRow event) (ev_NewRow event))
      else Err (Errorf "unsupported replication operation %q" [AStr (ev_Operation event)])
  end.

(** * Publishing *)

(** The pgx connection pool of the cloud database. *)
Class PgxPool (W : Type) : Type := {
  (** [pgxpool.New] on a connection string, [Ping] and [Close]. *)
  pool_New : Context -> string -> W -> option error * W;
  pool_Ping : Context -> W -> option error * W;
  pool_Close : W -> unit * W;
  pool_BeginTx : Context -> W -> result nat * W;
  tx_Exec : nat -> Context -> string -> list any -> W -> option error * W;
  tx_Commit : nat -> Context -> W -> option error * W;
  tx_Rollback : nat -> Context -> W -> option error * W;
  (** [QueryRow(ctx, sql).Scan(&one)] *)
  pool_QueryRow : Context -> string -> W -> result Z * W;
}.

(** The pool pointer is nil or not; the pool itself lives in the world. *)
Record Publisher : Type := mkPublisher {
  pool : bool;
  batchSize : Z;
}.

Section publish.
Context {W : Type} `{PgxPool W}.

Definition NewPublisher (ctx : Context) (config : DBConfig) (batchSize : Z)
    : Go W (result Publisher) :=
  let connString := buildConnString config false in
  r ← call (pool_New ctx connString);
  match r with
  | Some err => mret (Err (Wrapf "failed to create cloud database connection pool: %w" [] err))
  | None =>
      r ← call (pool_Ping ctx);
      match r with
      | Some err =>
          _ ← call pool_Close;
          mret (Err (Wrapf "failed to connect to cloud database: %w" [] err))
      | None =>
          let batchSize := if (batchSize <=? 0)%Z then 100%Z else batchSize in
          mret (Ok (mkPublisher true batchSize))
      end
  end.

Definition Close (p : Publisher) : Go W unit :=
  if pool p then call pool_Close else mret tt.

(** The loop over the events of one batch. *)
Fixpoint exec_events (tx : nat) (ctx : Context) (events : list ChangeEvent)
    : Go W (option error) :=
  match events with
  | [] => mret None
  | event :: events =>
      match buildDML event with
      | Err err =>
          _ ← call (tx_Rollback tx ctx);
          mret (Some err)
      | Ok (query, args) =>
          r ← call (tx_Exec tx ctx query args);
          match r with
          | Some err =>
              _ ← call (tx_Rollback tx ctx);
              mret (Some (Wrapf "failed to apply %s event on table %s: %w"
                            [AStr (ev_Operation event); AStr (ev_Table event)] err))
          | None => exec_events tx ctx events
          end
      end
  end.

(** One iteration of the loop of [Publish]: a batch in a transaction. *)
Definition publish_batch (ctx : Context) (batch : list ChangeEvent) : Go W (option error) :=
  r ← call (pool_BeginTx ctx);
  match r with
  | Err err => mret (Some (Wrapf "failed to begin replication batch transaction: %w" [] err))
  | Ok tx =>
      r ← exec_events tx ctx batch;
      match r with
      | Some err => mret (Some err)
      | None =>
          r ← call (tx_Commit tx ctx);
          match r with
          | Some err =>
              _ ← call (tx_Rollback tx ctx);
              mret (Some (Wrapf "failed to commit replication batch: %w" [] err))
          | None => mret None
          end
      end
  end.

(** [for start := 0; start < len(events); start += p.batchSize]; [fuel]
    bounds the number of batches. *)
Fixpoint publish_loop (fuel : nat) (p : Publisher) (ctx : Context)
    (events : list ChangeEvent) (start : Z) : Go W (option error) :=
  if (start <? Z.of_nat (length events))%Z then
    match fuel with
    | O => out_of_fuel
    | S fuel =>
        let end_ := Z.min (start + batchSize p) (Z.of_nat (length events)) in
        let batch := take (Z.to_nat (end_ - start)) (drop (Z.to_nat start) events) in
        r ← publish_batch ctx batch;
        match r with
        | Some err => mret (Some err)
        | None => publish_loop fuel p ctx events (start + batchSize p)%Z
        end
    end
  else mret None.

Definition not_initialized : error := ErrorsNew "replication publisher is not initialized".

Definition Publish (p : Publisher) (ctx : Context) (events : list ChangeEvent)
    : Go W (option error) :=
  if negb (pool p) then mret (Some not_initialized)
  else if decide (length events = 0) then mret None
  else publish_loop (length events) p ctx events 0.

Definition HealthCheck (p : Publisher) (ctx : Context) : Go W (option error) :=
  if negb (pool p) then mret (Some not_initialized) else
  r ← call (pool_QueryRow ctx "SELECT 1");
  match r with
  | Err err => mret (Some (Wrapf "cloud database health check failed: %w" [] err))
  | Ok one =>
      if (one =? 1)%Z then mret None
      else mret (Some (Errorf "cloud database health check returned unexpected value: %d" [AInt one]))
  end.
End publish.
