(* ===== verification/Dml.v ===== *)
(** What the statements of Publisher.v mean.

    [dml] is the abstract syntax of the three statement forms the publisher
    writes, [render] their text and [exec] their effect on the rows of a table,
    as PostgreSQL defines it.  [apply_event] is what replicating a change event
    should do.  The main lemma, [exec_event_dml], relates the two: the text the
    publisher builds is the text of a statement whose effect is the event's. *)
From S2P Require Import Prelude GoErrors GoStrings Interfaces Sql Publisher.
Local Open Scope Z_scope.

(** * Statements *)

Inductive cond : Type :=
  | IsNull (column : string)
  | EqParam (column : string) (param : Z).

(** Parameters are numbered from 1, as in [$1]. *)
Inductive dml : Type :=
  | InsertInto (table : string) (values : list (string * Z))
  | UpdateSet (table : string) (sets : list (string * Z)) (where_ : list cond)
  | DeleteFrom (table : string) (where_ : list cond).

Definition render_cond (c : cond) : string :=
  match c with
  | IsNull column => quoteIdentifier column +:+ " IS NULL"
  | EqParam column n => quoteIdentifier column +:+ " = $" +:+ itoa n
  end.

Definition render_where (cs : list cond) : string := Join (render_cond <$> cs) " AND ".

(** [table] is already quoted. *)
Definition render (d : dml) : string :=
  match d with
  | InsertInto table values =>
      "INSERT INTO " +:+ table
        +:+ " (" +:+ Join ((fun v => quoteIdentifier v.1) <$> values) ", "
        +:+ ") VALUES (" +:+ Join ((fun v => "$" +:+ itoa v.2) <$> values) ", " +:+ ")"
  | UpdateSet table sets where_ =>
      "UPDATE " +:+ table
        +:+ " SET " +:+ Join ((fun v => quoteIdentifier v.1 +:+ " = $" +:+ itoa v.2) <$> sets) ", "
        +:+ " WHERE " +:+ render_where where_
  | DeleteFrom table where_ => "DELETE FROM " +:+ table +:+ " WHERE " +:+ render_where where_
  end.

(** * Their effect on a table *)

Definition param (args : list any) (n : Z) : any := default Nil (args !! Z.to_nat (n - 1)).

(** A comparison with a NULL on either side is not true. *)
Definition eval_cond (args : list any) (row : Row) (c : cond) : bool :=
  match c with
  | IsNull column => bool_decide (row_get row column = Nil)
  | EqParam column n =>
      bool_decide (param args n <> Nil /\ row_get row column = param args n)
  end.

Definition eval_where (args : list any) (row : Row) (cs : list cond) : bool :=
  forallb (eval_cond args row) cs.

(** The assignments of an INSERT or UPDATE, as a partial row. *)
Definition assigned (args : list any) (sets : list (string * Z)) : Row :=
  list_to_map ((fun v => (v.1, param args v.2)) <$> sets).

Definition exec (d : dml) (args : list any) (rows : list Row) : list Row :=
  match d with
  | InsertInto _ values => rows ++ [assigned args values]
  | UpdateSet _ sets where_ =>
      (fun row => if eval_where args row where_ then assigned args sets ∪ row else row) <$> rows
  | DeleteFrom _ where_ => filter (fun row => eval_where args row where_ = false) rows
  end.

(** * What an event asks for *)

(** [row] agrees with [predicate] on every column the predicate names. *)
Definition row_matches (predicate row : Row) : bool :=
  forallb (fun kv => bool_decide (row_get row kv.1 = kv.2)) (map_to_list predicate).

(** Rows are found by the old row and, by the publisher's convention, by the new
    one when the event has no old row.  For an update this convention need not
    find the row that was changed ([PublisherProps.update_without_old_row_is_lost]). *)
Definition event_predicate (ev : ChangeEvent) : Row :=
  if decide (ev_OldRow ev = ∅) then ev_NewRow ev else ev_OldRow ev.

Definition apply_event (ev : ChangeEvent) (rows : list Row) : list Row :=
  if decide (ev_Operation ev = OperationInsert) then rows ++ [ev_NewRow ev]
  else if decide (ev_Operation ev = OperationUpdate) then
    (fun row => if row_matches (event_predicate ev) row then ev_NewRow ev ∪ row else row) <$> rows
  else if decide (ev_Operation ev = OperationDelete) then
    filter (fun row => row_matches (event_predicate ev) row = false) rows
  else rows.

(** * The keys of a row *)

Lemma sortedKeys_perm (m : Row) : sortedKeys m ≡ₚ (map_to_list m).*1.
Proof. apply sort_Strings_perm. Qed.

Lemma sortedKeys_NoDup (m : Row) : NoDup (sortedKeys m).
Proof. rewrite sortedKeys_perm. apply NoDup_fst_map_to_list. Qed.

Lemma elem_of_sortedKeys (m : Row) (k : string) : k ∈ sortedKeys m <-> is_Some (m !! k).
Proof.
  rewrite sortedKeys_perm, list_elem_of_fmap. split.
  - intros ([k' v] & -> & Hin). apply elem_of_map_to_list in Hin. eauto.
  - intros [v Hv]. exists (k, v). by rewrite elem_of_map_to_list.
Qed.

Lemma sortedKeys_nil (m : Row) : size m <> 0%nat -> sortedKeys m <> [].
Proof.
  intros Hsize Hnil. apply Hsize. apply map_size_empty_iff, map_empty. intros k.
  destruct (m !! k) eqn:E; [|done].
  assert (k ∈ sortedKeys m) as Hk by (apply elem_of_sortedKeys; eauto).
  rewrite Hnil in Hk. by apply not_elem_of_nil in Hk.
Qed.

(** A row is rebuilt from its sorted keys. *)
Lemma row_of_sortedKeys (m : Row) :
  list_to_map ((fun k => (k, row_get m k)) <$> sortedKeys m) = m.
Proof.
  apply map_eq. intros k. destruct (m !! k) as [v|] eqn:E.
  - apply elem_of_list_to_map_1.
    + rewrite <- list_fmap_compose. unfold compose; simpl. rewrite list_fmap_id.
      apply sortedKeys_NoDup.
    + rewrite list_elem_of_fmap. exists k. unfold row_get. rewrite E.
      split; [done|]. apply elem_of_sortedKeys. eauto.
  - apply not_elem_of_list_to_map_1. rewrite <- list_fmap_compose. unfold compose; simpl.
    rewrite list_fmap_id, elem_of_sortedKeys, E. by intros [? ?].
Qed.

Lemma row_get_Some (m : Row) (k : string) (v : any) : m !! k = Some v -> row_get m k = v.
Proof. unfold row_get. by intros ->. Qed.

Lemma row_matches_sortedKeys (m row : Row) :
  row_matches m row =
  forallb (fun k => bool_decide (row_get row k = row_get m k)) (sortedKeys m).
Proof.
  apply eq_true_iff_eq. unfold row_matches. rewrite !forallb_forall. split.
  - intros Hall k Hk%list_elem_of_In%elem_of_sortedKeys. destruct Hk as [v Hv].
    rewrite (row_get_Some _ _ _ Hv). apply (Hall (k, v)).
    by apply list_elem_of_In, elem_of_map_to_list.
  - intros Hall [k v] Hkv%list_elem_of_In%elem_of_map_to_list. simpl.
    rewrite <- (row_get_Some _ _ _ Hkv). apply Hall.
    apply list_elem_of_In, elem_of_sortedKeys. eauto.
Qed.

(** * The statement of an event *)

Fixpoint param_values (keys : list string) (next : Z) : list (string * Z) :=
  match keys with
  | [] => []
  | key :: keys => (key, next) :: param_values keys (next + 1)
  end.

Fixpoint conds (predicate : Row) (keys : list string) (next : Z) : list cond * list any :=
  match keys with
  | [] => ([], [])
  | key :: keys =>
      if decide (row_get predicate key = Nil)
      then let '(cs, args) := conds predicate keys next in (IsNull key :: cs, args)
      else let '(cs, args) := conds predicate keys (next + 1) in
           (EqParam key next :: cs, row_get predicate key :: args)
  end.

Lemma insert_columns_spec (row : Row) (keys : list string) (idx : Z) :
  insert_columns row keys idx =
  if forallb isSafeIdentifier keys
  then Ok ((fun v => quoteIdentifier v.1) <$> param_values keys (idx + 1),
           (fun v => "$" +:+ itoa v.2) <$> param_values keys (idx + 1),
           row_get row <$> keys)
  else match filter (fun k => isSafeIdentifier k = false) keys with
       | k :: _ => Err (invalid_column k) | [] => Err (invalid_column "") end.
Proof.
  revert idx. induction keys as [|k keys IH]; intros idx; [done|]. simpl.
  rewrite filter_cons. rewrite IH.
  destruct (isSafeIdentifier k) eqn:E; simpl; [|done].
  destruct (forallb isSafeIdentifier keys); [done|].
  by destruct (filter _ keys).
Qed.

Lemma set_clauses_spec (row : Row) (keys : list string) (next : Z) :
  set_clauses row keys next =
  if forallb isSafeIdentifier keys
  then Ok ((fun v => quoteIdentifier v.1 +:+ " = $" +:+ itoa v.2) <$> param_values keys next,
           row_get row <$> keys, next + Z.of_nat (length keys))
  else match filter (fun k => isSafeIdentifier k = false) keys with
       | k :: _ => Err (invalid_column k) | [] => Err (invalid_column "") end.
Proof.
  revert next. induction keys as [|k keys IH]; intros next; simpl.
  { by rewrite Z.add_0_r. }
  rewrite filter_cons. rewrite IH.
  destruct (isSafeIdentifier k) eqn:E; simpl; [|done].
  destruct (forallb isSafeIdentifier keys).
  - by replace (next + 1 + Z.of_nat (length keys)) with (next + Z.of_nat (S (length keys))) by lia.
  - by destruct (filter _ keys).
Qed.

Lemma where_parts_spec (predicate : Row) (keys : list string) (next : Z) :
  where_parts predicate keys next =
  if forallb isSafeIdentifier keys
  then Ok (render_cond <$> (conds predicate keys next).1, (conds predicate keys next).2)
  else match filter (fun k => isSafeIdentifier k = false) keys with
       | k :: _ => Err (invalid_column k) | [] => Err (invalid_column "") end.
Proof.
  revert next. induction keys as [|k keys IH]; intros next; [done|]. simpl.
  rewrite filter_cons. rewrite !IH.
  destruct (isSafeIdentifier k) eqn:E; simpl; [|done].
  destruct (decide (row_get predicate k = Nil)); destruct (forallb isSafeIdentifier keys);
    try by destruct (filter _ keys).
  - by destruct (conds predicate keys next).
  - by destruct (conds predicate keys (next + 1)).
Qed.

(** ** Parameters are aligned with the arguments *)

Lemma param_app (args1 args2 : list any) (n : Z) :
  Z.of_nat (length args1) < n ->
  param (args1 ++ args2) n = param args2 (n - Z.of_nat (length args1)).
Proof.
  intros Hn. unfold param. rewrite lookup_app_r by lia. do 2 f_equal. lia.
Qed.

Lemma param_cons (a : any) (args : list any) (n : Z) : 1 < n -> param (a :: args) n = param args (n - 1).
Proof.
  intros Hn. unfold param. replace (Z.to_nat (n - 1)) with (S (Z.to_nat (n - 1 - 1))) by lia. done.
Qed.

(** The assignments read back the row they came from, wherever their arguments
    start in the list. *)
Lemma assigned_param_values (row : Row) (keys : list string) (before after : list any) :
  assigned (before ++ (row_get row <$> keys) ++ after)
    (param_values keys (Z.of_nat (length before) + 1)) =
  list_to_map ((fun k => (k, row_get row k)) <$> keys).
Proof.
  unfold assigned. f_equal. revert before. induction keys as [|k keys IH]; intros before; [done|].
  simpl. f_equal.
  - f_equal. rewrite param_app by lia.
    by replace (Z.of_nat (length before) + 1 - Z.of_nat (length before)) with 1 by lia.
  - specialize (IH (before ++ [row_get row k])). rewrite <- app_assoc in IH. simpl in IH.
    rewrite length_app in IH. simpl in IH.
    by replace (Z.of_nat (length before + 1) + 1) with (Z.of_nat (length before) + 1 + 1) in IH by lia.
Qed.

Lemma eval_where_conds (predicate row : Row) (keys : list string) (before after : list any) :
  let '(cs, args) := conds predicate keys (Z.of_nat (length before) + 1) in
  eval_where (before ++ args ++ after) row cs =
  forallb (fun k => bool_decide (row_get row k = row_get predicate k)) keys.
Proof.
  revert before. induction keys as [|k keys IH]; intros before; [done|]. simpl.
  destruct (decide (row_get predicate k = Nil)) as [Hnil|Hnil].
  - specialize (IH before).
    destruct (conds predicate keys _) as [cs args]. simpl. by rewrite IH, Hnil.
  - specialize (IH (before ++ [row_get predicate k])).
    rewrite length_app in IH. simpl in IH.
    replace (Z.of_nat (length before + 1) + 1) with (Z.of_nat (length before) + 1 + 1) in IH by lia.
    destruct (conds predicate keys _) as [cs args]. rewrite <- app_assoc in IH. simpl in *.
    rewrite IH, param_app by lia.
    replace (Z.of_nat (length before) + 1 - Z.of_nat (length before)) with 1 by lia.
    change (param (row_get predicate k :: args ++ after) 1) with (row_get predicate k).
    f_equal. apply bool_decide_ext. naive_solver.
Qed.

(** ** The statement the publisher builds *)

Definition event_dml (ev : ChangeEvent) (table : string) : dml :=
  let new := ev_NewRow ev in
  let pred := event_predicate ev in
  if decide (ev_Operation ev = OperationInsert)
  then InsertInto table (param_values (sortedKeys new) 1)
  else if decide (ev_Operation ev = OperationUpdate)
  then UpdateSet table (param_values (sortedKeys new) 1)
         (conds pred (sortedKeys pred) (Z.of_nat (length (sortedKeys new)) + 1)).1
  else DeleteFrom table (conds pred (sortedKeys pred) 1).1.

Definition event_args (ev : ChangeEvent) : list any :=
  let new := ev_NewRow ev in
  let pred := event_predicate ev in
  if decide (ev_Operation ev = OperationInsert)
  then row_get new <$> sortedKeys new
  else if decide (ev_Operation ev = OperationUpdate)
  then (row_get new <$> sortedKeys new) ++
       (conds pred (sortedKeys pred) (Z.of_nat (length (sortedKeys new)) + 1)).2
  else (conds pred (sortedKeys pred) 1).2.

Definition row_ok (row : Row) : bool :=
  bool_decide (size row <> 0%nat) && forallb isSafeIdentifier (sortedKeys row).

(** The events that can be replicated at all. *)
Definition replicable (ev : ChangeEvent) : bool :=
  is_Ok (quoteQualifiedTable (ev_Table ev)) &&
  if decide (ev_Operation ev = OperationInsert) then row_ok (ev_NewRow ev)
  else if decide (ev_Operation ev = OperationUpdate)
  then row_ok (ev_NewRow ev) && row_ok (event_predicate ev)
  else if decide (ev_Operation ev = OperationDelete) then row_ok (event_predicate ev)
  else false.

Definition refused {A} (r : result A) : Prop := exists e, r = Err e.

Lemma buildInsertSQL_spec (table : string) (row : Row) :
  if row_ok row
  then buildInsertSQL table row =
         Ok (render (InsertInto table (param_values (sortedKeys row) 1)),
             row_get row <$> sortedKeys row)
  else refused (buildInsertSQL table row).
Proof.
  unfold row_ok, buildInsertSQL, refused. rewrite insert_columns_spec.
  destruct (decide (size row = 0%nat)) as [->|Hne]; [simpl; eauto|].
  rewrite bool_decide_eq_true_2 by done. simpl.
  destruct (forallb isSafeIdentifier (sortedKeys row)); [done|].
  destruct (filter _ _); eauto.
Qed.

Lemma buildWhereClause_spec (pred : Row) (next : Z) :
  if forallb isSafeIdentifier (sortedKeys pred)
  then buildWhereClause pred next =
         Ok (render_where (conds pred (sortedKeys pred) next).1, (conds pred (sortedKeys pred) next).2)
  else refused (buildWhereClause pred next).
Proof.
  unfold buildWhereClause, refused. rewrite where_parts_spec.
  destruct (forallb isSafeIdentifier (sortedKeys pred)); [done|].
  destruct (filter _ _); eauto.
Qed.

Lemma buildDeleteSQL_spec (table : string) (pred : Row) :
  if row_ok pred
  then buildDeleteSQL table pred =
         Ok (render (DeleteFrom table (conds pred (sortedKeys pred) 1).1),
             (conds pred (sortedKeys pred) 1).2)
  else refused (buildDeleteSQL table pred).
Proof.
  unfold row_ok, buildDeleteSQL, refused. pose proof (buildWhereClause_spec pred 1) as Hw.
  destruct (decide (size pred = 0%nat)) as [->|Hne]; [simpl; eauto|].
  rewrite bool_decide_eq_true_2 by done. simpl.
  destruct (forallb isSafeIdentifier (sortedKeys pred)); [by rewrite Hw|].
  destruct Hw as [e ->]. eauto.
Qed.

Lemma buildUpdateSQL_spec (table : string) (new pred : Row) :
  let next := Z.of_nat (length (sortedKeys new)) + 1 in
  if row_ok new && row_ok pred
  then buildUpdateSQL table new pred =
         Ok (render (UpdateSet table (param_values (sortedKeys new) 1)
                       (conds pred (sortedKeys pred) next).1),
             (row_get new <$> sortedKeys new) ++ (conds pred (sortedKeys pred) next).2)
  else refused (buildUpdateSQL table new pred).
Proof.
  unfold row_ok, buildUpdateSQL, refused. rewrite set_clauses_spec.
  replace (1 + Z.of_nat (length (sortedKeys new))) with (Z.of_nat (length (sortedKeys new)) + 1) by lia.
  pose proof (buildWhereClause_spec pred (Z.of_nat (length (sortedKeys new)) + 1)) as Hw.
  destruct (decide (size new = 0%nat)) as [->|Hn]; [simpl; eauto|].
  rewrite (bool_decide_eq_true_2 (size new <> 0%nat)) by done. simpl.
  destruct (decide (size pred = 0%nat)) as [->|Hp]; [rewrite andb_false_r; simpl; eauto|].
  rewrite (bool_decide_eq_true_2 (size pred <> 0%nat)) by done. simpl.
  destruct (forallb isSafeIdentifier (sortedKeys new)); simpl; [|destruct (filter _ _); eauto].
  destruct (forallb isSafeIdentifier (sortedKeys pred)); [by rewrite Hw|].
  destruct Hw as [e ->]. eauto.
Qed.

Lemma choosePredicateRow_spec (ev : ChangeEvent) :
  choosePredicateRow (ev_OldRow ev) (ev_NewRow ev) = event_predicate ev.
Proof.
  unfold choosePredicateRow, event_predicate.
  destruct (decide (ev_OldRow ev = ∅)) as [->|Hne]; [done|].
  rewrite decide_True; [done|]. apply map_size_non_empty_iff in Hne. lia.
Qed.

(** [buildDML] answers with the event's statement exactly on replicable events. *)
Lemma buildDML_spec (ev : ChangeEvent) :
  if replicable ev
  then exists table, quoteQualifiedTable (ev_Table ev) = Ok table /\
         buildDML ev = Ok (render (event_dml ev table), event_args ev)
  else refused (buildDML ev).
Proof.
  unfold replicable, buildDML, event_dml, event_args, refused. rewrite choosePredicateRow_spec.
  destruct (quoteQualifiedTable (ev_Table ev)) as [table|e]; simpl; [|eauto].
  pose proof (buildInsertSQL_spec table (ev_NewRow ev)).
  pose proof (buildUpdateSQL_spec table (ev_NewRow ev) (event_predicate ev)).
  pose proof (buildDeleteSQL_spec table (event_predicate ev)).
  unfold refused in *. simpl in *. repeat case_decide; repeat case_match; eauto.
Qed.

Lemma assigned_row (row : Row) (after : list any) :
  assigned ((row_get row <$> sortedKeys row) ++ after) (param_values (sortedKeys row) 1) = row.
Proof.
  etrans; [exact (assigned_param_values row (sortedKeys row) [] after)|].
  apply row_of_sortedKeys.
Qed.

Lemma eval_where_row (pred row : Row) (before : list any) (next : Z) :
  next = Z.of_nat (length before) + 1 ->
  eval_where (before ++ (conds pred (sortedKeys pred) next).2) row
    (conds pred (sortedKeys pred) next).1 = row_matches pred row.
Proof.
  intros ->. pose proof (eval_where_conds pred row (sortedKeys pred) before []) as H.
  destruct (conds pred (sortedKeys pred) _) as [cs args]. simpl.
  rewrite row_matches_sortedKeys. by rewrite app_nil_r in H.
Qed.

(** Executing the event's statement is applying the event. *)
Lemma exec_event_dml (ev : ChangeEvent) (table : string) (rows : list Row) :
  replicable ev = true -> exec (event_dml ev table) (event_args ev) rows = apply_event ev rows.
Proof.
  unfold replicable, event_dml, event_args, apply_event. intros Hok.
  destruct (is_Ok _); simpl in Hok; [|done].
  repeat case_decide; try done; simpl.
  - f_equal. f_equal. pose proof (assigned_row (ev_NewRow ev) []) as Ha.
    by rewrite app_nil_r in Ha.
  - apply list_fmap_ext. intros i row _.
    rewrite assigned_row. rewrite eval_where_row by (rewrite length_fmap; lia). done.
  - apply list_filter_iff. intros row.
    by rewrite <- (eval_where_row (event_predicate ev) row [] 1).
Qed.
