(* ===== verification/SqlText.v ===== *)
(** The text of the publisher's statements, read as PostgreSQL reads it.

    Dml gives statements a meaning; here a reader of their text gives the text
    one, so that what the publisher sends, a string and its arguments, can be
    run on tables.  [parse_render]: the reader reads back what [render] writes. *)
From S2P Require Import Prelude GoErrors GoStrings Interfaces Sql Publisher Dml.
From Stdlib Require Import Ascii DecimalString DecimalPos DecimalZ.

(** * Reading *)

Definition is_digit (c : ascii) : bool :=
  let n := nat_of_ascii c in (48 <=? n) && (n <=? 57).

Fixpoint span_digits (s : string) : string * string :=
  match s with
  | EmptyString => ("", "")
  | String c s' =>
      if is_digit c then let '(ds, rest) := span_digits s' in (String c ds, rest) else ("", s)
  end.

(** The number of a parameter, after the dollar. *)
Definition read_number (s : string) : option (Z * string) :=
  let '(ds, rest) := span_digits s in
  match ds, NilEmpty.uint_of_string ds with
  | String _ _, Some u => Some (Z.of_uint u, rest)
  | _, _ => None
  end.

Definition read_param (s : string) : option (Z * string) :=
  s ← strip_prefix "$" s; read_number s.

Definition read_set (s : string) : option ((string * Z) * string) :=
  '(column, s) ← read_identifier s;
  s ← strip_prefix " = $" s;
  '(n, s) ← read_number s;
  Some ((column, n), s).

Definition read_cond (s : string) : option (cond * string) :=
  '(column, s) ← read_identifier s;
  match strip_prefix " IS NULL" s with
  | Some s => Some (IsNull column, s)
  | None =>
      s ← strip_prefix " = $" s;
      '(n, s) ← read_number s;
      Some (EqParam column n, s)
  end.

(** One item or more, separated. *)
Fixpoint read_items {A} (fuel : nat) (item : string -> option (A * string)) (sep s : string)
    : option (list A * string) :=
  match fuel with
  | O => None
  | S fuel =>
      '(x, s) ← item s;
      match strip_prefix sep s with
      | Some s => '(xs, s) ← read_items fuel item sep s; Some (x :: xs, s)
      | None => Some ([x], s)
      end
  end.

Definition read_list {A} (item : string -> option (A * string)) (sep s : string)
    : option (list A * string) :=
  read_items (S (String.length s)) item sep s.

(** A table name, with its schema or without; it is kept quoted. *)
Definition read_table (s : string) : option (string * string) :=
  '(a, s) ← read_identifier s;
  match strip_prefix "." s with
  | Some s => '(b, s) ← read_identifier s; Some (quoteIdentifier a +:+ "." +:+ quoteIdentifier b, s)
  | None => Some (quoteIdentifier a, s)
  end.

Definition read_where (s : string) : option (list cond) :=
  '(cs, s) ← read_list read_cond " AND " s;
  if String.eqb s "" then Some cs else None.

Definition parse_insert (s : string) : option dml :=
  '(table, s) ← read_table s;
  s ← strip_prefix " (" s;
  '(columns, s) ← read_list read_identifier ", " s;
  s ← strip_prefix ") VALUES (" s;
  '(params, s) ← read_list read_param ", " s;
  if String.eqb s ")" && (length columns =? length params)
  then Some (InsertInto table (zip columns params)) else None.

Definition parse_update (s : string) : option dml :=
  '(table, s) ← read_table s;
  s ← strip_prefix " SET " s;
  '(sets, s) ← read_list read_set ", " s;
  s ← strip_prefix " WHERE " s;
  cs ← read_where s;
  Some (UpdateSet table sets cs).

Definition parse_delete (s : string) : option dml :=
  '(table, s) ← read_table s;
  s ← strip_prefix " WHERE " s;
  cs ← read_where s;
  Some (DeleteFrom table cs).

Definition parse_sql (s : string) : option dml :=
  match strip_prefix "INSERT INTO " s with
  | Some s => parse_insert s
  | None =>
      match strip_prefix "UPDATE " s with
      | Some s => parse_update s
      | None => s ← strip_prefix "DELETE FROM " s; parse_delete s
      end
  end.

(** * Running statements on tables *)

(** Tables by their quoted name. *)
Abbreviation sql_tables := (gmap string (list Row)).

Definition table_of (d : dml) : string :=
  match d with InsertInto t _ => t | UpdateSet t _ _ => t | DeleteFrom t _ => t end.

(** There is no result when the text is not understood or the table is missing. *)
Definition run_sql (q : string) (args : list any) (T : sql_tables) : option sql_tables :=
  d ← parse_sql q;
  rows ← T !! table_of d;
  Some (<[table_of d := exec d args rows]> T).

(** What a change event asks for. *)
Definition apply_change (ev : ChangeEvent) (T : sql_tables) : option sql_tables :=
  match quoteQualifiedTable (ev_Table ev) with
  | Ok table => rows ← T !! table; Some (<[table := apply_event ev rows]> T)
  | Err _ => None
  end.

(** * Reading back *)

Lemma strip_prefix_app (p s : string) : strip_prefix p (p +:+ s) = Some s.
Proof. induction p as [|c p IH]; [done|]. rewrite str_app_cons. simpl. by rewrite Ascii.eqb_refl. Qed.
#[export] Hint Rewrite strip_prefix_app : go.

Definition no_digit_ahead (rest : string) : Prop :=
  match rest with String c _ => is_digit c = false | EmptyString => True end.

Lemma span_digits_uint (u : Decimal.uint) (rest : string) :
  no_digit_ahead rest ->
  span_digits (NilEmpty.string_of_uint u +:+ rest) = (NilEmpty.string_of_uint u, rest).
Proof.
  intros Hrest. induction u as [|u IH|u IH|u IH|u IH|u IH|u IH|u IH|u IH|u IH|u IH];
    [destruct rest as [|c rest]; [done|]; simpl in *; by rewrite Hrest|..];
    cbn [NilEmpty.string_of_uint]; rewrite str_app_cons; simpl; by rewrite IH.
Qed.

Lemma Z_to_int_nonneg (n : Z) :
  (0 <= n)%Z -> exists u, Z.to_int n = Decimal.Pos u /\ u <> Decimal.Nil.
Proof.
  intros Hn. destruct n as [|p|p]; [by exists Decimal.zero| |done].
  exists (Pos.to_uint p). split; [done|]. apply DecimalPos.Unsigned.to_uint_nonnil.
Qed.

Lemma read_number_itoa (n : Z) (rest : string) :
  (0 <= n)%Z -> no_digit_ahead rest -> read_number (itoa n +:+ rest) = Some (n, rest).
Proof.
  intros Hn Hrest. unfold read_number, itoa.
  destruct (Z_to_int_nonneg n Hn) as (u & Hu & Hnil).
  pose proof (DecimalZ.of_to n) as Hof. rewrite Hu in Hof. simpl in Hof. rewrite Hu. cbn [NilEmpty.string_of_int].
  rewrite span_digits_uint by done. pose proof (NilEmpty.usu u) as Hback.
  destruct (NilEmpty.string_of_uint u) as [|c s] eqn:Hs; [by destruct u|]. by rewrite Hback, Hof.
Qed.

(** An item is read back when what follows is [ok]. *)
Definition reads_back {A} (item : string -> option (A * string)) (text : A -> string)
    (ok : string -> Prop) (x : A) : Prop :=
  forall rest, ok rest -> item (text x +:+ rest) = Some (x, rest).

Lemma read_param_back (n : Z) :
  (0 <= n)%Z -> reads_back read_param (fun n => "$" +:+ itoa n) no_digit_ahead n.
Proof.
  intros Hn rest Hrest. unfold read_param. rewrite str_app_assoc, strip_prefix_app.
  by apply read_number_itoa.
Qed.

Lemma read_set_back (v : string * Z) :
  (0 <= v.2)%Z ->
  reads_back read_set (fun v => quoteIdentifier v.1 +:+ " = $" +:+ itoa v.2) no_digit_ahead v.
Proof.
  destruct v as [k n]. intros Hn rest Hrest. unfold read_set. simpl fst. simpl snd.
  rewrite !str_app_assoc, read_identifier_quote by done. cbn [mbind option_bind].
  rewrite strip_prefix_app. cbn [mbind option_bind]. by rewrite read_number_itoa.
Qed.

Definition cond_ok (c : cond) : Prop :=
  match c with IsNull _ => True | EqParam _ n => (0 <= n)%Z end.

Lemma read_cond_back (c : cond) :
  cond_ok c -> reads_back read_cond render_cond no_digit_ahead c.
Proof.
  intros Hc rest Hrest. unfold read_cond. destruct c as [k|k n]; simpl render_cond;
    rewrite !str_app_assoc, read_identifier_quote by done; cbn [mbind option_bind].
  - by rewrite strip_prefix_app.
  - change (strip_prefix " IS NULL" (" = $" +:+ ?s)) with (@None string).
    cbv iota. rewrite strip_prefix_app. cbn [mbind option_bind]. by rewrite read_number_itoa.
Qed.

Lemma Join_cons (x y : string) (l : list string) (sep : string) :
  Join (x :: y :: l) sep = x +:+ sep +:+ Join (y :: l) sep.
Proof. done. Qed.

Lemma read_items_back {A} (item : string -> option (A * string)) (text : A -> string)
    (ok : string -> Prop) (sep : string) (xs : list A) (rest : string) (fuel : nat) :
  Forall (reads_back item text ok) xs -> xs <> [] -> length xs <= fuel ->
  (forall s, ok (sep +:+ s)) -> ok rest -> strip_prefix sep rest = None ->
  read_items fuel item sep (Join (text <$> xs) sep +:+ rest) = Some (xs, rest).
Proof.
  intros Hall Hne Hfuel Hsep Hrest Hend. revert fuel Hfuel.
  induction Hall as [|x xs Hx Hall IH]; intros fuel Hfuel; [done|].
  destruct fuel as [|fuel]; simpl in Hfuel; [lia|]. destruct xs as [|y xs].
  - simpl. unfold Join. simpl. rewrite Hx by done. simpl. by rewrite Hend.
  - change (Join (text <$> x :: y :: xs) sep) with
      (text x +:+ sep +:+ Join (text <$> y :: xs) sep).
    rewrite !str_app_assoc. cbn [read_items].
    rewrite Hx by apply Hsep. cbn [mbind option_bind]. rewrite strip_prefix_app.
    rewrite IH by (done || simpl in *; lia). done.
Qed.

Lemma Join_length (l : list string) (sep : string) :
  sep <> "" -> length l <= S (String.length (Join l sep)).
Proof.
  intros Hsep. induction l as [|x [|y l] IH]; [simpl; lia..|].
  rewrite Join_cons, !str_length_app. destruct sep; [done|]. simpl in *. lia.
Qed.

Lemma read_list_back {A} (item : string -> option (A * string)) (text : A -> string)
    (ok : string -> Prop) (sep : string) (xs : list A) (rest : string) :
  Forall (reads_back item text ok) xs -> xs <> [] -> sep <> "" ->
  (forall s, ok (sep +:+ s)) -> ok rest -> strip_prefix sep rest = None ->
  read_list item sep (Join (text <$> xs) sep +:+ rest) = Some (xs, rest).
Proof.
  intros Hall Hne Hsep Hok Hrest Hend. apply (read_items_back item text ok); try done.
  rewrite str_length_app. pose proof (Join_length (text <$> xs) sep Hsep) as Hlen.
  rewrite length_fmap in Hlen. lia.
Qed.

(** * Whole statements *)

Definition named (table : string) : Prop :=
  (exists a, table = quoteIdentifier a) \/
  (exists a b, table = quoteIdentifier a +:+ "." +:+ quoteIdentifier b).

Definition params_ok (vs : list (string * Z)) : Prop :=
  vs <> [] /\ Forall (fun v => (0 <= v.2)%Z) vs.

Definition conds_ok (cs : list cond) : Prop := cs <> [] /\ Forall cond_ok cs.

Definition well_formed (d : dml) : Prop :=
  named (table_of d) /\
  match d with
  | InsertInto _ values => params_ok values
  | UpdateSet _ sets cs => params_ok sets /\ conds_ok cs
  | DeleteFrom _ cs => conds_ok cs
  end.

Lemma read_table_back (table rest : string) :
  named table -> no_quote_ahead rest -> strip_prefix "." rest = None ->
  read_table (table +:+ rest) = Some (table, rest).
Proof.
  intros [[a ->]|(a & b & ->)] Hq Hdot; unfold read_table; rewrite ?str_app_assoc,
    read_identifier_quote by done; cbn [mbind option_bind]; [by rewrite Hdot|].
  rewrite strip_prefix_app. cbn [mbind option_bind]. by rewrite read_identifier_quote.
Qed.

Lemma read_columns_back (vs : list (string * Z)) (rest : string) :
  vs <> [] -> no_quote_ahead rest -> strip_prefix ", " rest = None ->
  read_list read_identifier ", " (Join ((fun v => quoteIdentifier v.1) <$> vs) ", " +:+ rest) =
  Some (vs.*1, rest).
Proof.
  intros Hne Hq Hend. rewrite (list_fmap_compose fst quoteIdentifier vs :
    (fun v => quoteIdentifier v.1) <$> vs = _).
  apply (read_list_back read_identifier quoteIdentifier no_quote_ahead); try done.
  - apply Forall_true. intros c r. apply read_identifier_quote.
  - by destruct vs.
Qed.

Lemma read_params_back (vs : list (string * Z)) (rest : string) :
  params_ok vs -> no_digit_ahead rest -> strip_prefix ", " rest = None ->
  read_list read_param ", " (Join ((fun v => "$" +:+ itoa v.2) <$> vs) ", " +:+ rest) =
  Some (vs.*2, rest).
Proof.
  intros [Hne Hns] Hq Hend. rewrite (list_fmap_compose snd (fun n => "$" +:+ itoa n) vs :
    (fun v => "$" +:+ itoa v.2) <$> vs = _).
  apply (read_list_back read_param _ no_digit_ahead); try done.
  - apply Forall_fmap. eapply Forall_impl; [exact Hns|]. intros v. apply read_param_back.
  - by destruct vs.
Qed.

Lemma read_sets_back (sets : list (string * Z)) (rest : string) :
  params_ok sets -> no_digit_ahead rest -> strip_prefix ", " rest = None ->
  read_list read_set ", "
    (Join ((fun v => quoteIdentifier v.1 +:+ " = $" +:+ itoa v.2) <$> sets) ", " +:+ rest) =
  Some (sets, rest).
Proof.
  intros [Hne Hns] Hq Hend. apply (read_list_back read_set _ no_digit_ahead); try done.
  eapply Forall_impl; [exact Hns|]. intros v. apply read_set_back.
Qed.

Lemma read_where_back (cs : list cond) : conds_ok cs -> read_where (render_where cs) = Some cs.
Proof.
  intros [Hne Hcs]. unfold read_where, render_where.
  rewrite <- (str_app_nil_r (Join _ _)).
  rewrite (read_list_back read_cond render_cond no_digit_ahead); try done.
  eapply Forall_impl; [exact Hcs|]. intros c. apply read_cond_back.
Qed.

(** The text of a statement reads as that statement. *)
Ltac read_on :=
  repeat first
    [ rewrite strip_prefix_app
    | rewrite read_table_back by done
    | rewrite read_columns_back by done
    | rewrite read_params_back by done
    | rewrite read_sets_back by done
    | rewrite read_where_back by done
    | progress cbn [mbind option_bind] ].

Lemma parse_render (d : dml) : well_formed d -> parse_sql (render d) = Some d.
Proof.
  destruct d as [t vs|t sets cs|t cs]; intros [Ht Hd]; simpl table_of in Ht;
    unfold parse_sql, render.
  - pose proof Hd as [Hne _]. rewrite strip_prefix_app. unfold parse_insert. read_on.
    rewrite String.eqb_refl, !length_fmap, Nat.eqb_refl. simpl.
    by rewrite zip_fst_snd.
  - destruct Hd as [Hs Hc].
    change (strip_prefix "INSERT INTO " ("UPDATE " +:+ ?s)) with (@None string).
    cbv iota. rewrite strip_prefix_app. unfold parse_update. by read_on.
  - change (strip_prefix "INSERT INTO " ("DELETE FROM " +:+ ?s)) with (@None string).
    change (strip_prefix "UPDATE " ("DELETE FROM " +:+ ?s)) with (@None string).
    cbv iota. read_on. unfold parse_delete. by read_on.
Qed.

(** * The statements of events *)

Lemma param_values_ok (keys : list string) (next : Z) :
  keys <> [] -> (0 <= next)%Z -> params_ok (param_values keys next).
Proof.
  intros Hne Hn. split; [by destruct keys|]. clear Hne. revert next Hn.
  induction keys as [|k keys IH]; intros next Hn; simpl; constructor; [done|]. apply IH. lia.
Qed.

Lemma conds_values_ok (pred : Row) (keys : list string) (next : Z) :
  keys <> [] -> (0 <= next)%Z -> conds_ok (conds pred keys next).1.
Proof.
  assert (Hall : forall next, (0 <= next)%Z -> Forall cond_ok (conds pred keys next).1).
  { induction keys as [|k keys IH]; intros n Hn; simpl; [constructor|].
    case_decide; [specialize (IH n Hn)|specialize (IH (n + 1)%Z ltac:(lia))];
      destruct (conds pred keys _); by constructor. }
  intros Hne Hn. split; [|auto]. destruct keys as [|k keys]; [done|]. simpl.
  case_decide; by destruct (conds pred keys _).
Qed.

Lemma quoted_named (table quoted : string) : quoteQualifiedTable table = Ok quoted -> named quoted.
Proof.
  intros [[_ ->]|(a & b & _ & _ & _ & ->)]%quoteQualifiedTable_spec; [left|right]; eauto.
Qed.

Lemma row_ok_keys (row : Row) : row_ok row = true -> sortedKeys row <> [].
Proof.
  unfold row_ok. intros [Hs _]%andb_true_iff. apply bool_decide_eq_true in Hs.
  by apply sortedKeys_nil.
Qed.

Lemma event_dml_well_formed (ev : ChangeEvent) (table : string) :
  replicable ev = true -> quoteQualifiedTable (ev_Table ev) = Ok table ->
  well_formed (event_dml ev table).
Proof.
  intros Hok Ht. apply quoted_named in Ht. unfold replicable in Hok. unfold event_dml.
  apply andb_true_iff in Hok as [_ Hok]. repeat case_decide; simpl; try done.
  - split; [done|]. apply row_ok_keys in Hok. apply param_values_ok; [done|lia].
  - apply andb_true_iff in Hok as [Hnew%row_ok_keys Hpred%row_ok_keys]. split; [done|].
    split; [apply param_values_ok|apply conds_values_ok]; done || lia.
  - split; [done|]. apply row_ok_keys in Hok. apply conds_values_ok; [done|lia].
Qed.

Lemma table_of_event (ev : ChangeEvent) (table : string) : table_of (event_dml ev table) = table.
Proof. unfold event_dml. by repeat case_decide. Qed.

(** Running the text and arguments of an event is making its change. *)
Lemma run_sql_event (ev : ChangeEvent) (q : string) (args : list any) (T : sql_tables) :
  buildDML ev = Ok (q, args) -> run_sql q args T = apply_change ev T.
Proof.
  intros Hb. pose proof (buildDML_spec ev) as Hspec. destruct (replicable ev) eqn:Hok.
  2:{ destruct Hspec as [e He]. congruence. }
  destruct Hspec as (table & Ht & Hb'). rewrite Hb in Hb'. injection Hb' as -> ->.
  unfold run_sql, apply_change. rewrite Ht, parse_render by by apply event_dml_well_formed.
  cbn [mbind option_bind]. rewrite table_of_event. destruct (T !! table) as [rows|]; [|done].
  cbn [mbind option_bind]. by rewrite exec_event_dml.
Qed.
