(* ===== verification/PublisherSpec.v ===== *)
(** What [Publish] guarantees over a transactional database.

    [TransactionalDB] states the documented behaviour of PostgreSQL
    transactions that the publisher relies on; the theorems hold for every
    database with it, and [publisher_delivers] discharges the promise the
    engine is proved against. *)
From S2P Require Import Prelude GoErrors GoStrings Interfaces Sql Publisher Dml.

Abbreviation stmt := (string * list any)%type.

(** [db_committed] is what has been committed, [db_open tx] what transaction
    [tx] has executed.  A failed [Commit] may or may not have taken effect (the
    connection can be lost after the server committed). *)
Class TransactionalDB (W : Type) `{PgxPool W} : Type := {
  db_committed : W -> list stmt;
  db_open : nat -> W -> list stmt;
  begin_committed ctx w r w' :
    pool_BeginTx ctx w = (r, w') -> db_committed w' = db_committed w;
  begin_open ctx w tx w' :
    pool_BeginTx ctx w = (Ok tx, w') -> db_open tx w' = [];
  exec_committed tx ctx q args w r w' :
    tx_Exec tx ctx q args w = (r, w') -> db_committed w' = db_committed w;
  exec_open tx ctx q args w w' :
    tx_Exec tx ctx q args w = (None, w') -> db_open tx w' = db_open tx w ++ [(q, args)];
  commit_ok tx ctx w w' :
    tx_Commit tx ctx w = (None, w') -> db_committed w' = db_committed w ++ db_open tx w;
  commit_err tx ctx w e w' :
    tx_Commit tx ctx w = (Some e, w') ->
    db_committed w' = db_committed w \/ db_committed w' = db_committed w ++ db_open tx w;
  rollback_committed tx ctx w r w' :
    tx_Rollback tx ctx w = (r, w') -> db_committed w' = db_committed w;
}.

(** The statement of an event, if it has one. *)
Definition stmt_of (ev : ChangeEvent) : option stmt :=
  match buildDML ev with Ok s => Some s | Err _ => None end.

Lemma stmt_of_replicable (ev : ChangeEvent) :
  replicable ev = true <-> is_Some (stmt_of ev).
Proof.
  unfold stmt_of. pose proof (buildDML_spec ev) as H. destruct (replicable ev).
  - destruct H as (t & _ & ->). naive_solver.
  - destruct H as [e ->]. split; [done|]. by intros [? ?].
Qed.

Section publish.
Context {W : Type} `{TransactionalDB W}.

Lemma exec_events_spec (tx : nat) (ctx : Context) (evs : list ChangeEvent) (w : W) :
  wp (exec_events tx ctx evs) (fun r w' =>
    db_committed w' = db_committed w /\
    (r = None -> (Some <$> db_open tx w') = (Some <$> db_open tx w) ++ (stmt_of <$> evs))) w.
Proof.
  revert w. induction evs as [|ev evs IH]; intros w; simpl.
  { apply wp_ret. split; [done|]. by rewrite app_nil_r. }
  destruct (buildDML ev) as [[q args]|err] eqn:E.
  - apply wp_bind, wp_call. intros [err|] w1 Hexec.
    + apply wp_bind, wp_call. intros r w2 Hrb. apply wp_ret. split; [|done].
      by rewrite (rollback_committed _ _ _ _ _ Hrb), (exec_committed _ _ _ _ _ _ _ Hexec).
    + eapply wp_mono; [apply IH|]. intros r w2 [Hc Ho].
      rewrite Hc, (exec_committed _ _ _ _ _ _ _ Hexec). split; [done|].
      intros Hr. rewrite (Ho Hr), (exec_open _ _ _ _ _ _ Hexec), fmap_app, <- app_assoc.
      simpl. unfold stmt_of at 2. by rewrite E.
  - apply wp_bind, wp_call. intros r w1 Hrb. apply wp_ret. split; [|done].
    by rewrite (rollback_committed _ _ _ _ _ Hrb).
Qed.

(** A batch that succeeded is committed; one that failed is either absent or,
    when the failure was in [Commit], entirely there. *)
Lemma publish_batch_spec (ctx : Context) (evs : list ChangeEvent) (w : W) :
  wp (publish_batch ctx evs) (fun r w' =>
    (Some <$> db_committed w') = (Some <$> db_committed w) ++ (stmt_of <$> evs) \/
    (r <> None /\ db_committed w' = db_committed w)) w.
Proof.
  unfold publish_batch. apply wp_bind, wp_call. intros [tx|err] w1 Hbegin.
  2:{ apply wp_ret. right. split; [done|]. by rewrite (begin_committed _ _ _ _ Hbegin). }
  apply wp_bind. eapply wp_mono; [apply exec_events_spec|].
  intros [err|] w2 [Hc Ho].
  { apply wp_ret. right. by rewrite Hc, (begin_committed _ _ _ _ Hbegin). }
  specialize (Ho eq_refl). rewrite (begin_open _ _ _ _ Hbegin) in Ho. simpl in Ho.
  rewrite (begin_committed _ _ _ _ Hbegin) in Hc.
  apply wp_bind, wp_call. intros [err|] w3 Hcommit.
  - apply wp_bind, wp_call. intros r w4 Hrb. apply wp_ret.
    rewrite (rollback_committed _ _ _ _ _ Hrb).
    destruct (commit_err _ _ _ _ _ Hcommit) as [->| ->]; [right; by rewrite Hc|left].
    by rewrite fmap_app, Ho, Hc.
  - apply wp_ret. left. by rewrite (commit_ok _ _ _ _ Hcommit), fmap_app, Ho, Hc.
Qed.

(** The batches [Publish] cuts the events into: [n] events are whole batches. *)
Definition batch_boundary (p : Publisher) (total n : nat) : Prop :=
  n = total \/ exists k, Z.of_nat n = (Z.of_nat k * batchSize p)%Z.

Lemma publish_loop_spec (p : Publisher) (ctx : Context) (evs : list ChangeEvent)
    (Hp : (0 < batchSize p)%Z) :
  forall fuel k w, 
    (Z.of_nat (length evs) <= Z.of_nat k * batchSize p + Z.of_nat fuel)%Z ->
    wp (publish_loop fuel p ctx evs (Z.of_nat k * batchSize p)) (fun r w' =>
      exists n, (Z.to_nat (Z.of_nat k * batchSize p) `min` length evs <= n <= length evs)%nat /\
        batch_boundary p (length evs) n /\
        (Some <$> db_committed w') = (Some <$> db_committed w) ++
           (stmt_of <$> take (n - Z.to_nat (Z.of_nat k * batchSize p))
                          (drop (Z.to_nat (Z.of_nat k * batchSize p)) evs)) /\
        (r = None -> n = length evs)) w.
Proof.
  intros fuel. induction fuel as [|fuel IH]; intros k w Hfuel; simpl;
    destruct (_ <? _)%Z eqn:Hlt.
  1: lia.
  1,3: apply wp_ret; exists (length evs); split; [lia|]; split; [by left|];
    rewrite drop_ge by lia; rewrite take_nil, app_nil_r; done.
  set (start := (Z.of_nat k * batchSize p)%Z) in *.
  set (len := (Z.min (start + batchSize p) (Z.of_nat (length evs)) - start)%Z).
  apply wp_bind. eapply wp_mono; [apply publish_batch_spec|].
  intros r w1 [Hc|[Hr Hc]]; [destruct r as [err|]|destruct r as [err|]; [|done]].
  - (* the batch is in, but [Commit] reported a failure *)
    apply wp_ret. exists (Z.to_nat (start + len)). split; [lia|]. split.
    { destruct (Z.le_gt_cases (start + batchSize p) (Z.of_nat (length evs))); [right|left].
      - exists (S k). lia.
      - lia. }
    split; [|done]. rewrite Hc. by replace (Z.to_nat (start + len) - Z.to_nat start) with (Z.to_nat len) by lia.
  - (* on to the next batch *)
    replace (start + batchSize p)%Z with (Z.of_nat (S k) * batchSize p)%Z by lia.
    eapply wp_mono; [apply IH; lia|]. intros r w2 (n & Hn & Hb & Hc2 & Hr).
    exists n. split; [lia|]. split; [done|]. split; [|done].
    rewrite Hc2, Hc, <- app_assoc. f_equal. rewrite <- fmap_app. f_equal.
    destruct (Z.le_gt_cases (start + batchSize p) (Z.of_nat (length evs))).
    + replace (Z.to_nat (Z.of_nat (S k) * batchSize p)) with (Z.to_nat start + Z.to_nat len) in * by lia.
      replace (n - Z.to_nat start) with (Z.to_nat len + (n - (Z.to_nat start + Z.to_nat len))) by lia.
      by rewrite take_add_drop, drop_drop.
    + rewrite (drop_ge evs (Z.to_nat (Z.of_nat (S k) * _))) by lia. rewrite take_nil, app_nil_r.
      rewrite !take_ge; try rewrite length_drop; lia || done.
  - (* the batch left no trace *)
    apply wp_ret. exists (Z.to_nat start). split; [lia|]. split; [right; exists k; lia|].
    split; [|done]. by rewrite Hc, Nat.sub_diag, take_0, app_nil_r.
Qed.

Lemma Publish_spec (p : Publisher) (ctx : Context) (evs : list ChangeEvent) (w : W) :
  pool p = true -> (0 < batchSize p)%Z ->
  wp (Publish p ctx evs) (fun r w' =>
    exists n, batch_boundary p (length evs) n /\
      (Some <$> db_committed w') = (Some <$> db_committed w) ++ (stmt_of <$> take n evs) /\
      (r = None -> n = length evs)) w.
Proof.
  intros Hpool Hp. unfold Publish. rewrite Hpool. simpl.
  case_decide as Hlen.
  { apply wp_ret. exists 0. split; [right; by exists 0|]. split; [|done].
    by rewrite take_0, app_nil_r. }
  eapply wp_mono; [apply (publish_loop_spec p ctx evs Hp (length evs) 0); lia|].
  intros r w' (n & _ & Hb & Hc & Hr). exists n. split; [done|]. split; [|done].
  by rewrite Hc, Nat.sub_0_r.
Qed.
End publish.

(** A publisher that was created is usable, with a positive batch size. *)
Lemma NewPublisher_usable {W} `{PgxPool W} (ctx : Context) (config : DBConfig) (n : Z) (w : W) :
  wp (NewPublisher ctx config n) (fun r _ =>
    forall p, r = Ok p -> pool p = true /\ (0 < batchSize p)%Z /\
      ((0 < n)%Z -> batchSize p = n)) w.
Proof.
  unfold NewPublisher. apply wp_bind, wp_call. intros [err|] w1 _; [by apply wp_ret|].
  apply wp_bind, wp_call. intros [err|] w2 _.
  - apply wp_bind, wp_call. intros u w3 _. by apply wp_ret.
  - apply wp_ret. intros p [= <-]. simpl. destruct (n <=? 0)%Z eqn:E; repeat split; lia.
Qed.

(** The publisher keeps the promise the engine relies on. *)
Section discharge.
Context {W : Type} `{TransactionalDB W} (p : Publisher).
Context (Hpool : pool p = true) (Hbatch : (0 < batchSize p)%Z).

#[local] Instance publisher_instance : ReplicationPublisher W := {|
  pub_Publish := Publish p;
  pub_HealthCheck := HealthCheck p;
|}.

#[local] Instance db_delivery : Delivery W (option stmt) := {|
  effects w := Some <$> db_committed w;
  effect := stmt_of;
|}.

Lemma publisher_delivers : DeliveringPublisher W (option stmt).
Proof.
  split. intros ctx evs w. eapply wp_mono; [by apply Publish_spec|].
  intros r w' (n & _ & Hc & Hr). by exists n.
Qed.
End discharge.
