(* ===== verification/Config.v ===== *)
(** internal/config/config.go: the configuration, its validation and its
    loading.  Reading and decoding the file is viper's work, a parameter of
    [Load]. *)
From S2P Require Import Prelude GoErrors GoTime GoStrings Interfaces.

Record DatabaseConfig : Type := mkDatabaseConfig {
  Host : string;
  Port : Z;
  Database : string;
  User : string;
  Password : string;
  SSLMode : string;
  SSLRootCertPath : string;
  ReplicationSlot : string;
}.

Record ReplicationConfig : Type := mkReplicationConfig {
  Tables : list string;
  BatchSize : Z;
  FlushInterval : Duration;
  MaxLagSeconds : Z;
}.

Record LockConfig : Type := mkLockConfig {
  GCSBucket : string;
  LockKey : string;
  TTL : Duration;
  RenewInterval : Duration;
}.

Record HealthConfig : Type := mkHealthConfig {
  StatusPort : Z;
  MetricsPort : Z;
  CheckInterval : Duration;
}.

Record FailoverConfig : Type := mkFailoverConfig {
  Timeout_ : Duration;
  FailoverConsecutiveFailures : Z;
}.

Record Config : Type := mkConfig {
  LocalDatabase : DatabaseConfig;
  CloudDatabase : DatabaseConfig;
  Replication : ReplicationConfig;
  DistributedLock_ : LockConfig;
  Health : HealthConfig;
  Failover : FailoverConfig;
}.

(** * Validation *)

Definition require (bad : bool) (message : string) : list string :=
  if bad then [message] else [].

(** The closure [validateDatabase]: the messages it appends. *)
Definition validateDatabase (prefix : string) (db : DatabaseConfig) (requireSlot : bool)
    : list string :=
  require (is_blank (Host db)) (prefix +:+ ".host is required") ++
  require (Port db <=? 0)%Z (prefix +:+ ".port must be greater than 0") ++
  require (is_blank (Database db)) (prefix +:+ ".database is required") ++
  require (is_blank (User db)) (prefix +:+ ".user is required") ++
  require (is_blank (Password db)) (prefix +:+ ".password is required") ++
  require (is_blank (SSLMode db)) (prefix +:+ ".ssl_mode is required") ++
  require (requireSlot && is_blank (ReplicationSlot db)) (prefix +:+ ".replication_slot is required").

Definition secure_modes : list string := ["require"; "verify-ca"; "verify-full"].

Fixpoint validate_tables (i : Z) (tables : list string) : list string :=
  match tables with
  | [] => []
  | table :: tables =>
      require (is_blank table) ("replication.tables[" +:+ itoa i +:+ "] must not be empty")
        ++ validate_tables (i + 1) tables
  end.

(** The list [errs] when the checks are done. *)
Definition validation_errors (c : Config) : list string :=
  validateDatabase "local_database" (LocalDatabase c) true ++
  validateDatabase "cloud_database" (CloudDatabase c) false ++
  require (negb (String.eqb (TrimSpace (SSLMode (CloudDatabase c))) "require") &&
           negb (String.eqb (TrimSpace (SSLMode (CloudDatabase c))) "verify-ca") &&
           negb (String.eqb (TrimSpace (SSLMode (CloudDatabase c))) "verify-full"))
    "cloud_database.ssl_mode must be one of: require, verify-ca, verify-full" ++
  require (is_blank (SSLRootCertPath (CloudDatabase c)))
    "cloud_database.ssl_root_cert_path is required for TLS certificate validation" ++
  match Tables (Replication c) with
  | [] => ["replication.tables must include at least one table"]
  | tables => validate_tables 0 tables
  end.

Definition Validate (c : Config) : option error :=
  match validation_errors c with
  | [] => None
  | errs => Some (Errorf "configuration validation failed: %s" [AStr (Join errs "; ")])
  end.

(** * Loading *)

Definition defaultConfigName : string := "config".

Section load.
(** viper: reading the file (by explicit path, or by name in the current
    directory) and decoding it, environment overrides applied. *)
Context (v_ReadInConfig : string -> option error) (v_Unmarshal : string -> result Config).

Definition Load (configPath : string) : result Config :=
  match v_ReadInConfig configPath with
  | Some err =>
      match root_cause err with
      | Some ConfigFileNotFoundError =>
          if String.eqb configPath ""
          then Err (Errorf "configuration file not found: expected %s.(yaml|yml|json) in current directory"
                      [AStr defaultConfigName])
          else Err (Errorf "configuration file not found at %q" [AStr configPath])
      | _ => Err (Wrapf "failed to read configuration: %w" [] err)
      end
  | None =>
      match v_Unmarshal configPath with
      | Err err => Err (Wrapf "failed to unmarshal configuration: %w" [] err)
      | Ok cfg =>
          match Validate cfg with
          | Some err => Err err
          | None => Ok cfg
          end
      end
  end.
End load.

(** * What a valid configuration is *)

Record valid_database (requireSlot : bool) (db : DatabaseConfig) : Prop := {
  valid_host : is_blank (Host db) = false;
  valid_port : (0 < Port db)%Z;
  valid_name : is_blank (Database db) = false;
  valid_user : is_blank (User db) = false;
  valid_password : is_blank (Password db) = false;
  valid_ssl_mode : is_blank (SSLMode db) = false;
  valid_slot : requireSlot = true -> is_blank (ReplicationSlot db) = false;
}.

Record valid_config (c : Config) : Prop := {
  valid_local : valid_database true (LocalDatabase c);
  valid_cloud : valid_database false (CloudDatabase c);
  valid_cloud_tls : TrimSpace (SSLMode (CloudDatabase c)) ∈ secure_modes;
  valid_cloud_cert : is_blank (SSLRootCertPath (CloudDatabase c)) = false;
  valid_tables : Tables (Replication c) <> [] /\
    Forall (fun t => is_blank t = false) (Tables (Replication c));
}.

Lemma require_nil (bad : bool) (message : string) : require bad message = [] <-> bad = false.
Proof. by destruct bad. Qed.

Lemma validate_tables_nil (i : Z) (tables : list string) :
  validate_tables i tables = [] <-> Forall (fun t => is_blank t = false) tables.
Proof.
  revert i. induction tables as [|t tables IH]; intros i; simpl; [done|].
  by rewrite app_nil, require_nil, Forall_cons, IH.
Qed.

Lemma validateDatabase_nil (prefix : string) (db : DatabaseConfig) (slot : bool) :
  validateDatabase prefix db slot = [] <-> valid_database slot db.
Proof.
  unfold validateDatabase. rewrite !app_nil, !require_nil, Z.leb_gt.
  split.
  - intros (? & ? & ? & ? & ? & ? & Hslot). split; try done. intros ->. done.
  - intros [? ? ? ? ? ? Hslot]. repeat split; try done. destruct slot; [auto|done].
Qed.

Lemma validation_errors_nil (c : Config) : validation_errors c = [] <-> valid_config c.
Proof.
  unfold validation_errors. rewrite !app_nil, !validateDatabase_nil, !require_nil.
  assert (Htables : match Tables (Replication c) with
      | [] => ["replication.tables must include at least one table"]
      | tables => validate_tables 0 tables end = [] <->
    Tables (Replication c) <> [] /\ Forall (fun t => is_blank t = false) (Tables (Replication c))).
  { destruct (Tables (Replication c)) as [|t ts].
    - split; [done|]. by intros [? _].
    - rewrite validate_tables_nil. naive_solver. }
  rewrite Htables.
  assert (Hmode : negb (String.eqb (TrimSpace (SSLMode (CloudDatabase c))) "require") &&
           negb (String.eqb (TrimSpace (SSLMode (CloudDatabase c))) "verify-ca") &&
           negb (String.eqb (TrimSpace (SSLMode (CloudDatabase c))) "verify-full") = false <->
    TrimSpace (SSLMode (CloudDatabase c)) ∈ secure_modes).
  { unfold secure_modes. rewrite !elem_of_cons, elem_of_nil.
    rewrite !andb_false_iff, !negb_false_iff, !String.eqb_eq. tauto. }
  rewrite Hmode. split.
  - by intros (? & ? & ? & ? & ?).
  - by intros [? ? ? ? ?].
Qed.
