(* ===== verification/State.v ===== *)
(** internal/state/state.go: the replication state and the store the engine
    persists it in. *)
From S2P Require Import Prelude GoErrors GoTime Interfaces.

Definition NodeType : Type := string.
Definition NodeLocal : NodeType := "local".
Definition NodeCloud : NodeType := "cloud".

Record ReplicationState : Type := mkReplicationState {
  SlotName : string;
  LastLSN : LSN;
  LastFlushTime : Time;
  EventsProcessed : Z;
  EventsFailed : Z;
  CurrentLag : Duration;
  ActiveNode : NodeType;
  LockHolder : string;
  LastFailoverTime : Time;
}.

(** The zero value of the struct. *)
Definition zero_state : ReplicationState :=
  {| SlotName := ""; LastLSN := 0%Z; LastFlushTime := zero_time; EventsProcessed := 0%Z;
     EventsFailed := 0%Z; CurrentLag := 0%Z; ActiveNode := ""; LockHolder := "";
     LastFailoverTime := zero_time |}.

(** What [Load] answers when there is no state file. *)
Definition fresh_state : ReplicationState :=
  {| SlotName := ""; LastLSN := 0%Z; LastFlushTime := zero_time; EventsProcessed := 0%Z;
     EventsFailed := 0%Z; CurrentLag := 0%Z; ActiveNode := NodeLocal; LockHolder := "";
     LastFailoverTime := zero_time |}.

(** The store as the engine uses it. *)
Class StateStore (W : Type) : Type := {
  store_Load : Go W (result ReplicationState);
  store_Save : ReplicationState -> Go W (option error);
}.
