(* ===== verification/FileStore.v ===== *)
(** internal/state/state.go: the store on disk.

    The state is one JSON file, replaced by writing another file and renaming
    it.  An operation is a tree of its calls on the file system, so that it can
    be stopped between two of them. *)
From S2P Require Import Prelude Effects GoErrors GoTime GoTimeFormat GoStrings GoJson Interfaces.
From S2P Require Import State.
From Stdlib Require Import Ascii.

(** * The functions of [os] the store calls *)

Inductive fsE : Type -> Type :=
  | MkdirAll (path : string) : fsE (option error)
  | WriteFile (name data : string) : fsE (option error)
  | Rename (oldpath newpath : string) : fsE (option error)
  | Remove (name : string) : fsE (option error)
  | ReadFile (name : string) : fsE (result string).

(** * [filepath.Dir] *)

(** One component of a path, on the stack of those before it. *)
Definition clean_step (rooted : bool) (stack : list string) (c : string) : list string :=
  if String.eqb c "" || String.eqb c "." then stack
  else if String.eqb c ".." then
    match stack with
    | top :: below => if String.eqb top ".." then c :: stack else below
    | [] => if rooted then [] else [c]
    end
  else c :: stack.

(** [filepath.Clean] of the components of a path. *)
Definition Clean (rooted : bool) (components : list string) : string :=
  let path := Join (rev (foldl (clean_step rooted) [] components)) "/" in
  if rooted then String "/" path else if String.eqb path "" then "." else path.

Definition Dir (path : string) : string :=
  let rooted := match path with String c _ => Ascii.eqb c "/" | EmptyString => false end in
  Clean rooted (removelast (Split path "/")).

(** * The JSON of a state *)

(** A time is written in the zone of its location: local, except for the zero
    time, which is in UTC. *)
Definition written_offset (zone : Time -> Z) (t : Time) : Z := if IsZero t then 0 else zone t.

Definition time_text (zone : Time -> Z) (t : Time) : result string :=
  match Time_MarshalText (written_offset zone t) t with
  | Some s => Ok (quoted s)
  | None => Err (ErrorsNew "json: error calling MarshalJSON for type time.Time")
  end.

(** [json.MarshalIndent(rs, "", "  ")]; [omitempty] never omits a struct, and
    [last_failover_time] is one. *)
Definition marshal_state (zone : Time -> Z) (rs : ReplicationState) : result string :=
  flush ← time_text zone (LastFlushTime rs);
  failover ← time_text zone (LastFailoverTime rs);
  Ok (object_text indented
    [("slot_name", string_text (SlotName rs));
     ("last_lsn", int_text (LastLSN rs));
     ("last_flush_time", flush);
     ("events_processed", int_text (EventsProcessed rs));
     ("events_failed", int_text (EventsFailed rs));
     ("current_lag", int_text (CurrentLag rs));
     ("active_node", string_text (ActiveNode rs));
     ("lock_holder", string_text (LockHolder rs));
     ("last_failover_time", failover)]).

Definition uint64_max : Z := 18446744073709551615.

Definition set_state_field (key : string) (v : json) (rs : ReplicationState)
    : result ReplicationState :=
  let '(mkReplicationState slot lsn flush processed failed lag node holder failover) := rs in
  if is_field "slot_name" key then
    slot ← decode_string v slot;
    Ok (mkReplicationState slot lsn flush processed failed lag node holder failover)
  else if is_field "last_lsn" key then
    lsn ← decode_int 0 uint64_max v lsn;
    Ok (mkReplicationState slot lsn flush processed failed lag node holder failover)
  else if is_field "last_flush_time" key then
    flush ← decode_time v flush;
    Ok (mkReplicationState slot lsn flush processed failed lag node holder failover)
  else if is_field "events_processed" key then
    processed ← decode_int int_min int_max v processed;
    Ok (mkReplicationState slot lsn flush processed failed lag node holder failover)
  else if is_field "events_failed" key then
    failed ← decode_int int_min int_max v failed;
    Ok (mkReplicationState slot lsn flush processed failed lag node holder failover)
  else if is_field "current_lag" key then
    lag ← decode_int int_min int_max v lag;
    Ok (mkReplicationState slot lsn flush processed failed lag node holder failover)
  else if is_field "active_node" key then
    node ← decode_string v node;
    Ok (mkReplicationState slot lsn flush processed failed lag node holder failover)
  else if is_field "lock_holder" key then
    holder ← decode_string v holder;
    Ok (mkReplicationState slot lsn flush processed failed lag node holder failover)
  else if is_field "last_failover_time" key then
    failover ← decode_time v failover;
    Ok (mkReplicationState slot lsn flush processed failed lag node holder failover)
  else Ok rs.

(** [json.Unmarshal(data, &rs)] into a zero value. *)
Definition unmarshal_state (data : string) : result ReplicationState :=
  Unmarshal set_state_field data zero_state.

(** * The store *)

Definition DefaultStatePath : string := "/var/lib/state-sync/replication.state".

(** [st_zone] is the local time zone of the process. *)
Record Store : Type := mkStore {
  st_path : string;
  st_zone : Time -> Z;
}.

Definition NewStore (zone : Time -> Z) (path : string) : Store :=
  {| st_path := if String.eqb path "" then DefaultStatePath else path; st_zone := zone |}.

Definition Path (s : Store) : string := st_path s.

Definition tmpFile (s : Store) : string := st_path s +:+ ".tmp".

Definition Save (s : Store) (rs : ReplicationState) : prog fsE (option error) :=
  let dir := Dir (st_path s) in
  err ← trigger (MkdirAll dir);
  match err with
  | Some err => mret (Some (Wrapf "creating state directory %q: %w" [AStr dir] err))
  | None =>
      match marshal_state (st_zone s) rs with
      | Err err => mret (Some (Wrapf "marshaling replication state: %w" [] err))
      | Ok data =>
          err ← trigger (WriteFile (tmpFile s) data);
          match err with
          | Some err => mret (Some (Wrapf "writing temp state file %q: %w" [AStr (tmpFile s)] err))
          | None =>
              err ← trigger (Rename (tmpFile s) (st_path s));
              match err with
              | Some err =>
                  _ ← trigger (Remove (tmpFile s));
                  mret (Some (Wrapf "renaming temp state file to %q: %w" [AStr (st_path s)] err))
              | None => mret None
              end
          end
      end
  end.

Definition Load (s : Store) : prog fsE (result ReplicationState) :=
  r ← trigger (ReadFile (st_path s));
  match r with
  | Err err =>
      if errors_Is err OsErrNotExist then mret (Ok fresh_state)
      else mret (Err (Wrapf "reading state file %q: %w" [AStr (st_path s)] err))
  | Ok data =>
      match unmarshal_state data with
      | Err err => mret (Err (Wrapf "parsing state file %q: %w" [AStr (st_path s)] err))
      | Ok rs => mret (Ok rs)
      end
  end.

(** The store the engine is given. *)
Definition file_store {W} `{Handler fsE W} (s : Store) : StateStore W := {|
  store_Load := run (Load s);
  store_Save rs := run (Save s rs);
|}.

(** * The file system

    [files] are the contents of the regular files by path.  A call that fails
    leaves the files as they were, except that a write may leave a part of the
    data in its own file, and a remove may have been made. *)
Definition fs_answers {X : Type} (fs : gmap string string) (e : fsE X)
    : X -> gmap string string -> Prop :=
  match e with
  | MkdirAll _ => fun _ fs' => fs' = fs
  | WriteFile name data => fun r fs' =>
      match r with
      | None => fs' = <[name := data]> fs
      | Some _ => forall p, p <> name -> fs' !! p = fs !! p
      end
  | Rename oldpath newpath => fun r fs' =>
      match r with
      | None => exists data, fs !! oldpath = Some data /\ fs' = <[newpath := data]> (delete oldpath fs)
      | Some _ => fs' = fs
      end
  | Remove name => fun _ fs' => forall p, p <> name -> fs' !! p = fs !! p
  | ReadFile name => fun r fs' =>
      fs' = fs /\
      match r with
      | Ok data => fs !! name = Some data
      | Err err => errors_Is err OsErrNotExist = true -> fs !! name = None
      end
  end.

Class LawfulFiles (W : Type) `{Handler fsE W} : Type := {
  files : W -> gmap string string;
  files_answers {X : Type} (e : fsE X) (w w' : W) (x : X) :
    handle e w = (x, w') -> fs_answers (files w) e x (files w');
}.
