(* ===== verification/FileStoreSpec.v ===== *)
(** What the store on disk keeps: a state is read back as it was written, and
    a save is all or nothing. *)
From S2P Require Import Prelude Effects GoErrors GoTime GoTimeFormat GoStrings GoJson Interfaces.
From S2P Require Import State FileStore.

(** * The round trip of a state through JSON *)

(** States whose strings are UTF-8, whose integers have their machine widths,
    and whose times are in zones of whole minutes. *)
Record state_ok (zone : Time -> Z) (rs : ReplicationState) : Prop := {
  ok_slot : valid_utf8 (SlotName rs) = true;
  ok_node : valid_utf8 (ActiveNode rs) = true;
  ok_holder : valid_utf8 (LockHolder rs) = true;
  ok_lsn : (0 <= LastLSN rs <= uint64_max)%Z;
  ok_processed : in_int64 (EventsProcessed rs);
  ok_failed : in_int64 (EventsFailed rs);
  ok_lag : in_int64 (CurrentLag rs);
  ok_zone t : good_offset (zone t);
}.

Lemma time_text_Ok (zone : Time -> Z) (t : Time) (txt : string) :
  time_text zone t = Ok txt -> (forall t, good_offset (zone t)) ->
  exists s, value_text txt (JStr s) /\ forall old, decode_time (JStr s) old = Ok t.
Proof.
  unfold time_text. intros Htxt Hzone.
  assert (Hoff : good_offset (written_offset zone t)).
  { unfold written_offset. destruct (IsZero t); [by exists 0%Z|apply Hzone]. }
  destruct (Time_MarshalText _ t) as [s|] eqn:Hs; [|done]. injection Htxt as <-.
  exists s. split.
  - apply value_text_quoted. unfold Time_MarshalText in Hs. destruct (_ || _); [done|].
    injection Hs as <-. apply append_instant_plain.
  - intros old. unfold decode_time. by rewrite (Parse_MarshalText _ _ _ Hoff Hs).
Qed.

(** Decides, by computation, to which field a member goes. *)
Ltac decide_fields :=
  repeat match goal with
  | |- context [is_field ?a ?b] =>
      let r := eval vm_compute in (is_field a b) in
      replace (is_field a b) with r by (vm_compute; reflexivity); cbn iota
  end.

Lemma unmarshal_marshal_state (zone : Time -> Z) (rs : ReplicationState) (data : string) :
  state_ok zone rs -> marshal_state zone rs = Ok data -> unmarshal_state data = Ok rs.
Proof.
  intros [Hslot Hnode Hholder Hlsn Hproc Hfail Hlag Hzone]. unfold marshal_state.
  destruct (time_text zone (LastFlushTime rs)) as [flush|] eqn:Hflush; [|done]. cbn [mbind result_bind].
  destruct (time_text zone (LastFailoverTime rs)) as [failover|] eqn:Hfo; [|done]. cbn [mbind result_bind].
  intros [= <-].
  destruct (time_text_Ok _ _ _ Hflush Hzone) as (s1 & Hv1 & Hd1).
  destruct (time_text_Ok _ _ _ Hfo Hzone) as (s2 & Hv2 & Hd2).
  unfold unmarshal_state. erewrite (Unmarshal_object_text _ _ _
    [("slot_name", JStr (escape (SlotName rs))); ("last_lsn", JNum (int_text (LastLSN rs)));
     ("last_flush_time", JStr s1);
     ("events_processed", JNum (int_text (EventsProcessed rs)));
     ("events_failed", JNum (int_text (EventsFailed rs)));
     ("current_lag", JNum (int_text (CurrentLag rs)));
     ("active_node", JStr (escape (ActiveNode rs)));
     ("lock_holder", JStr (escape (LockHolder rs)));
     ("last_failover_time", JStr s2)]); [|done| |done].
  2:{ repeat (apply Forall2_cons_2; [split; [reflexivity|]; cbn [fst snd]|]);
      first [apply value_text_string | apply value_text_int | done | apply Forall2_nil_2; done]. }
  cbn [foldl mbind result_bind]. unfold set_state_field, zero_state. decide_fields.
  repeat first [ progress cbn [decode_string mbind result_bind]
               | rewrite unquote_escape by done | rewrite decode_int_text by done
               | rewrite Hd1 | rewrite Hd2 ].
  by destruct rs.
Qed.

(** * Running, and being stopped *)

(** What [Load] makes of the contents of the file, when it can be read. *)
Definition state_in (s : Store) (contents : option string) : result ReplicationState :=
  match contents with
  | None => Ok fresh_state
  | Some data =>
      match unmarshal_state data with
      | Ok rs => Ok rs
      | Err err => Err (Wrapf "parsing state file %q: %w" [AStr (st_path s)] err)
      end
  end.

Definition unreadable (s : Store) (r : result ReplicationState) : Prop :=
  exists err, r = Err (Wrapf "reading state file %q: %w" [AStr (st_path s)] err).

Lemma tmpFile_ne (s : Store) : st_path s <> tmpFile s.
Proof.
  unfold tmpFile. intros Heq. apply (f_equal String.length) in Heq.
  rewrite str_length_app in Heq. simpl in Heq. lia.
Qed.

Section files.
Context {W : Type} `{LawfulFiles W}.

Lemma wp_fs {X : Type} (e : fsE X) (Q : X -> W -> Prop) (w : W) :
  (forall x w', fs_answers (files w) e x (files w') -> Q x w') -> wp (run (trigger e)) Q w.
Proof. intros HQ. apply wp_run_trigger. intros x w' Hx%files_answers. by apply HQ. Qed.

Lemma wp_store_Load (s : Store) (w : W) :
  wp (run (Load s)) (fun r (w' : W) => files w' = files w /\
    (r = state_in s (files w !! st_path s) \/ unreadable s r)) w.
Proof.
  apply wp_run_bind, wp_fs. intros r w' [Hfs Hr]. destruct r as [data|err].
  - unfold state_in. rewrite Hr. destruct (unmarshal_state data); apply wp_ret; auto.
  - destruct (errors_Is err OsErrNotExist); apply wp_ret; (split; [done|]).
    + left. by rewrite (Hr eq_refl).
    + right. by eexists.
Qed.

(** The file is either as it was or holds the new text, whole. *)
Definition old_or_new (s : Store) (rs : ReplicationState) (w w' : W) : Prop :=
  files w' !! st_path s = files w !! st_path s \/
  exists data, marshal_state (st_zone s) rs = Ok data /\ files w' !! st_path s = Some data.

Lemma wp_store_Save (s : Store) (rs : ReplicationState) (w : W) :
  wp (run (Save s rs)) (fun r (w' : W) => match r with
    | None => exists data, marshal_state (st_zone s) rs = Ok data /\
                           files w' !! st_path s = Some data
    | Some _ => files w' !! st_path s = files w !! st_path s
    end) w.
Proof.
  pose proof (tmpFile_ne s) as Hne.
  apply wp_run_bind, wp_fs. intros [err|] w1 Hmk; simpl in Hmk; [by apply wp_ret; rewrite Hmk|].
  destruct (marshal_state (st_zone s) rs) as [data|err] eqn:Hdata; [|by apply wp_ret; rewrite Hmk].
  apply wp_run_bind, wp_fs. intros [err|] w2 Hwr; simpl in Hwr.
  { apply wp_ret. by rewrite Hwr, Hmk. }
  apply wp_run_bind, wp_fs. intros [err|] w3 Hre; simpl in Hre.
  - apply wp_run_bind, wp_fs. intros r w4 Hrm; simpl in Hrm. apply wp_ret.
    by rewrite Hrm, Hre, Hwr, lookup_insert_ne, Hmk.
  - apply wp_ret. destruct Hre as (d & Hd & ->). rewrite Hwr, lookup_insert_eq in Hd.
    injection Hd as <-. exists data. by rewrite lookup_insert_eq.
Qed.

Lemma Save_interrupted (s : Store) (rs : ReplicationState) (w w' : W) :
  interrupted (Save s rs) w w' -> old_or_new s rs w w'.
Proof.
  pose proof (tmpFile_ne s) as Hne. unfold old_or_new.
  intros [->|(r & w1 & Hmk%files_answers & Hint)]%interrupted_trigger; [by left|].
  simpl in Hmk. rewrite <- Hmk. destruct r as [err|]; [left; by apply interrupted_ret in Hint as ->|].
  destruct (marshal_state (st_zone s) rs) as [data|err];
    [|left; by apply interrupted_ret in Hint as ->].
  apply interrupted_trigger in Hint as [->|(r & w2 & Hwr%files_answers & Hint)]; [by left|].
  assert (Hold : files w2 !! st_path s = files w1 !! st_path s).
  { simpl in Hwr. destruct r; [by apply Hwr|]. by rewrite Hwr, lookup_insert_ne. }
  rewrite <- Hold. destruct r as [err|]; [left; by apply interrupted_ret in Hint as ->|].
  apply interrupted_trigger in Hint as [->|(r & w3 & Hre%files_answers & Hint)]; [by left|].
  simpl in Hre, Hwr. destruct r as [err|].
  - rewrite <- Hre. left.
    apply interrupted_trigger in Hint as [->|(r & w4 & Hrm%files_answers & Hint)]; [done|].
    apply interrupted_ret in Hint as ->. by apply Hrm.
  - apply interrupted_ret in Hint as ->. right. exists data. split; [done|].
    destruct Hre as (d & Hd & ->). rewrite Hwr, lookup_insert_eq in Hd. injection Hd as <-.
    by rewrite lookup_insert_eq.
Qed.
End files.
