(* ===== verification/FileStoreProps.v ===== *)
(** The properties of the store on disk. *)
From S2P Require Import Prelude Effects GoErrors GoTime GoTimeFormat GoStrings GoJson Interfaces.
From S2P Require Import State FileStore FileStoreSpec.

(** C36: a state is saved whole or not at all.  Over any file system, [Save]
    returns; when it reports success [Load] gives the very state back, and when
    it reports a failure the file is as it was.  Stopped at any point by a crash
    of the process, it leaves a file from which [Load] gives the new state or
    what it gave before, never a mixture.  (A [Load] whose read fails says so.) *)
Theorem Save_is_atomic {W} `{LawfulFiles W} (s : Store) (rs : ReplicationState) (w : W) :
  state_ok (st_zone s) rs ->
  wp (run (Save s rs)) (fun r w1 =>
    match r with
    | None => wp (run (Load s)) (fun r' _ => r' = Ok rs \/ unreadable s r') w1
    | Some _ => files w1 !! st_path s = files w !! st_path s
    end) w /\
  forall w1, interrupted (Save s rs) w w1 ->
    wp (run (Load s)) (fun r' _ =>
      r' = Ok rs \/ r' = state_in s (files w !! st_path s) \/ unreadable s r') w1.
Proof.
  intros Hok.
  assert (Hnew : forall data (w1 : W), marshal_state (st_zone s) rs = Ok data ->
    files w1 !! st_path s = Some data -> state_in s (files w1 !! st_path s) = Ok rs).
  { intros data w1 Hdata ->. simpl. by rewrite (unmarshal_marshal_state _ _ _ Hok Hdata). }
  split.
  - eapply wp_mono; [apply wp_store_Save|]. intros [err|] w1; [done|]. intros (data & Hdata & Hfile).
    eapply wp_mono; [apply wp_store_Load|]. intros r' w2 [_ Hr]. by rewrite (Hnew data) in Hr.
  - intros w1 [Hfile|(data & Hdata & Hfile)]%Save_interrupted;
      (eapply wp_mono; [apply wp_store_Load|]); intros r' w2 [_ Hr].
    + rewrite Hfile in Hr. destruct Hr; auto.
    + rewrite (Hnew data) in Hr by done. destruct Hr; auto.
Qed.

(** * On a concrete disk *)

(** A disk without failures: the contents of its files. *)
Definition disk_call {X : Type} (e : fsE X) : gmap string string -> X * gmap string string :=
  match e with
  | MkdirAll _ => fun fs => (None, fs)
  | WriteFile name data => fun fs => (None, <[name := data]> fs)
  | Rename oldpath newpath => fun fs =>
      match fs !! oldpath with
      | Some data => (None, <[newpath := data]> (delete oldpath fs))
      | None => (Some (Lib OsErrNotExist), fs)
      end
  | Remove name => fun fs => (None, delete name fs)
  | ReadFile name => fun fs =>
      match fs !! name with
      | Some data => (Ok data, fs)
      | None => (Err (Lib OsErrNotExist), fs)
      end
  end.

#[local] Instance disk_handler : Handler fsE (gmap string string) :=
  {| handle X e := disk_call e |}.

#[local] Instance disk_lawful : LawfulFiles (gmap string string).
Proof.
  refine {| files := id |}. intros X e fs fs' x Hcall. simpl in Hcall.
  destruct e as [p|p d|p q|p|p]; simpl in Hcall; unfold id.
  - by injection Hcall as <- <-.
  - by injection Hcall as <- <-.
  - destruct (fs !! p) as [d|] eqn:Hp; injection Hcall as <- <-; [by exists d|done].
  - injection Hcall as <- <-. intros q Hq. by rewrite lookup_delete_ne.
  - destruct (fs !! p) as [d|] eqn:Hp; injection Hcall as <- <-; done.
Defined.

Definition sample_store : Store := NewStore (fun _ => 3600%Z) "".
Definition sample_saved : ReplicationState :=
  {| SlotName := "slot-1"; LastLSN := 18446744073709551615%Z;
     LastFlushTime := 63850000000123456000%Z; EventsProcessed := 42%Z; EventsFailed := (-7)%Z;
     CurrentLag := 1500000000%Z; ActiveNode := NodeCloud; LockHolder := "node-b";
     LastFailoverTime := zero_time |}.

Lemma Save_is_atomic_witness :
  state_ok (st_zone sample_store) sample_saved /\
  wp (run (Save sample_store sample_saved)) (fun r (w1 : gmap string string) =>
    match r with
    | None => wp (run (Load sample_store)) (fun r' _ =>
                r' = Ok sample_saved \/ unreadable sample_store r') w1
    | Some _ => files w1 !! st_path sample_store = files (∅ : gmap string string) !! st_path sample_store
    end) ∅ /\
  forall w1 : gmap string string, interrupted (Save sample_store sample_saved) ∅ w1 ->
    wp (run (Load sample_store)) (fun r' _ =>
      r' = Ok sample_saved \/
      r' = state_in sample_store (files (∅ : gmap string string) !! st_path sample_store) \/
      unreadable sample_store r') w1.
Proof.
  assert (Hok : state_ok (st_zone sample_store) sample_saved).
  { split; try reflexivity; try (vm_compute; split; discriminate).
    intros t. exists 60%Z. split; [reflexivity|vm_compute; reflexivity]. }
  split; [exact Hok|]. exact (Save_is_atomic sample_store sample_saved (∅ : gmap string string) Hok).
Defined.
