(* ===== verification/Server.v ===== *)
(** internal/server/server.go: the metrics server and the status server.

    What net/http does with a server is a class over the world; the handler of
    the status endpoint asks the provider of the state for a snapshot and
    answers with its JSON. *)
From S2P Require Import Prelude GoErrors GoTime GoTimeFormat GoStrings GoJson Interfaces State.

(** * [time.Duration.String] *)

Definition Microsecond : Duration := 1000%Z.

Definition fmtInt (v : Z) (rest : string) : string :=
  all_digits (S (Z.to_nat (Z.log2 v))) v rest.

(** [v] over a power of ten, without trailing zeros. *)
Definition fmtFrac (v : Z) (prec : nat) (rest : string) : string :=
  let p := (10 ^ Z.of_nat prec)%Z in
  fmtInt (v / p) (append_fraction prec (v mod p) rest).

Definition micro_sign : string := byte_string [194; 181].

Definition Duration_String (d : Duration) : string :=
  let u := Z.abs d in
  let text :=
    if (u =? 0)%Z then "0s"
    else if (u <? Microsecond)%Z then fmtFrac u 0 "ns"
    else if (u <? Millisecond)%Z then fmtFrac u 3 (micro_sign +:+ "s")
    else if (u <? Second)%Z then fmtFrac u 6 "ms"
    else
      let secs := (u / Second)%Z in
      let tail := fmtInt (secs mod 60) (append_fraction 9 (u mod Second) "s") in
      let minutes := (secs / 60)%Z in
      if (minutes =? 0)%Z then tail
      else
        let tail := fmtInt (minutes mod 60) ("m" +:+ tail) in
        let hours := (minutes / 60)%Z in
        if (hours =? 0)%Z then tail else fmtInt hours ("h" +:+ tail) in
  if (d <? 0)%Z then "-" +:+ text else text.

(** * The HTTP library

    A server of net/http is its address and the routes of its mux. *)
Inductive http_handler : Type :=
  | PrometheusHandler
  | StatusHandler.

Record http_Server : Type := mkHttpServer {
  hs_Addr : string;
  hs_Handler : list (string * http_handler);
}.

(** Listening runs in a goroutine of its own, whose error is only logged. *)
Class HttpLibrary (W : Type) : Type := {
  go_ListenAndServe : http_Server -> W -> unit * W;
  http_Shutdown : http_Server -> Context -> W -> option error * W;
}.

Class StateProvider (W : Type) : Type := {
  provider_State : W -> ReplicationState * W;
}.

(** * The metrics server *)

Record MetricsServer : Type := mkMetricsServer { ms_server : http_Server }.

Definition NewMetricsServer (port : Z) : MetricsServer :=
  {| ms_server := {| hs_Addr := ":" +:+ itoa port;
                     hs_Handler := [("/metrics", PrometheusHandler)] |} |}.

(** * The status response *)

Record StatusResponse : Type := mkStatusResponse {
  sr_ActiveNode : string;
  sr_ReplicationLag : string;
  sr_LockHolder : string;
  sr_LastFailoverTime : string;
  sr_EventsProcessed : Z;
  sr_EventsFailed : Z;
  sr_LastLSN : Z;
  sr_LastFlushTime : string;
  sr_SlotName : string;
}.

(** A string field with [omitempty]. *)
Definition omitempty (name s : string) : list (string * string) :=
  if String.eqb s "" then [] else [(name, string_text s)].

(** [json.NewEncoder(w).Encode(resp)] *)
Definition encode_response (r : StatusResponse) : string :=
  object_text compact
    ([("active_node", string_text (sr_ActiveNode r));
      ("replication_lag", string_text (sr_ReplicationLag r));
      ("lock_holder", string_text (sr_LockHolder r))] ++
     omitempty "last_failover_time" (sr_LastFailoverTime r) ++
     [("events_processed", int_text (sr_EventsProcessed r));
      ("events_failed", int_text (sr_EventsFailed r));
      ("last_lsn", int_text (sr_LastLSN r))] ++
     omitempty "last_flush_time" (sr_LastFlushTime r) ++
     [("slot_name", string_text (sr_SlotName r))]) +:+ newline.

(** * The status server *)

(** [ss_zone] is the local time zone of the process; the provider is the world's. *)
Record StatusServer : Type := mkStatusServer {
  ss_server : http_Server;
  ss_maxLag : Duration;
  ss_zone : Time -> Z;
}.

Definition NewStatusServer (zone : Time -> Z) (port : Z) (maxLag : Duration) : StatusServer :=
  {| ss_server := {| hs_Addr := ":" +:+ itoa port; hs_Handler := [("/status", StatusHandler)] |};
     ss_maxLag := maxLag; ss_zone := zone |}.

Record response : Type := mkResponse {
  resp_ContentType : string;
  resp_Status : Z;
  resp_Body : string;
}.

Definition format_nonzero (zone : Time -> Z) (t : Time) : string :=
  if IsZero t then "" else Format_RFC3339 (zone t) t.

Definition status_response (zone : Time -> Z) (st : ReplicationState) : StatusResponse :=
  {| sr_ActiveNode := ActiveNode st;
     sr_ReplicationLag := Duration_String (CurrentLag st);
     sr_LockHolder := LockHolder st;
     sr_LastFailoverTime := format_nonzero zone (LastFailoverTime st);
     sr_EventsProcessed := EventsProcessed st;
     sr_EventsFailed := EventsFailed st;
     sr_LastLSN := LastLSN st;
     sr_LastFlushTime := format_nonzero zone (LastFlushTime st);
     sr_SlotName := SlotName st |}.

Definition healthy (s : StatusServer) (st : ReplicationState) : bool :=
  negb ((0 <? ss_maxLag s) && (ss_maxLag s <? CurrentLag st))%Z.

Section servers.
Context {W : Type} `{HttpLibrary W, StateProvider W}.

(** [MetricsServer.Start] and [StatusServer.Start] never fail. *)
Definition MetricsServer_Start (s : MetricsServer) : Go W (option error) :=
  _ ← call (go_ListenAndServe (ms_server s)); mret None.

Definition MetricsServer_Shutdown (s : MetricsServer) (ctx : Context) : Go W (option error) :=
  call (http_Shutdown (ms_server s) ctx).

Definition StatusServer_Start (s : StatusServer) : Go W (option error) :=
  _ ← call (go_ListenAndServe (ss_server s)); mret None.

Definition StatusServer_Shutdown (s : StatusServer) (ctx : Context) : Go W (option error) :=
  call (http_Shutdown (ss_server s) ctx).

Definition handleStatus (s : StatusServer) : Go W response :=
  st ← call provider_State;
  mret {| resp_ContentType := "application/json";
          resp_Status := if healthy s st then 200 else 503;
          resp_Body := encode_response (status_response (ss_zone s) st) |}.
End servers.

(** * Reading the status *)

(** A client's [json.Unmarshal] into a StatusResponse. *)
Definition zero_response : StatusResponse := mkStatusResponse "" "" "" "" 0%Z 0%Z 0%Z "" "".

Definition set_response_field (key : string) (v : json) (r : StatusResponse)
    : result StatusResponse :=
  let '(mkStatusResponse node lag holder failover processed failed lsn flush slot) := r in
  if is_field "active_node" key then
    node ← decode_string v node;
    Ok (mkStatusResponse node lag holder failover processed failed lsn flush slot)
  else if is_field "replication_lag" key then
    lag ← decode_string v lag;
    Ok (mkStatusResponse node lag holder failover processed failed lsn flush slot)
  else if is_field "lock_holder" key then
    holder ← decode_string v holder;
    Ok (mkStatusResponse node lag holder failover processed failed lsn flush slot)
  else if is_field "last_failover_time" key then
    failover ← decode_string v failover;
    Ok (mkStatusResponse node lag holder failover processed failed lsn flush slot)
  else if is_field "events_processed" key then
    processed ← decode_int int_min int_max v processed;
    Ok (mkStatusResponse node lag holder failover processed failed lsn flush slot)
  else if is_field "events_failed" key then
    failed ← decode_int int_min int_max v failed;
    Ok (mkStatusResponse node lag holder failover processed failed lsn flush slot)
  else if is_field "last_lsn" key then
    lsn ← decode_int 0 18446744073709551615 v lsn;
    Ok (mkStatusResponse node lag holder failover processed failed lsn flush slot)
  else if is_field "last_flush_time" key then
    flush ← decode_string v flush;
    Ok (mkStatusResponse node lag holder failover processed failed lsn flush slot)
  else if is_field "slot_name" key then
    slot ← decode_string v slot;
    Ok (mkStatusResponse node lag holder failover processed failed lsn flush slot)
  else Ok r.

Definition decode_response (body : string) : result StatusResponse :=
  Unmarshal set_response_field body zero_response.
