(* ===== verification/Metrics.v ===== *)
(** internal/metrics/metrics.go: the Prometheus metrics of the engine.

    [New] registers the collectors, which are the client library's; in use the
    model keeps the calls the program makes on them, oldest first. *)
From S2P Require Import Prelude GoTime Backoff.

Inductive Metric : Type :=
  | M_ReplicationLag
  | M_EventsProcessed
  | M_EventsFailed
  | M_BatchSize
  | M_FlushDuration
  | M_DBConnectionsActive
  | M_DBConnectionErrors
  | M_ActiveNode
  | M_FailoverEvents
  | M_SplitBrainEvents
  | M_LockHeld
  | M_LockAcquireDuration.

#[export] Instance Metric_eq_dec : EqDecision Metric.
Proof. solve_decision. Defined.

(** ** Registration *)

Inductive collector : Type :=
  | Gauge
  | Counter
  | Histogram (Buckets : list float64).

Record MetricOpts : Type := mkMetricOpts {
  mo_collector : collector;
  mo_Name : string;
  mo_Help : string;
}.

Definition batch_buckets : list float64 := f64_of_Z <$> [1; 5; 10; 25; 50; 100; 250; 500]%Z.

Section registration.
(** [prometheus.DefBuckets], of the client library. *)
Context (DefBuckets : list float64).

(** The options a field of [Metrics] is created with. *)
Definition metric_opts (m : Metric) : MetricOpts :=
  match m with
  | M_ReplicationLag => mkMetricOpts Gauge
      "state_sync_replication_lag_seconds" "Current replication lag in seconds."
  | M_EventsProcessed => mkMetricOpts Counter
      "state_sync_events_processed_total" "Total change events processed."
  | M_EventsFailed => mkMetricOpts Counter
      "state_sync_events_failed_total" "Failed replication attempts."
  | M_BatchSize => mkMetricOpts (Histogram batch_buckets)
      "state_sync_batch_size" "Number of events per batch."
  | M_FlushDuration => mkMetricOpts (Histogram DefBuckets)
      "state_sync_flush_duration_seconds" "Time to flush batch to cloud."
  | M_DBConnectionsActive => mkMetricOpts Gauge
      "state_sync_db_connections_active" "Active database connections."
  | M_DBConnectionErrors => mkMetricOpts Counter
      "state_sync_db_connection_errors_total" "Connection failure count."
  | M_ActiveNode => mkMetricOpts Gauge
      "state_sync_active_node" "Current active node (0=local, 1=cloud)."
  | M_FailoverEvents => mkMetricOpts Counter
      "state_sync_failover_events_total" "Number of failover events."
  | M_SplitBrainEvents => mkMetricOpts Counter
      "state_sync_split_brain_events_total" "Split-brain condition detections."
  | M_LockHeld => mkMetricOpts Gauge
      "state_sync_lock_held" "Whether this instance holds the lock (0/1)."
  | M_LockAcquireDuration => mkMetricOpts (Histogram DefBuckets)
      "state_sync_lock_acquire_duration_seconds" "Time to acquire lock."
  end.

(** What [New] registers, in order. *)
Definition New : list (Metric * MetricOpts) :=
  (fun m => (m, metric_opts m)) <$>
  [M_ReplicationLag; M_EventsProcessed; M_EventsFailed; M_BatchSize; M_FlushDuration;
   M_DBConnectionsActive; M_DBConnectionErrors; M_ActiveNode; M_FailoverEvents;
   M_SplitBrainEvents; M_LockHeld; M_LockAcquireDuration].

(** Registering the same name twice would panic: no name is. *)
Lemma New_names_distinct : NoDup ((fun o => mo_Name o.2) <$> New).
Proof. apply (bool_decide_unpack _). vm_compute. exact I. Qed.

(** Every field has its collector. *)
Lemma New_complete (m : Metric) : (m, metric_opts m) ∈ New.
Proof. unfold New. apply list_elem_of_fmap. exists m. split; [done|].
  destruct m; repeat first [left | right]. Qed.
End registration.

(** ** Use *)

(** A value is a count, or a duration in seconds. *)
Inductive metric_value : Type :=
  | Count (n : Z)
  | Seconds (d : Duration).

Inductive metric_op : Type :=
  | MSet (m : Metric) (v : metric_value)
  | MAdd (m : Metric) (v : metric_value)
  | MInc (m : Metric)
  | MObserve (m : Metric) (v : metric_value).

Definition Metrics : Type := list metric_op.

(** The value of a counter after a sequence of calls. *)
Definition counter_value (m : Metric) (ops : Metrics) : Z :=
  foldr (fun o acc => (acc + match o with
    | MInc m' => if decide (m = m') then 1 else 0
    | MAdd m' (Count n) => if decide (m = m') then n else 0
    | _ => 0 end)%Z) 0%Z ops.

Lemma counter_value_app (m : Metric) (ops1 ops2 : Metrics) :
  counter_value m (ops1 ++ ops2) = (counter_value m ops1 + counter_value m ops2)%Z.
Proof. induction ops1 as [|o ops1 IH]; simpl; [lia|]. rewrite IH. lia. Qed.
#[export] Hint Rewrite counter_value_app : go.

(** Calls on a collector that may be nil ([if fm.metrics != nil]). *)
Definition metric_calls (ops : Metrics) (m : option Metrics) : option Metrics :=
  (fun done => done ++ ops) <$> m.

Lemma metric_calls_nil (m : option Metrics) : metric_calls [] m = m.
Proof. destruct m; simpl; [by rewrite app_nil_r|done]. Qed.

Lemma metric_calls_app (ops1 ops2 : Metrics) (m : option Metrics) :
  metric_calls ops2 (metric_calls ops1 m) = metric_calls (ops1 ++ ops2) m.
Proof. destruct m; simpl; [by rewrite app_assoc|done]. Qed.
