(* ===== verification/Halting.v ===== *)
(** A goroutine that its creator does not wait for.

    [halting W] is the world [W] as seen by a goroutine that makes a bounded
    number of calls before the process ends: the calls that are left are
    counted, and the next one does not come back.  [stopped_after k m] runs [m]
    that way: the calls made have had their effects on the world, and the
    result is [None] unless [m] has come to its end within [k] calls.  Reading
    the clock and waiting are not counted. *)
From S2P Require Import Prelude GoErrors GoTime Interfaces State.

Record halting (W : Type) : Type := mkHalting {
  h_left : nat;
  h_world : W;
}.
Arguments mkHalting {W} h_left h_world.
Arguments h_left {W} h.
Arguments h_world {W} h.

Definition counting {W A} (m : Go W A) : Go (halting W) A := fun h =>
  match h_left h with
  | O => (OutOfFuel, h)
  | S k => let '(r, w) := m (h_world h) in (r, mkHalting k w)
  end.

Definition uncounted {W A} (f : W -> A * W) (h : halting W) : A * halting W :=
  let '(a, w) := f (h_world h) in (a, mkHalting (h_left h) w).

Definition stopped_after {W A} (k : nat) (m : Go (halting W) A) : Go W (option A) := fun w =>
  match m (mkHalting k w) with
  | (Ret a, h) => (Ret (Some a), h_world h)
  | (Panic msg, h) => (Panic msg, h_world h)
  | (OutOfFuel, h) => (Ret None, h_world h)
  end.

Section instances.
Context {W : Type}.

#[export] Instance halting_runtime `{Runtime W} : Runtime (halting W) := {|
  rt_now := uncounted rt_now;
  rt_wait ctx d := uncounted (rt_wait ctx d);
|}.

#[export] Instance halting_subscriber `{ReplicationSubscriber W} :
  ReplicationSubscriber (halting W) := {|
  sub_Connect ctx db := counting (sub_Connect ctx db);
  sub_Subscribe ctx slot tables := counting (sub_Subscribe ctx slot tables);
  sub_Acknowledge ctx lsn := counting (sub_Acknowledge ctx lsn);
  sub_Close := counting sub_Close;
|}.

#[export] Instance halting_publisher `{ReplicationPublisher W} :
  ReplicationPublisher (halting W) := {|
  pub_Publish ctx evs := counting (pub_Publish ctx evs);
  pub_HealthCheck ctx := counting (pub_HealthCheck ctx);
|}.

#[export] Instance halting_store `{StateStore W} : StateStore (halting W) := {|
  store_Load := counting store_Load;
  store_Save rs := counting (store_Save rs);
|}.
End instances.
