(* ===== verification/Engine.v ===== *)
(** internal/engine/engine.go: the replication engine.

    The engine is a record passed along explicitly; the subscriber, publisher,
    store and runtime are the classes of Interfaces.v and State.v over a world
    [W].  One goroutine runs the loop and its flushes, so a flush is one
    uninterrupted computation on the engine; the mutex only makes the snapshots
    of [State] consistent, and every critical section writes a whole record.
    The last flush runs in the goroutine of [shutdown], which may be left
    unfinished (Halting.v). *)
From S2P Require Import Prelude GoErrors GoTime Interfaces CircuitBreaker Backoff Config State.
From S2P Require Import Metrics Halting.

Record Engine : Type := mkEngine {
  e_cfg : Config;
  e_state : option ReplicationState;   (** a pointer, nil before [Run] *)
  e_buffer : list ChangeEvent;
  e_cloudBreaker : CircuitBreaker;
  e_metrics : option Metrics;
}.

Definition set_state (rs : ReplicationState) (e : Engine) : Engine :=
  mkEngine (e_cfg e) (Some rs) (e_buffer e) (e_cloudBreaker e) (e_metrics e).
Definition set_buffer (b : list ChangeEvent) (e : Engine) : Engine :=
  mkEngine (e_cfg e) (e_state e) b (e_cloudBreaker e) (e_metrics e).
Definition set_breaker (cb : CircuitBreaker) (e : Engine) : Engine :=
  mkEngine (e_cfg e) (e_state e) (e_buffer e) cb (e_metrics e).
Definition add_metrics (ops : Metrics) (e : Engine) : Engine :=
  mkEngine (e_cfg e) (e_state e) (e_buffer e) (e_cloudBreaker e) (metric_calls ops (e_metrics e)).

Definition shutdownTimeout : Duration := (30 * Second)%Z.

Definition New (cfg : Config) (m : option Metrics) : Engine :=
  {| e_cfg := cfg;
     e_state := None;
     e_buffer := [];
     e_cloudBreaker := NewCircuitBreaker
       {| FailureThreshold := 5; RetryInterval := (5 * Minute)%Z |};
     e_metrics := m |}.

Definition toDBConfig (db : DatabaseConfig) : DBConfig :=
  {| db_Host := Host db;
     db_Port := Port db;
     db_Database := Database db;
     db_User := User db;
     db_Password := Password db;
     db_SSLMode := SSLMode db;
     db_SSLRootCertPath := SSLRootCertPath db;
     db_ReplicationSlot := ReplicationSlot db |}.

(** [State()]: a snapshot, the zero value before [Run]. *)
Definition State (e : Engine) : ReplicationState := default zero_state (e_state e).

(** * Flushing *)

Definition publishBackoff : BackoffConfig :=
  {| InitialDelay := (1 * Second)%Z; MaxDelay := (8 * Second)%Z; Multiplier := f64_of_Z 2 |}.

(** The loop that finds the highest LSN and the latest timestamp of a batch. *)
Fixpoint batch_extent (batch : list ChangeEvent) (maxLSN : LSN) (latest : Time) : LSN * Time :=
  match batch with
  | [] => (maxLSN, latest)
  | ev :: batch =>
      batch_extent batch
        (if (maxLSN <? ev_LSN ev)%Z then ev_LSN ev else maxLSN)
        (if After (ev_Timestamp ev) latest then ev_Timestamp ev else latest)
  end.

Definition batch_len (batch : list ChangeEvent) : Z := Z.of_nat (length batch).

Definition count_failed (batch : list ChangeEvent) (rs : ReplicationState) : ReplicationState :=
  {| SlotName := SlotName rs; LastLSN := LastLSN rs; LastFlushTime := LastFlushTime rs;
     EventsProcessed := EventsProcessed rs;
     EventsFailed := wrap64 (EventsFailed rs + batch_len batch);
     CurrentLag := CurrentLag rs; ActiveNode := ActiveNode rs; LockHolder := LockHolder rs;
     LastFailoverTime := LastFailoverTime rs |}.

Definition count_flushed (slot : string) (now : Time) (batch : list ChangeEvent)
    (rs : ReplicationState) : ReplicationState :=
  let '(maxLSN, latestTimestamp) := batch_extent batch 0%Z zero_time in
  {| SlotName := slot; LastLSN := maxLSN; LastFlushTime := now;
     EventsProcessed := wrap64 (EventsProcessed rs + batch_len batch);
     EventsFailed := EventsFailed rs;
     CurrentLag :=
       if negb (IsZero latestTimestamp) then Sub now latestTimestamp else CurrentLag rs;
     ActiveNode := ActiveNode rs; LockHolder := LockHolder rs;
     LastFailoverTime := LastFailoverTime rs |}.

(** Structured logging is not modelled: the log callback does nothing else. *)
Definition log_retry {W} : option (Z -> error -> Duration -> Go W unit) :=
  Some (fun _ _ _ => mret tt).

Definition nil_dereference : string :=
  "runtime error: invalid memory address or nil pointer dereference".

Definition circuit_open_error : error :=
  Errorf "circuit breaker open: cloud database unavailable" [].

Section engine.
Context {W : Type} `{Runtime W, ReplicationSubscriber W, ReplicationPublisher W, StateStore W}.

(** The part of [flush] after a successful publish. *)
Definition flush_published (ctx : Context) (flushStart : Time) (batch : list ChangeEvent)
    (e : Engine) : Go W (Engine * option error) :=
  let e := set_breaker (RecordSuccess (e_cloudBreaker e)) e in
  let '(maxLSN, _) := batch_extent batch 0%Z zero_time in
  _ ← (if (0 <? maxLSN)%Z then sub_Acknowledge ctx maxLSN else mret None);
  now ← call rt_now;
  match e_state e with
  | None => panic nil_dereference
  | Some rs =>
      let rs := count_flushed (ReplicationSlot (LocalDatabase (e_cfg e))) now batch rs in
      elapsed ← (if e_metrics e is Some _ then call rt_now else mret now);
      let e := add_metrics [MAdd M_EventsProcessed (Count (batch_len batch));
                            MObserve M_BatchSize (Count (batch_len batch));
                            MObserve M_FlushDuration (Seconds (Sub elapsed flushStart));
                            MSet M_ReplicationLag (Seconds (CurrentLag rs))]
                 (set_state rs e) in
      _ ← store_Save rs;
      mret (e, None)
  end.

(** The part of [flush] after the attempts to publish are used up. *)
Definition flush_failed (batch : list ChangeEvent) (err : error) (e : Engine)
    : Go W (Engine * option error) :=
  now ← call rt_now;
  let e := set_breaker (RecordFailure now (e_cloudBreaker e)) e in
  let e := set_buffer (batch ++ e_buffer e) e in
  match e_state e with
  | None => panic nil_dereference
  | Some rs =>
      let e := add_metrics [MAdd M_EventsFailed (Count (batch_len batch));
                            MInc M_DBConnectionErrors]
                 (set_state (count_failed batch rs) e) in
      mret (e, Some (Wrapf "publishing batch of %d events: %w" [AInt (batch_len batch)] err))
  end.

Definition flush (ctx : Context) (e : Engine) : Go W (Engine * option error) :=
  match e_buffer e with
  | [] => mret (e, None)
  | _ :: _ =>
      let batch := e_buffer e in
      let e := set_buffer [] e in
      flushStart ← call rt_now;
      now ← call rt_now;
      let '(allowed, cb) := Allow now (e_cloudBreaker e) in
      let e := set_breaker cb e in
      if negb allowed
      then mret (set_buffer (batch ++ e_buffer e) e, Some circuit_open_error)
      else
        publishErr ← Do ctx publishBackoff 3 log_retry (fun ctx => pub_Publish ctx batch) 3;
        match publishErr with
        | Some err => flush_failed batch err e
        | None => flush_published ctx flushStart batch e
        end
  end.

(** * Shutting down *)

Definition shutdownWork (ctx : Context) (e : Engine) : Go W (Engine * option error) :=
  '(e, shutdownErr) ← flush ctx e;
  match e_state e with
  | None => panic nil_dereference
  | Some stateSnapshot =>
      saveErr ← store_Save stateSnapshot;
      let shutdownErr := first_error shutdownErr saveErr in
      closeErr ← sub_Close;
      mret (e, first_error shutdownErr closeErr)
  end.

End engine.

Definition shutdown_timeout_error : error :=
  Errorf "shutdown timed out after %s" [AInt shutdownTimeout].

Section shutdown.
Context {W : Type} `{Runtime W, ReplicationSubscriber W, ReplicationPublisher W, StateStore W}.

(** [ctx] is the shutdown context.  The work runs in a goroutine of its own and
    [timer] is what the [select] of [shutdown] received: [None] is the result of
    the work, [Some k] the end of the 30 seconds.  Then [shutdown] returns the
    error of the timer at once, the work is where it is, and [k] is the number
    of calls the goroutine completes before the process ends; its memory is its
    own from then on, so the engine that is returned is the one it was given,
    unless it has come to its end by then. *)
Definition shutdown (ctx : Context) (timer : option nat) (e : Engine)
    : Go W (Engine * option error) :=
  match timer with
  | None => shutdownWork ctx e
  | Some k =>
      done ← stopped_after k (shutdownWork ctx e);
      mret (default e (fst <$> done), Some shutdown_timeout_error)
  end.

(** * The loop *)

(** The period of the ticker. *)
Definition flushInterval (e : Engine) : Duration :=
  let d := FlushInterval (Replication (e_cfg e)) in
  if (d <=? 0)%Z then Second else d.

(** What the [select] of [loop] received. *)
Inductive loop_input : Type :=
  | CtxDone (shutdownCtx : Context) (timer : option nat)
  | ChannelClosed (shutdownCtx : Context) (timer : option nat)
  | Event (ev : ChangeEvent)
  | Tick.

(** One iteration: [None] is another round, [Some err] the return. *)
Definition loop_iter (e : Engine) (i : loop_input) : Go W (Engine * option (option error)) :=
  match i with
  | CtxDone ctx timer | ChannelClosed ctx timer =>
      '(e, err) ← shutdown ctx timer e;
      mret (e, Some err)
  | Event ev =>
      let e := set_buffer (e_buffer e ++ [ev]) e in
      if (BatchSize (Replication (e_cfg e)) <=? Z.of_nat (length (e_buffer e)))%Z
      then '(e, _) ← flush Background e; mret (e, None)
      else mret (e, None)
  | Tick =>
      if decide (0 < length (e_buffer e))
      then '(e, _) ← flush Background e; mret (e, None)
      else mret (e, None)
  end.

(** The loop over the inputs it receives; the result is [None] when it is
    still waiting for more, and the inputs it did not take are returned. *)
Fixpoint loop (e : Engine) (inputs : list loop_input)
    : Go W (Engine * option (option error) * list loop_input) :=
  match inputs with
  | [] => mret (e, None, [])
  | i :: inputs =>
      '(e, r) ← loop_iter e i;
      match r with
      | Some err => mret (e, Some err, inputs)
      | None => loop e inputs
      end
  end.

(** * Running *)

(** [make([]ChangeEvent, 0, n)] panics on a capacity that is negative or
    larger than the address space (80 bytes per event, 48-bit addresses). *)
Definition make_events (n : Z) : Go W (list ChangeEvent) :=
  if ((n <? 0) || (2 ^ 48 <? n * 80))%Z then panic "runtime error: makeslice: cap out of range"
  else mret [].

(** [fuel] bounds the number of connection attempts, which [Run] does not. *)
Definition Run (fuel : nat) (ctx : Context) (e : Engine) (inputs : list loop_input)
    : Go W (Engine * option (option error) * list loop_input) :=
  loaded ← store_Load;
  match loaded with
  | Err err => mret (e, Some (Some (Wrapf "loading replication state: %w" [] err)), inputs)
  | Ok rs =>
      buffer ← make_events (BatchSize (Replication (e_cfg e)));
      let e := set_buffer buffer (set_state rs e) in
      let localDB := toDBConfig (LocalDatabase (e_cfg e)) in
      err ← Do ctx DefaultBackoff 0 log_retry (fun ctx => sub_Connect ctx localDB) fuel;
      match err with
      | Some err => mret (e, Some (Some (Wrapf "connecting subscriber: %w" [] err)), inputs)
      | None =>
          err ← sub_Subscribe ctx (ReplicationSlot (LocalDatabase (e_cfg e)))
                  (Tables (Replication (e_cfg e)));
          match err with
          | Some err => mret (e, Some (Some (Wrapf "starting subscription: %w" [] err)), inputs)
          | None => loop e inputs
          end
      end
  end.
End shutdown.

(** [signal.NotifyContext]: a context that is done when one of the signals
    arrives, and the stop function that unregisters them. *)
Class Signals (W : Type) : Type := {
  signal_NotifyContext : Context -> list string -> W -> Context * W;
  signal_stop : Context -> W -> unit * W;
}.

Definition SignalAwareRun {W : Type} `{Signals W, Runtime W, ReplicationSubscriber W}
    `{ReplicationPublisher W, StateStore W} (fuel : nat) (e : Engine) (inputs : list loop_input)
    : Go W (Engine * option (option error) * list loop_input) :=
  let ctx := Background in
  sigCtx ← call (signal_NotifyContext ctx ["interrupt"; "terminated"]);
  out ← Run fuel sigCtx e inputs;
  _ ← call (signal_stop sigCtx);
  mret out.
