(* ===== verification/Trace.v ===== *)
(** Recording the calls a component makes.

    [traced W] is the world [W] with the list of the calls made so far on the
    subscriber, the publisher, the store, the lock and the coordinator, with
    their answers.  Every environment can be recorded, so a statement about the
    recorded calls is a statement about every environment. *)
From S2P Require Import Prelude GoErrors GoTime Interfaces State Halting.

Inductive call_event : Type :=
  | CallLoad (r : result ReplicationState)
  | CallConnect (db : DBConfig) (r : option error)
  | CallSubscribe (slot : string) (tables : list string) (r : option error)
  | CallPublish (evs : list ChangeEvent) (r : option error)
  | CallHealthCheck (r : option error)
  | CallAcknowledge (lsn : LSN) (r : option error)
  | CallSave (rs : ReplicationState) (r : option error)
  | CallClose (r : option error)
  | CallAcquire (key : string) (ttl : Duration) (r : bool * option error)
  | CallRenew (key : string) (ttl : Duration) (r : option error)
  | CallRelease (key : string) (r : option error)
  | CallGetHolder (key : string) (r : string * option error)
  | CallSetReadOnly (db : DBConfig) (r : option error)
  | CallSetReadWrite (db : DBConfig) (r : option error)
  | CallGetState (db : DBConfig) (r : DatabaseState * option error).

Record traced (W : Type) : Type := mkTraced {
  inner : W;
  trace : list call_event;
}.
Arguments mkTraced {W} inner trace.
Arguments inner {W} t.
Arguments trace {W} t.

Definition recording {W A} (m : Go W A) (f : A -> call_event) : Go (traced W) A := fun w =>
  match m (inner w) with
  | (Ret a, w') => (Ret a, mkTraced w' (trace w ++ [f a]))
  | (Panic msg, w') => (Panic msg, mkTraced w' (trace w))
  | (OutOfFuel, w') => (OutOfFuel, mkTraced w' (trace w))
  end.

Section instances.
Context {W : Type}.

#[export] Instance traced_runtime `{Runtime W} : Runtime (traced W) := {|
  rt_now w := let '(t, w') := rt_now (inner w) in (t, mkTraced w' (trace w));
  rt_wait ctx d w := let '(r, w') := rt_wait ctx d (inner w) in (r, mkTraced w' (trace w));
|}.

#[export] Instance traced_subscriber `{ReplicationSubscriber W} :
  ReplicationSubscriber (traced W) := {|
  sub_Connect ctx db := recording (sub_Connect ctx db) (CallConnect db);
  sub_Subscribe ctx slot tables :=
    recording (sub_Subscribe ctx slot tables) (CallSubscribe slot tables);
  sub_Acknowledge ctx lsn := recording (sub_Acknowledge ctx lsn) (CallAcknowledge lsn);
  sub_Close := recording sub_Close CallClose;
|}.

#[export] Instance traced_publisher `{ReplicationPublisher W} :
  ReplicationPublisher (traced W) := {|
  pub_Publish ctx evs := recording (pub_Publish ctx evs) (CallPublish evs);
  pub_HealthCheck ctx := recording (pub_HealthCheck ctx) CallHealthCheck;
|}.

#[export] Instance traced_store `{StateStore W} : StateStore (traced W) := {|
  store_Load := recording store_Load CallLoad;
  store_Save rs := recording (store_Save rs) (CallSave rs);
|}.

#[export] Instance traced_lock `{DistributedLock W} : DistributedLock (traced W) := {|
  lock_Acquire ctx key ttl := recording (lock_Acquire ctx key ttl) (CallAcquire key ttl);
  lock_Renew ctx key ttl := recording (lock_Renew ctx key ttl) (CallRenew key ttl);
  lock_Release ctx key := recording (lock_Release ctx key) (CallRelease key);
  lock_GetHolder ctx key := recording (lock_GetHolder ctx key) (CallGetHolder key);
|}.

#[export] Instance traced_coordinator `{StateCoordinator W} : StateCoordinator (traced W) := {|
  coord_SetReadOnly ctx db := recording (coord_SetReadOnly ctx db) (CallSetReadOnly db);
  coord_SetReadWrite ctx db := recording (coord_SetReadWrite ctx db) (CallSetReadWrite db);
  coord_GetState ctx db := recording (coord_GetState ctx db) (CallGetState db);
|}.
End instances.

(** Every method returns, none panics or blocks for ever, and keeps [Inv], a
    property of the calls made so far and of the state of the world. *)
Class Responds (W : Type) (Inv : list call_event -> W -> Prop)
  `{Runtime W, ReplicationSubscriber W, ReplicationPublisher W, StateStore W} : Prop := {
  responds_now calls w : Inv calls w -> Inv calls (rt_now w).2;
  responds_wait ctx d calls w : Inv calls w -> Inv calls (rt_wait ctx d w).2;
  responds_Connect ctx db calls w : Inv calls w ->
    wp (sub_Connect (W := W) ctx db) (fun r => Inv (calls ++ [CallConnect db r])) w;
  responds_Subscribe ctx slot tables calls w : Inv calls w ->
    wp (sub_Subscribe (W := W) ctx slot tables)
      (fun r => Inv (calls ++ [CallSubscribe slot tables r])) w;
  responds_Acknowledge ctx lsn calls w : Inv calls w ->
    wp (sub_Acknowledge (W := W) ctx lsn) (fun r => Inv (calls ++ [CallAcknowledge lsn r])) w;
  responds_Close calls w : Inv calls w ->
    wp (sub_Close (W := W)) (fun r => Inv (calls ++ [CallClose r])) w;
  responds_Publish ctx evs calls w : Inv calls w ->
    wp (pub_Publish (W := W) ctx evs) (fun r => Inv (calls ++ [CallPublish evs r])) w;
  responds_HealthCheck ctx calls w : Inv calls w ->
    wp (pub_HealthCheck (W := W) ctx) (fun r => Inv (calls ++ [CallHealthCheck r])) w;
  responds_Load calls w : Inv calls w ->
    wp (store_Load (W := W)) (fun r => Inv (calls ++ [CallLoad r])) w;
  responds_Save rs calls w : Inv calls w ->
    wp (store_Save (W := W) rs) (fun r => Inv (calls ++ [CallSave rs r])) w;
}.

(** The environments of which nothing is known but that they answer. *)
Abbreviation Responsive W := (Responds W (fun _ _ => True)).

(** Two properties that every method keeps are kept together. *)
Lemma wp_and {W A} (m : Go W A) (P Q : A -> W -> Prop) (w : W) :
  wp m P w -> wp m Q w -> wp m (fun a w' => P a w' /\ Q a w') w.
Proof. unfold wp. by destruct (m w) as [[a|msg|] w']. Qed.

Lemma Responds_and {W : Type} (P Q : list call_event -> W -> Prop)
    `{HP : Responds W P, !Responds W Q} : Responds W (fun calls w => P calls w /\ Q calls w).
Proof.
  split; intros; destruct_and?; first [apply wp_and | split];
    by first [ apply responds_now | apply responds_wait | apply responds_Connect
             | apply responds_Subscribe | apply responds_Acknowledge | apply responds_Close
             | apply responds_Publish | apply responds_HealthCheck | apply responds_Load
             | apply responds_Save ].
Qed.

Definition holds {W} (Inv : list call_event -> W -> Prop) (w : traced W) : Prop :=
  Inv (trace w) (inner w).

Lemma wp_recording {W A} (m : Go W A) (f : A -> call_event) (Inv : list call_event -> W -> Prop)
    (Q : A -> traced W -> Prop) (w : traced W) :
  wp m (fun a => Inv (trace w ++ [f a])) (inner w) ->
  (forall a w', holds Inv w' -> trace w' = trace w ++ [f a] -> Q a w') ->
  wp (recording m f) Q w.
Proof.
  unfold wp, recording. destruct (m (inner w)) as [[a|msg|] w']; [|done..].
  intros HP HQ. by apply HQ.
Qed.

(** * Reading a trace *)

(** The events of the successful calls of [Publish], in order. *)
Definition published_by (c : call_event) : list ChangeEvent :=
  match c with CallPublish evs None => evs | _ => [] end.
Definition published (calls : list call_event) : list ChangeEvent :=
  concat (published_by <$> calls).

Lemma published_app (calls1 calls2 : list call_event) :
  published (calls1 ++ calls2) = published calls1 ++ published calls2.
Proof. unfold published. by rewrite fmap_app, concat_app. Qed.
#[export] Hint Rewrite published_app : go.

(** Failed attempts to publish a batch. *)
Definition attempts (batch : list ChangeEvent) (errs : list error) : list call_event :=
  (fun err => CallPublish batch (Some err)) <$> errs.

Lemma published_attempts (batch : list ChangeEvent) (errs : list error) :
  published (attempts batch errs) = [].
Proof. induction errs; [done|]. simpl. done. Qed.
#[export] Hint Rewrite published_attempts : go.

(** * Recording changes nothing

    [erases p mt m]: the computation [mt] on a larger world does what [m] does
    on the part [p] of it. *)
Definition erases {W1 W2 A} (p : W1 -> W2) (mt : Go W1 A) (m : Go W2 A) : Prop :=
  forall w, m (p w) = ((mt w).1, p (mt w).2).

Section erases.
Context {W1 W2 : Type} (p : W1 -> W2).

Lemma erases_ret {A} (a : A) : erases p (mret a) (mret a).
Proof. done. Qed.

Lemma erases_panic {A} (msg : string) : erases p (A := A) (panic msg) (panic msg).
Proof. done. Qed.

Lemma erases_out_of_fuel {A} : erases p (A := A) out_of_fuel out_of_fuel.
Proof. done. Qed.

Lemma erases_bind {A B} (mt : Go W1 A) (m : Go W2 A) (ft : A -> Go W1 B) (f : A -> Go W2 B) :
  erases p mt m -> (forall a, erases p (ft a) (f a)) -> erases p (mt ≫= ft) (m ≫= f).
Proof.
  intros Hm Hf w. unfold mbind, Go_bind. rewrite (Hm w).
  destruct (mt w) as [[a|msg|] w']; simpl; [apply Hf|done..].
Qed.
End erases.

(** The methods of the larger world do what those of its part do. *)
Class Projects {W1 W2 : Type} (p : W1 -> W2)
  `{Runtime W1, ReplicationSubscriber W1, ReplicationPublisher W1, StateStore W1}
  `{Runtime W2, ReplicationSubscriber W2, ReplicationPublisher W2, StateStore W2} : Prop := {
  erases_now : erases p (call rt_now) (call rt_now);
  erases_wait ctx d : erases p (call (rt_wait ctx d)) (call (rt_wait ctx d));
  erases_Connect ctx db : erases p (sub_Connect ctx db) (sub_Connect ctx db);
  erases_Subscribe ctx slot tables :
    erases p (sub_Subscribe ctx slot tables) (sub_Subscribe ctx slot tables);
  erases_Acknowledge ctx lsn : erases p (sub_Acknowledge ctx lsn) (sub_Acknowledge ctx lsn);
  erases_Close : erases p sub_Close sub_Close;
  erases_Publish ctx evs : erases p (pub_Publish ctx evs) (pub_Publish ctx evs);
  erases_HealthCheck ctx : erases p (pub_HealthCheck ctx) (pub_HealthCheck ctx);
  erases_Load : erases p store_Load store_Load;
  erases_Save rs : erases p (store_Save rs) (store_Save rs);
}.

Ltac erase_call :=
  first [ apply erases_now | apply erases_wait | apply erases_Connect | apply erases_Subscribe
        | apply erases_Acknowledge | apply erases_Close | apply erases_Publish
        | apply erases_HealthCheck | apply erases_Load | apply erases_Save ].

Section recording.
Context {W : Type}.

Lemma erases_recording {A} (m : Go W A) (f : A -> call_event) : erases inner (recording m f) m.
Proof. intros w. unfold recording. by destruct (m (inner w)) as [[a|msg|] w']. Qed.

(** The world within its recording. *)
#[export] Instance inner_projects
    `{Runtime W, ReplicationSubscriber W, ReplicationPublisher W, StateStore W} :
  Projects (inner (W := W)).
Proof.
  split; intros; try apply erases_recording; intros w; unfold call; simpl.
  - by destruct (rt_now (inner w)).
  - by destruct (rt_wait ctx d (inner w)).
Qed.

Lemma wp_erases {A} (mt : Go (traced W) A) (m : Go W A) (Q : A -> W -> Prop) (w : W)
    (calls : list call_event) :
  erases inner mt m -> wp mt (fun a w' => Q a (inner w')) (mkTraced w calls) -> wp m Q w.
Proof.
  intros Her. unfold wp. specialize (Her (mkTraced w calls)). simpl in Her. rewrite Her.
  by destruct (mt _) as [[a|msg|] w'].
Qed.
End recording.

Section halting.
Context {W1 W2 : Type} (p : W1 -> W2).

Definition under (h : halting W1) : halting W2 := mkHalting (h_left h) (p (h_world h)).

Lemma erases_counting {A} (mt : Go W1 A) (m : Go W2 A) :
  erases p mt m -> erases under (counting mt) (counting m).
Proof.
  intros Hm h. unfold counting. simpl. destruct (h_left h); [done|].
  rewrite (Hm (h_world h)). by destruct (mt (h_world h)) as [r w].
Qed.

Lemma erases_uncounted {A} (ft : W1 -> A * W1) (f : W2 -> A * W2) :
  erases p (call ft) (call f) -> erases under (call (uncounted ft)) (call (uncounted f)).
Proof.
  intros Hf h. specialize (Hf (h_world h)). unfold call, uncounted in *. simpl.
  destruct (ft (h_world h)) as [a w1], (f (p (h_world h))) as [b w2].
  simpl in Hf. by injection Hf as -> ->.
Qed.

(** The same goroutine, left at the same call. *)
Lemma erases_stopped_after {A} (k : nat) (mt : Go (halting W1) A) (m : Go (halting W2) A) :
  erases under mt m -> erases p (stopped_after k mt) (stopped_after k m).
Proof.
  intros Hm w. unfold stopped_after. specialize (Hm (mkHalting k w)).
  change (under (mkHalting k w)) with (mkHalting k (p w)) in Hm. rewrite Hm.
  by destruct (mt (mkHalting k w)) as [[a|msg|] h].
Qed.

#[export] Instance under_projects `{Projects W1 W2 p} : Projects under.
Proof.
  split; intros; first [apply erases_uncounted | apply erases_counting]; erase_call.
Qed.
End halting.

Create HintDb erases.
#[export] Hint Resolve erases_ret erases_panic erases_out_of_fuel : erases.
#[export] Hint Extern 1 (erases _ _ _) => erase_call : erases.

(** Descends through the binds and the case analyses of a computation. *)
Ltac erase :=
  repeat first
    [ solve [auto with erases]
    | lazymatch goal with
      | |- erases _ (mbind _ _) (mbind _ _) => apply erases_bind; [|intros]
      | |- erases _ (match ?x with _ => _ end) _ => destruct x
      end ].
