(* ===== verification/Delivery.v ===== *)
(** Delivery: what the cloud has received, in terms of the calls of [Publish].

    Over an atomic publisher the effects are exactly those of the successful
    calls; over a publisher that may leave part of a failed call behind, they
    are a redelivery of the events. *)
From S2P Require Import Prelude GoErrors GoTime Interfaces State Trace.

(** Only [Publish] touches the cloud, and every other method returns. *)
Class QuietEnvironment (W E : Type)
  `{Runtime W, ReplicationSubscriber W, ReplicationPublisher W, StateStore W, Delivery W E}
  : Prop := {
  quiet_now w : effects (rt_now w).2 = effects w;
  quiet_wait ctx d w : effects (rt_wait ctx d w).2 = effects w;
  quiet_Connect ctx db w : wp (sub_Connect (W := W) ctx db) (fun _ w' => effects w' = effects w) w;
  quiet_Subscribe ctx slot tables w :
    wp (sub_Subscribe (W := W) ctx slot tables) (fun _ w' => effects w' = effects w) w;
  quiet_Acknowledge ctx lsn w :
    wp (sub_Acknowledge (W := W) ctx lsn) (fun _ w' => effects w' = effects w) w;
  quiet_Close w : wp (sub_Close (W := W)) (fun _ w' => effects w' = effects w) w;
  quiet_HealthCheck ctx w :
    wp (pub_HealthCheck (W := W) ctx) (fun _ w' => effects w' = effects w) w;
  quiet_Load w : wp (store_Load (W := W)) (fun _ w' => effects w' = effects w) w;
  quiet_Save rs w : wp (store_Save (W := W) rs) (fun _ w' => effects w' = effects w) w;
}.

(** The effects a call can have had. *)
Definition chunk_of {E} (effect : ChangeEvent -> E) (c : call_event) (xs : list E) : Prop :=
  match c with
  | CallPublish evs None => xs = effect <$> evs
  | CallPublish evs (Some _) => exists n, xs = effect <$> take n evs
  | _ => xs = []
  end.

Lemma chunk_of_attempts {E} (effect : ChangeEvent -> E) (batch : list ChangeEvent)
    (errs : list error) (calls : list call_event) (chunks : list (list E)) :
  Forall2 (chunk_of effect) (attempts batch errs ++ calls) chunks ->
  exists partial rest, chunks = partial ++ rest /\
    Forall (fun xs => exists n, xs = effect <$> take n batch) partial /\
    Forall2 (chunk_of effect) calls rest.
Proof.
  intros (partial & rest & Hp & Hr & ->)%Forall2_app_inv_l. exists partial, rest.
  repeat split; [|done]. clear Hr. revert partial Hp.
  induction errs as [|err errs IH]; intros partial Hp; inversion Hp; subst; constructor; auto.
Qed.

Section environments.
Context {W E : Type} `{QuietEnvironment W E}.

Definition delivered_exactly (w0 : W) (calls : list call_event) (w : W) : Prop :=
  effects w = effects w0 ++ (effect <$> published calls).

Definition delivered_partly (w0 : W) (calls : list call_event) (w : W) : Prop :=
  exists chunks, Forall2 (chunk_of effect) calls chunks /\
    effects w = effects w0 ++ concat chunks.

Lemma delivered_exactly_start (w : W) : delivered_exactly w [] w.
Proof. unfold delivered_exactly. by rewrite app_nil_r. Qed.

Lemma delivered_partly_start (w : W) : delivered_partly w [] w.
Proof. exists []. split; [constructor|]. by rewrite app_nil_r. Qed.

Lemma delivered_exactly_quiet (w0 w w' : W) (calls : list call_event) (c : call_event) :
  delivered_exactly w0 calls w -> published_by c = [] -> effects w' = effects w ->
  delivered_exactly w0 (calls ++ [c]) w'.
Proof.
  unfold delivered_exactly. intros Hd Hc ->. rewrite Hd, published_app.
  unfold published at 3. simpl. by rewrite Hc, !app_nil_r.
Qed.

Lemma delivered_partly_chunk (w0 w w' : W) (calls : list call_event) (c : call_event)
    (xs : list E) :
  delivered_partly w0 calls w -> chunk_of effect c xs -> effects w' = effects w ++ xs ->
  delivered_partly w0 (calls ++ [c]) w'.
Proof.
  intros (chunks & Hchunks & Hd) Hc Heff. exists (chunks ++ [xs]). split.
  - apply Forall2_app; [done|]. by repeat constructor.
  - by rewrite Heff, Hd, concat_app, <- app_assoc; simpl; rewrite app_nil_r.
Qed.

Lemma delivered_partly_quiet (w0 w w' : W) (calls : list call_event) (c : call_event) :
  delivered_partly w0 calls w -> chunk_of effect c [] -> effects w' = effects w ->
  delivered_partly w0 (calls ++ [c]) w'.
Proof. intros Hd Hc Heff. eapply delivered_partly_chunk; eauto. by rewrite app_nil_r. Qed.

(** An atomic publisher keeps the exact account of the deliveries. *)
Lemma atomic_responds `{!AtomicPublisher W E} (w0 : W) : Responds W (delivered_exactly w0).
Proof.
  split; intros.
  1: by unfold delivered_exactly; rewrite quiet_now.
  1: by unfold delivered_exactly; rewrite quiet_wait.
  all: eapply wp_mono;
    [first [apply quiet_Connect | apply quiet_Subscribe | apply quiet_Acknowledge
           | apply quiet_Close | apply publish_atomic | apply quiet_HealthCheck
           | apply quiet_Load | apply quiet_Save]|].
  all: intros r w' Heff; try by eapply delivered_exactly_quiet.
  simpl in Heff. unfold delivered_exactly in *. rewrite Heff, published_app.
  match goal with Hd : effects w = _ |- _ => rewrite Hd end.
  rewrite fmap_app, <- app_assoc. f_equal. f_equal. unfold published. simpl.
  destruct r; simpl; [done|by rewrite app_nil_r].
Qed.

(** A publisher with partial failures keeps an account up to prefixes. *)
Lemma delivering_responds `{!DeliveringPublisher W E} (w0 : W) :
  Responds W (delivered_partly w0).
Proof.
  split; intros.
  1: by unfold delivered_partly; rewrite quiet_now.
  1: by unfold delivered_partly; rewrite quiet_wait.
  all: eapply wp_mono;
    [first [apply quiet_Connect | apply quiet_Subscribe | apply quiet_Acknowledge
           | apply quiet_Close | apply publish_delivers | apply quiet_HealthCheck
           | apply quiet_Load | apply quiet_Save]|].
  all: intros r w' Heff; try by eapply delivered_partly_quiet.
  destruct Heff as (n & Heff & Hr). eapply delivered_partly_chunk; [done| |exact Heff].
  destruct r; simpl; [by exists n|]. rewrite (Hr eq_refl). by rewrite firstn_all.
Qed.
End environments.

(** * Redelivery

    [redelivers rest all xs]: the effects [xs] deliver [all] down to what is
    left, [rest]: one by one and in order, except that at any point a prefix of
    what is next may have been delivered and then be delivered again. *)
Inductive redelivers {E} (rest : list E) : list E -> list E -> Prop :=
  | RdStop : redelivers rest rest []
  | RdNext x all xs : redelivers rest all xs -> redelivers rest (x :: all) (x :: xs)
  | RdRetry n all xs : redelivers rest all xs -> redelivers rest all (take n all ++ xs).

Lemma redelivers_app {E} (rest batch all xs : list E) :
  redelivers rest all xs -> redelivers rest (batch ++ all) (batch ++ xs).
Proof. intros. induction batch; simpl; [done|]. by constructor. Qed.

Lemma redelivers_prefixes {E} (rest batch all xs : list E) (partial : list (list E)) :
  Forall (fun ys => exists n, ys = take n batch) partial ->
  redelivers rest (batch ++ all) xs ->
  redelivers rest (batch ++ all) (concat partial ++ xs).
Proof.
  intros Hp Hr. induction Hp as [|ys partial [n ->] _ IH]; simpl; [done|].
  rewrite <- app_assoc.
  replace (take n batch) with (take (n `min` length batch) (batch ++ all)).
  - by constructor.
  - rewrite take_app_le by lia. destruct (Nat.le_gt_cases n (length batch)).
    + by replace (n `min` length batch) with n by lia.
    + rewrite !take_ge by lia. done.
Qed.

(** Deliveries follow one another, and what comes after does not matter. *)
Lemma redelivers_trans {E} (rest mid all xs ys : list E) :
  redelivers mid all xs -> redelivers rest mid ys -> redelivers rest all (xs ++ ys).
Proof.
  intros Hxs Hys. induction Hxs as [|x all xs _ IH|n all xs _ IH]; simpl; [done| |].
  - by constructor.
  - rewrite <- app_assoc. by constructor.
Qed.

Lemma redelivers_frame {E} (rest all xs after : list E) :
  redelivers rest all xs -> redelivers (rest ++ after) (all ++ after) xs.
Proof.
  induction 1 as [|x all xs _ IH|n all xs _ IH]; simpl; [constructor|by constructor|].
  replace (take n all) with (concat [take n all]) by (simpl; by rewrite app_nil_r).
  apply redelivers_prefixes; [|done]. repeat constructor. by exists n.
Qed.

(** What is delivered is all of [all] but [rest], at least once. *)
Lemma redelivers_elem {E} (rest all xs : list E) (x : E) :
  redelivers rest all xs -> x ∈ all -> x ∈ xs \/ x ∈ rest.
Proof.
  induction 1 as [|y all xs _ IH|n all xs _ IH]; intros Hx; [by right| |].
  - apply elem_of_cons in Hx as [->|Hx]; [left; left|].
    destruct (IH Hx); [left; by right|by right].
  - destruct (IH Hx); [left; apply elem_of_app; by right|by right].
Qed.

(** All that comes before the rest has been delivered. *)
Lemma redelivers_delivered {E} (rest all xs pub : list E) (x : E) :
  redelivers rest all xs -> all = pub ++ rest -> x ∈ pub -> x ∈ xs.
Proof.
  intros Hr. revert pub. induction Hr as [|y all xs Hr IH|n all xs _ IH]; intros pub Hall Hx.
  - assert (pub = []) as ->; [|by apply elem_of_nil in Hx].
    apply (f_equal length) in Hall. rewrite length_app in Hall. destruct pub; simpl in *; [done|lia].
  - destruct pub as [|z pub]; [by apply elem_of_nil in Hx|]. injection Hall as -> Hall.
    apply elem_of_cons in Hx as [->|Hx]; [by left|right; by eapply IH].
  - apply elem_of_app. right. by eapply IH.
Qed.

(** Nothing else is delivered. *)
Lemma redelivers_only {E} (rest all xs : list E) (x : E) :
  redelivers rest all xs -> x ∈ xs -> x ∈ all.
Proof.
  induction 1 as [|y all xs _ IH|n all xs _ IH]; intros Hx; [by apply elem_of_nil in Hx| |].
  - apply elem_of_cons in Hx as [->|Hx]; [by left|right; auto].
  - apply elem_of_app in Hx as [Hx|Hx]; [|auto]. by eapply elem_of_take in Hx as (i & ?%list_elem_of_lookup_2 & _).
Qed.
