(* ===== verification/EngineSpec.v ===== *)
(** The engine's guarantees, for every responsive environment.

    [flush_outcome] is the specification of a flush: the four ways it can end,
    with the calls each makes on the environment.  [wp_flush] shows that [flush]
    always ends in one of them; the properties of the loop follow by induction
    on its inputs. *)
From S2P Require Import Prelude GoErrors GoTime Interfaces CircuitBreaker Backoff Config State.
From S2P Require Import Metrics Halting Engine Trace Delivery.

(** * One flush *)

Definition ack_calls (maxLSN : LSN) (r : option error) : list call_event :=
  if (0 <? maxLSN)%Z then [CallAcknowledge maxLSN r] else [].

Definition batch_maxLSN (batch : list ChangeEvent) : LSN := (batch_extent batch 0%Z zero_time).1.

Definition slot_of (e : Engine) : string := ReplicationSlot (LocalDatabase (e_cfg e)).

(** The metrics calls of a successful flush that took from [t0] to [t1]. *)
Definition flush_metrics (batch : list ChangeEvent) (lag : Duration) (t0 t1 : Time) : Metrics :=
  [MAdd M_EventsProcessed (Count (batch_len batch)); MObserve M_BatchSize (Count (batch_len batch));
   MObserve M_FlushDuration (Seconds (Sub t1 t0)); MSet M_ReplicationLag (Seconds lag)].

Inductive flush_outcome (e : Engine) (rs : ReplicationState)
  : Engine -> option error -> list call_event -> Prop :=
  | FlushEmpty :
      e_buffer e = [] -> flush_outcome e rs e None []
  | FlushBlocked now cb :
      e_buffer e <> [] ->
      Allow now (e_cloudBreaker e) = (false, cb) ->
      flush_outcome e rs (set_breaker cb e) (Some circuit_open_error) []
  | FlushFailed now cb now' errs err :
      e_buffer e <> [] ->
      Allow now (e_cloudBreaker e) = (true, cb) ->
      1 <= length errs <= 3 ->
      flush_outcome e rs
        (add_metrics [MAdd M_EventsFailed (Count (batch_len (e_buffer e))); MInc M_DBConnectionErrors]
           (set_state (count_failed (e_buffer e) rs) (set_breaker (RecordFailure now' cb) e)))
        (Some err) (attempts (e_buffer e) errs)
  | FlushDone now cb now' t0 t1 errs ackErr saveErr :
      e_buffer e <> [] ->
      Allow now (e_cloudBreaker e) = (true, cb) ->
      length errs <= 2 ->
      let rs' := count_flushed (slot_of e) now' (e_buffer e) rs in
      flush_outcome e rs
        (add_metrics (flush_metrics (e_buffer e) (CurrentLag rs') t0 t1)
           (set_state rs' (set_buffer [] (set_breaker (RecordSuccess cb) e))))
        None
        (attempts (e_buffer e) errs ++ [CallPublish (e_buffer e) None] ++
         ack_calls (batch_maxLSN (e_buffer e)) ackErr ++ [CallSave rs' saveErr]).

Section engine.
Context {W : Type} (Inv : list call_event -> W -> Prop) `{Responds W Inv}.

(** [since w0 P]: the invariant holds, and the calls made since [w0] satisfy
    [P] together with the result. *)
Definition since {A} (w0 : traced W) (P : A -> list call_event -> Prop) (a : A)
    (w : traced W) : Prop :=
  holds Inv w /\ exists calls, trace w = trace w0 ++ calls /\ P a calls.

Lemma wp_Publish (ctx : Context) (batch : list ChangeEvent) (w : traced W)
    (Q : option error -> traced W -> Prop) :
  holds Inv w ->
  (forall r w', holds Inv w' -> trace w' = trace w ++ [CallPublish batch r] -> Q r w') ->
  wp (pub_Publish ctx batch) Q w.
Proof. intros HI. apply wp_recording. by apply responds_Publish. Qed.

Lemma wp_Save (rs : ReplicationState) (w : traced W) (Q : option error -> traced W -> Prop) :
  holds Inv w ->
  (forall r w', holds Inv w' -> trace w' = trace w ++ [CallSave rs r] -> Q r w') ->
  wp (store_Save rs) Q w.
Proof. intros HI. apply wp_recording. by apply responds_Save. Qed.

Lemma wp_Close (w : traced W) (Q : option error -> traced W -> Prop) :
  holds Inv w ->
  (forall r w', holds Inv w' -> trace w' = trace w ++ [CallClose r] -> Q r w') ->
  wp sub_Close Q w.
Proof. intros HI. apply wp_recording. by apply responds_Close. Qed.

Lemma wp_Acknowledge (ctx : Context) (lsn : LSN) (w : traced W)
    (Q : option error -> traced W -> Prop) :
  holds Inv w ->
  (forall r w', holds Inv w' -> trace w' = trace w ++ [CallAcknowledge lsn r] -> Q r w') ->
  wp (sub_Acknowledge ctx lsn) Q w.
Proof. intros HI. apply wp_recording. by apply responds_Acknowledge. Qed.

Lemma wp_Load (w : traced W) (Q : result ReplicationState -> traced W -> Prop) :
  holds Inv w ->
  (forall r w', holds Inv w' -> trace w' = trace w ++ [CallLoad r] -> Q r w') ->
  wp store_Load Q w.
Proof. intros HI. apply wp_recording. by apply responds_Load. Qed.

Lemma wp_Connect (ctx : Context) (db : DBConfig) (w : traced W)
    (Q : option error -> traced W -> Prop) :
  holds Inv w ->
  (forall r w', holds Inv w' -> trace w' = trace w ++ [CallConnect db r] -> Q r w') ->
  wp (sub_Connect ctx db) Q w.
Proof. intros HI. apply wp_recording. by apply responds_Connect. Qed.

Lemma wp_Subscribe (ctx : Context) (slot : string) (tables : list string) (w : traced W)
    (Q : option error -> traced W -> Prop) :
  holds Inv w ->
  (forall r w', holds Inv w' -> trace w' = trace w ++ [CallSubscribe slot tables r] -> Q r w') ->
  wp (sub_Subscribe ctx slot tables) Q w.
Proof. intros HI. apply wp_recording. by apply responds_Subscribe. Qed.

Lemma wp_now (w : traced W) (Q : Time -> traced W -> Prop) :
  holds Inv w ->
  (forall t w', holds Inv w' -> trace w' = trace w -> Q t w') -> wp (call rt_now) Q w.
Proof.
  intros HI HQ. apply wp_call. intros t w'. simpl.
  pose proof (responds_now _ _ HI) as HI'. destruct (rt_now (inner w)) as [t' w''].
  intros [= <- <-]. by apply HQ.
Qed.

Lemma wait_holds (ctx : Context) (d : Duration) (w w' : traced W) (r : option error) :
  rt_wait ctx d w = (r, w') -> holds Inv w -> holds Inv w' /\ trace w' = trace w.
Proof.
  intros Hw HI. pose proof (responds_wait ctx d _ _ HI) as HI'. simpl in Hw.
  destruct (rt_wait ctx d (inner w)) as [t w'']. injection Hw as <- <-. done.
Qed.

(** The attempts to publish a batch: three at most, all but the last failed. *)
Lemma wp_publish_attempts (ctx : Context) (batch : list ChangeEvent) (w : traced W) :
  holds Inv w ->
  wp (Do ctx publishBackoff 3 log_retry (fun ctx => pub_Publish ctx batch) 3)
    (since w (fun r calls => exists errs,
       match r with
       | None => length errs <= 2 /\ calls = attempts batch errs ++ [CallPublish batch None]
       | Some _ => 1 <= length errs <= 3 /\ calls = attempts batch errs
       end)) w.
Proof.
  intros HI0.
  pose (Rd := fun (k : Z) (w' : traced W) => holds Inv w' /\ exists errs,
    Z.of_nat (length errs) = k /\ trace w' = trace w ++ attempts batch errs).
  assert (Hmax : (0 < 3 <= int_max)%Z) by (int64; lia).
  apply (wp_Do_loop _ _ _ _ _ Hmax Rd);
    [|lia|lia|split; [done|exists []; by rewrite app_nil_r]].
  intros k w1 Hk (HI1 & errs & Hlen & Htr). apply wp_Publish; [done|].
  intros [err|] w2 HI2 Htr2; simpl.
  - assert (Htr' : trace w2 = trace w ++ attempts batch (errs ++ [err])).
    { rewrite Htr2, Htr, <- app_assoc. unfold attempts. by rewrite fmap_app. }
    destruct (k + 1 =? 3)%Z eqn:Elast.
    + split; [done|]. exists (attempts batch (errs ++ [err])). split; [done|].
      exists (errs ++ [err]). split; [|done]. rewrite length_app; simpl. lia.
    + apply wp_ret. intros [e|] w3 Hwait; destruct (wait_holds _ _ _ _ _ Hwait HI2) as [HI3 Htr3].
      * split; [done|]. exists (attempts batch (errs ++ [err])). split; [congruence|].
        exists (errs ++ [err]). split; [|done]. rewrite length_app; simpl. lia.
      * split; [done|]. exists (errs ++ [err]). rewrite length_app; simpl. split; [lia|congruence].
  - split; [done|]. exists (attempts batch errs ++ [CallPublish batch None]).
    rewrite Htr2, Htr, <- app_assoc. split; [done|]. exists errs. split; [lia|done].
Qed.

Lemma wp_flush_published (ctx : Context) (t0 : Time) (now : Time) (cb : CircuitBreaker)
    (errs : list error) (e : Engine) (rs : ReplicationState) (w : traced W) :
  e_state e = Some rs -> e_buffer e <> [] -> Allow now (e_cloudBreaker e) = (true, cb) ->
  length errs <= 2 -> holds Inv w ->
  wp (flush_published ctx t0 (e_buffer e) (set_breaker cb (set_buffer [] e)))
    (since w (fun '(e', r) calls => flush_outcome e rs e' r
       (attempts (e_buffer e) errs ++ [CallPublish (e_buffer e) None] ++ calls))) w.
Proof.
  intros Hrs Hne Hallow Herrs HI. unfold flush_published. simpl. rewrite Hrs.
  destruct (batch_extent (e_buffer e) 0%Z zero_time) as [maxLSN latest] eqn:Eext.
  assert (Hmax : batch_maxLSN (e_buffer e) = maxLSN) by (unfold batch_maxLSN; by rewrite Eext).
  apply wp_bind.
  apply (wp_mono _ (fun _ w1 => holds Inv w1 /\
    exists ackErr, trace w1 = trace w ++ ack_calls maxLSN ackErr)).
  { unfold ack_calls. destruct (0 <? maxLSN)%Z.
    - apply wp_Acknowledge; eauto.
    - apply wp_ret. split; [done|]. exists None. by rewrite app_nil_r. }
  intros ? w1 (HI1 & ackErr & Htr1). apply wp_bind, wp_now; [done|]. intros now' w2 HI2 Htr2.
  apply wp_bind.
  apply (wp_mono _ (fun _ w3 => holds Inv w3 /\ trace w3 = trace w2)).
  { destruct (e_metrics e); [apply wp_now; eauto|by apply wp_ret]. }
  intros t1 w3 [HI3 Htr3]. apply wp_bind, wp_Save; [done|]. intros saveErr w4 HI4 Htr4.
  apply wp_ret. split; [done|].
  eexists. split; [rewrite Htr4, Htr3, Htr2, Htr1, <- app_assoc; done|].
  rewrite <- Hmax. simpl. by apply (FlushDone e rs now cb now' t0 t1 errs ackErr saveErr).
Qed.

Lemma wp_flush (ctx : Context) (e : Engine) (rs : ReplicationState) (w : traced W) :
  e_state e = Some rs -> holds Inv w ->
  wp (flush ctx e) (since w (fun '(e', r) => flush_outcome e rs e' r)) w.
Proof.
  intros Hrs HI. unfold flush. destruct (e_buffer e) as [|ev evs] eqn:Hbuf.
  { apply wp_ret. split; [done|]. exists []. rewrite app_nil_r. split; [done|]. by constructor. }
  rewrite <- Hbuf. assert (Hne : e_buffer e <> []) by (by rewrite Hbuf).
  apply wp_bind, wp_now; [done|]. intros t0 w1 HI1 Htr1.
  apply wp_bind, wp_now; [done|]. intros now w2 HI2 Htr2. simpl.
  destruct (Allow now (e_cloudBreaker e)) as [[|] cb] eqn:Hallow; simpl.
  2:{ apply wp_ret. split; [done|]. exists []. rewrite app_nil_r. split; [congruence|].
      replace (set_buffer _ _) with (set_breaker cb e)
        by (unfold set_buffer, set_breaker; simpl; by rewrite app_nil_r).
      by apply FlushBlocked with now. }
  apply wp_bind. eapply wp_mono; [by apply wp_publish_attempts|].
  intros [err|] w3 (HI3 & calls & Htr3 & errs & Hlen & ->).
  - unfold flush_failed. apply wp_bind, wp_now; [done|]. intros now' w4 HI4 Htr4. simpl.
    rewrite Hrs. apply wp_ret. split; [done|].
    exists (attempts (e_buffer e) errs). split; [congruence|].
    replace (set_buffer _ _) with (set_breaker (RecordFailure now' cb) e)
      by (unfold set_buffer, set_breaker; simpl; by rewrite app_nil_r).
    by apply FlushFailed with now.
  - eapply wp_mono; [by eapply (wp_flush_published ctx t0 now cb errs e rs)|].
    intros [e' r] w4 (HI4 & calls & Htr4 & Hout). split; [done|]. eexists. split; [|exact Hout].
    rewrite Htr4, Htr3, Htr2, Htr1, <- !app_assoc. done.
Qed.
End engine.

(** * The loop *)

Definition push (ev : ChangeEvent) (e : Engine) : Engine := set_buffer (e_buffer e ++ [ev]) e.

Definition stop_input (i : loop_input) : bool :=
  match i with CtxDone _ _ | ChannelClosed _ _ => true | _ => false end.

Definition received_by (i : loop_input) : list ChangeEvent :=
  match i with Event ev => [ev] | _ => [] end.
Definition received (inputs : list loop_input) : list ChangeEvent :=
  concat (received_by <$> inputs).

Lemma received_app (l k : list loop_input) : received (l ++ k) = received l ++ received k.
Proof. unfold received. by rewrite fmap_app, concat_app. Qed.
#[export] Hint Rewrite received_app : go.

Lemma received_one (i : loop_input) : received [i] = received_by i.
Proof. unfold received. simpl. by rewrite app_nil_r. Qed.

(** The timer that ended the wait of a shutdown, if it did. *)
Definition timer_of (i : loop_input) : option nat :=
  match i with CtxDone _ timer | ChannelClosed _ timer => timer | _ => None end.

(** What [shutdown] answers: the timer's error, or the first of the errors of
    the flush, the save and the close. *)
Definition shutdown_result (i : loop_input) (flushErr saveErr closeErr : option error)
    : option error :=
  if timer_of i is Some _ then Some shutdown_timeout_error
  else first_error (first_error flushErr saveErr) closeErr.

(** The loop has returned the error of the shutdown's timer. *)
Abbreviation timed_out r := (r = Some (Some shutdown_timeout_error)).

Definition wants_flush (e : Engine) (i : loop_input) : bool :=
  match i with
  | Event ev => (BatchSize (Replication (e_cfg e)) <=? Z.of_nat (length (e_buffer (push ev e))))%Z
  | Tick => bool_decide (0 < length (e_buffer e))
  | _ => true
  end.

Definition before_flush (e : Engine) (i : loop_input) : Engine :=
  match i with Event ev => push ev e | _ => e end.

(** One iteration of the loop, in terms of the flush it makes, if any. *)
Inductive iter_outcome (e : Engine) (rs : ReplicationState) (i : loop_input)
  : Engine -> option (option error) -> list call_event -> Prop :=
  | IterKeep :
      stop_input i = false -> wants_flush e i = false ->
      iter_outcome e rs i (before_flush e i) None []
  | IterFlush e' r calls :
      stop_input i = false -> wants_flush e i = true ->
      flush_outcome (before_flush e i) rs e' r calls ->
      iter_outcome e rs i e' None calls
  | IterStop e' r calls rs' saveErr closeErr :
      stop_input i = true ->
      flush_outcome e rs e' r calls ->
      e_state e' = Some rs' ->
      iter_outcome e rs i e' (Some (shutdown_result i r saveErr closeErr))
        (calls ++ [CallSave rs' saveErr; CallClose closeErr]).

Lemma flush_outcome_state (e : Engine) (rs : ReplicationState) (e' : Engine) (r : option error)
    (calls : list call_event) :
  e_state e = Some rs -> flush_outcome e rs e' r calls ->
  e_cfg e' = e_cfg e /\ exists rs', e_state e' = Some rs'.
Proof. intros Hrs. inversion 1; subst; simpl; eauto. Qed.

Lemma iter_outcome_state (e : Engine) (rs : ReplicationState) (i : loop_input) (e' : Engine)
    (r : option (option error)) (calls : list call_event) :
  e_state e = Some rs -> iter_outcome e rs i e' r calls ->
  e_cfg e' = e_cfg e /\ exists rs', e_state e' = Some rs'.
Proof.
  intros Hrs. inversion 1; subst.
  - destruct i; simpl; eauto.
  - assert (e_state (before_flush e i) = Some rs) as Hrs' by (by destruct i).
    destruct (flush_outcome_state _ _ _ _ _ Hrs' ltac:(eassumption)) as [-> ?].
    split; [by destruct i|done].
  - by eapply flush_outcome_state.
Qed.

(** A sequence of iterations. *)
Inductive iterations : Engine -> list loop_input -> Engine -> option (option error)
  -> list call_event -> Prop :=
  | IterationsNil e : iterations e [] e None []
  | IterationsStop e rs i e' r calls :
      e_state e = Some rs ->
      iter_outcome e rs i e' (Some r) calls -> iterations e [i] e' (Some r) calls
  | IterationsCons e rs i e1 calls1 ins e' r calls :
      e_state e = Some rs ->
      iter_outcome e rs i e1 None calls1 -> iterations e1 ins e' r calls ->
      iterations e (i :: ins) e' r (calls1 ++ calls).

(** A run over the inputs it consumed: the calls of the iterations that came to
    their end, and the late ones of a shutdown that its timer cut short.  These
    are the first of an orderly shutdown, and what it does to the engine is not
    in the memory that is returned. *)
Inductive run_outcome (e : Engine) : list loop_input -> Engine -> option (option error)
  -> list call_event -> list call_event -> Prop :=
  | RunWhole consumed e' r calls :
      iterations e consumed e' r calls -> run_outcome e consumed e' r calls []
  | RunCut before i e' rs calls late todo e2 r2 :
      iterations e before e' None calls ->
      is_Some (timer_of i) -> e_state e' = Some rs ->
      iter_outcome e' rs i e2 (Some r2) (late ++ todo) ->
      run_outcome e (before ++ [i]) e' (Some (Some shutdown_timeout_error)) calls late.

(** What a run of the loop amounts to: a run over the inputs it consumed, all
    of them unless one stopped it. *)
Definition loop_outcome (e : Engine) (inputs : list loop_input)
    (out : Engine * option (option error) * list loop_input) (calls : list call_event) : Prop :=
  let '(e', r, rest) := out in
  exists consumed whole late, inputs = consumed ++ rest /\ (r = None -> rest = []) /\
    calls = whole ++ late /\ run_outcome e consumed e' r whole late.

Lemma run_outcome_cons (e : Engine) (rs : ReplicationState) (i : loop_input) (e1 : Engine)
    (calls1 : list call_event) (ins : list loop_input) (e' : Engine)
    (r : option (option error)) (calls late : list call_event) :
  e_state e = Some rs -> iter_outcome e rs i e1 None calls1 ->
  run_outcome e1 ins e' r calls late -> run_outcome e (i :: ins) e' r (calls1 ++ calls) late.
Proof.
  intros Hrs Hit [|before i' ? rs' ? ? todo e2 r2]; [constructor; by econstructor|].
  rewrite app_comm_cons. econstructor; [by econstructor|done..].
Qed.

(** The iterations of a run that came to their end received all of its events,
    and are all of the run unless the shutdown timed out. *)
Lemma run_outcome_iterations (e : Engine) (consumed : list loop_input) (e' : Engine)
    (r : option (option error)) (calls late : list call_event) :
  run_outcome e consumed e' r calls late ->
  exists ins r', iterations e ins e' r' calls /\ received ins = received consumed /\
    (timed_out r \/ ins = consumed /\ r' = r /\ late = []).
Proof.
  destruct 1 as [ins e' r calls|before i e' rs calls late todo e2 r2 Hits Ht Hrs Hit].
  - exists ins, r. split; [done|]. split; [done|]. by right.
  - exists before, None. split; [done|]. rewrite received_app. split; [|by left].
    destruct Ht as [k Ht]. by destruct i; simpl in Ht; rewrite ?app_nil_r.
Qed.

(** The late calls are the first of a flush, a save and a close. *)
Lemma run_outcome_late (e : Engine) (consumed : list loop_input) (e' : Engine)
    (r : option (option error)) (calls late : list call_event) :
  run_outcome e consumed e' r calls late ->
  late = [] \/ exists rs e2 r2 rs2 saveErr closeErr flushed todo,
    timed_out r /\ e_state e' = Some rs /\ flush_outcome e' rs e2 r2 flushed /\ e_state e2 = Some rs2 /\
    flushed ++ [CallSave rs2 saveErr; CallClose closeErr] = late ++ todo.
Proof.
  destruct 1 as [|before i e' rs calls late todo e2 r2 _ _ Hrs Hit]; [by left|right].
  inversion Hit as [| |? r' flushed rs2 sErr cErr _ Hf Hrs2]; subst.
  by exists rs, e2, r', rs2, sErr, cErr, flushed, todo.
Qed.

Lemma late_timed_out (e : Engine) (consumed : list loop_input) (e' : Engine)
    (r : option (option error)) (calls late : list call_event) :
  run_outcome e consumed e' r calls late -> late = [] \/ timed_out r.
Proof. destruct 1; auto. Qed.

(** * A computation that is left between two calls

    [cut_of mh m]: wherever the calls of [mh] end, it has done all that [m]
    does or made the first of its calls; the invariant holds either way. *)
Section cut.
Context {W : Type} (Inv : list call_event -> W -> Prop) `{Responds W Inv}.

Definition cut_of {A} (mh : Go (halting (traced W)) A) (m : Go (traced W) A) : Prop :=
  forall k w, holds Inv w ->
  let '(r, w') := m w in
  let '(rh, h) := mh (mkHalting k w) in
  holds Inv w' /\ trace w `prefix_of` trace w' /\
  ((rh, h_world h) = (r, w') \/
   rh = OutOfFuel /\ holds Inv (h_world h) /\
   trace (h_world h) `prefix_of` trace w' /\ trace w `prefix_of` trace (h_world h)).

Lemma cut_ret {A} (a : A) : cut_of (mret a) (mret a).
Proof. intros k w HI. simpl. auto. Qed.

Lemma cut_panic {A} (msg : string) : cut_of (A := A) (panic msg) (panic msg).
Proof. intros k w HI. simpl. auto. Qed.

Lemma cut_out_of_fuel {A} : cut_of (A := A) out_of_fuel out_of_fuel.
Proof. intros k w HI. simpl. auto. Qed.

Lemma cut_bind {A B} (mh : Go (halting (traced W)) A) (m : Go (traced W) A)
    (fh : A -> Go (halting (traced W)) B) (f : A -> Go (traced W) B) :
  cut_of mh m -> (forall a, cut_of (fh a) (f a)) -> cut_of (mh ≫= fh) (m ≫= f).
Proof.
  intros Hm Hf k w HI. specialize (Hm k w HI). unfold mbind, Go_bind.
  destruct (m w) as [r w1], (mh (mkHalting k w)) as [rh [k1 wh]]. simpl in *.
  destruct Hm as (HI1 & Hp1 & [[= -> ->]|(-> & HIh & Hph & Hp)]).
  - destruct r as [a|msg|]; [|simpl; tauto..]. specialize (Hf a k1 w1 HI1).
    destruct (f a w1) as [r2 w2], (fh a (mkHalting k1 w1)) as [rh2 h2].
    destruct Hf as (HI2 & Hp2 & Hcase). split; [done|]. split; [by trans (trace w1)|].
    destruct Hcase as [?|(? & ? & ? & ?)]; [by left|right].
    split_and!; try done; by trans (trace w1).
  - destruct r as [a|msg|]; [|simpl; tauto..]. specialize (Hf a k1 w1 HI1).
    destruct (f a w1) as [r2 w2], (fh a (mkHalting k1 w1)) as [rh2 h2].
    destruct Hf as (HI2 & Hp2 & _). split; [done|]. split; [by trans (trace w1)|]. right.
    split_and!; try done; by trans (trace w1).
Qed.

Lemma cut_recording {A} (m : Go W A) (f : A -> call_event) :
  (forall calls w, Inv calls w -> wp m (fun a => Inv (calls ++ [f a])) w) ->
  cut_of (counting (recording m f)) (recording m f).
Proof.
  intros Hm k w HI. unfold counting, recording. specialize (Hm _ _ HI). unfold wp in Hm. simpl.
  destruct (m (inner w)) as [[a|msg|] w1] eqn:Hrun; [|done..].
  assert (trace w `prefix_of` trace w ++ [f a]) by (by apply prefix_app_r).
  destruct k; simpl; [|by auto].
  split; [done|]. split; [done|]. right. by auto.
Qed.

Lemma cut_now : cut_of (call rt_now) (call rt_now).
Proof.
  intros k w HI. pose proof (responds_now _ _ HI) as HI'. unfold call, uncounted. simpl.
  unfold uncounted. simpl. destruct (rt_now (inner w)). simpl. auto.
Qed.

Lemma cut_wait (ctx : Context) (d : Duration) : cut_of (call (rt_wait ctx d)) (call (rt_wait ctx d)).
Proof.
  intros k w HI. pose proof (responds_wait ctx d _ _ HI) as HI'. unfold call, uncounted. simpl.
  unfold uncounted. simpl. destruct (rt_wait ctx d (inner w)). simpl. auto.
Qed.

Lemma cut_Publish (ctx : Context) (evs : list ChangeEvent) :
  cut_of (pub_Publish ctx evs) (pub_Publish ctx evs).
Proof. apply cut_recording. intros. by apply responds_Publish. Qed.

Lemma cut_Acknowledge (ctx : Context) (lsn : LSN) :
  cut_of (sub_Acknowledge ctx lsn) (sub_Acknowledge ctx lsn).
Proof. apply cut_recording. intros. by apply responds_Acknowledge. Qed.

Lemma cut_Save (rs : ReplicationState) : cut_of (store_Save rs) (store_Save rs).
Proof. apply cut_recording. intros. by apply responds_Save. Qed.

Lemma cut_Close : cut_of sub_Close sub_Close.
Proof. apply cut_recording. intros. by apply responds_Close. Qed.

Create HintDb cuts.
#[local] Hint Resolve cut_ret cut_panic cut_out_of_fuel cut_now cut_wait cut_Publish
  cut_Acknowledge cut_Save cut_Close : cuts.

#[local] Ltac cut :=
  repeat first
    [ solve [auto with cuts]
    | lazymatch goal with
      | |- cut_of (mbind _ _) (mbind _ _) => apply cut_bind; [|intros]
      | |- cut_of (match ?x with _ => _ end) _ => destruct x
      end ].

Lemma cut_Do (ctx : Context) (cfg : BackoffConfig) (maxAttempts : Z)
    (fnh : Context -> Go (halting (traced W)) (option error))
    (fn : Context -> Go (traced W) (option error)) (fuel : nat) :
  (forall ctx, cut_of (fnh ctx) (fn ctx)) ->
  cut_of (Do ctx cfg maxAttempts log_retry fnh fuel) (Do ctx cfg maxAttempts log_retry fn fuel).
Proof.
  intros Hfn. unfold Do. generalize 0%Z as k.
  induction fuel as [|fuel IH]; intros k; unfold Do_loop; fold (@Do_loop (traced W));
    fold (@Do_loop (halting (traced W))); [auto with cuts|].
  unfold log_attempt, log_retry. cut.
Qed.

Lemma cut_flush (ctx : Context) (e : Engine) : cut_of (flush ctx e) (flush ctx e).
Proof.
  assert (forall batch, cut_of
    (Do ctx publishBackoff 3 log_retry (fun ctx => pub_Publish ctx batch) 3)
    (Do ctx publishBackoff 3 log_retry (fun ctx => pub_Publish ctx batch) 3)) as HDo.
  { intros batch. apply cut_Do. intros ctx'. apply cut_Publish. }
  unfold flush. destruct (e_buffer e) as [|ev batch]; [auto with cuts|].
  unfold flush_failed, flush_published. cut.
Qed.

Lemma cut_shutdownWork (ctx : Context) (e : Engine) :
  cut_of (shutdownWork ctx e) (shutdownWork ctx e).
Proof.
  unfold shutdownWork. apply cut_bind; [apply cut_flush|]. intros [e' r]. cut.
Qed.
End cut.

Section loop.
Context {W : Type} (Inv : list call_event -> W -> Prop) `{Responds W Inv}.

Lemma wp_shutdownWork (ctx : Context) (e : Engine) (rs : ReplicationState) (w : traced W) :
  e_state e = Some rs -> holds Inv w ->
  wp (shutdownWork ctx e) (since Inv w (fun '(e', err) calls =>
    exists fErr flushed rs' sErr cErr, flush_outcome e rs e' fErr flushed /\
      e_state e' = Some rs' /\ calls = flushed ++ [CallSave rs' sErr; CallClose cErr] /\
      err = first_error (first_error fErr sErr) cErr)) w.
Proof.
  intros Hrs HI. unfold shutdownWork. apply wp_bind.
  eapply wp_mono; [by apply wp_flush|]. intros [e' r] w1 (HI1 & calls & Htr1 & Hout).
  destruct (flush_outcome_state _ _ _ _ _ Hrs Hout) as [_ [rs' Hrs']]. simpl. rewrite Hrs'.
  apply wp_bind, (wp_Save Inv); [done|]. intros saveErr w2 HI2 Htr2.
  apply wp_bind, (wp_Close Inv); [done|]. intros closeErr w3 HI3 Htr3. apply wp_ret.
  split; [done|]. eexists. split; [rewrite Htr3, Htr2, Htr1, <- !app_assoc; done|].
  eauto 10.
Qed.

(** An iteration, or the part of one that its timer left. *)
Definition iter_result (e : Engine) (rs : ReplicationState) (i : loop_input) (e' : Engine)
    (r : option (option error)) (calls : list call_event) : Prop :=
  iter_outcome e rs i e' r calls \/
  e' = e /\ timed_out r /\ is_Some (timer_of i) /\
  exists e2 r2 todo, iter_outcome e rs i e2 (Some r2) (calls ++ todo).

Lemma wp_shutdown (ctx : Context) (i : loop_input) (timer : option nat) (e : Engine)
    (rs : ReplicationState) (w : traced W) :
  (i = CtxDone ctx timer \/ i = ChannelClosed ctx timer) ->
  e_state e = Some rs -> holds Inv w ->
  wp (shutdown ctx timer e)
    (since Inv w (fun '(e', err) calls => iter_result e rs i e' (Some err) calls)) w.
Proof.
  intros Hi Hrs HI.
  assert (Htimer : timer_of i = timer) by (destruct Hi; by subst i).
  assert (Hstop : forall e' fErr flushed rs' sErr cErr, flush_outcome e rs e' fErr flushed ->
    e_state e' = Some rs' ->
    iter_outcome e rs i e' (Some (shutdown_result i fErr sErr cErr))
      (flushed ++ [CallSave rs' sErr; CallClose cErr])).
  { intros. apply IterStop; [by destruct Hi; subst i|done..]. }
  unfold shutdown. destruct timer as [k|].
  2:{ eapply wp_mono; [by apply wp_shutdownWork|].
      intros [e' err] w1 (HI1 & calls & Htr & fErr & fl & rs' & sErr & cErr & Hf & Hrs' & -> & ->).
      split; [done|]. eexists. split; [exact Htr|]. left.
      specialize (Hstop e' fErr fl rs' sErr cErr Hf Hrs'). unfold shutdown_result in Hstop.
      by rewrite Htimer in Hstop. }
  pose proof (wp_shutdownWork ctx e rs w Hrs HI) as Hwork.
  pose proof (cut_shutdownWork Inv ctx e k w HI) as Hcut.
  apply wp_bind. unfold wp in *. unfold stopped_after.
  destruct (shutdownWork ctx e w) as [[[e' err]|msg|] w1]; [|done..].
  destruct (shutdownWork ctx e (mkHalting k w)) as [rh h].
  destruct Hwork as (HI1 & calls & Htr & fErr & fl & rs' & sErr & cErr & Hf & Hrs' & -> & _).
  specialize (Hstop e' fErr fl rs' sErr cErr Hf Hrs').
  unfold shutdown_result in Hstop. rewrite Htimer in Hstop.
  destruct Hcut as (_ & _ & [[= -> ->]|(-> & HIh & [todo Htodo] & [late Hlate])]); simpl.
  - split; [done|]. eexists. split; [exact Htr|]. by left.
  - split; [done|]. exists late. split; [done|]. right. rewrite Htimer.
    repeat split; [by eexists|]. exists e', (Some shutdown_timeout_error), todo.
    rewrite Htr, Hlate, <- app_assoc in Htodo. apply app_inv_head in Htodo. by rewrite <- Htodo.
Qed.

Lemma wp_loop_iter (e : Engine) (rs : ReplicationState) (i : loop_input) (w : traced W) :
  e_state e = Some rs -> holds Inv w ->
  wp (loop_iter e i) (since Inv w (fun '(e', r) => iter_result e rs i e' r)) w.
Proof.
  intros Hrs HI.
  assert (Hkeep : forall e1, e1 = before_flush e i -> stop_input i = false ->
    wants_flush e i = false ->
    wp (mret (e1, None)) (since Inv w (fun '(e', r) => iter_result e rs i e' r)) w).
  { intros e1 -> Hns Hw. apply wp_ret. split; [done|]. exists []. rewrite app_nil_r.
    split; [done|]. left. by apply IterKeep. }
  assert (Hflush : forall e1, e1 = before_flush e i -> stop_input i = false ->
    wants_flush e i = true ->
    wp ('(e', _) ← flush Background e1; mret (e', None))
      (since Inv w (fun '(e', r) => iter_result e rs i e' r)) w).
  { intros e1 -> Hns Hw. apply wp_bind. eapply wp_mono.
    - apply (wp_flush Inv _ _ rs); [by destruct i|done].
    - intros [e' r] w1 (HI1 & calls & Htr & Hout). apply wp_ret. split; [done|].
      exists calls. split; [done|]. left. by eapply IterFlush. }
  destruct i as [ctx to|ctx to|ev|]; simpl.
  1: apply wp_bind; eapply wp_mono;
    [by apply (wp_shutdown ctx (CtxDone ctx to) to e rs); [left|..]|].
  2: apply wp_bind; eapply wp_mono;
    [by apply (wp_shutdown ctx (ChannelClosed ctx to) to e rs); [right|..]|].
  1,2: intros [e' err] w1 (HI1 & calls & Htr & Hout); apply wp_ret; split; [done|]; by exists calls.
  - destruct (BatchSize _ <=? _)%Z eqn:Hsize; [by apply Hflush|by apply Hkeep].
  - case_decide as Hlen.
    + apply Hflush; [done..|]. simpl. by apply bool_decide_eq_true.
    + apply Hkeep; [done..|]. simpl. by apply bool_decide_eq_false.
Qed.

Lemma cut_loop_one (e : Engine) (i : loop_input) :
  stop_input i = false -> cut_of Inv (loop e [i]) (loop e [i]).
Proof.
  intros Hns. assert (Hkeep : forall (e1 : Engine) (r : option (option error)),
    cut_of Inv (mret (e1, r)) (mret (e1, r))) by (intros; apply cut_ret).
  assert (Hflush : forall e1, cut_of Inv ('(e', _) ← flush Background e1; mret (e', None))
    ('(e', _) ← flush Background e1; mret (e', None : option (option error)))).
  { intros e1. apply cut_bind; [exact (cut_flush Inv Background e1)|]. intros [e' r]. apply Hkeep. }
  cbn [loop]. apply cut_bind; [|intros [e' [err|]]; apply cut_ret].
  destruct i as [| |ev|]; [done..| |]; cbn [loop_iter]; case_match; auto.
Qed.

(** A process that is killed in an iteration, after [k] calls, has made the
    first calls of one. *)
Lemma wp_loop_killed (k : nat) (e : Engine) (rs : ReplicationState) (i : loop_input)
    (w : traced W) :
  stop_input i = false -> e_state e = Some rs -> holds Inv w ->
  wp (stopped_after k (loop e [i])) (since Inv w (fun _ calls => exists e' todo,
    iter_outcome e rs i e' None (calls ++ todo))) w.
Proof.
  intros Hns Hrs HI. pose proof (cut_loop_one e i Hns k w HI) as Hcut.
  destruct (wp_run _ _ _ (wp_loop_iter e rs i w Hrs HI))
    as ([e' r] & w1 & Hiter & HI1 & calls & Htr & Hres).
  assert (r = None /\ iter_outcome e rs i e' None calls) as [-> Hit].
  { destruct Hres as [Hit|(_ & _ & [t Ht] & _)]; [|by destruct i].
    inversion Hit; subst; try by split. congruence. }
  assert (Hrun : loop e [i] w = (Ret (e', None, []), w1))
    by (cbn [loop]; unfold mbind, Go_bind; by rewrite Hiter).
  rewrite Hrun in Hcut. unfold wp, stopped_after.
  destruct (loop e [i] (mkHalting k w)) as [rh h].
  destruct Hcut as (_ & _ & [[= -> ->]|(-> & HIh & [todo Htodo] & [late Hlate])]).
  - split; [done|]. exists calls. split; [done|]. exists e', []. by rewrite app_nil_r.
  - split; [done|]. exists late. split; [done|]. exists e', todo.
    rewrite Htr, Hlate, <- app_assoc in Htodo. apply app_inv_head in Htodo. by rewrite <- Htodo.
Qed.

(** The loop always returns control, and does so in the way specified. *)
Lemma wp_loop (inputs : list loop_input) (e : Engine) (rs : ReplicationState) (w : traced W) :
  e_state e = Some rs -> holds Inv w ->
  wp (loop e inputs) (since Inv w (fun out => loop_outcome e inputs out)) w.
Proof.
  revert e rs w. induction inputs as [|i inputs IH]; intros e rs w Hrs HI; simpl.
  { apply wp_ret. split; [done|]. exists []. rewrite app_nil_r. split; [done|].
    exists [], [], []. repeat split. repeat constructor. }
  apply wp_bind. eapply wp_mono; [by apply wp_loop_iter|].
  intros [e1 [err|]] w1 (HI1 & calls1 & Htr1 & Hit).
  - apply wp_ret. split; [done|]. exists calls1. split; [done|]. exists [i].
    destruct Hit as [Hit|(-> & [= ->] & Ht & e2 & r2 & todo & Hit)].
    + exists calls1, []. rewrite app_nil_r. repeat split; [done|].
      constructor. by eapply IterationsStop.
    + exists [], calls1. repeat split; [done|].
      apply (RunCut e [] i e rs [] calls1 todo e2 r2); [constructor|done..].
  - destruct Hit as [Hit|(_ & [=] & _)].
    destruct (iter_outcome_state _ _ _ _ _ _ Hrs Hit) as [_ [rs1 Hrs1]].
    eapply wp_mono; [by eapply IH|].
    intros [[e' r] rest] w2 (HI2 & calls2 & Htr2 & consumed & whole & late & -> & Hrest & -> & Hrun).
    split; [done|].
    exists (calls1 ++ whole ++ late). split; [rewrite Htr2, Htr1; by rewrite <- !app_assoc|].
    exists (i :: consumed), (calls1 ++ whole), late. rewrite app_assoc.
    repeat split; [done|]. by eapply run_outcome_cons.
Qed.
End loop.

(** * Recording the engine's calls does not change what it does *)

Section erasure.
Context {W1 W2 : Type} (p : W1 -> W2) `{Projects W1 W2 p}.

Lemma erases_Do (ctx : Context) (cfg : BackoffConfig) (maxAttempts : Z)
    (fnt : Context -> Go W1 (option error)) (fn : Context -> Go W2 (option error)) (fuel : nat) :
  (forall ctx, erases p (fnt ctx) (fn ctx)) ->
  erases p (Do ctx cfg maxAttempts log_retry fnt fuel) (Do ctx cfg maxAttempts log_retry fn fuel).
Proof.
  intros Hfn. unfold Do. generalize 0%Z as k.
  induction fuel as [|fuel IH]; intros k; unfold Do_loop; fold (@Do_loop W2);
    fold (@Do_loop W1); [auto with erases|].
  unfold log_attempt, log_retry. erase.
Qed.

Lemma erases_flush (ctx : Context) (e : Engine) : erases p (flush ctx e) (flush ctx e).
Proof.
  assert (forall batch, erases p
    (Do ctx publishBackoff 3 log_retry (fun ctx => pub_Publish ctx batch) 3)
    (Do ctx publishBackoff 3 log_retry (fun ctx => pub_Publish ctx batch) 3)) as HDo.
  { intros batch. apply erases_Do. intros ctx'. apply erases_Publish. }
  unfold flush. destruct (e_buffer e) as [|ev batch]; [auto with erases|].
  unfold flush_failed, flush_published. erase; auto with erases.
Qed.
#[local] Hint Resolve erases_flush : erases.

Lemma erases_shutdownWork (ctx : Context) (e : Engine) :
  erases p (shutdownWork ctx e) (shutdownWork ctx e).
Proof. unfold shutdownWork. erase; auto with erases. Qed.
End erasure.
#[export] Hint Resolve erases_flush erases_shutdownWork : erases.

Section loop_erasure.
Context {W1 W2 : Type} (p : W1 -> W2) `{Projects W1 W2 p}.

Lemma erases_shutdown (ctx : Context) (timer : option nat) (e : Engine) :
  erases p (shutdown ctx timer e) (shutdown ctx timer e).
Proof.
  unfold shutdown. destruct timer as [k|]; [|auto with erases].
  apply erases_bind; [|auto with erases]. apply erases_stopped_after, erases_shutdownWork.
  apply _.
Qed.
#[local] Hint Resolve erases_shutdown : erases.

Lemma erases_loop (inputs : list loop_input) (e : Engine) :
  erases p (loop e inputs) (loop e inputs).
Proof.
  revert e. induction inputs as [|i inputs IH]; intros e; simpl; [auto with erases|].
  apply erases_bind; [unfold loop_iter; erase; auto with erases|]. intros [e' r]. erase; auto.
Qed.
End loop_erasure.

Section unrecorded.
Context {W : Type}
  `{Runtime W, ReplicationSubscriber W, ReplicationPublisher W, StateStore W}.

(** A run of the loop over a world, through its recording. *)
Lemma wp_loop_unrecorded (Inv : list call_event -> W -> Prop) `{!Responds W Inv}
    (inputs : list loop_input) (e : Engine) (rs : ReplicationState) (w : W) :
  e_state e = Some rs -> Inv [] w ->
  wp (loop e inputs) (fun out w' =>
    exists calls, Inv calls w' /\ loop_outcome e inputs out calls) w.
Proof.
  intros Hrs HI. apply (wp_erases _ _ _ _ [] (erases_loop inner inputs e)).
  eapply wp_mono; [by apply (wp_loop Inv inputs e rs)|].
  intros out w' (HI' & calls & Htr & Hout). exists calls. simpl in Htr.
  unfold holds in HI'. rewrite Htr in HI'. by split.
Qed.

Lemma wp_loop_killed_unrecorded (Inv : list call_event -> W -> Prop) `{!Responds W Inv}
    (k : nat) (e : Engine) (rs : ReplicationState) (i : loop_input) (w : W) :
  stop_input i = false -> e_state e = Some rs -> Inv [] w ->
  wp (stopped_after k (loop e [i])) (fun _ w' => exists calls e' todo,
    Inv calls w' /\ iter_outcome e rs i e' None (calls ++ todo)) w.
Proof.
  intros Hns Hrs HI.
  apply (wp_erases _ _ _ _ [] (erases_stopped_after inner k _ _ (erases_loop _ [i] e))).
  eapply wp_mono; [by apply (wp_loop_killed Inv k e rs i)|].
  intros ? w' (HI' & calls & Htr & e' & todo & Hit). exists calls, e', todo. simpl in Htr.
  unfold holds in HI'. rewrite Htr in HI'. by split.
Qed.
End unrecorded.
