(* ===== verification/EngineInvariants.v ===== *)
(** What every flush, every iteration and every run of the loop preserves. *)
From stdpp Require Import sorting.
From S2P Require Import Prelude GoErrors GoTime Interfaces CircuitBreaker Backoff Config State.
From S2P Require Import Metrics Engine Trace Delivery EngineSpec.

(** [iterations] from one starting state: the induction the invariants share.
    [R e i_events e' calls] relates the two ends of a piece of the run, with the
    events it received and the calls it made. *)
Section composition.
Context (R : Engine -> list ChangeEvent -> Engine -> list call_event -> Prop).
Context (R_refl : forall e, R e [] e []).
Context (R_trans : forall e1 evs1 calls1 e2 evs2 calls2 e3,
  R e1 evs1 e2 calls1 -> R e2 evs2 e3 calls2 -> R e1 (evs1 ++ evs2) e3 (calls1 ++ calls2)).
Context (R_push : forall e ev, R e [ev] (push ev e) []).
Context (R_flush : forall e rs e' r calls,
  e_state e = Some rs -> flush_outcome e rs e' r calls -> R e [] e' calls).
Context (R_stop : forall e rs saveErr closeErr,
  e_state e = Some rs -> R e [] e [CallSave rs saveErr; CallClose closeErr]).

Lemma iter_outcome_invariant (e : Engine) (rs : ReplicationState) (i : loop_input)
    (e' : Engine) (r : option (option error)) (calls : list call_event) :
  e_state e = Some rs -> iter_outcome e rs i e' r calls -> R e (received_by i) e' calls.
Proof.
  intros Hrs Hit.
  assert (Hbefore : stop_input i = false -> R e (received_by i) (before_flush e i) []).
  { destruct i; simpl; intros; first [done|apply R_push|apply R_refl]. }
  destruct Hit as [Hns _|e' r' calls Hns _ Hf|e' r' calls rs' saveErr closeErr Hstop Hf Hrs'].
  - by apply Hbefore.
  - rewrite <- (app_nil_r (received_by i)). apply (R_trans _ _ [] (before_flush e i)).
    + by apply Hbefore.
    + eapply R_flush; [|exact Hf]. by destruct i.
  - replace (received_by i) with (@nil ChangeEvent) by (by destruct i).
    apply (R_trans _ [] _ e' []); eauto.
Qed.

Lemma iterations_invariant (e : Engine) (consumed : list loop_input) (e' : Engine)
    (r : option (option error)) (calls : list call_event) :
  iterations e consumed e' r calls -> R e (received consumed) e' calls.
Proof.
  induction 1 as [e|e rs i e' r calls Hrs Hit|e rs i e1 calls1 ins e' r calls Hrs Hit _ IH].
  - apply R_refl.
  - unfold received. simpl. rewrite app_nil_r. by eapply iter_outcome_invariant.
  - change (received (i :: ins)) with (received_by i ++ received ins).
    eapply R_trans; [|exact IH]. by eapply iter_outcome_invariant.
Qed.
End composition.

(** * Conservation: no event is lost, duplicated or reordered *)

Definition conserves (e : Engine) (evs : list ChangeEvent) (e' : Engine)
    (calls : list call_event) : Prop :=
  e_buffer e ++ evs = published calls ++ e_buffer e'.

Lemma published_ack_calls (lsn : LSN) (r : option error) : published (ack_calls lsn r) = [].
Proof. unfold ack_calls. by destruct (0 <? lsn)%Z. Qed.
#[export] Hint Rewrite published_ack_calls : go.

Lemma flush_conserves (e : Engine) (rs : ReplicationState) (e' : Engine) (r : option error)
    (calls : list call_event) :
  flush_outcome e rs e' r calls -> e_buffer e = published calls ++ e_buffer e'.
Proof.
  destruct 1; rewrite ?published_app, ?published_attempts, ?published_ack_calls; try done.
  unfold published; simpl. by rewrite !app_nil_r.
Qed.

Lemma iterations_conserve (e : Engine) (consumed : list loop_input) (e' : Engine)
    (r : option (option error)) (calls : list call_event) :
  iterations e consumed e' r calls -> conserves e (received consumed) e' calls.
Proof.
  apply iterations_invariant; unfold conserves.
  - intros e1. by rewrite app_nil_r.
  - intros e1 evs1 calls1 e2 evs2 calls2 e3 H1 H2.
    by rewrite published_app, app_assoc, H1, <- !app_assoc, H2.
  - done.
  - intros e1 rs e2 r2 calls2 _ Hf. rewrite app_nil_r. by eapply flush_conserves.
  - intros. by rewrite app_nil_r.
Qed.

(** * Acknowledgements follow publication *)

Definition acks_published (calls : list call_event) : Prop :=
  forall pre lsn r post, calls = pre ++ CallAcknowledge lsn r :: post ->
  exists pre' batch, pre = pre' ++ [CallPublish batch None] /\
    batch <> [] /\ (0 < lsn)%Z /\ lsn = batch_maxLSN batch.

Definition no_ack (c : call_event) : Prop :=
  match c with CallAcknowledge _ _ => False | _ => True end.

Lemma acks_published_none (calls : list call_event) :
  Forall no_ack calls -> acks_published calls.
Proof.
  intros Hno pre lsn r post ->. apply Forall_app in Hno as [_ Hno].
  by apply Forall_cons in Hno as [? _].
Qed.

Lemma acks_published_app (calls1 calls2 : list call_event) :
  acks_published calls1 -> acks_published calls2 -> acks_published (calls1 ++ calls2).
Proof.
  intros H1 H2 pre lsn r post Heq.
  apply app_eq_inv in Heq as [(k & -> & Hk)|(k & -> & Hk)].
  - destruct k as [|c k]; simpl in Hk.
    + destruct (H2 [] lsn r post) as (pre' & batch & Habs & _); [done|]. by destruct pre'.
    + injection Hk as <- ->. by eapply H1.
  - destruct (H2 k lsn r post Hk) as (pre' & batch & -> & Hb).
    exists (calls1 ++ pre'), batch. by rewrite app_assoc.
Qed.

Lemma no_ack_attempts (batch : list ChangeEvent) (errs : list error) :
  Forall no_ack (attempts batch errs).
Proof. induction errs; simpl; by constructor. Qed.

Lemma flush_acks (e : Engine) (rs : ReplicationState) (e' : Engine) (r : option error)
    (calls : list call_event) :
  flush_outcome e rs e' r calls -> acks_published calls.
Proof.
  destruct 1 as [| | |now cb now' t0 t1 errs ackErr saveErr Hne Hallow Hlen rs'].
  1,2: by apply acks_published_none.
  1: apply acks_published_none, no_ack_attempts.
  apply acks_published_app; [apply acks_published_none, no_ack_attempts|].
  rewrite app_assoc. apply acks_published_app; [|by apply acks_published_none; repeat constructor].
  unfold ack_calls. destruct (0 <? _)%Z eqn:Hpos.
  2:{ apply acks_published_none. by repeat constructor. }
  intros pre lsn r' post Heq. simpl in Heq. destruct pre as [|c [|c' pre]]; simplify_list_eq.
  - exists [], (e_buffer e). repeat split; [done|lia].
  - by destruct pre.
Qed.

Lemma iterations_acks (e : Engine) (consumed : list loop_input) (e' : Engine)
    (r : option (option error)) (calls : list call_event) :
  iterations e consumed e' r calls -> acks_published calls.
Proof.
  apply (iterations_invariant (fun _ _ _ calls => acks_published calls)).
  - intros _. by apply acks_published_none.
  - intros. by apply acks_published_app.
  - intros. by apply acks_published_none.
  - intros. by eapply flush_acks.
  - intros. apply acks_published_none. by repeat constructor.
Qed.

(** The LSN of a batch is its greatest, when that is positive. *)
Lemma batch_extent_LSN (batch : list ChangeEvent) (lsn : LSN) (t : Time) :
  let m := (batch_extent batch lsn t).1 in
  (lsn <= m)%Z /\ Forall (fun ev => (ev_LSN ev <= m)%Z) batch /\
  (m = lsn \/ exists ev, ev ∈ batch /\ ev_LSN ev = m).
Proof.
  revert lsn t. induction batch as [|ev batch IH]; intros lsn t; simpl.
  { repeat split; [lia|done|by left]. }
  set (lsn1 := if (lsn <? ev_LSN ev)%Z then ev_LSN ev else lsn).
  destruct (IH lsn1 (if After (ev_Timestamp ev) t then ev_Timestamp ev else t)) as (Hl & Hall & Hin).
  assert ((lsn <= lsn1)%Z /\ (ev_LSN ev <= lsn1)%Z) by (unfold lsn1; destruct (_ <? _)%Z eqn:?; lia).
  split; [lia|]. split; [constructor; [lia|done]|].
  destruct Hin as [Hin|(ev' & Hin & Heq)].
  - rewrite Hin. unfold lsn1. destruct (_ <? _)%Z; [right; exists ev; split; [left|done]|by left].
  - right. exists ev'. split; [by right|done].
Qed.

(** * Bookkeeping: the state's counters and the metrics follow the calls *)

(** [k] events were counted as failed. *)
Definition counted (e : Engine) (e' : Engine) (calls : list call_event) (k : Z) : Prop :=
  forall rs, e_state e = Some rs ->
    in_int64 (EventsProcessed rs) -> in_int64 (EventsFailed rs) ->
    exists rs' ops, e_state e' = Some rs' /\
      e_metrics e' = metric_calls ops (e_metrics e) /\
      EventsProcessed rs' = wrap64 (EventsProcessed rs + batch_len (published calls)) /\
      EventsFailed rs' = wrap64 (EventsFailed rs + k) /\
      counter_value M_EventsProcessed ops = batch_len (published calls) /\
      counter_value M_EventsFailed ops = k.

Lemma counted_refl (e : Engine) (calls : list call_event) :
  published calls = [] -> counted e e calls 0.
Proof.
  intros Hp rs Hrs HP HF. exists rs, []. rewrite metric_calls_nil, Hp, !Z.add_0_r.
  by rewrite !wrap64_id.
Qed.

Lemma counted_flush (e : Engine) (rs : ReplicationState) (e' : Engine) (r : option error)
    (calls : list call_event) :
  e_state e = Some rs -> flush_outcome e rs e' r calls -> exists k, counted e e' calls k.
Proof.
  intros Hrs Hf. pose proof (flush_conserves _ _ _ _ _ Hf) as Hcons.
  destruct Hf as [Hnil|now cb Hne Hallow|now cb now' errs err Hne Hallow Hlen
                 |now cb now' t0 t1 errs ackErr saveErr Hne Hallow Hlen rs'].
  - exists 0%Z. by apply counted_refl.
  - exists 0%Z. intros rs1 Hrs1 HP HF. exists rs1, []. simpl.
    by rewrite metric_calls_nil, !Z.add_0_r, !wrap64_id.
  - exists (batch_len (e_buffer e)). intros rs1 Hrs1 HP HF. simplify_eq.
    eexists _, _. split; [reflexivity|]. split; [reflexivity|].
    rewrite published_attempts. simpl. rewrite Z.add_0_r, wrap64_id by done. repeat split.
  - change (e_buffer (add_metrics _ _)) with (@nil ChangeEvent) in Hcons.
    rewrite app_nil_r in Hcons.
    exists 0%Z. intros rs1 Hrs1 HP HF. rewrite <- Hcons. simplify_eq.
    eexists _, _. split; [reflexivity|]. split; [reflexivity|].
    unfold rs', count_flushed. destruct (batch_extent _ _ _) as [lsn latest]. simpl.
    rewrite Z.add_0_r, (wrap64_id (EventsFailed rs)) by done. repeat split; lia.
Qed.

Lemma counted_trans (e1 e2 e3 : Engine) (calls1 calls2 : list call_event) (k1 k2 : Z) :
  counted e1 e2 calls1 k1 -> counted e2 e3 calls2 k2 ->
  counted e1 e3 (calls1 ++ calls2) (k1 + k2).
Proof.
  intros H1 H2 rs Hrs HP HF.
  destruct (H1 rs Hrs HP HF) as (rs2 & ops1 & Hrs2 & Hm2 & HP2 & HF2 & Hc2 & Hd2).
  destruct (H2 rs2 Hrs2) as (rs3 & ops2 & Hrs3 & Hm3 & HP3 & HF3 & Hc3 & Hd3).
  { rewrite HP2. apply wrap64_range. }
  { rewrite HF2. apply wrap64_range. }
  exists rs3, (ops1 ++ ops2). split; [done|].
  rewrite published_app, !counter_value_app, Hm3, Hm2, metric_calls_app, HP3, HF3, HP2, HF2.
  rewrite !wrap64_add_l, Hc2, Hc3, Hd2, Hd3. unfold batch_len. rewrite length_app.
  repeat split; f_equal; lia.
Qed.

Lemma iterations_counted (e : Engine) (consumed : list loop_input) (e' : Engine)
    (r : option (option error)) (calls : list call_event) :
  iterations e consumed e' r calls -> exists k, counted e e' calls k.
Proof.
  apply (iterations_invariant (fun e _ e' calls => exists k, counted e e' calls k)).
  - intros e1. exists 0%Z. by apply counted_refl.
  - intros ????? ?? [k1 ?] [k2 ?]. exists (k1 + k2)%Z. by eapply counted_trans.
  - intros e1 ev. exists 0%Z. intros rs Hrs HP HF. exists rs, []. simpl.
    by rewrite metric_calls_nil, !Z.add_0_r, !wrap64_id.
  - intros. by eapply counted_flush.
  - intros. exists 0%Z. by apply counted_refl.
Qed.

(** * The position in the log *)

Definition lsn_sorted (evs : list ChangeEvent) : Prop :=
  StronglySorted (fun a b => (ev_LSN a <= ev_LSN b)%Z) evs /\
  Forall (fun ev => (0 <= ev_LSN ev)%Z) evs.

Definition last_LSN (evs : list ChangeEvent) (d : LSN) : LSN :=
  match last evs with Some ev => ev_LSN ev | None => d end.

Lemma lsn_sorted_app_l (l k : list ChangeEvent) : lsn_sorted (l ++ k) -> lsn_sorted l.
Proof.
  intros [Hs Hp]. apply Forall_app in Hp as [? ?]. split; [|done].
  by apply StronglySorted_app_1_l in Hs.
Qed.

Lemma lsn_sorted_app_r (l k : list ChangeEvent) : lsn_sorted (l ++ k) -> lsn_sorted k.
Proof.
  intros [Hs Hp]. apply Forall_app in Hp as [? ?]. split; [|done].
  by apply StronglySorted_app_1_r in Hs.
Qed.

Lemma last_LSN_app (l k : list ChangeEvent) (d : LSN) :
  last_LSN (l ++ k) d = last_LSN k (last_LSN l d).
Proof. unfold last_LSN. rewrite last_app. by destruct (last k). Qed.

(** In a batch in LSN order the greatest LSN is that of the last event. *)
Lemma batch_maxLSN_sorted (batch : list ChangeEvent) (d : LSN) :
  batch <> [] -> lsn_sorted batch -> batch_maxLSN batch = last_LSN batch d.
Proof.
  intros Hne [Hs Hp]. unfold batch_maxLSN.
  destruct (batch_extent_LSN batch 0%Z zero_time) as (Hlo & Hall & Hin).
  set (m := (batch_extent batch 0%Z zero_time).1) in *. clearbody m.
  destruct batch as [|ev0 evs0] using rev_ind; [done|]. clear IHevs0 Hne.
  unfold last_LSN. rewrite last_snoc.
  apply Forall_app in Hall as [_ Hev]. apply Forall_app in Hp as [_ Hpos].
  apply Forall_cons in Hev as [Hev _]. apply Forall_cons in Hpos as [Hpos _].
  destruct Hin as [->|(ev & Hin & <-)]; [unfold LSN in *; lia|].
  apply elem_of_app in Hin as [Hin|Hin%list_elem_of_singleton]; [|by subst].
  apply StronglySorted_app in Hs as (Hle & _ & _).
  specialize (Hle ev ev0 Hin ltac:(by left)). simpl in Hle. unfold LSN in *. lia.
Qed.

(** While the stream is in LSN order, [LastLSN] is that of the last event
    published. *)
Definition positioned (e : Engine) (evs : list ChangeEvent) (e' : Engine)
    (calls : list call_event) : Prop :=
  conserves e evs e' calls /\
  forall rs, e_state e = Some rs -> lsn_sorted (e_buffer e ++ evs) ->
    exists rs', e_state e' = Some rs' /\ LastLSN rs' = last_LSN (published calls) (LastLSN rs).

Lemma iterations_positioned (e : Engine) (consumed : list loop_input) (e' : Engine)
    (r : option (option error)) (calls : list call_event) :
  iterations e consumed e' r calls -> positioned e (received consumed) e' calls.
Proof.
  apply iterations_invariant; unfold positioned, conserves.
  - intros e1. split; [by rewrite app_nil_r|]. eauto.
  - intros e1 evs1 calls1 e2 evs2 calls2 e3 [Hc1 H1] [Hc2 H2]. split.
    { by rewrite published_app, app_assoc, Hc1, <- !app_assoc, Hc2. }
    intros rs Hrs Hsorted. rewrite app_assoc in Hsorted.
    destruct (H1 rs Hrs (lsn_sorted_app_l _ _ Hsorted)) as (rs2 & Hrs2 & Hl2).
    rewrite Hc1, <- app_assoc in Hsorted.
    destruct (H2 rs2 Hrs2 (lsn_sorted_app_r _ _ Hsorted)) as (rs3 & Hrs3 & Hl3).
    exists rs3. by rewrite published_app, last_LSN_app, <- Hl2.
  - intros e1 ev. split; [done|]. eauto.
  - intros e1 rs e2 r2 calls2 Hrs Hf. pose proof (flush_conserves _ _ _ _ _ Hf) as Hcons.
    rewrite app_nil_r. split; [done|]. intros rs1 Hrs1 Hsorted. simplify_eq.
    destruct Hf as [| | |now cb now' t0 t1 errs ackErr saveErr Hne Hallow Hlen rs'];
      rewrite ?published_attempts; eauto.
    exists rs'. split; [done|].
    change (e_buffer (add_metrics _ _)) with (@nil ChangeEvent) in Hcons.
    rewrite app_nil_r in Hcons. rewrite <- Hcons, <- batch_maxLSN_sorted by done.
    unfold rs', count_flushed, batch_maxLSN. by destruct (batch_extent _ _ _).
  - intros. split; [by rewrite app_nil_r|]. eauto.
Qed.

(** * The breaker between flushes *)

(** Between flushes the breaker is never left half-open, so the next request
    after the retry interval is let through. *)
Record breaker_settled (cb : CircuitBreaker) : Prop := {
  settled_threshold : (0 < cb_failureThreshold cb)%Z;
  settled_state : cb_state cb =
    if (cb_failureThreshold cb <=? cb_consecutiveFailures cb)%Z then CircuitOpen else CircuitClosed;
  settled_failures : (0 <= cb_consecutiveFailures cb)%Z;
}.

Definition settles (e : Engine) (e' : Engine) (calls : list call_event) : Prop :=
  let cb := e_cloudBreaker e in let cb' := e_cloudBreaker e' in
  breaker_settled cb ->
  (cb_consecutiveFailures cb + Z.of_nat (length calls) <= int_max)%Z ->
  breaker_settled cb' /\
  (cb_consecutiveFailures cb' <= cb_consecutiveFailures cb + Z.of_nat (length calls))%Z.

Lemma Allow_settled (now : Time) (cb cb' : CircuitBreaker) :
  Allow now cb = (true, cb') ->
  cb_consecutiveFailures cb' = cb_consecutiveFailures cb /\
  cb_failureThreshold cb' = cb_failureThreshold cb /\
  (cb_state cb' = CircuitClosed /\ cb_state cb = CircuitClosed \/ cb_state cb = CircuitOpen).
Proof.
  unfold Allow. destruct (cb_state cb) eqn:Hs; [|destruct (_ <=? _)%Z|]; intros; simplify_eq;
    simpl; auto.
Qed.

Lemma RecordFailure_settled (now now' : Time) (cb cb' : CircuitBreaker) :
  breaker_settled cb -> (cb_consecutiveFailures cb < int_max)%Z ->
  Allow now cb = (true, cb') ->
  breaker_settled (RecordFailure now' cb') /\
  cb_consecutiveFailures (RecordFailure now' cb') = (cb_consecutiveFailures cb + 1)%Z.
Proof.
  intros [Ht Hs Hf] Hroom (Hc & Hth & Hst)%Allow_settled.
  assert (Hw : wrap64 (cb_consecutiveFailures cb' + 1) = (cb_consecutiveFailures cb + 1)%Z).
  { rewrite Hc, wrap64_id; [done|int64; lia]. }
  split; [split|]; simpl; rewrite ?Hw, ?Hth; try done; [|lia].
  destruct (cb_failureThreshold cb <=? cb_consecutiveFailures cb + 1)%Z eqn:E1; [done|].
  destruct (cb_failureThreshold cb <=? cb_consecutiveFailures cb)%Z eqn:E2; [lia|].
  destruct Hst as [[-> _]|Hst]; [done|]. by rewrite Hs in Hst.
Qed.

Lemma iterations_settle (e : Engine) (consumed : list loop_input) (e' : Engine)
    (r : option (option error)) (calls : list call_event) :
  iterations e consumed e' r calls -> settles e e' calls.
Proof.
  apply (iterations_invariant (fun e _ e' calls => settles e e' calls)); unfold settles.
  - intros e1 Hcb _. split; [done|]. simpl. lia.
  - intros e1 _ calls1 e2 _ calls2 e3 H1 H2 Hcb. rewrite length_app. intros Hroom.
    destruct (H1 Hcb) as [Hcb2 Hle2]; [lia|]. destruct (H2 Hcb2) as [Hcb3 Hle3]; [lia|].
    split; [done|lia].
  - intros e1 ev Hcb _. split; [done|]. simpl. lia.
  - intros e1 rs e2 r2 calls2 _ Hf Hcb Hroom.
    destruct Hf as [|now cb Hne Hallow|now cb now' errs err Hne Hallow Hlen
                   |now cb now' t0 t1 errs ackErr saveErr Hne Hallow Hlen rs']; simpl in *.
    + split; [done|lia].
    + unfold Allow in Hallow. destruct (cb_state _) in Hallow; [done| |]; [destruct (_ <=? _)%Z in Hallow|];
        simplify_eq; split; done || lia.
    + unfold attempts in *. rewrite length_fmap in *.
      destruct (RecordFailure_settled now now' _ _ Hcb ltac:(lia) Hallow) as [Hs Hc].
      simpl in Hc. split; [done|lia].
    + apply Allow_settled in Hallow as (_ & Hth & _). destruct Hcb as [Ht Hs Hf].
      split; [|lia]. split; simpl; rewrite ?Hth; [done| |done].
      by rewrite (proj2 (Z.leb_gt _ _)) by lia.
  - intros e1 rs saveErr closeErr _ Hcb _. split; [done|]. simpl. lia.
Qed.

(** * A healthy cloud *)

Definition healthy_call (c : call_event) : Prop :=
  match c with CallPublish _ (Some _) => False | _ => True end.

Lemma healthy_attempts (batch : list ChangeEvent) (errs : list error) :
  Forall healthy_call (attempts batch errs) -> errs = [].
Proof. destruct errs; [done|]. simpl. by intros [? _]%Forall_cons. Qed.

(** With a closed breaker and no failing call a flush empties the buffer. *)
Lemma flush_healthy (e : Engine) (rs : ReplicationState) (e' : Engine) (r : option error)
    (calls : list call_event) :
  cb_state (e_cloudBreaker e) = CircuitClosed ->
  flush_outcome e rs e' r calls -> Forall healthy_call calls ->
  cb_state (e_cloudBreaker e') = CircuitClosed /\ e_buffer e' = [].
Proof.
  intros Hcb Hf Hh.
  destruct Hf as [|now cb Hne Hallow|now cb now' errs err Hne Hallow Hlen|]; simpl; try done.
  - unfold Allow in Hallow. by rewrite Hcb in Hallow.
  - apply healthy_attempts in Hh. subst. simpl in Hlen. lia.
Qed.

Definition ready (e : Engine) : Prop :=
  cb_state (e_cloudBreaker e) = CircuitClosed /\
  (0 < BatchSize (Replication (e_cfg e)))%Z /\
  (Z.of_nat (length (e_buffer e)) < BatchSize (Replication (e_cfg e)))%Z.

Lemma iter_ready (e : Engine) (rs : ReplicationState) (i : loop_input) (e' : Engine)
    (r : option (option error)) (calls : list call_event) :
  e_state e = Some rs -> iter_outcome e rs i e' r calls -> Forall healthy_call calls ->
  ready e -> ready e' /\ (match i with Event _ => True | _ => e_buffer e' = [] end).
Proof.
  intros Hrs Hit Hh (Hcb & Hpos & Hlen). unfold ready.
  destruct (iter_outcome_state _ _ _ _ _ _ Hrs Hit) as [Hcfg _].
  destruct Hit as [Hns Hw|e' r' calls Hns Hw Hf|e' r' calls rs' saveErr closeErr Hstop Hf Hrs'].
  - destruct i as [| |ev|]; simpl in *; try done.
    + repeat split; try done. lia.
    + apply bool_decide_eq_false in Hw. repeat split; try done. by destruct (e_buffer e); simpl in *; [|lia].
  - destruct (flush_healthy (before_flush e i) rs e' r' calls) as [Hcb' Hbuf]; [|done..|].
    { by destruct i. }
    rewrite Hcfg, Hbuf. split; [repeat split; [done..|simpl; lia]|]. by destruct i.
  - apply Forall_app in Hh as [Hh _].
    destruct (flush_healthy e rs e' r' calls) as [Hcb' Hbuf]; [done..|].
    rewrite Hcfg, Hbuf. split; [repeat split; [done..|simpl; lia]|]. by destruct i.
Qed.

Lemma iterations_ready (e : Engine) (consumed : list loop_input) (e' : Engine)
    (r : option (option error)) (calls : list call_event) :
  iterations e consumed e' r calls -> Forall healthy_call calls -> ready e ->
  ready e' /\ (match last consumed with
               | None | Some (Event _) => True
               | Some _ => e_buffer e' = [] end).
Proof.
  induction 1 as [e|e rs i e' r calls Hrs Hit|e rs i e1 calls1 ins e' r calls Hrs Hit Hits IH];
    intros Hh Hready; [done| |].
  - destruct (iter_ready _ _ _ _ _ _ Hrs Hit Hh Hready). by destruct i.
  - apply Forall_app in Hh as [Hh1 Hh2].
    destruct (iter_ready _ _ _ _ _ _ Hrs Hit Hh1 Hready) as [Hready1 Hbuf].
    destruct (IH Hh2 Hready1) as [Hready' Hbuf']. split; [done|].
    rewrite last_cons. destruct (last ins) eqn:El; [done|].
    apply last_None in El. subst ins.
    inversion Hits; subst. by destruct i.
Qed.

(** * Redelivery *)

Section redelivery.
Context {E : Type} (effect : ChangeEvent -> E).

Definition redelivery (e : Engine) (evs : list ChangeEvent) (e' : Engine)
    (calls : list call_event) : Prop :=
  forall chunks fut rest xs, Forall2 (chunk_of effect) calls chunks ->
    redelivers rest (effect <$> (e_buffer e' ++ fut)) xs ->
    redelivers rest (effect <$> (e_buffer e ++ evs ++ fut)) (concat chunks ++ xs).

Lemma chunks_none (calls : list call_event) (chunks : list (list E)) :
  Forall2 (chunk_of effect) calls chunks ->
  Forall (fun c => match c with CallPublish _ _ => False | _ => True end) calls ->
  concat chunks = [].
Proof.
  induction 1 as [|c xs calls chunks Hc _ IH]; intros Hno; [done|].
  apply Forall_cons in Hno as [Hno Hnos]. simpl. rewrite IH, app_nil_r by done.
  by destruct c.
Qed.

Lemma flush_redelivery (e : Engine) (rs : ReplicationState) (e' : Engine) (r : option error)
    (calls : list call_event) :
  flush_outcome e rs e' r calls -> redelivery e [] e' calls.
Proof.
  intros Hf chunks fut rest xs Hch Hre. simpl.
  destruct Hf as [| |now cb now' errs err Hne Hallow Hlen
                 |now cb now' t0 t1 errs ackErr saveErr Hne Hallow Hlen rs']; simpl in Hre.
  1,2: by inversion Hch; subst.
  all: rewrite ?(app_nil_r (attempts _ _)) in Hch.
  - rewrite <- (app_nil_r (attempts _ _)) in Hch.
    apply chunk_of_attempts in Hch as (partial & none & -> & Hp & Hnone).
    inversion Hnone; subst. rewrite app_nil_r. rewrite fmap_app in *.
    apply redelivers_prefixes; [|done].
    eapply Forall_impl; [exact Hp|]. intros ys [n ->]. exists n. by rewrite fmap_take.
  - apply chunk_of_attempts in Hch as (partial & ok & -> & Hp & Hok).
    apply Forall2_cons_inv_l in Hok as (x & tail & -> & Htail & ->).
    rewrite concat_app, <- app_assoc, fmap_app.
    apply redelivers_prefixes.
    + eapply Forall_impl; [exact Hp|]. intros ys [n ->]. exists n. by rewrite fmap_take.
    + simpl. rewrite (chunks_none _ _ Htail).
      2:{ unfold ack_calls. destruct (0 <? _)%Z; repeat constructor. }
      rewrite app_nil_r. by apply redelivers_app.
Qed.

Lemma iterations_redelivery (e : Engine) (consumed : list loop_input) (e' : Engine)
    (r : option (option error)) (calls : list call_event) :
  iterations e consumed e' r calls -> redelivery e (received consumed) e' calls.
Proof.
  apply iterations_invariant; unfold redelivery.
  - intros e1 chunks fut rest xs Hch. by inversion Hch.
  - intros e1 evs1 calls1 e2 evs2 calls2 e3 H1 H2 chunks fut rest xs Hch Hre.
    apply Forall2_app_inv_l in Hch as (ch1 & ch2 & Hch1 & Hch2 & ->).
    rewrite concat_app, <- app_assoc, <- app_assoc. apply H1; [done|]. by apply H2.
  - intros e1 ev chunks fut rest xs Hch Hre. inversion Hch; subst. simpl in *.
    by rewrite <- app_assoc in Hre.
  - intros e1 rs e2 r2 calls2 _ Hf. by eapply flush_redelivery.
  - intros e1 rs saveErr closeErr _ chunks fut rest xs Hch Hre.
    rewrite (chunks_none _ _ Hch) by repeat constructor. done.
Qed.
End redelivery.

(** * Configuration and shutdown *)

Lemma iterations_cfg (e : Engine) (consumed : list loop_input) (e' : Engine)
    (r : option (option error)) (calls : list call_event) :
  iterations e consumed e' r calls -> e_cfg e' = e_cfg e.
Proof.
  apply (iterations_invariant (fun e _ e' _ => e_cfg e' = e_cfg e)); intros; try done.
  - congruence.
  - by eapply flush_outcome_state.
Qed.

Definition no_close (calls : list call_event) : Prop := forall r, CallClose r ∉ calls.

Lemma no_close_app (calls1 calls2 : list call_event) :
  no_close calls1 -> no_close calls2 -> no_close (calls1 ++ calls2).
Proof. intros H1 H2 r [Hin|Hin]%elem_of_app; [by eapply H1|by eapply H2]. Qed.

Lemma flush_no_close (e : Engine) (rs : ReplicationState) (e' : Engine) (r : option error)
    (calls : list call_event) :
  flush_outcome e rs e' r calls -> no_close calls.
Proof.
  assert (Hatt : forall batch errs, no_close (attempts batch errs)).
  { intros batch errs r0 Hin. unfold attempts in Hin.
    apply list_elem_of_fmap in Hin as (? & ? & _). done. }
  destruct 1.
  1,2: intros ? Hin; by apply elem_of_nil in Hin.
  - apply Hatt.
  - apply no_close_app; [apply Hatt|]. unfold ack_calls. intros r0 Hin.
    destruct (0 <? _)%Z; simpl in Hin;
      repeat (apply elem_of_cons in Hin as [?|Hin]; [done|]); by apply elem_of_nil in Hin.
Qed.

Lemma iter_no_stop (e : Engine) (rs : ReplicationState) (i : loop_input) (e' : Engine)
    (calls : list call_event) :
  iter_outcome e rs i e' None calls -> stop_input i = false /\ no_close calls.
Proof.
  inversion 1 as [Hns|e2 fr fcalls Hns Hw Hf|]; subst; (split; [done|]).
  - intros ? Hin. by apply elem_of_nil in Hin.
  - by eapply flush_no_close.
Qed.

Lemma iterations_going (e : Engine) (consumed : list loop_input) (e' : Engine)
    (r : option (option error)) (calls : list call_event) :
  iterations e consumed e' r calls -> r = None ->
  Forall (fun i => stop_input i = false) consumed /\ no_close calls.
Proof.
  induction 1 as [e|e rs i e' r calls Hrs Hit|e rs i e1 calls1 ins e' r calls Hrs Hit Hits IH];
    intros Hr; [|done|].
  - split; [done|]. intros ? Hin. by apply elem_of_nil in Hin.
  - apply iter_no_stop in Hit as [Hns Hno1]. destruct (IH Hr) as [Hb Hno].
    split; [by constructor|by apply no_close_app].
Qed.

(** A run that returns ends with the iteration that stops it. *)
Lemma iterations_last (e : Engine) (consumed : list loop_input) (e' : Engine)
    (r : option (option error)) (calls : list call_event) (err : option error) :
  iterations e consumed e' r calls -> r = Some err ->
  exists before i e1 rs1 pre made, consumed = before ++ [i] /\ calls = pre ++ made /\
    iterations e before e1 None pre /\ e_state e1 = Some rs1 /\
    iter_outcome e1 rs1 i e' (Some err) made.
Proof.
  induction 1 as [e|e rs i e' r calls Hrs Hit|e rs i e1 calls1 ins e' r calls Hrs Hit Hits IH];
    intros Hr; [done| |].
  - injection Hr as ->. exists [], i, e, rs, [], calls. by repeat split; try constructor.
  - destruct (IH Hr) as (before & j & e2 & rs2 & pre & made & -> & -> & Hpre & Hrs2 & Hlast).
    exists (i :: before), j, e2, rs2, (calls1 ++ pre), made.
    split; [done|]. split; [by rewrite app_assoc|]. split; [by eapply IterationsCons|done].
Qed.

(** * Runs whose shutdown timed out *)

(** The calls of a run are the first of those of a complete one. *)
Lemma run_outcome_completes (e : Engine) (consumed : list loop_input) (e' : Engine)
    (r : option (option error)) (calls late : list call_event) :
  run_outcome e consumed e' r calls late ->
  exists e2 r2 todo, iterations e consumed e2 r2 (calls ++ late ++ todo).
Proof.
  destruct 1 as [ins e' r calls Hits|before i e' rs calls late todo e2 r2 Hits Ht Hrs Hit].
  { exists e', r, []. by rewrite !app_nil_r. }
  exists e2, (Some r2), todo. remember None as none eqn:Hnone.
  induction Hits as [e|e rs0 i0 e' r calls Hrs0 Hit0|e rs0 i0 e1 calls1 ins e' r calls Hrs0 Hit0 _ IH].
  - by eapply IterationsStop.
  - done.
  - rewrite <- app_assoc. simpl. eapply IterationsCons; [done..|]. by apply IH.
Qed.

(** How a run ends. *)
Lemma run_outcome_stop (e : Engine) (consumed : list loop_input) (e' : Engine)
    (r : option (option error)) (calls late : list call_event) :
  run_outcome e consumed e' r calls late ->
  match r with
  | None => late = [] /\ Forall (fun i => stop_input i = false) consumed /\ no_close calls
  | Some err => exists before i e1 rs1 pre made,
      consumed = before ++ [i] /\ stop_input i = true /\
      Forall (fun i => stop_input i = false) before /\
      calls ++ late = pre ++ made /\ no_close pre /\
      published pre ++ e_buffer e1 = e_buffer e ++ received consumed /\
      exists e2 flushed rs2 flushErr saveErr closeErr todo,
        flush_outcome e1 rs1 e2 flushErr flushed /\ no_close flushed /\
        e_state e2 = Some rs2 /\
        made ++ todo = flushed ++ [CallSave rs2 saveErr; CallClose closeErr] /\
        match timer_of i with
        | None => e' = e2 /\ todo = [] /\
                  err = first_error (first_error flushErr saveErr) closeErr
        | Some _ => err = Some shutdown_timeout_error
        end
  end.
Proof.
  assert (Hconserve : forall before i e1 pre, stop_input i = true ->
    iterations e before e1 None pre ->
    published pre ++ e_buffer e1 = e_buffer e ++ received (before ++ [i])).
  { intros before i e1 pre Hi Hpre. rewrite received_app.
    replace (received [i]) with (@nil ChangeEvent) by (by destruct i).
    rewrite app_nil_r. symmetry. by eapply iterations_conserve. }
  destruct 1 as [ins e' r calls Hits|before i e' rs calls late todo e2 r2 Hits [k Ht] Hrs Hit].
  - rewrite app_nil_r. destruct r as [err|]; [|split; [done|by eapply iterations_going]].
    destruct (iterations_last _ _ _ _ _ _ Hits eq_refl)
      as (before & i & e1 & rs1 & pre & made & -> & -> & Hpre & Hrs1 & Hlast).
    destruct (iterations_going _ _ _ _ _ Hpre eq_refl) as [Hb Hno].
    inversion Hlast as [| |? fr fcalls rs2 sErr cErr Hstop Hf Hrs2]; subst.
    exists before, i, e1, rs1, pre, (fcalls ++ [CallSave rs2 sErr; CallClose cErr]).
    split_and!; try done; [by apply Hconserve|].
    exists e', fcalls, rs2, fr, sErr, cErr, []. rewrite app_nil_r.
    split_and!; try done; [by eapply flush_no_close|]. unfold shutdown_result.
    by destruct (timer_of i).
  - destruct (iterations_going _ _ _ _ _ Hits eq_refl) as [Hb Hno].
    inversion Hit as [| |? fr fcalls rs2 sErr cErr Hstop Hf Hrs2]; subst.
    exists before, i, e', rs, calls, late. split_and!; try done; [by apply Hconserve|].
    exists e2, fcalls, rs2, fr, sErr, cErr, todo. rewrite Ht.
    split_and!; try done. by eapply flush_no_close.
Qed.

(** The calls of a flush that publish, publish its batch, at most once with
    success. *)
Lemma flush_publishes (e : Engine) (rs : ReplicationState) (e' : Engine) (r : option error)
    (calls : list call_event) :
  flush_outcome e rs e' r calls ->
  Forall (fun c => forall evs err, c = CallPublish evs err -> evs = e_buffer e) calls.
Proof.
  assert (Hatt : forall batch errs, Forall (fun c => forall evs err,
    c = CallPublish evs err -> evs = batch) (attempts batch errs)).
  { intros batch errs. induction errs; simpl; constructor; [congruence|done]. }
  assert (Hack : forall batch lsn err, Forall (fun c => forall evs err',
    c = CallPublish evs err' -> evs = batch) (ack_calls lsn err)).
  { intros batch lsn err. unfold ack_calls. destruct (0 <? lsn)%Z; by repeat constructor. }
  destruct 1; rewrite ?Forall_app; repeat split; try apply Hatt; try apply Hack;
    repeat constructor; congruence.
Qed.

Lemma late_publishes (e : Engine) (consumed : list loop_input) (e' : Engine)
    (r : option (option error)) (calls late : list call_event) :
  run_outcome e consumed e' r calls late ->
  Forall (fun c => forall evs err, c = CallPublish evs err -> evs = e_buffer e') late.
Proof.
  intros [->|(rs & e2 & r2 & rs2 & sErr & cErr & fl & todo & _ & _ & Hf & _ & Heq)]%run_outcome_late;
    [constructor|].
  assert (Hall : Forall (fun c => forall evs err, c = CallPublish evs err -> evs = e_buffer e')
    (late ++ todo)); [|by apply Forall_app in Hall as [? _]].
  rewrite <- Heq. apply Forall_app. split; [by eapply flush_publishes|]. by repeat constructor.
Qed.

Lemma published_prefix (batch : list ChangeEvent) (errs : list error)
    (tail calls todo : list call_event) :
  published tail = [] ->
  calls ++ todo = attempts batch errs ++ CallPublish batch None :: tail ->
  published calls = [] \/ published calls = batch.
Proof.
  intros Htail [(k & -> & Hk)|(k & Hk & _)]%app_eq_inv.
  - rewrite published_app, published_attempts. destruct k as [|c k]; [by left|right].
    injection Hk as <- ->. rewrite published_app in Htail. apply app_eq_nil in Htail as [Hk _].
    change (published (CallPublish batch None :: k)) with (batch ++ published k).
    by rewrite Hk, app_nil_r.
  - left. pose proof (published_attempts batch errs) as Hp. rewrite Hk, published_app in Hp.
    by apply app_eq_nil in Hp as [? _].
Qed.

Lemma late_published (e : Engine) (consumed : list loop_input) (e' : Engine)
    (r : option (option error)) (calls late : list call_event) :
  run_outcome e consumed e' r calls late ->
  published late = [] \/ published late = e_buffer e' /\ timed_out r.
Proof.
  intros [->|(rs & e2 & r2 & rs2 & sErr & cErr & fl & todo & -> & Hrs & Hf & Hrs2 & Heq)]%run_outcome_late;
    [by left|].
  assert (Hnone : published fl = [] ->
    published late = [] \/ published late = e_buffer e' /\
      timed_out (Some (Some shutdown_timeout_error))).
  { intros Hfl. left. apply (f_equal published) in Heq. rewrite !published_app, Hfl in Heq.
    symmetry in Heq. by apply app_eq_nil in Heq as [? _]. }
  destruct Hf as [| |now cb now' errs err|now cb now' t0 t1 errs ackErr saveErr Hne Hallow Hlen rs'];
    [by apply Hnone..| |].
  { apply Hnone, published_attempts. }
  rewrite <- app_assoc in Heq. simpl in Heq. symmetry in Heq.
  apply published_prefix in Heq as [?|?]; [by left|by right|].
  by rewrite !published_app, published_ack_calls.
Qed.

(** Nothing is lost, duplicated or reordered; what is left when the shutdown
    timed out may be the buffer or nothing. *)
Lemma run_conserves (e : Engine) (consumed : list loop_input) (e' : Engine)
    (r : option (option error)) (calls late : list call_event) :
  run_outcome e consumed e' r calls late ->
  exists left, (left = e_buffer e' \/ left = [] /\ timed_out r) /\
    e_buffer e ++ received consumed = published (calls ++ late) ++ left.
Proof.
  intros Hrun. destruct (run_outcome_iterations _ _ _ _ _ _ Hrun) as (ins & r' & Hits & Hrec & _).
  pose proof (iterations_conserve _ _ _ _ _ Hits) as Hcons. unfold conserves in Hcons.
  rewrite Hrec in Hcons. rewrite Hcons, published_app.
  destruct (late_published _ _ _ _ _ _ Hrun) as [->|[-> Ht]].
  - exists (e_buffer e'). rewrite app_nil_r. auto.
  - exists []. rewrite app_nil_r. auto.
Qed.

Section late_redelivery.
Context {E : Type} (effect : ChangeEvent -> E).

Lemma late_redelivers (evs fut : list ChangeEvent) (calls : list call_event)
    (chunks : list (list E)) (rest xs : list E) :
  Forall (fun c => forall evs' err, c = CallPublish evs' err -> evs' = evs) calls ->
  Forall2 (chunk_of effect) calls chunks ->
  redelivers rest (effect <$> (evs ++ fut)) xs ->
  redelivers rest (effect <$> (evs ++ fut)) (concat chunks ++ xs).
Proof.
  intros Hcalls Hch Hre. rewrite fmap_app in *. apply redelivers_prefixes; [|done].
  induction Hch as [|c ys calls chunks Hc _ IH]; [constructor|].
  apply Forall_cons in Hcalls as [Hpub Hcalls]. constructor; [|by apply IH].
  assert (Hnone : ys = [] -> exists n, ys = take n (effect <$> evs)) by (intros ->; by exists 0).
  destruct c as [| | |evs' [err|]| | | | | | | | | | |]; try by apply Hnone.
  - destruct Hc as [n ->]. exists n. by rewrite (Hpub _ _ eq_refl), fmap_take.
  - exists (length (effect <$> evs)). by rewrite firstn_all, Hc, (Hpub _ _ eq_refl).
Qed.

(** A run delivers its events down to those it leaves; a shutdown that timed out
    may have delivered these too. *)
Lemma run_redelivers (e : Engine) (consumed : list loop_input) (e' : Engine)
    (r : option (option error)) (calls late : list call_event) (chunks : list (list E)) :
  run_outcome e consumed e' r calls late -> Forall2 (chunk_of effect) (calls ++ late) chunks ->
  redelivers (effect <$> e_buffer e') (effect <$> (e_buffer e ++ received consumed))
    (concat chunks).
Proof.
  intros Hrun (ch1 & ch2 & Hch1 & Hch2 & ->)%Forall2_app_inv_l.
  destruct (run_outcome_iterations _ _ _ _ _ _ Hrun) as (ins & r' & Hits & <- & _).
  rewrite concat_app, <- (app_nil_r (received ins)).
  apply (iterations_redelivery effect _ _ _ _ _ Hits ch1 []); [done|].
  rewrite <- (app_nil_r (concat ch2)). apply (late_redelivers _ _ late); [|done|].
  - by eapply late_publishes.
  - rewrite app_nil_r. apply RdStop.
Qed.
End late_redelivery.
