(* ===== verification/ExampleWorld.v ===== *)
(** A small concrete environment, on which the properties are instantiated: a
    clock that only waiting advances, a cloud that answers [Publish] from a
    script and keeps the events of the calls that succeeded, and a subscriber
    and a store that always succeed. *)
From S2P Require Import Prelude GoErrors GoTime Interfaces CircuitBreaker Backoff Config State.
From S2P Require Import Metrics Engine Trace Delivery.

Record world : Type := mkWorld {
  clock : Time;
  script : list (option error);    (** the next answers of [Publish]; then success *)
  connects : list (option error);  (** the next answers of [Connect]; then success *)
  cloud : list ChangeEvent;
}.

Arguments mkWorld clock%_Z_scope.

#[export] Instance world_runtime : Runtime world := {|
  rt_now w := (clock w, w);
  rt_wait ctx d w := (None, mkWorld (Add (clock w) d) (script w) (connects w) (cloud w));
|}.

#[export] Instance world_subscriber : ReplicationSubscriber world := {|
  sub_Connect ctx db := call (fun w =>
    (default None (head (connects w)), mkWorld (clock w) (script w) (tail (connects w)) (cloud w)));
  sub_Subscribe ctx slot tables := mret None;
  sub_Acknowledge ctx lsn := mret None;
  sub_Close := mret None;
|}.

#[export] Instance world_publisher : ReplicationPublisher world := {|
  pub_Publish ctx evs := call (fun w =>
    match default None (head (script w)) with
    | Some err => (Some err, mkWorld (clock w) (tail (script w)) (connects w) (cloud w))
    | None => (None, mkWorld (clock w) (tail (script w)) (connects w) (cloud w ++ evs))
    end);
  pub_HealthCheck ctx := mret None;
|}.

#[export] Instance world_store : StateStore world := {|
  store_Load := mret (Ok fresh_state);
  store_Save rs := mret None;
|}.

#[export] Instance world_delivery : Delivery world ChangeEvent := {|
  effects := cloud;
  effect ev := ev;
|}.

#[export] Instance world_quiet : QuietEnvironment world ChangeEvent.
Proof. by split. Qed.

#[export] Instance world_atomic : AtomicPublisher world ChangeEvent.
Proof.
  split. intros ctx evs w. apply wp_call. intros r w' Hp.
  destruct (default None _); injection Hp as <- <-; simpl; [by rewrite app_nil_r|].
  by rewrite list_fmap_id.
Qed.

#[export] Instance world_responsive : Responsive world.
Proof. split; intros; try done; by apply wp_call. Qed.

(** * Sample data *)

Definition an_event (lsn : LSN) : ChangeEvent :=
  {| ev_LSN := lsn; ev_Timestamp := Second; ev_Table := "public.accounts";
     ev_Operation := OperationInsert; ev_OldRow := ∅; ev_NewRow := {[ "id" := Int lsn ]} |}.

Arguments an_event lsn%_Z_scope.

Definition local_db : DatabaseConfig :=
  {| Host := "db.local"; Port := 5432; Database := "app"; User := "sync"; Password := "secret";
     SSLMode := "prefer"; SSLRootCertPath := ""; ReplicationSlot := "sync_slot" |}.

Definition cloud_db : DatabaseConfig :=
  {| Host := "db.cloud"; Port := 5432; Database := "app"; User := "sync"; Password := "secret";
     SSLMode := "verify-full"; SSLRootCertPath := "/etc/ca.pem"; ReplicationSlot := "" |}.

Definition sample_config (batch : Z) : Config :=
  {| LocalDatabase := local_db; CloudDatabase := cloud_db;
     Replication := {| Tables := ["public.accounts"]; BatchSize := batch;
                       FlushInterval := Second; MaxLagSeconds := 60 |};
     DistributedLock_ := {| GCSBucket := "b"; LockKey := "k"; TTL := (30 * Second)%Z;
                            RenewInterval := (10 * Second)%Z |};
     Health := {| StatusPort := 8080; MetricsPort := 9090; CheckInterval := Second |};
     Failover := {| Timeout_ := (30 * Second)%Z; FailoverConsecutiveFailures := 3 |} |}.

(** An engine that has loaded its state, with batches of two events. *)
Definition sample_engine : Engine := set_state fresh_state (New (sample_config 2) (Some [])).

Definition an_error : error := ErrorsNew "connection refused".

(** A world in which the next [n] calls of [Publish] fail. *)
Definition failing_world (n : nat) : world := mkWorld (100 * Second)%Z (repeat (Some an_error) n) [] [].
