(* ===== verification/EngineProps.v ===== *)
(** The properties of the engine, over every environment.

    Statements about the world alone hold for the program as it is; statements
    about the calls are over the recorded environment, whose recording changes
    nothing ([erases_loop]). *)
From S2P Require Import Prelude GoErrors GoTime Interfaces CircuitBreaker Backoff Config State.
From S2P Require Import Metrics Engine Trace Delivery EngineSpec EngineInvariants ExampleWorld.

Section delivery.
Context {W E : Type} `{QuietEnvironment W E}.

(** C3: over an atomic publisher the engine delivers every event exactly once
    and in order.  The loop always returns; whatever inputs it consumed, and
    however many publishes failed, what the cloud received followed by what
    is still buffered is what was buffered at the start followed by the
    events received.  (If the shutdown timed out, its flush may have gone through
    all the same: then nothing is left.) *)
Theorem loop_delivers_exactly_once `{!AtomicPublisher W E} (e : Engine)
    (rs : ReplicationState) (inputs : list loop_input) (w : W) :
  e_state e = Some rs ->
  wp (loop e inputs) (fun '(e', r, rest) w' => exists consumed left,
    inputs = consumed ++ rest /\ (r = None -> rest = []) /\
    (left = e_buffer e' \/ left = [] /\ timed_out r) /\
    effects w' ++ (effect <$> left) =
      effects w ++ (effect <$> (e_buffer e ++ received consumed))) w.
Proof.
  intros Hrs. pose proof (atomic_responds w).
  eapply wp_mono; [by apply (wp_loop_unrecorded (delivered_exactly w) inputs e rs);
                   [|apply delivered_exactly_start]|].
  intros [[e' r] rest] w' (calls & Heff & consumed & whole & late & -> & Hrest & -> & Hrun).
  destruct (run_conserves _ _ _ _ _ _ Hrun) as (left & Hleft & Hcons).
  exists consumed, left. repeat split; [done..|].
  by rewrite Hcons, Heff, fmap_app, app_assoc.
Qed.

(** C4: over a publisher whose failed calls may have taken effect in part, the
    engine delivers at least once and in order: what reached the cloud is the
    events one by one, except that a prefix of what was next may have been
    delivered and then delivered again; what is missing is the buffer. *)
Theorem loop_delivers_at_least_once `{!DeliveringPublisher W E} (e : Engine)
    (rs : ReplicationState) (inputs : list loop_input) (w : W) :
  e_state e = Some rs ->
  wp (loop e inputs) (fun '(e', r, rest) w' => exists consumed xs,
    inputs = consumed ++ rest /\ (r = None -> rest = []) /\
    effects w' = effects w ++ xs /\
    redelivers (effect <$> e_buffer e') (effect <$> (e_buffer e ++ received consumed)) xs) w.
Proof.
  intros Hrs. pose proof (delivering_responds w).
  eapply wp_mono; [by apply (wp_loop_unrecorded (delivered_partly w) inputs e rs);
                   [|apply delivered_partly_start]|].
  intros [[e' r] rest] w'
    (calls & (chunks & Hch & Heff) & consumed & whole & late & -> & Hrest & -> & Hrun).
  exists consumed, (concat chunks). repeat split; [done|done|].
  by eapply run_redelivers.
Qed.
End delivery.

Section recorded.
Context {W : Type} `{Runtime W, ReplicationSubscriber W, ReplicationPublisher W, StateStore W}.
Context `{!Responsive W}.

(** A run of the loop over a recorded world. *)
Lemma wp_loop_recorded (inputs : list loop_input) (e : Engine) (rs : ReplicationState)
    (w : traced W) :
  e_state e = Some rs ->
  wp (loop e inputs) (fun '(e', r, rest) w' => exists consumed calls late,
    inputs = consumed ++ rest /\ (r = None -> rest = []) /\
    trace w' = trace w ++ calls ++ late /\ run_outcome e consumed e' r calls late) w.
Proof.
  intros Hrs. eapply wp_mono; [by apply (wp_loop (fun _ _ => True) inputs e rs)|].
  intros [[e' r] rest] w' (_ & ? & Htr & consumed & calls & late & -> & Hrest & -> & Hrun).
  eauto 10.
Qed.

(** C6: the engine acknowledges only what it has just published.  Every call
    of [Acknowledge] immediately follows a successful [Publish] of a batch
    and carries the greatest LSN of that batch: no event of the batch is
    beyond it, and one of them has it. *)
Theorem loop_acknowledges_published (e : Engine) (rs : ReplicationState)
    (inputs : list loop_input) (w : traced W) :
  e_state e = Some rs ->
  wp (loop e inputs) (fun _ w' => exists calls, trace w' = trace w ++ calls /\
    forall pre lsn r post, calls = pre ++ CallAcknowledge lsn r :: post ->
      exists pre' batch, pre = pre' ++ [CallPublish batch None] /\
        Forall (fun ev => ev_LSN ev <= lsn)%Z batch /\
        exists ev, ev ∈ batch /\ ev_LSN ev = lsn) w.
Proof.
  intros Hrs. eapply wp_mono; [by eapply wp_loop_recorded|].
  intros [[e' r] rest] w' (consumed & calls & late & _ & _ & Htr & Hrun). exists (calls ++ late).
  split; [done|]. intros pre lsn r' post Heq.
  destruct (run_outcome_completes _ _ _ _ _ _ Hrun) as (e2 & r2 & todo & Hits).
  rewrite app_assoc, Heq, <- app_assoc in Hits. simpl in Hits.
  destruct (iterations_acks _ _ _ _ _ Hits pre lsn r' (post ++ todo) eq_refl)
    as (pre' & batch & -> & Hne & Hpos & ->).
  exists pre', batch. split; [done|]. unfold batch_maxLSN in *.
  destruct (batch_extent_LSN batch 0%Z zero_time) as (_ & Hall & [Hz|Hin]); [|done].
  rewrite Hz in Hpos. lia.
Qed.

(** C8: the bookkeeping follows the deliveries.  [EventsProcessed] grows by
    the number of events published, modulo the width of an int64; so does the
    processed counter of the metrics; and [EventsFailed] grows by as much as
    the failed counter of the metrics does.  Only the [late] calls of a shutdown
    that timed out are not in the counters that are left. *)
Theorem loop_counts_events (e : Engine) (rs : ReplicationState) (ops : Metrics)
    (inputs : list loop_input) (w : traced W) :
  e_state e = Some rs -> e_metrics e = Some ops ->
  in_int64 (EventsProcessed rs) -> in_int64 (EventsFailed rs) ->
  wp (loop e inputs) (fun '(e', r, _) w' => exists calls late rs' ops',
    trace w' = trace w ++ calls ++ late /\ (late = [] \/ timed_out r) /\
    e_state e' = Some rs' /\ e_metrics e' = Some ops' /\
    let processed := Z.of_nat (length (published calls)) in
    EventsProcessed rs' = wrap64 (EventsProcessed rs + processed) /\
    counter_value M_EventsProcessed ops' =
      (counter_value M_EventsProcessed ops + processed)%Z /\
    EventsFailed rs' = wrap64 (EventsFailed rs +
      (counter_value M_EventsFailed ops' - counter_value M_EventsFailed ops))) w.
Proof.
  intros Hrs Hm HP HF. eapply wp_mono; [by eapply wp_loop_recorded|].
  intros [[e' r] rest] w' (consumed & calls & late & _ & _ & Htr & Hrun).
  destruct (run_outcome_iterations _ _ _ _ _ _ Hrun) as (ins & r' & Hits & _).
  destruct (iterations_counted _ _ _ _ _ Hits) as [k Hk].
  destruct (Hk rs Hrs HP HF) as (rs' & more & Hrs' & Hm' & Hp & Hf & Hcp & Hcf).
  rewrite Hm in Hm'. exists calls, late, rs', (ops ++ more).
  rewrite !counter_value_app, Hcp, Hcf.
  split; [done|]. split; [by eapply late_timed_out|]. repeat split; [done..|]. rewrite Hf. f_equal. lia.
Qed.

(** C9: on a stream in LSN order the persisted position is exact.  [LastLSN]
    is that of the last event published, and unchanged when none was ([late]
    are the calls of a shutdown that timed out). *)
Theorem loop_tracks_position (e : Engine) (rs : ReplicationState)
    (inputs : list loop_input) (w : traced W) :
  e_state e = Some rs -> lsn_sorted (e_buffer e ++ received inputs) ->
  wp (loop e inputs) (fun '(e', r, _) w' => exists calls late rs',
    trace w' = trace w ++ calls ++ late /\ (late = [] \/ timed_out r) /\
    e_state e' = Some rs' /\
    LastLSN rs' = match last (published calls) with
                  | Some ev => ev_LSN ev | None => LastLSN rs end) w.
Proof.
  intros Hrs Hsorted. eapply wp_mono; [by eapply wp_loop_recorded|].
  intros [[e' r] rest] w' (consumed & calls & late & -> & _ & Htr & Hrun).
  destruct (run_outcome_iterations _ _ _ _ _ _ Hrun) as (ins & r' & Hits & Hrec & _).
  destruct (iterations_positioned _ _ _ _ _ Hits) as [_ Hpos].
  rewrite received_app, app_assoc, <- Hrec in Hsorted. apply lsn_sorted_app_l in Hsorted.
  destruct (Hpos rs Hrs Hsorted) as (rs' & Hrs' & Hl). exists calls, late, rs'.
  split; [done|]. split; [by eapply late_timed_out|]. eauto.
Qed.

(** C11: a healthy cloud keeps the buffer bounded and the engine makes
    progress.  If the breaker is closed and no [Publish] failed, fewer than
    [BatchSize] events are ever left buffered, and after a tick, a closed
    channel or a cancellation everything received has been published (unless
    the shutdown timed out). *)
Theorem loop_healthy_progress (e : Engine) (rs : ReplicationState)
    (inputs : list loop_input) (w : traced W) :
  e_state e = Some rs -> cb_state (e_cloudBreaker e) = CircuitClosed ->
  let size := BatchSize (Replication (e_cfg e)) in
  (0 < size)%Z -> (Z.of_nat (length (e_buffer e)) < size)%Z ->
  wp (loop e inputs) (fun '(e', r, rest) w' => exists consumed calls,
    inputs = consumed ++ rest /\ trace w' = trace w ++ calls /\
    (Forall healthy_call calls ->
      (Z.of_nat (length (e_buffer e')) < size)%Z /\
      match last consumed with
      | None | Some (Event _) => True
      | Some _ => published calls = e_buffer e ++ received consumed \/ timed_out r
      end)) w.
Proof.
  intros Hrs Hcb size Hpos Hlen. eapply wp_mono; [by eapply wp_loop_recorded|].
  intros [[e' r] rest] w' (consumed & calls & late & -> & _ & Htr & Hrun).
  exists consumed, (calls ++ late). split; [done|]. split; [done|]. intros [Hh _]%Forall_app.
  destruct (run_outcome_iterations _ _ _ _ _ _ Hrun) as (ins & r' & Hits & _ & Hlate).
  destruct (iterations_ready _ _ _ _ _ Hits Hh) as [(_ & _ & Hlen') Hbuf]; [done|]. split.
  - by rewrite (iterations_cfg _ _ _ _ _ Hits) in Hlen'.
  - destruct Hlate as [Ht|(-> & -> & ->)]; [destruct (last consumed) as [[]|]; auto|].
    pose proof (iterations_conserve _ _ _ _ _ Hits) as Hcons. unfold conserves in Hcons.
    rewrite app_nil_r.
    destruct (last consumed) as [[]|]; try done; left; by rewrite Hcons, Hbuf, app_nil_r.
Qed.

(** C12: the loop ends with an orderly shutdown, and only then.  It returns
    exactly when it consumed a cancellation or the end of the channel.  The
    shutdown flushes what is still to be published, saves the state that leaves
    in memory and closes the subscriber, in this order and closing once: these
    are all its calls when its work is done in time, and its error is then the
    first of theirs.  When the timer fires first, its error is the timer's and
    its calls are only the first of these. *)
Theorem loop_shuts_down_in_order (e : Engine) (rs : ReplicationState)
    (inputs : list loop_input) (w : traced W) :
  e_state e = Some rs ->
  wp (loop e inputs) (fun '(e', r, rest) w' => exists consumed calls,
    inputs = consumed ++ rest /\ trace w' = trace w ++ calls /\
    match r with
    | None => rest = [] /\ Forall (fun i => stop_input i = false) consumed /\
              (forall r, CallClose r ∉ calls)
    | Some err => exists before i e1 rs1 pre made,
        consumed = before ++ [i] /\ stop_input i = true /\
        Forall (fun i => stop_input i = false) before /\
        calls = pre ++ made /\ (forall r, CallClose r ∉ pre) /\
        published pre ++ e_buffer e1 = e_buffer e ++ received consumed /\
        exists e2 flushed rs2 flushErr saveErr closeErr todo,
          flush_outcome e1 rs1 e2 flushErr flushed /\ (forall r, CallClose r ∉ flushed) /\
          e_state e2 = Some rs2 /\
          made ++ todo = flushed ++ [CallSave rs2 saveErr; CallClose closeErr] /\
          match timer_of i with
          | None => e' = e2 /\ todo = [] /\
                    err = first_error (first_error flushErr saveErr) closeErr
          | Some _ => err = Some shutdown_timeout_error
          end
    end) w.
Proof.
  intros Hrs. eapply wp_mono; [by eapply wp_loop_recorded|].
  intros [[e' r] rest] w' (consumed & calls & late & -> & Hrest & Htr & Hrun).
  exists consumed, (calls ++ late). split; [done|]. split; [done|].
  pose proof (run_outcome_stop _ _ _ _ _ _ Hrun) as Hstop. destruct r as [err|]; [done|].
  destruct Hstop as (-> & ? & ?). rewrite app_nil_r. auto.
Qed.
End recorded.

(** C13: the breaker never blocks the engine for ever.  Starting from a new
    engine, after any run (of fewer than 2^63 calls) the breaker is closed when
    fewer than five publishes in a row have failed and open otherwise, never
    half-open; and once the retry interval has passed since the last failure the
    next flush is let through. *)
Theorem loop_breaker_recovers {W : Type}
    `{Runtime W, ReplicationSubscriber W, ReplicationPublisher W, StateStore W, !Responsive W}
    (e : Engine) (rs : ReplicationState) (inputs : list loop_input) (w : traced W)
    (cfg : Config) (m : option Metrics) :
  e_state e = Some rs -> e_cloudBreaker e = e_cloudBreaker (New cfg m) ->
  wp (loop e inputs) (fun '(e', _, _) w' => exists calls, trace w' = trace w ++ calls /\
    ((Z.of_nat (length calls) <= int_max)%Z ->
      let cb := e_cloudBreaker e' in
      cb_state cb = (if (cb_failureThreshold cb <=? cb_consecutiveFailures cb)%Z
                     then CircuitOpen else CircuitClosed) /\
      forall now, (cb_retryInterval cb <= Sub now (cb_lastFailureTime cb))%Z ->
        (Allow now cb).1 = true)) w.
Proof.
  intros Hrs Hcb. eapply wp_mono; [by eapply wp_loop_recorded|].
  intros [[e' r] rest] w' (consumed & calls & late & _ & _ & Htr & Hrun). exists (calls ++ late).
  split; [done|]. rewrite length_app. intros Hroom.
  destruct (run_outcome_iterations _ _ _ _ _ _ Hrun) as (ins & r' & Hits & _).
  pose proof (iterations_settle _ _ _ _ _ Hits) as Hset. unfold settles in Hset.
  rewrite Hcb in Hset. destruct Hset as [[_ Hst _] _]; [by split|simpl; lia|].
  split; [done|]. intros now Hnow. unfold Allow. rewrite Hst.
  destruct (_ <=? _)%Z; simpl; [|done]. by rewrite (proj2 (Z.leb_le _ _)).
Qed.

(** An open breaker suspends the cloud.  A flush made before the retry
    interval has passed since the last failure makes no call at all: it only
    reads the clock, keeps the batch, the state and the metrics, and reports
    that the circuit is open. *)
Theorem flush_blocked_by_breaker {W : Type}
    `{Runtime W, ReplicationSubscriber W, ReplicationPublisher W, StateStore W}
    (ctx : Context) (e : Engine) (w w1 w2 : W) (t0 now : Time) :
  e_buffer e <> [] -> cb_state (e_cloudBreaker e) = CircuitOpen ->
  rt_now w = (t0, w1) -> rt_now w1 = (now, w2) ->
  (Sub now (cb_lastFailureTime (e_cloudBreaker e)) < cb_retryInterval (e_cloudBreaker e))%Z ->
  flush ctx e w = (Ret (e, Some circuit_open_error), w2).
Proof.
  intros Hne Hopen Ht0 Hnow Hearly. unfold flush.
  destruct (e_buffer e) as [|ev batch] eqn:Hbuf; [done|]. unfold mbind, Go_bind, call.
  rewrite Ht0, Hnow. unfold Allow. simpl. rewrite Hopen, (proj2 (Z.leb_gt _ _)) by done.
  simpl. unfold mret, Go_ret, set_buffer, set_breaker. simpl. rewrite app_nil_r, <- Hbuf.
  by destruct e.
Qed.

(** Starting the engine.  When the store answers and the subscriber is
    reached at the [k]-th retry, [Run] waits through the failures, subscribes
    to the configured slot and tables and then is the loop, on an engine with
    the loaded state and an empty buffer. *)
Theorem Run_starts_loop {W : Type}
    `{Runtime W, ReplicationSubscriber W, ReplicationPublisher W, StateStore W}
    (k fuel : nat) (ctx : Context) (e : Engine) (inputs : list loop_input) (w w1 w2 w3 : W)
    (rs : ReplicationState) :
  let connect := fun ctx => sub_Connect (W := W) ctx (toDBConfig (LocalDatabase (e_cfg e))) in
  store_Load w = (Ret (Ok rs), w1) ->
  (0 <= BatchSize (Replication (e_cfg e)) * 80 <= 2 ^ 48)%Z ->
  k < fuel -> (Z.of_nat k <= int_max)%Z ->
  (forall j, j < k -> (exists err, fails_at ctx DefaultBackoff connect j w1 err) /\
                      timer_fires_at ctx DefaultBackoff connect j w1) ->
  connect ctx (after_failures ctx DefaultBackoff connect k w1) = (Ret None, w2) ->
  sub_Subscribe ctx (ReplicationSlot (LocalDatabase (e_cfg e)))
    (Tables (Replication (e_cfg e))) w2 = (Ret None, w3) ->
  Run fuel ctx e inputs w = loop (set_buffer [] (set_state rs e)) inputs w3.
Proof.
  intros connect Hload Hbatch Hfuel Hk Hfail Hconn Hsubscribe.
  unfold Run. unfold mbind at 1, Go_bind. rewrite Hload. unfold make_events.
  rewrite (proj2 (orb_false_iff _ _)) by (split; lia).
  replace fuel with (k + S (fuel - k - 1))%nat by lia.
  unfold mbind at 1, Go_bind. simpl. unfold mbind at 1, Go_bind.
  rewrite (Do_loop_skip ctx DefaultBackoff 0 log_retry connect); [|done| |done].
  2:{ intros j Hj. destruct (Hfail j Hj) as [? ?]. by rewrite not_exhausted_unbounded. }
  simpl. unfold mbind, Go_bind. rewrite Hconn. simpl. by rewrite Hsubscribe.
Qed.

(** [cfg] with another batch size. *)
Definition with_batch_size (n : Z) (cfg : Config) : Config :=
  {| LocalDatabase := LocalDatabase cfg; CloudDatabase := CloudDatabase cfg;
     Replication := {| Tables := Tables (Replication cfg); BatchSize := n;
                       FlushInterval := FlushInterval (Replication cfg);
                       MaxLagSeconds := MaxLagSeconds (Replication cfg) |};
     DistributedLock_ := DistributedLock_ cfg; Health := Health cfg; Failover := Failover cfg |}.

(** A negative batch size passes validation and crashes the engine.  A
    valid configuration stays valid with any batch size, and with a negative
    one [Run] panics as soon as the state is loaded. *)
Theorem Run_panics_on_negative_batch {W : Type}
    `{Runtime W, ReplicationSubscriber W, ReplicationPublisher W, StateStore W}
    (fuel : nat) (ctx : Context) (cfg : Config) (n : Z) (m : option Metrics)
    (inputs : list loop_input) (w w1 : W) (rs : ReplicationState) :
  Validate cfg = None -> (n < 0)%Z -> store_Load w = (Ret (Ok rs), w1) ->
  Validate (with_batch_size n cfg) = None /\
  Run fuel ctx (New (with_batch_size n cfg) m) inputs w =
    (Panic "runtime error: makeslice: cap out of range", w1).
Proof.
  intros Hvalid Hneg Hload. split; [exact Hvalid|].
  unfold Run. unfold mbind at 1, Go_bind. rewrite Hload. simpl.
  unfold make_events. by rewrite (proj2 (Z.ltb_lt _ _)).
Qed.

(** * The properties on concrete runs *)

(** Three events, a tick and the end of the channel. *)
Definition sample_inputs : list loop_input :=
  [Event (an_event 1); Event (an_event 2); Tick; Event (an_event 3);
   ChannelClosed Background None].

Lemma loop_delivers_exactly_once_witness :
  exists e' r rest w', loop sample_engine sample_inputs (failing_world 4) = (Ret (e', r, rest), w') /\
  exists consumed left, sample_inputs = consumed ++ rest /\
    (left = e_buffer e' \/ left = [] /\ timed_out r) /\
    cloud w' ++ ((fun ev => ev) <$> left) = ((fun ev => ev) <$> received consumed).
Proof.
  pose proof (loop_delivers_exactly_once sample_engine fresh_state sample_inputs
    (failing_world 4) eq_refl) as Hwp.
  apply wp_run in Hwp as ([[e' r] rest] & w' & Hrun & consumed & left & Hin & _ & Hleft & Heff).
  exists e', r, rest, w'. split; [exact Hrun|]. exists consumed, left.
  split; [exact Hin|]. split; [exact Hleft|exact Heff].
Defined.

Lemma loop_delivers_at_least_once_witness :
  exists e' r rest w', loop sample_engine sample_inputs (failing_world 4) = (Ret (e', r, rest), w') /\
  exists consumed xs, sample_inputs = consumed ++ rest /\ cloud w' = xs /\
    redelivers ((fun ev => ev) <$> e_buffer e') ((fun ev => ev) <$> received consumed) xs.
Proof.
  pose proof (loop_delivers_at_least_once sample_engine fresh_state sample_inputs
    (failing_world 4) eq_refl) as Hwp.
  apply wp_run in Hwp as ([[e' r] rest] & w' & Hrun & consumed & xs & Hin & _ & Heff & Hre).
  exists e', r, rest, w'. split; [exact Hrun|]. exists consumed, xs.
  split; [exact Hin|]. split; [exact Heff|exact Hre].
Defined.

(** The recorded world in which the next [n] publishes fail. *)
Definition recorded_world (n : nat) : traced world := mkTraced (failing_world n) [].

Lemma loop_acknowledges_published_witness :
  exists out w', loop sample_engine sample_inputs (recorded_world 1) = (Ret out, w') /\
  exists calls, trace w' = calls /\
    forall pre lsn r post, calls = pre ++ CallAcknowledge lsn r :: post ->
      exists pre' batch, pre = pre' ++ [CallPublish batch None] /\
        Forall (fun ev => ev_LSN ev <= lsn)%Z batch /\ exists ev, ev ∈ batch /\ ev_LSN ev = lsn.
Proof.
  pose proof (loop_acknowledges_published sample_engine fresh_state sample_inputs
    (recorded_world 1) eq_refl) as Hwp.
  apply wp_run in Hwp as (out & w' & Hrun & calls & Htr & Hacks).
  exists out, w'. split; [exact Hrun|]. exists calls. split; [exact Htr|exact Hacks].
Defined.

Lemma loop_counts_events_witness :
  exists e' r rest w', loop sample_engine sample_inputs (recorded_world 4) = (Ret (e', r, rest), w') /\
  exists calls late rs' ops', trace w' = calls ++ late /\ (late = [] \/ timed_out r) /\
    e_state e' = Some rs' /\ e_metrics e' = Some ops' /\
    EventsProcessed rs' = wrap64 (Z.of_nat (length (published calls))) /\
    counter_value M_EventsProcessed ops' = Z.of_nat (length (published calls)) /\
    EventsFailed rs' = wrap64 (counter_value M_EventsFailed ops').
Proof.
  pose proof (loop_counts_events sample_engine fresh_state [] sample_inputs (recorded_world 4)
    eq_refl eq_refl ltac:(split; discriminate) ltac:(split; discriminate)) as Hwp.
  apply wp_run in Hwp as ([[e' r] rest] & w' & Hrun & calls & late & rs' & ops' & Htr & Hl &
    Hrs' & Hm' & Hp & Hcp & Hf).
  exists e', r, rest, w'. split; [exact Hrun|]. exists calls, late, rs', ops'.
  rewrite Z.sub_0_r in Hf. auto 10.
Defined.

Lemma loop_tracks_position_witness :
  exists e' r rest w', loop sample_engine sample_inputs (recorded_world 4) = (Ret (e', r, rest), w') /\
  exists calls late rs', trace w' = calls ++ late /\ (late = [] \/ timed_out r) /\
    e_state e' = Some rs' /\
    LastLSN rs' = match last (published calls) with Some ev => ev_LSN ev | None => 0%Z end.
Proof.
  assert (Hsorted : lsn_sorted (e_buffer sample_engine ++ received sample_inputs)).
  { split; unfold sample_inputs, received; simpl; repeat constructor; discriminate. }
  pose proof (loop_tracks_position sample_engine fresh_state sample_inputs (recorded_world 4)
    eq_refl Hsorted) as Hwp.
  apply wp_run in Hwp as ([[e' r] rest] & w' & Hrun & calls & late & rs' & Htr & Hlate & Hrs' & Hl).
  exists e', r, rest, w'. split; [exact Hrun|]. exists calls, late, rs'. auto.
Defined.

Lemma loop_healthy_progress_witness :
  exists e' r rest w', loop sample_engine sample_inputs (recorded_world 0) = (Ret (e', r, rest), w') /\
  (Forall healthy_call (trace w') -> (Z.of_nat (length (e_buffer e')) < 2)%Z).
Proof.
  pose proof (loop_healthy_progress sample_engine fresh_state sample_inputs (recorded_world 0)
    eq_refl eq_refl eq_refl eq_refl) as Hwp.
  apply wp_run in Hwp as ([[e' r] rest] & w' & Hrun & consumed & calls & _ & Htr & Hh).
  exists e', r, rest, w'. split; [exact Hrun|]. simpl in Htr. rewrite Htr.
  intros Hc. apply Hh, Hc.
Defined.

(** The timer of the shutdown fires after [k] calls of its work. *)
Definition late_inputs (k : nat) : list loop_input :=
  [Event (an_event 1); CtxDone Background (Some k)].

(** After two calls the event is published and acknowledged, and the state is
    not saved. *)
Lemma late_calls :
  trace (loop sample_engine (late_inputs 2) (recorded_world 0)).2 =
  [CallPublish [an_event 1] None; CallAcknowledge 1%Z None].
Proof. vm_compute. reflexivity. Qed.

Lemma loop_shuts_down_in_order_witness :
  (exists e' r rest w', loop sample_engine sample_inputs (recorded_world 1) = (Ret (e', r, rest), w') /\
    forall err, r = Some err -> exists before i, sample_inputs = before ++ [i] ++ rest /\
      stop_input i = true) /\
  (exists e' r rest w', loop sample_engine (late_inputs 2) (recorded_world 0) = (Ret (e', r, rest), w') /\
    forall err, r = Some err -> exists before i, late_inputs 2 = before ++ [i] ++ rest /\
      stop_input i = true).
Proof.
  split.
  - pose proof (loop_shuts_down_in_order sample_engine fresh_state sample_inputs
      (recorded_world 1) eq_refl) as Hwp.
    apply wp_run in Hwp as ([[e' r] rest] & w' & Hrun & consumed & calls & Hin & _ & Hstop).
    exists e', r, rest, w'. split; [exact Hrun|]. intros err ->.
    destruct Hstop as (before & i & e1 & rs1 & pre & made & -> & Hi & _).
    exists before, i. rewrite <- app_assoc in Hin. auto.
  - pose proof (loop_shuts_down_in_order sample_engine fresh_state (late_inputs 2)
      (recorded_world 0) eq_refl) as Hwp.
    apply wp_run in Hwp as ([[e' r] rest] & w' & Hrun & consumed & calls & Hin & _ & Hstop).
    exists e', r, rest, w'. split; [exact Hrun|]. intros err ->.
    destruct Hstop as (before & i & e1 & rs1 & pre & made & -> & Hi & _).
    exists before, i. rewrite <- app_assoc in Hin. auto.
Defined.

Lemma loop_breaker_recovers_witness :
  exists e' r rest w', loop sample_engine sample_inputs (recorded_world 4) = (Ret (e', r, rest), w') /\
  ((Z.of_nat (length (trace w')) <= int_max)%Z ->
    cb_state (e_cloudBreaker e') <> CircuitHalfOpen).
Proof.
  pose proof (loop_breaker_recovers sample_engine fresh_state sample_inputs (recorded_world 4)
    (sample_config 2) None eq_refl eq_refl) as Hwp.
  apply wp_run in Hwp as ([[e' r] rest] & w' & Hrun & calls & Htr & Hcb).
  exists e', r, rest, w'. split; [exact Hrun|]. simpl in Htr. rewrite Htr.
  intros Hroom. destruct (Hcb Hroom) as [-> _]. by destruct (_ <=? _)%Z.
Defined.

(** An engine whose breaker opened a second before the clock of [failing_world]. *)
Definition blocked_engine : Engine :=
  set_breaker (mkCircuitBreaker CircuitOpen 5%Z 5%Z (5 * Minute)%Z (99 * Second)%Z)
    (set_buffer [an_event 1] sample_engine).

Lemma flush_blocked_by_breaker_witness :
  flush Background blocked_engine (failing_world 0) =
    (Ret (blocked_engine, Some circuit_open_error), failing_world 0).
Proof.
  apply (flush_blocked_by_breaker Background blocked_engine (failing_world 0) (failing_world 0)
    (failing_world 0) (100 * Second)%Z (100 * Second)%Z); done.
Defined.

Lemma Run_starts_loop_witness :
  exists w3, Run 2 Background (New (sample_config 2) None) sample_inputs
    (mkWorld 0 [] [Some an_error] []) =
  loop (set_buffer [] (set_state fresh_state (New (sample_config 2) None))) sample_inputs w3.
Proof.
  eexists. eapply (Run_starts_loop 1 2 Background (New (sample_config 2) None) sample_inputs
    (mkWorld 0 [] [Some an_error] [])); try reflexivity.
  - split; discriminate.
  - lia.
  - discriminate.
  - intros [|j] Hj; [|lia]. split; [exists an_error; reflexivity|reflexivity].
Defined.

Lemma Run_panics_on_negative_batch_witness :
  Validate (with_batch_size (-1) (sample_config 2)) = None /\
  Run 1 Background (New (with_batch_size (-1) (sample_config 2)) None) [] (failing_world 0) =
    (Panic "runtime error: makeslice: cap out of range", failing_world 0).
Proof.
  apply (Run_panics_on_negative_batch 1 Background (sample_config 2) (-1) None []
    (failing_world 0) (failing_world 0) fresh_state); reflexivity.
Defined.
