(* ===== verification/EngineStore.v ===== *)
(** The engine and its state on disk: what it saves is what a later start loads.
    The store can represent every state the engine makes, because the values
    stay within the Go types of their fields. *)
From S2P Require Import Prelude Effects GoErrors GoTime GoJson Interfaces CircuitBreaker Backoff.
From S2P Require Import Config State FileStore FileStoreSpec Metrics Engine Trace Delivery.
From S2P Require Import EngineSpec EngineInvariants ExampleWorld FileStoreProps.

(** * What holds of every state the engine makes *)

Definition uint64 (z : Z) : Prop := (0 <= z <= uint64_max)%Z.

Definition typed_event (ev : ChangeEvent) : Prop := uint64 (ev_LSN ev).

Lemma batch_maxLSN_typed (batch : list ChangeEvent) :
  Forall typed_event batch -> uint64 (batch_maxLSN batch).
Proof.
  intros Hb. unfold batch_maxLSN.
  destruct (batch_extent_LSN batch 0%Z zero_time) as (_ & _ & [->|(ev & Hev & <-)]).
  - unfold uint64, uint64_max. lia.
  - rewrite Forall_forall in Hb. by apply Hb.
Qed.

Section states.
(** A property of states that counting a batch keeps. *)
Context (P : ReplicationState -> Prop) (slot : string).
Context (P_failed : forall batch rs, P rs -> P (count_failed batch rs)).
Context (P_flushed : forall now batch rs,
  Forall typed_event batch -> P rs -> P (count_flushed slot now batch rs)).

Record states_ok (e : Engine) : Prop := {
  so_state rs : e_state e = Some rs -> P rs;
  so_buffer : Forall typed_event (e_buffer e);
  so_slot : slot_of e = slot;
}.

Definition call_ok (c : call_event) : Prop :=
  match c with
  | CallSave rs _ => P rs
  | CallAcknowledge lsn _ => uint64 lsn
  | _ => True
  end.

Definition keeps_states (e : Engine) (evs : list ChangeEvent) (e' : Engine)
    (calls : list call_event) : Prop :=
  states_ok e -> Forall typed_event evs -> states_ok e' /\ Forall call_ok calls.

Lemma flush_keeps_states (e : Engine) (rs : ReplicationState) (e' : Engine) (r : option error)
    (calls : list call_event) :
  e_state e = Some rs -> flush_outcome e rs e' r calls -> keeps_states e [] e' calls.
Proof.
  intros Hrs Hf Hok _. pose proof (so_state _ Hok rs Hrs) as HP.
  assert (Hatt : forall batch errs, Forall call_ok (attempts batch errs)).
  { intros batch errs. induction errs; simpl; by constructor. }
  destruct Hf as [Hnil|now cb Hne Hallow|now cb now' errs err Hne Hallow Hlen
                 |now cb now' t0 t1 errs ackErr saveErr Hne Hallow Hlen rs'].
  - by split.
  - split; [|constructor]. by destruct Hok.
  - split; [|apply Hatt]. destruct Hok as [_ Hbuf Hslot]. split; simpl; try done.
    intros rs1 [= <-]. by apply P_failed.
  - destruct Hok as [_ Hbuf Hslot].
    assert (HP' : P rs') by (unfold rs'; rewrite Hslot; by apply P_flushed).
    split; [split; simpl; [by intros rs1 [= <-]|constructor|done]|].
    repeat (apply Forall_app; split); [apply Hatt|by repeat constructor| |by repeat constructor].
    unfold ack_calls. destruct (0 <? _)%Z; repeat constructor; by apply batch_maxLSN_typed.
Qed.

Lemma iterations_keep_states (e : Engine) (consumed : list loop_input) (e' : Engine)
    (r : option (option error)) (calls : list call_event) :
  iterations e consumed e' r calls -> keeps_states e (received consumed) e' calls.
Proof.
  apply iterations_invariant; unfold keeps_states.
  - by split.
  - intros e1 evs1 calls1 e2 evs2 calls2 e3 H1 H2 Hok [Hev1 Hev2]%Forall_app.
    destruct (H1 Hok Hev1) as [Hok2 Hc1]. destruct (H2 Hok2 Hev2) as [Hok3 Hc2].
    split; [done|by apply Forall_app].
  - intros e1 ev [Hs Hb Hsl] Hev. split; [|constructor]. split; simpl; try done. by apply Forall_app.
  - intros. by eapply flush_keeps_states.
  - intros e1 rs saveErr closeErr Hrs Hok _. split; [done|].
    repeat constructor. by apply (so_state _ Hok).
Qed.
End states.

(** ** Machine types *)

(** Every number is a value of its Go type. *)
Record typed_state (rs : ReplicationState) : Prop := {
  ts_lsn : uint64 (LastLSN rs);
  ts_processed : in_int64 (EventsProcessed rs);
  ts_failed : in_int64 (EventsFailed rs);
  ts_lag : in_int64 (CurrentLag rs);
}.

Lemma typed_failed (batch : list ChangeEvent) (rs : ReplicationState) :
  typed_state rs -> typed_state (count_failed batch rs).
Proof. intros []. split; simpl; try done. apply wrap64_range. Qed.

Lemma count_flushed_fields (slot : string) (now : Time) (batch : list ChangeEvent)
    (rs : ReplicationState) :
  let rs' := count_flushed slot now batch rs in
  SlotName rs' = slot /\ LastLSN rs' = batch_maxLSN batch /\
  EventsProcessed rs' = wrap64 (EventsProcessed rs + batch_len batch) /\
  EventsFailed rs' = EventsFailed rs /\
  (CurrentLag rs' = CurrentLag rs \/ exists t, CurrentLag rs' = Sub now t) /\
  ActiveNode rs' = ActiveNode rs /\ LockHolder rs' = LockHolder rs /\
  LastFlushTime rs' = now /\ LastFailoverTime rs' = LastFailoverTime rs.
Proof.
  unfold count_flushed, batch_maxLSN. destruct (batch_extent _ _ _) as [lsn latest]. simpl.
  repeat split; try done. destruct (IsZero latest); simpl; eauto.
Qed.

Lemma typed_flushed (slot : string) (now : Time) (batch : list ChangeEvent) (rs : ReplicationState) :
  Forall typed_event batch -> typed_state rs -> typed_state (count_flushed slot now batch rs).
Proof.
  intros Hb [Hl Hp Hf Hlag].
  destruct (count_flushed_fields slot now batch rs) as (_ & Hl' & Hp' & Hf' & Hlag' & _).
  split; rewrite ?Hl', ?Hp', ?Hf'.
  - by apply batch_maxLSN_typed.
  - apply wrap64_range.
  - done.
  - destruct Hlag' as [->|[t ->]]; [done|apply Sub_range].
Qed.

(** * The engine over the store on disk *)

(** What the calls of the engine have saved, over what there was before. *)
Definition saved_by (d : result ReplicationState) (c : call_event) : result ReplicationState :=
  match c with CallSave rs None => Ok rs | _ => d end.
Definition last_saved (d : result ReplicationState) (calls : list call_event)
    : result ReplicationState := foldl saved_by d calls.

(** The rest of the environment answers and leaves the state file alone. *)
Class LeavesFile (s : Store) (W : Type)
  `{LawfulFiles W, Runtime W, ReplicationSubscriber W, ReplicationPublisher W} : Prop := {
  lf_now w : files (rt_now w).2 !! st_path s = files w !! st_path s;
  lf_wait ctx d w : files (rt_wait ctx d w).2 !! st_path s = files w !! st_path s;
  lf_Connect ctx db w : wp (sub_Connect (W := W) ctx db)
    (fun _ w' => files w' !! st_path s = files w !! st_path s) w;
  lf_Subscribe ctx slot tables w : wp (sub_Subscribe (W := W) ctx slot tables)
    (fun _ w' => files w' !! st_path s = files w !! st_path s) w;
  lf_Acknowledge ctx lsn w : wp (sub_Acknowledge (W := W) ctx lsn)
    (fun _ w' => files w' !! st_path s = files w !! st_path s) w;
  lf_Close w : wp (sub_Close (W := W))
    (fun _ w' => files w' !! st_path s = files w !! st_path s) w;
  lf_Publish ctx evs w : wp (pub_Publish (W := W) ctx evs)
    (fun _ w' => files w' !! st_path s = files w !! st_path s) w;
  lf_HealthCheck ctx w : wp (pub_HealthCheck (W := W) ctx)
    (fun _ w' => files w' !! st_path s = files w !! st_path s) w;
}.

Section disk.
Context {s : Store} {W : Type} `{LeavesFile s W}.
#[local] Instance disk_store : StateStore W := file_store s.

(** The file holds what was last saved, as far as the states were well formed. *)
Definition file_holds (d : result ReplicationState) (calls : list call_event) (w : W) : Prop :=
  Forall (call_ok (state_ok (st_zone s))) calls ->
  state_in s (files w !! st_path s) = last_saved d calls.

Lemma file_holds_start (w : W) : file_holds (state_in s (files w !! st_path s)) [] w.
Proof. done. Qed.

#[export] Instance disk_responds (d : result ReplicationState) : Responds W (file_holds d).
Proof.
  assert (Hstep : forall calls c (w w' : W), file_holds d calls w ->
    files w' !! st_path s = files w !! st_path s -> (forall d, saved_by d c = d) ->
    file_holds d (calls ++ [c]) w').
  { intros calls c w w' Hh Hf Hc [Hok _]%Forall_app. rewrite Hf. unfold last_saved.
    rewrite foldl_app. simpl. rewrite Hc. by apply Hh. }
  split; intros; try (eapply wp_mono;
    [first [apply lf_Connect | apply lf_Subscribe | apply lf_Acknowledge | apply lf_Close
           | apply lf_Publish | apply lf_HealthCheck]|intros r w' Hf; by eapply Hstep]).
  - unfold file_holds. by rewrite lf_now.
  - unfold file_holds. by rewrite lf_wait.
  - eapply wp_mono; [apply wp_store_Load|]. intros r w' [Hf _]. eapply Hstep; [done| |done].
    by rewrite Hf.
  - eapply wp_mono; [apply wp_store_Save|]. intros [err|] w' Hf; [by eapply Hstep|].
    destruct Hf as (data & Hdata & Hf). intros [_ Hok]%Forall_app.
    apply Forall_cons in Hok as [Hok _]. unfold last_saved. rewrite foldl_app, Hf. simpl.
    by rewrite (unmarshal_marshal_state _ _ _ Hok Hdata).
Qed.

Lemma state_ok_failed (batch : list ChangeEvent) (rs : ReplicationState) :
  state_ok (st_zone s) rs -> state_ok (st_zone s) (count_failed batch rs).
Proof. intros []. split; simpl; try done. apply wrap64_range. Qed.

Lemma state_ok_flushed (slot : string) (now : Time) (batch : list ChangeEvent)
    (rs : ReplicationState) :
  valid_utf8 slot = true -> Forall typed_event batch -> state_ok (st_zone s) rs ->
  state_ok (st_zone s) (count_flushed slot now batch rs).
Proof.
  intros Hslot Hb Hok. pose proof Hok as [_ Hnode Hholder Hl Hp Hf Hlag Hz].
  destruct (typed_flushed slot now batch rs Hb) as [Hl' Hp' Hf' Hlag']; [by split|].
  destruct (count_flushed_fields slot now batch rs) as (Hs & _ & _ & _ & _ & Hn & Hh & _).
  split; rewrite ?Hs, ?Hn, ?Hh; done.
Qed.

(** C7: a restart resumes with the state of the last save.  Over the store on
    disk, whatever else fails: at any moment between two iterations of the
    loop, and wherever the timer of its shutdown leaves it, loading the state gives the one the engine last saved successfully,
    or the one that was there before if there is none (or says that the file
    cannot be read); and after a shutdown without errors it is the very state
    the engine ended with. *)
Theorem engine_state_survives (e : Engine) (rs : ReplicationState) (inputs : list loop_input)
    (w : W) :
  e_state e = Some rs -> state_ok (st_zone s) rs -> valid_utf8 (slot_of e) = true ->
  Forall typed_event (e_buffer e ++ received inputs) ->
  wp (loop e inputs) (fun '(e', r, _) w' =>
    let saved := last_saved (state_in s (files w !! st_path s)) (trace w') in
    wp (store_Load (W := W)) (fun r' _ => r' = saved \/ unreadable s r') (inner w') /\
    (r = Some None -> saved = Ok (State e'))) (mkTraced w []).
Proof.
  intros Hrs Hok Hslot [Hbuf Hev]%Forall_app.
  eapply wp_mono; [by apply (wp_loop (file_holds (state_in s (files w !! st_path s))) inputs e rs)|].
  intros [[e' r] rest] w' (Hfile & calls & Htr & consumed & whole & late & -> & _ & -> & Hrun).
  simpl in Htr. rewrite received_app in Hev. apply Forall_app in Hev as [Hev _].
  destruct (run_outcome_completes _ _ _ _ _ _ Hrun) as (e2 & r2 & todo & Hits).
  destruct (iterations_keep_states (state_ok (st_zone s)) (slot_of e) state_ok_failed
    (fun now batch rs => state_ok_flushed (slot_of e) now batch rs Hslot) _ _ _ _ _ Hits)
    as [_ Hcalls]; [|done|].
  { split; [|done|done]. rewrite Hrs. by intros rs1 [= <-]. }
  rewrite app_assoc, <- Htr in Hcalls. apply Forall_app in Hcalls as [Hcalls _]. split.
  - eapply wp_mono; [apply wp_store_Load|]. intros r' w1 [_ Hr]. by rewrite (Hfile Hcalls) in Hr.
  - intros ->. pose proof (run_outcome_stop _ _ _ _ _ _ Hrun)
      as (before & i & e1 & rs1 & pre & made & _ & _ & _ & Heq & _ & _ & e3 & fl & rs3 & fErr &
          sErr & cErr & todo' & _ & _ & Hrs3 & Hmade & Hres).
    destruct (timer_of i); [done|]. destruct Hres as (-> & -> & Hres).
    rewrite app_nil_r in Hmade. subst made.
    unfold State. rewrite Hrs3. simpl. rewrite Htr, Heq.
    unfold last_saved. rewrite !foldl_app. simpl.
    assert (sErr = None) as ->; [|done]. by destruct fErr, sErr.
Qed.
End disk.

(** * On concrete runs *)

(** The environment of ExampleWorld, and a disk. *)
Definition with_disk : Type := world * gmap string string.

Definition on_world {A} (m : Go world A) : Go with_disk A := fun w =>
  let '(r, w1) := m w.1 in (r, (w1, w.2)).

#[local] Instance both_runtime : Runtime with_disk := {|
  rt_now w := let '(t, w1) := rt_now w.1 in (t, (w1, w.2));
  rt_wait ctx d w := let '(r, w1) := rt_wait ctx d w.1 in (r, (w1, w.2));
|}.
#[local] Instance both_subscriber : ReplicationSubscriber with_disk := {|
  sub_Connect ctx db := on_world (sub_Connect ctx db);
  sub_Subscribe ctx slot tables := on_world (sub_Subscribe ctx slot tables);
  sub_Acknowledge ctx lsn := on_world (sub_Acknowledge ctx lsn);
  sub_Close := on_world sub_Close;
|}.
#[local] Instance both_publisher : ReplicationPublisher with_disk := {|
  pub_Publish ctx evs := on_world (pub_Publish ctx evs);
  pub_HealthCheck ctx := on_world (pub_HealthCheck ctx);
|}.
#[local] Instance both_files : Handler fsE with_disk := {|
  handle X e w := let '(x, fs) := disk_call e w.2 in (x, (w.1, fs));
|}.
#[local] Instance both_lawful : LawfulFiles with_disk.
Proof.
  refine {| files := snd |}. intros X e [w fs] [w' fs'] x. simpl.
  destruct e as [p|p d|p q|p|p]; simpl.
  - by intros [= <- _ <-].
  - by intros [= <- _ <-].
  - destruct (fs !! p) as [d|] eqn:Hp; intros [= <- _ <-]; [by exists d|done].
  - intros [= <- _ <-] q Hq. by rewrite lookup_delete_ne.
  - destruct (fs !! p) as [d|] eqn:Hp; by intros [= <- _ <-].
Defined.

#[local] Instance both_leaves (s : Store) : LeavesFile s with_disk.
Proof.
  split; try done.
  intros ctx evs [w fs]. unfold wp. simpl. unfold on_world, call. simpl.
  by destruct (default None (head (script w))).
Qed.

#[local] Instance both_store : StateStore with_disk := disk_store (s := sample_store).

Definition sample_shutdown : list loop_input :=
  [Event (an_event 1); Event (an_event 2); CtxDone Background None].
Definition fresh_disk : with_disk := (failing_world 1, ∅).

Lemma engine_state_survives_witness :
  wp (loop sample_engine sample_shutdown) (fun '(e', r, _) w' =>
    let saved := last_saved (state_in sample_store (files fresh_disk !! st_path sample_store))
                   (trace w') in
    wp (store_Load (W := with_disk)) (fun r' _ => r' = saved \/ unreadable sample_store r')
      (inner w') /\
    (r = Some None -> saved = Ok (State e'))) (mkTraced fresh_disk []).
Proof.
  refine (engine_state_survives sample_engine fresh_state sample_shutdown fresh_disk eq_refl _ eq_refl _).
  - split; try reflexivity; try (vm_compute; split; discriminate).
    intros t. exists 60%Z. split; [reflexivity|vm_compute; reflexivity].
  - unfold received. simpl. repeat constructor; discriminate.
Defined.
