(* ===== verification/ServerProps.v ===== *)
(** The properties of the status endpoint. *)
From S2P Require Import Prelude GoErrors GoTime GoTimeFormat GoStrings GoJson Interfaces State.
From S2P Require Import FileStore FileStoreSpec Server Config CircuitBreaker Metrics Engine.
From S2P Require Import Trace Delivery EngineSpec EngineInvariants ExampleWorld.
From Stdlib Require Import Ascii.

(** * The texts of a response are UTF-8 *)

Lemma valid_ascii (c : ascii) (s : string) : is_ascii c = true -> valid_utf8 (String c s) = valid_utf8 s.
Proof. intros Hc. unfold valid_utf8. cbn [String.length valid_utf8_fuel]. by rewrite Hc. Qed.

Lemma valid_digit (z : Z) (s : string) : valid_utf8 (String (digit (z mod 10)) s) = valid_utf8 s.
Proof.
  apply valid_ascii. pose proof (digit_plain z) as Hd. unfold plain_char in Hd.
  by apply andb_true_iff in Hd as [-> _].
Qed.

Lemma valid_fixed_digits (w : nat) (z : Z) (rest : string) :
  valid_utf8 (fixed_digits w z rest) = valid_utf8 rest.
Proof.
  revert z rest. induction w as [|w IH]; intros z rest; [done|]. cbn [fixed_digits].
  by rewrite IH, valid_digit.
Qed.

Lemma valid_fmtInt (z : Z) (rest : string) : valid_utf8 (fmtInt z rest) = valid_utf8 rest.
Proof.
  unfold fmtInt. generalize (S (Z.to_nat (Z.log2 z))). intros fuel. revert z rest.
  induction fuel as [|fuel IH]; intros z rest; [done|]. cbn [all_digits].
  destruct (z / 10 =? 0)%Z; [|rewrite IH]; apply valid_digit.
Qed.

Lemma valid_append_fraction (w : nat) (nsec : Z) (rest : string) :
  valid_utf8 (append_fraction w nsec rest) = valid_utf8 rest.
Proof.
  revert nsec. induction w as [|w IH]; intros nsec; [done|]. cbn [append_fraction].
  destruct (nsec mod 10 =? 0)%Z; [apply IH|]. rewrite valid_ascii by done. apply valid_fixed_digits.
Qed.

Lemma valid_Duration_String (d : Duration) : valid_utf8 (Duration_String d) = true.
Proof.
  unfold Duration_String, fmtFrac. destruct (d <? 0)%Z; [rewrite str_app_cons, str_app_nil_l, valid_ascii by done|].
  all: repeat match goal with |- context [if ?b then _ else _] => destruct b end;
    repeat first [ rewrite valid_fmtInt | rewrite valid_append_fraction | rewrite str_app_cons
                 | rewrite str_app_nil_l | rewrite valid_ascii by reflexivity ]; reflexivity.
Qed.

Lemma valid_format (zone : Time -> Z) (t : Time) : valid_utf8 (format_nonzero zone t) = true.
Proof.
  unfold format_nonzero. destruct (IsZero t); [done|]. apply plain_valid, append_instant_plain.
Qed.

(** * Reading a response back *)

Record response_ok (r : StatusResponse) : Prop := {
  rok_node : valid_utf8 (sr_ActiveNode r) = true;
  rok_lag : valid_utf8 (sr_ReplicationLag r) = true;
  rok_holder : valid_utf8 (sr_LockHolder r) = true;
  rok_failover : valid_utf8 (sr_LastFailoverTime r) = true;
  rok_flush : valid_utf8 (sr_LastFlushTime r) = true;
  rok_slot : valid_utf8 (sr_SlotName r) = true;
  rok_processed : in_int64 (sr_EventsProcessed r);
  rok_failed : in_int64 (sr_EventsFailed r);
  rok_lsn : (0 <= sr_LastLSN r <= uint64_max)%Z;
}.

(** The members of a response, as they are read. *)
Definition json_omitempty (name s : string) : list (string * json) :=
  if String.eqb s "" then [] else [(name, JStr (escape s))].

Lemma members_omitempty (name s : string) :
  escape name = name -> members_of (omitempty name s) (json_omitempty name s).
Proof.
  intros Hn. unfold omitempty, json_omitempty. destruct (String.eqb s ""); [by apply Forall2_nil_2|].
  apply Forall2_cons_2; [|by apply Forall2_nil_2]. split; [done|apply value_text_string].
Qed.

Lemma decode_encode_response (r : StatusResponse) :
  response_ok r -> decode_response (encode_response r) = Ok r.
Proof.
  intros [Hnode Hlag Hholder Hfo Hfl Hslot Hp Hf Hl]. unfold decode_response, encode_response.
  rewrite (Unmarshal_object_tail _ _ _
    ([("active_node", JStr (escape (sr_ActiveNode r)));
      ("replication_lag", JStr (escape (sr_ReplicationLag r)));
      ("lock_holder", JStr (escape (sr_LockHolder r)))] ++
     json_omitempty "last_failover_time" (sr_LastFailoverTime r) ++
     [("events_processed", JNum (int_text (sr_EventsProcessed r)));
      ("events_failed", JNum (int_text (sr_EventsFailed r)));
      ("last_lsn", JNum (int_text (sr_LastLSN r)))] ++
     json_omitempty "last_flush_time" (sr_LastFlushTime r) ++
     [("slot_name", JStr (escape (sr_SlotName r)))])); [|done| |done|done].
  2:{ repeat (apply Forall2_app; [|]);
        repeat first [ apply members_omitempty; reflexivity
                     | apply Forall2_cons_2; [split; [reflexivity|cbn [fst snd]]|]
                     | apply Forall2_nil_2; done ];
        first [apply value_text_string | apply value_text_int]. }
  rewrite !foldl_app. unfold json_omitempty.
  destruct (String.eqb_spec (sr_LastFailoverTime r) "") as [Efo|_],
    (String.eqb_spec (sr_LastFlushTime r) "") as [Efl|_];
    cbn [foldl mbind result_bind]; unfold set_response_field, zero_response; decide_fields;
    repeat first [ progress cbn [decode_string mbind result_bind]
                 | rewrite unquote_escape by done | rewrite decode_int_text by done ];
    destruct r; simpl in *; by subst.
Qed.

(** The provider of the program is the engine: a snapshot of its state. *)
#[export] Instance engine_provider : StateProvider Engine := {|
  provider_State e := (Engine.State e, e);
|}.

Lemma status_response_ok (zone : Time -> Z) (st : ReplicationState) :
  state_ok zone st -> response_ok (status_response zone st).
Proof.
  intros []. split; simpl; try done; [apply valid_Duration_String|apply valid_format..].
Qed.

(** A text of the response that stands for a time: read as RFC 3339 it is the
    time but for the fraction of a second, and empty for the zero time. *)
Definition tells_time (text : string) (t : Time) : Prop :=
  (writable t -> exists u, Parse_RFC3339 text = Some u /\ (t - Second < u <= t)%Z) /\
  (t = zero_time -> text = "").

Lemma format_nonzero_tells (zone : Time -> Z) (t : Time) :
  (forall t, good_offset (zone t)) -> tells_time (format_nonzero zone t) t.
Proof.
  intros Hzone. unfold format_nonzero. split.
  - intros Ht. pose proof Ht as [Hlo _].
    assert (IsZero t = false) as ->.
    { unfold IsZero, zero_time. apply Z.eqb_neq. unfold Second in Hlo. lia. }
    by apply Parse_Format_writable.
  - intros Ht. by rewrite Ht.
Qed.

(** C38: the status endpoint reports the state it is given.  The answer is JSON
    with status 503 exactly when a positive limit is exceeded by the lag, and
    200 otherwise.  Decoding the body gives back every field of the state: the
    texts and the numbers as they are, the lag as Go writes a duration, and the
    times of the last flush and of the last failover, read as RFC 3339, but for
    the fraction of a second (when their year has four digits in every zone),
    or absent when zero. *)
Theorem handleStatus_reports {W} `{StateProvider W} (s : StatusServer) (w w' : W)
    (st : ReplicationState) :
  provider_State w = (st, w') -> state_ok (ss_zone s) st ->
  exists resp r, handleStatus s w = (Ret resp, w') /\
    resp_ContentType resp = "application/json" /\
    (resp_Status resp = 503%Z <-> (0 < ss_maxLag s < CurrentLag st)%Z) /\
    (resp_Status resp = 200%Z <-> ~ (0 < ss_maxLag s < CurrentLag st)%Z) /\
    decode_response (resp_Body resp) = Ok r /\
    sr_ActiveNode r = ActiveNode st /\ sr_LockHolder r = LockHolder st /\
    sr_SlotName r = SlotName st /\ sr_ReplicationLag r = Duration_String (CurrentLag st) /\
    sr_EventsProcessed r = EventsProcessed st /\ sr_EventsFailed r = EventsFailed st /\
    sr_LastLSN r = LastLSN st /\
    tells_time (sr_LastFlushTime r) (LastFlushTime st) /\
    tells_time (sr_LastFailoverTime r) (LastFailoverTime st).
Proof.
  intros Hst Hok. exists {| resp_ContentType := "application/json";
    resp_Status := if healthy s st then 200 else 503;
    resp_Body := encode_response (status_response (ss_zone s) st) |}.
  exists (status_response (ss_zone s) st). simpl.
  rewrite decode_encode_response by by apply status_response_ok.
  unfold handleStatus, mbind, Go_bind, call. rewrite Hst. unfold healthy.
  do 2 (split; [done|]).
  do 2 (split; [destruct (Z.ltb_spec 0 (ss_maxLag s)), (Z.ltb_spec (ss_maxLag s) (CurrentLag st));
    simpl; lia|]).
  do 8 (split; [done|]). split; apply format_nonzero_tells, Hok.
Qed.

(** * The status of an engine that runs *)

(** What only a successful flush changes, and what the engine never changes. *)
Definition status_steady (e : Engine) (evs : list ChangeEvent) (e' : Engine)
    (calls : list call_event) : Prop :=
  forall rs, e_state e = Some rs -> exists rs', e_state e' = Some rs' /\
    ActiveNode rs' = ActiveNode rs /\ LockHolder rs' = LockHolder rs /\
    LastFailoverTime rs' = LastFailoverTime rs /\
    (published calls = [] -> CurrentLag rs' = CurrentLag rs /\ LastFlushTime rs' = LastFlushTime rs).

Lemma iterations_steady (e : Engine) (consumed : list loop_input) (e' : Engine)
    (r : option (option error)) (calls : list call_event) :
  iterations e consumed e' r calls -> status_steady e (received consumed) e' calls.
Proof.
  apply iterations_invariant; unfold status_steady.
  - eauto 10.
  - intros e1 evs1 calls1 e2 evs2 calls2 e3 H1 H2 rs Hrs.
    destruct (H1 rs Hrs) as (rs2 & Hrs2 & Ha & Hh & Hf & Hl).
    destruct (H2 rs2 Hrs2) as (rs3 & Hrs3 & Ha3 & Hh3 & Hf3 & Hl3).
    exists rs3. rewrite Ha3, Hh3, Hf3. do 4 (split; [done|]).
    rewrite published_app. intros [Hp1 Hp2]%app_eq_nil.
    by destruct (Hl Hp1) as [<- <-], (Hl3 Hp2) as [<- <-].
  - intros e1 ev rs Hrs. exists rs. by repeat split.
  - intros e1 rs e2 r2 calls2 Hrs Hf rs1 Hrs1. simplify_eq.
    destruct Hf as [| |now cb now' errs err|now cb now' t0 t1 errs ackErr saveErr Hne Hallow Hlen rs'].
    + exists rs. by repeat split.
    + exists rs. by repeat split.
    + eexists. by repeat split.
    + exists rs'. split; [done|].
      assert (ActiveNode rs' = ActiveNode rs /\ LockHolder rs' = LockHolder rs /\
        LastFailoverTime rs' = LastFailoverTime rs) as (-> & -> & ->).
      { unfold rs', count_flushed. by destruct (batch_extent _ _ _). }
      do 3 (split; [done|]). rewrite published_app, published_attempts. unfold published. simpl.
      by intros [? _]%app_eq_nil.
  - intros e1 rs saveErr closeErr Hrs rs1 Hrs1. exists rs1. by repeat split.
Qed.

(** C39: the status endpoint misses failovers and outages.  Over any run of the
    engine, in every environment, the active node, the lock holder and the time
    of the last failover it reports are those of the state that was loaded:
    nothing tells the engine of a failover.  And as long as no publish
    succeeds, the lag and the health it reports do not change either, however
    long the cloud has been unreachable. *)
Theorem status_misses_failover_and_outage {W : Type}
    `{Runtime W, ReplicationSubscriber W, ReplicationPublisher W, StateStore W, !Responsive W}
    (e : Engine) (rs : ReplicationState) (inputs : list loop_input) (w : traced W) (s : StatusServer) :
  e_state e = Some rs ->
  wp (loop e inputs) (fun '(e', _, _) w' => exists calls, trace w' = trace w ++ calls /\
    let before := status_response (ss_zone s) (Engine.State e) in
    let after := status_response (ss_zone s) (Engine.State e') in
    sr_ActiveNode after = sr_ActiveNode before /\ sr_LockHolder after = sr_LockHolder before /\
    sr_LastFailoverTime after = sr_LastFailoverTime before /\
    (published calls = [] ->
      sr_ReplicationLag after = sr_ReplicationLag before /\
      healthy s (Engine.State e') = healthy s (Engine.State e))) w.
Proof.
  intros Hrs. eapply wp_mono; [by apply (wp_loop (fun _ _ => True) inputs e rs)|].
  intros [[e' r] rest] w' (_ & calls & Htr & consumed & whole & late & _ & _ & -> & Hrun).
  exists (whole ++ late). split; [done|].
  destruct (run_outcome_iterations _ _ _ _ _ _ Hrun) as (ins & r' & Hits & _).
  destruct (iterations_steady _ _ _ _ _ Hits rs Hrs) as (rs' & Hrs' & Ha & Hh & Hf & Hl).
  unfold Engine.State, healthy. rewrite Hrs, Hrs'. simpl. rewrite Ha, Hh, Hf.
  do 3 (split; [done|]). rewrite published_app. intros [Hp _]%app_eq_nil.
  by destruct (Hl Hp) as [-> _].
Qed.

(** * On concrete states *)

Definition sample_server : StatusServer := NewStatusServer (fun _ => 3600%Z) 8080 (60 * Second)%Z.

Definition sample_status : ReplicationState :=
  {| SlotName := "slot-1"; LastLSN := 4096%Z; LastFlushTime := 63850000000123456000%Z;
     EventsProcessed := 42%Z; EventsFailed := 0%Z; CurrentLag := (61 * Second)%Z;
     ActiveNode := NodeLocal; LockHolder := ""; LastFailoverTime := 63849999999000000000%Z |}.

Lemma sample_status_ok : state_ok (ss_zone sample_server) sample_status.
Proof.
  split; try reflexivity; try (vm_compute; split; discriminate).
  intros t. exists 60%Z. split; [reflexivity|vm_compute; reflexivity].
Qed.

Lemma handleStatus_reports_witness :
  exists resp r t, handleStatus sample_server (set_state sample_status sample_engine) =
      (Ret resp, set_state sample_status sample_engine) /\
    (resp_Status resp = 503%Z <-> (0 < 60 * Second < 61 * Second)%Z) /\
    decode_response (resp_Body resp) = Ok r /\ sr_ReplicationLag r = "1m1s" /\
    Parse_RFC3339 (sr_LastFailoverTime r) = Some t /\
    (LastFailoverTime sample_status - Second < t <= LastFailoverTime sample_status)%Z.
Proof.
  assert (Hp : provider_State (set_state sample_status sample_engine) =
    (sample_status, set_state sample_status sample_engine)) by reflexivity.
  destruct (handleStatus_reports sample_server _ _ sample_status Hp sample_status_ok) as
    (resp & r & Hrun & _ & Hst & _ & Hdec & _ & _ & _ & Hlag & _ & _ & _ & _ & [Hfo _]).
  destruct Hfo as (t & Ht & Hle); [split; [discriminate|reflexivity]|].
  exists resp, r, t. auto 10.
Defined.

Lemma status_misses_failover_and_outage_witness :
  wp (loop sample_engine [Event (an_event 1); Event (an_event 2); Tick])
    (fun '(e', _, _) w' => exists calls, trace w' = [] ++ calls /\
      (published calls = [] -> healthy sample_server (Engine.State e') = true))
    (mkTraced (failing_world 6) []).
Proof.
  eapply wp_mono; [apply (status_misses_failover_and_outage sample_engine fresh_state
    [Event (an_event 1); Event (an_event 2); Tick] (mkTraced (failing_world 6) []) sample_server
    eq_refl)|].
  intros [[e' r] rest] w' (calls & Htr & _ & _ & _ & Hp). exists calls. split; [exact Htr|].
  intros Hnone. rewrite (proj2 (Hp Hnone)). reflexivity.
Defined.
