(* ===== verification/RetryProps.v ===== *)
(** The properties of the retry package: the circuit breaker and the backoff. *)
From S2P Require Import Prelude GoErrors GoTime Interfaces CircuitBreaker Backoff Engine.
From S2P Require Import ExampleWorld.
Local Open Scope Z_scope.

(** C33: the circuit breaker refines its specification.  A new breaker gives,
    to every sequence of operations, the answers of the abstract machine that
    remembers the failures since the last success: requests pass below the
    threshold, and from then on only one probe at a time, once the interval has
    elapsed since the latest failure. *)
Theorem breaker_refines_spec (cfg : CircuitBreakerConfig) (ops : list op) :
  RetryInterval cfg <= int_max -> Z.of_nat (length ops) <= int_max ->
  let threshold := if FailureThreshold cfg <=? 0 then 5 else FailureThreshold cfg in
  let interval := if RetryInterval cfg <=? 0 then 5 * Minute else RetryInterval cfg in
  answers ops (NewCircuitBreaker cfg) = spec_answers threshold interval ops (mkSpec [] false).
Proof.
  intros Hint Hlen threshold interval.
  apply (simulates_answers threshold interval).
  - unfold threshold. destruct (FailureThreshold cfg <=? 0) eqn:?; lia.
  - unfold interval. destruct (RetryInterval cfg <=? 0) eqn:?; [|lia].
    unfold Minute, Second. int64. lia.
  - apply (simulates_init cfg).
  - simpl. lia.
Qed.

(** An open breaker lets at most one request through until an outcome is
    recorded, at whatever times the requests come. *)
Theorem breaker_single_probe (ts : list Time) (cb : CircuitBreaker) :
  cb_state cb = CircuitOpen ->
  (sum_list (allowed <$> answers (OpAllow <$> ts) cb) <= 1)%nat.
Proof. apply open_allows_once. Qed.

(** Below the cap the delay is computed exactly. *)
Lemma Delay_small (b : BackoffConfig) (k : nat) (n : Z) :
  forallb (fun i => Delay b (Z.of_nat i) =? Z.min (MaxDelay b) (InitialDelay b * 2 ^ Z.of_nat i))
    (seq 0 k) = true ->
  0 <= n < Z.of_nat k -> Delay b n = Z.min (MaxDelay b) (InitialDelay b * 2 ^ n).
Proof.
  intros Hall Hn. rewrite forallb_forall in Hall.
  specialize (Hall (Z.to_nat n)). rewrite in_seq in Hall.
  specialize (Hall ltac:(lia)). rewrite Z2Nat.id in Hall by lia. lia.
Qed.

Lemma min_pow_capped (init max k n : Z) :
  0 < init -> 0 <= k <= n -> max <= init * 2 ^ k -> Z.min max (init * 2 ^ n) = max.
Proof. intros Hi Hk Hm. pose proof (Z.pow_le_mono_r 2 k n). nia. Qed.

(** C34: the delays are exactly the capped powers of two.  Computed in float64
    with math.Pow and truncated to nanoseconds, the [n]-th delay of the default
    backoff (subscriber connections) is min(60 s, 1 s * 2^n), and that of the
    publish backoff min(8 s, 1 s * 2^n), for every [n] an int can hold: it never
    decreases, never overflows and never exceeds the cap. *)
Theorem Delay_doubles_up_to_cap (n : Z) :
  0 <= n ->
  Delay DefaultBackoff n = Z.min (60 * Second) (Second * 2 ^ n) /\
  Delay publishBackoff n = Z.min (8 * Second) (Second * 2 ^ n).
Proof.
  intros Hn. destruct (Z.lt_ge_cases n 8) as [Hsmall|Hlarge].
  - split; [apply (Delay_small DefaultBackoff 8)|apply (Delay_small publishBackoff 8)];
      [reflexivity|lia|reflexivity|lia].
  - rewrite !(min_pow_capped Second _ 7) by (unfold Second; lia). split.
    + apply (Delay_capped DefaultBackoff 8388608000000000 7864320000000000 (-23) (-17));
        done || lia.
    + apply (Delay_capped publishBackoff 8388608000000000 8388608000000000 (-23) (-20));
        done || lia.
Qed.

Section retry.
Context {W : Type} `{Runtime W}.
Context (ctx : Context) (cfg : BackoffConfig) (maxAttempts : Z).
Context (logFn : option (Z -> error -> Duration -> Go W unit)).
Context (fn : Context -> Go W (option error)).
Context (Hlog : forall k err d w, log_attempt logFn k err d w = (Ret tt, w)).

(** What a retried operation comes to.  After [n] failed rounds, each
    followed by the delay of its rank, the next call decides: its success is
    the result; its failure on the last attempt is reported with the number of
    attempts, without waiting again; and on an earlier attempt a context that
    is done during the delay ends the loop with the context's error. *)
Theorem Do_round (n fuel : nat) (w : W) :
  Z.of_nat n < int_max -> (n < fuel)%nat ->
  (forall k, (k < n)%nat -> (exists err, fails_at ctx cfg fn k w err) /\
     timer_fires_at ctx cfg fn k w /\ attempts_exhausted maxAttempts (Z.of_nat k) = false) ->
  let w1 := after_failures ctx cfg fn n w in
  (forall w2, fn ctx w1 = (Ret None, w2) ->
     Do ctx cfg maxAttempts logFn fn fuel w = (Ret None, w2)) /\
  (forall err w2, fn ctx w1 = (Ret (Some err), w2) -> maxAttempts = Z.of_nat n + 1 ->
     Do ctx cfg maxAttempts logFn fn fuel w =
       (Ret (Some (Wrapf "failed after %d attempts: %w" [AInt (Z.of_nat n + 1)] err)), w2)) /\
  (forall err w2 stop w3, fn ctx w1 = (Ret (Some err), w2) ->
     (maxAttempts <= 0 \/ Z.of_nat n + 1 < maxAttempts) ->
     rt_wait ctx (Delay cfg (Z.of_nat n)) w2 = (Some stop, w3) ->
     Do ctx cfg maxAttempts logFn fn fuel w = (Ret (Some stop), w3)).
Proof.
  intros Hn Hfuel Hfail w1. replace fuel with (n + S (fuel - n - 1))%nat by lia.
  rewrite (Do_loop_skip ctx cfg maxAttempts logFn fn Hlog n w Hfail) by lia.
  fold w1. simpl. unfold mbind, Go_bind, attempts_exhausted. rewrite wrap64_id by (int64; lia).
  split; [|split].
  - intros w2 ->. done.
  - intros err w2 -> ->. rewrite (proj2 (Z.ltb_lt _ _)), (proj2 (Z.leb_le _ _)) by lia. done.
  - intros err w2 stop w3 -> Hmax Hwait.
    replace ((0 <? maxAttempts) && (maxAttempts <=? Z.of_nat n + 1)) with false by lia.
    rewrite Hlog. unfold call. by rewrite Hwait.
Qed.

(** C35: a bounded retry terminates.  If every call of the operation returns,
    [Do] returns after at most [maxAttempts] calls. *)
Theorem Do_terminates (w : W) :
  0 < maxAttempts <= int_max -> (forall w, wp (fn ctx) (fun _ _ => True) w) ->
  wp (Do ctx cfg maxAttempts logFn fn (Z.to_nat maxAttempts)) (fun _ _ => True) w.
Proof.
  intros Hmax Hfn. apply (wp_Do_loop ctx cfg maxAttempts logFn fn Hmax (fun _ _ => True));
    [|lia|lia|done].
  intros k w' Hk _. eapply wp_mono; [apply Hfn|]. intros [err|] w2 _; simpl; [|done].
  destruct (_ =? _); [done|]. unfold wp. rewrite Hlog. intros [e|] w3 _; done.
Qed.
End retry.

(** * On concrete inputs *)

Lemma breaker_refines_spec_witness :
  let cfg := {| FailureThreshold := 2; RetryInterval := 10 |} in
  let ops := [OpFailure 1; OpFailure 2; OpAllow 5; OpAllow 12; OpAllow 13; OpSuccess; OpAllow 14] in
  answers ops (NewCircuitBreaker cfg) =
    [None; None; Some false; Some true; Some false; None; Some true].
Proof.
  intros cfg ops. etransitivity.
  - apply (breaker_refines_spec cfg ops); discriminate.
  - reflexivity.
Defined.

Lemma breaker_single_probe_witness :
  (sum_list (allowed <$> answers (OpAllow <$> [5; 20; 21]%Z)
     (mkCircuitBreaker CircuitOpen 2 2 10%Z 2%Z)) <= 1)%nat.
Proof. apply (breaker_single_probe [5; 20; 21]%Z). reflexivity. Defined.

Lemma Delay_doubles_up_to_cap_witness :
  Delay DefaultBackoff 62 = 60 * Second /\ Delay publishBackoff 2 = 4 * Second.
Proof.
  destruct (Delay_doubles_up_to_cap 62 ltac:(discriminate)) as [H1 _].
  destruct (Delay_doubles_up_to_cap 2 ltac:(discriminate)) as [_ H2].
  split; [exact H1|exact H2].
Defined.

(** A connection that succeeds at the second attempt, one second later. *)
Definition connect_sample (ctx : Context) : Go world (option error) :=
  sub_Connect ctx (toDBConfig local_db).

Lemma Do_round_witness :
  Do Background DefaultBackoff 0 log_retry connect_sample 2 (mkWorld 0 [] [Some an_error] []) =
    (Ret None, mkWorld Second [] [] []).
Proof.
  apply (Do_round Background DefaultBackoff 0 log_retry connect_sample (fun _ _ _ _ => eq_refl)
    1 2 (mkWorld 0 [] [Some an_error] [])); [reflexivity|lia| |reflexivity].
  intros [|k] Hk; [|lia]. split; [exists an_error; reflexivity|]. split; reflexivity.
Defined.

Lemma Do_terminates_witness :
  wp (Do Background publishBackoff 3 log_retry connect_sample 3) (fun _ _ => True)
    (mkWorld 0 [] [Some an_error; Some an_error; Some an_error] []).
Proof.
  apply (Do_terminates Background publishBackoff 3 log_retry connect_sample
    (fun _ _ _ _ => eq_refl)).
  - split; [reflexivity|discriminate].
  - intros w. apply wp_call. intros. exact I.
Defined.
