(* ===== verification/ExampleDatabase.v ===== *)
(** A small concrete database, on which the properties of the publisher are
    instantiated: every statement succeeds, and a commit appends the statements
    of its transaction. *)
From S2P Require Import Prelude GoErrors GoTime Interfaces State Publisher PublisherSpec.
From S2P Require Import Delivery.

Record database : Type := mkDatabase {
  committed : list stmt;
  transactions : gmap nat (list stmt);
  db_clock : Time;
}.

Definition begin_tx (d : database) : result nat * database :=
  let tx := fresh (dom (transactions d)) in
  (Ok tx, mkDatabase (committed d) (<[tx := []]> (transactions d)) (db_clock d)).

Definition tx_stmts (tx : nat) (d : database) : list stmt := default [] (transactions d !! tx).

#[export] Instance database_pool : PgxPool database := {|
  pool_New ctx connString d := (None, d);
  pool_Ping ctx d := (None, d);
  pool_Close d := (tt, d);
  pool_BeginTx ctx := begin_tx;
  tx_Exec tx ctx query args d :=
    (None, mkDatabase (committed d) (<[tx := tx_stmts tx d ++ [(query, args)]]> (transactions d))
             (db_clock d));
  tx_Commit tx ctx d :=
    (None, mkDatabase (committed d ++ tx_stmts tx d) (delete tx (transactions d)) (db_clock d));
  tx_Rollback tx ctx d :=
    (None, mkDatabase (committed d) (delete tx (transactions d)) (db_clock d));
  pool_QueryRow ctx query d := (Ok 1%Z, d);
|}.

#[export] Program Instance database_transactional : TransactionalDB database := {|
  db_committed := committed;
  db_open := tx_stmts;
|}.
Next Obligation. by intros ctx w r w' [= _ <-]. Qed.
Next Obligation.
  intros ctx w tx w' [= <- <-]. unfold tx_stmts. simpl. by rewrite lookup_insert_eq.
Qed.
Next Obligation. by intros tx ctx q args w r w' [= _ <-]. Qed.
Next Obligation.
  intros tx ctx q args w w' [= <-]. unfold tx_stmts. simpl. by rewrite lookup_insert_eq.
Qed.
Next Obligation. by intros tx ctx w w' [= <-]. Qed.
Next Obligation. done. Qed.
Next Obligation. by intros tx ctx w r w' [= _ <-]. Qed.

#[export] Instance database_runtime : Runtime database := {|
  rt_now d := (db_clock d, d);
  rt_wait ctx t d := (None, mkDatabase (committed d) (transactions d) (Add (db_clock d) t));
|}.

#[export] Instance database_subscriber : ReplicationSubscriber database := {|
  sub_Connect ctx db := mret None;
  sub_Subscribe ctx slot tables := mret None;
  sub_Acknowledge ctx lsn := mret None;
  sub_Close := mret None;
|}.

#[export] Instance database_store : StateStore database := {|
  store_Load := mret (Ok fresh_state);
  store_Save rs := mret None;
|}.

Definition empty_database : database := mkDatabase [] ∅ (100 * Second)%Z.

Definition sample_publisher : Publisher := mkPublisher true 2%Z.

Lemma database_quiet :
  @QuietEnvironment database (option stmt) _ _ (publisher_instance sample_publisher) _
    db_delivery.
Proof. by split. Qed.
