(* ===== verification/PublisherProps.v ===== *)
(** The properties of the publisher: identifiers, statements, batches, and the
    engine running over it. *)
From S2P Require Import Prelude GoErrors GoStrings GoTime Interfaces CircuitBreaker Backoff.
From S2P Require Import Config State Metrics Engine Trace Delivery EngineSpec EngineInvariants.
From S2P Require Import ExampleWorld Sql Publisher Dml SqlText PublisherSpec EngineProps.
From S2P Require Import ExampleDatabase.

(** C23: a quoted identifier is read back unchanged.  Whatever the identifier
    contains, quotes included, PostgreSQL's lexical rule reads [quoteIdentifier]
    of it as that identifier and leaves what follows untouched: an identifier
    cannot break out of its quotes. *)
Theorem quoteIdentifier_reads_back (identifier rest : string) :
  no_quote_ahead rest ->
  read_identifier (quoteIdentifier identifier +:+ rest) = Some (identifier, rest).
Proof. apply read_identifier_quote. Qed.

(** The accepted table names.  [quoteQualifiedTable] accepts a table name
    exactly when it is a non-empty [name], or [schema.name], of letters, digits
    and underscores, and answers with the parts quoted one by one. *)
Theorem quoteQualifiedTable_accepts (table quoted : string) :
  quoteQualifiedTable table = Ok quoted <->
  (isSafeIdentifier table = true /\ quoted = quoteIdentifier table) \/
  (exists schema name, isSafeIdentifier schema = true /\ isSafeIdentifier name = true /\
     table = schema +:+ "." +:+ name /\
     quoted = quoteIdentifier schema +:+ "." +:+ quoteIdentifier name).
Proof. apply quoteQualifiedTable_spec. Qed.

(** C24: the statement of an event does what the event asks for.  For an event
    whose table and columns are acceptable and that carries the rows its
    operation needs, [buildDML] writes a text, and arguments, that read and run
    as SQL on any tables insert, update or delete in the event's table what the
    event describes and change no other; every other event is refused. *)
Theorem buildDML_replicates (ev : ChangeEvent) :
  if replicable ev
  then exists table q args, quoteQualifiedTable (ev_Table ev) = Ok table /\
         buildDML ev = Ok (q, args) /\
         forall (T : sql_tables) rows, T !! table = Some rows ->
           run_sql q args T = Some (<[table := apply_event ev rows]> T)
  else exists err, buildDML ev = Err err.
Proof.
  pose proof (buildDML_spec ev) as Hspec. destruct (replicable ev) eqn:Hok; [|done].
  destruct Hspec as (table & Htable & Hbuild).
  exists table, (render (event_dml ev table)), (event_args ev). repeat split; [done..|].
  intros T rows Hrows. rewrite (run_sql_event _ _ _ _ Hbuild). unfold apply_change.
  by rewrite Htable, Hrows.
Qed.

(** The columns of a table: every row has them all. *)
Definition has_columns (columns : gset string) (row : Row) : Prop := columns ⊆ dom row.

Lemma row_matches_union (new row : Row) :
  dom new ⊆ dom row -> row_matches new row = true -> new ∪ row = row.
Proof.
  intros Hdom Hmatch. apply map_eq. intros k. destruct (new !! k) as [v|] eqn:Hk.
  - rewrite (lookup_union_Some_l _ _ _ _ Hk).
    unfold row_matches in Hmatch. rewrite forallb_forall in Hmatch.
    specialize (Hmatch (k, v)). rewrite <- list_elem_of_In, elem_of_map_to_list in Hmatch.
    specialize (Hmatch Hk). apply bool_decide_eq_true in Hmatch. simpl in Hmatch.
    assert (k ∈ dom row) as [v' Hv']%elem_of_dom by (apply Hdom, elem_of_dom; eauto).
    unfold row_get in Hmatch. rewrite Hv' in *. simpl in Hmatch. by rewrite Hmatch.
  - by rewrite lookup_union_r.
Qed.

(** C25: an update without an old row changes nothing.  PostgreSQL sends no old
    row for an update that keeps the key under the default replica identity;
    the publisher then uses the new row as predicate, and its statement, run
    where the rows of the event's table have the event's columns, leaves all
    tables as they were: the update is lost. *)
Theorem update_without_old_row_is_lost (ev : ChangeEvent) (table : string) (T : sql_tables)
    (rows : list Row) :
  ev_Operation ev = OperationUpdate -> ev_OldRow ev = ∅ -> replicable ev = true ->
  quoteQualifiedTable (ev_Table ev) = Ok table ->
  T !! table = Some rows -> Forall (has_columns (dom (ev_NewRow ev))) rows ->
  exists q args, buildDML ev = Ok (q, args) /\ run_sql q args T = Some T.
Proof.
  intros Hop Hold Hok Htable Hrows Hcols.
  pose proof (buildDML_spec ev) as Hspec. rewrite Hok in Hspec.
  destruct Hspec as (table' & Htable' & Hbuild).
  exists (render (event_dml ev table')), (event_args ev). split; [done|].
  rewrite (run_sql_event _ _ _ _ Hbuild). unfold apply_change. rewrite Htable, Hrows.
  cbn [mbind option_bind]. rewrite <- (insert_id _ _ _ Hrows) at 2. do 2 f_equal.
  unfold apply_event. rewrite Hop. simpl.
  assert (event_predicate ev = ev_NewRow ev) as ->.
  { unfold event_predicate. by rewrite Hold. }
  clear -Hcols. induction Hcols as [|row rows Hrow _ IH]; [done|].
  rewrite fmap_cons, IH. destruct (row_matches (ev_NewRow ev) row) eqn:Hm; [|done]. by rewrite row_matches_union.
Qed.

Section publish.
Context {W : Type} `{TransactionalDB W}.

(** C26: [Publish] commits whole batches, in order.  It always returns; what
    it has committed is the statements of the first [n] events, where [n] is
    a multiple of the batch size or all of them, and all of them when it
    reports success. *)
Theorem Publish_commits_batches (p : Publisher) (ctx : Context) (evs : list ChangeEvent)
    (w : W) :
  pool p = true -> (0 < batchSize p)%Z ->
  wp (Publish p ctx evs) (fun r w' => exists n,
    (n = length evs \/ exists k, Z.of_nat n = (Z.of_nat k * batchSize p)%Z) /\
    (Some <$> db_committed w') = (Some <$> db_committed w) ++ (stmt_of <$> take n evs) /\
    (r = None -> n = length evs)) w.
Proof. apply Publish_spec. Qed.

(** One event that cannot be written blocks the whole list.  If an event
    is not replicable, [Publish] fails, on every database. *)
Theorem Publish_blocked_by_poison (p : Publisher) (ctx : Context) (evs : list ChangeEvent)
    (ev : ChangeEvent) (w : W) :
  pool p = true -> (0 < batchSize p)%Z -> ev ∈ evs -> replicable ev = false ->
  wp (Publish p ctx evs) (fun r _ => r <> None) w.
Proof.
  intros Hpool Hbatch Hin Hpoison. eapply wp_mono; [by apply Publish_spec|].
  intros r w' (n & _ & Hc & Hr) ->. rewrite (Hr eq_refl), firstn_all in Hc.
  assert (None ∈ (Some <$> db_committed w')) as Hnone.
  { rewrite Hc. apply elem_of_app. right. apply list_elem_of_fmap. exists ev. split; [|done].
    destruct (stmt_of ev) eqn:E; [|done].
    assert (replicable ev = true) by (apply stmt_of_replicable; eauto). congruence. }
  apply list_elem_of_fmap in Hnone as (? & ? & _). done.
Qed.
End publish.

Section over_postgres.
Context {W : Type} `{Hpool : PgxPool W, !TransactionalDB W}.
Context `{Runtime W, ReplicationSubscriber W, StateStore W} (p : Publisher).
#[local] Existing Instance publisher_instance.
#[local] Existing Instance db_delivery.

(** C27: the engine over the PostgreSQL publisher delivers at least once, in
    order.  Run with a publisher with a connection and a positive batch size,
    in an environment where nothing else writes to the cloud database, the
    loop leaves committed there the statements of the events received, in
    order, except those still buffered, and except that statements already
    committed may be committed again by a retry. *)
Theorem loop_over_postgres_delivers (e : Engine) (rs : ReplicationState)
    (inputs : list loop_input) (w : W)
    `{!QuietEnvironment W (option stmt) (H1 := publisher_instance p)} :
  pool p = true -> (0 < batchSize p)%Z -> e_state e = Some rs ->
  wp (loop (H1 := publisher_instance p) e inputs) (fun '(e', r, rest) w' =>
    exists consumed again, inputs = consumed ++ rest /\
      (Some <$> db_committed w') = (Some <$> db_committed w) ++ again /\
      redelivers (stmt_of <$> e_buffer e') (stmt_of <$> (e_buffer e ++ received consumed))
        again) w.
Proof.
  intros Hp Hb Hrs.
  pose proof (publisher_delivers p Hp Hb) as Hdel.
  pose proof (delivering_responds (H4 := QuietEnvironment0) (DeliveringPublisher0 := Hdel) w)
    as Hresp.
  eapply wp_mono;
    [by apply (wp_loop_unrecorded (Responds0 := Hresp) _ inputs e rs);
     [|apply delivered_partly_start]|].
  intros [[e' r] rest] w'
    (calls & (chunks & Hch & Heff) & consumed & whole & late & -> & _ & -> & Hrun).
  exists consumed, (concat chunks). repeat split; [done|]. by eapply run_redelivers.
Qed.
End over_postgres.

(** * On concrete inputs *)

Lemma quoteIdentifier_reads_back_witness :
  let name := "a" +:+ dquote_s +:+ "b" in
  read_identifier (quoteIdentifier name +:+ " = $1") = Some (name, " = $1").
Proof. intros name. apply (quoteIdentifier_reads_back name " = $1"). discriminate. Defined.

(** An update received without its old row. *)
Definition keyless_update : ChangeEvent :=
  {| ev_LSN := 7%Z; ev_Timestamp := Second; ev_Table := "public.accounts";
     ev_Operation := OperationUpdate; ev_OldRow := ∅;
     ev_NewRow := {[ "id" := Str "1"; "name" := Str "new" ]} |}.

Lemma update_without_old_row_is_lost_witness :
  let rows : list Row := [ {[ "id" := Str "1"; "name" := Str "old" ]} ] in
  let table := quoteIdentifier "public" +:+ "." +:+ quoteIdentifier "accounts" in
  exists q args, buildDML keyless_update = Ok (q, args) /\
    run_sql q args {[ table := rows ]} = Some {[ table := rows ]}.
Proof.
  intros rows table.
  apply (update_without_old_row_is_lost keyless_update table {[ table := rows ]} rows);
    try reflexivity.
  repeat constructor. unfold has_columns. simpl. set_solver.
Defined.

Lemma Publish_commits_batches_witness :
  let evs := [an_event 1; an_event 2; an_event 3] in
  exists r w', Publish sample_publisher Background evs empty_database = (Ret r, w') /\
  exists n, (n = 3 \/ exists k, Z.of_nat n = (Z.of_nat k * 2)%Z) /\
    (Some <$> committed w') = (stmt_of <$> take n evs).
Proof.
  intros evs.
  pose proof (Publish_commits_batches sample_publisher Background evs empty_database
    eq_refl eq_refl) as Hwp.
  apply wp_run in Hwp as (r & w' & Hrun & n & Hn & Hc & _).
  exists r, w'. split; [exact Hrun|]. exists n. split; [exact Hn|exact Hc].
Defined.

(** A table name the publisher refuses. *)
Definition poison_event : ChangeEvent :=
  {| ev_LSN := 7%Z; ev_Timestamp := Second; ev_Table := "public.my-table";
     ev_Operation := OperationInsert; ev_OldRow := ∅; ev_NewRow := {[ "id" := Str "1" ]} |}.

Lemma Publish_blocked_by_poison_witness :
  wp (Publish sample_publisher Background [an_event 1; poison_event]) (fun r _ => r <> None)
    empty_database.
Proof.
  apply (Publish_blocked_by_poison sample_publisher Background [an_event 1; poison_event]
    poison_event empty_database); try reflexivity.
  apply elem_of_cons. right. apply elem_of_cons. left. reflexivity.
Defined.

Lemma loop_over_postgres_delivers_witness :
  exists e' r rest w',
    loop (H1 := publisher_instance sample_publisher) sample_engine sample_inputs empty_database =
      (Ret (e', r, rest), w') /\
    exists consumed, sample_inputs = consumed ++ rest /\
      redelivers (stmt_of <$> e_buffer e') (stmt_of <$> received consumed) (Some <$> committed w').
Proof.
  pose proof (loop_over_postgres_delivers sample_publisher sample_engine fresh_state
    sample_inputs empty_database (QuietEnvironment0 := database_quiet)
    eq_refl eq_refl eq_refl) as Hwp.
  apply wp_run in Hwp as ([[e' r] rest] & w' & Hrun & consumed & again & Hin & Heff & Hre).
  exists e', r, rest, w'. split; [exact Hrun|]. exists consumed. split; [exact Hin|].
  simpl in Heff. rewrite Heff. exact Hre.
Defined.
