(* ===== verification/PublisherTables.v ===== *)
(** The tables of the cloud: the meaning of sequences of statements and of
    changes, and what it takes for an event to be refused for ever.

    [PrimaryKeys] is a database that refuses to insert a key twice;
    [iterations_stuck] and [refused_responds] follow an engine whose first
    buffered event is refused. *)
From S2P Require Import Prelude GoErrors GoStrings GoTime Interfaces CircuitBreaker Backoff.
From S2P Require Import Config State Metrics Engine Trace Delivery EngineSpec EngineInvariants.
From S2P Require Import ExampleWorld Sql Publisher Dml SqlText PublisherSpec.

(** * Runs of statements and of changes *)

(** The tables after the statements, one by one. *)
Fixpoint run_all (ss : list stmt) (T : sql_tables) : option sql_tables :=
  match ss with
  | [] => Some T
  | s :: ss => T ← run_sql s.1 s.2 T; run_all ss T
  end.

Fixpoint replay (evs : list ChangeEvent) (T : sql_tables) : option sql_tables :=
  match evs with
  | [] => Some T
  | ev :: evs => T ← apply_change ev T; replay evs T
  end.

Lemma run_all_app (ss1 ss2 : list stmt) (T : sql_tables) :
  run_all (ss1 ++ ss2) T = run_all ss1 T ≫= run_all ss2.
Proof.
  revert T. induction ss1 as [|s ss1 IH]; intros T; simpl; [done|].
  destruct (run_sql s.1 s.2 T); simpl; [apply IH|done].
Qed.

Lemma replay_app (evs1 evs2 : list ChangeEvent) (T : sql_tables) :
  replay (evs1 ++ evs2) T = replay evs1 T ≫= replay evs2.
Proof.
  revert T. induction evs1 as [|ev evs1 IH]; intros T; simpl; [done|].
  destruct (apply_change ev T); simpl; [apply IH|done].
Qed.

(** The statements of events run as their changes. *)
Lemma run_all_events (evs : list ChangeEvent) (ss : list stmt) (T : sql_tables) :
  Some <$> ss = stmt_of <$> evs -> run_all ss T = replay evs T.
Proof.
  revert ss T. induction evs as [|ev evs IH]; intros [|[q args] ss] T Heq; try done.
  injection Heq as Hs Heq. simpl. unfold stmt_of in Hs.
  destruct (buildDML ev) as [[q' args']|] eqn:Hb; [|done]. injection Hs as -> ->.
  rewrite (run_sql_event _ _ _ _ Hb). destruct (apply_change ev T); simpl; [by apply IH|done].
Qed.

(** The events that concern a table there is. *)
Definition has_table (T : sql_tables) (ev : ChangeEvent) : Prop :=
  exists table, quoteQualifiedTable (ev_Table ev) = Ok table /\ table ∈ dom T.

Lemma replay_total (evs : list ChangeEvent) (T : sql_tables) :
  Forall (has_table T) evs -> is_Some (replay evs T).
Proof.
  revert T. induction evs as [|ev evs IH]; intros T Hall; simpl; [eauto|].
  apply Forall_cons in Hall as [(t & Ht & [rows Hr]%elem_of_dom) Hall].
  unfold apply_change. rewrite Ht, Hr. simpl. apply IH.
  eapply Forall_impl; [exact Hall|]. intros ev' (t' & Ht' & Hin). exists t'.
  split; [done|]. rewrite dom_insert_lookup_L; [done|by eauto].
Qed.

(** * Over calls that succeeded *)

Definition publish_ok (c : call_event) : Prop :=
  match c with CallPublish _ (Some _) => False | _ => True end.

Lemma chunks_of_successes {E} (effect : ChangeEvent -> E) (calls : list call_event)
    (chunks : list (list E)) :
  Forall2 (chunk_of effect) calls chunks -> Forall publish_ok calls ->
  concat chunks = effect <$> published calls.
Proof.
  induction 1 as [|c xs calls chunks Hc _ IH]; intros Hok; [done|].
  apply Forall_cons in Hok as [Hc0 Hok]. simpl. rewrite IH by done.
  unfold published. simpl. rewrite fmap_app. f_equal.
  destruct c as [| | |evs [err|]| | | | | | | | | | |]; simpl in *; done.
Qed.

(** * An event that is refused for ever *)

(** As long as the lists published so far start with [ev], none succeeded. *)
Fixpoint refused_so_far (ev : ChangeEvent) (calls : list call_event) : Prop :=
  match calls with
  | [] => True
  | CallPublish evs r :: calls => head evs = Some ev -> r <> None /\ refused_so_far ev calls
  | _ :: calls => refused_so_far ev calls
  end.

Definition headed (ev : ChangeEvent) (c : call_event) : Prop :=
  match c with CallPublish evs _ => head evs = Some ev | _ => True end.

#[local] Instance headed_dec (ev : ChangeEvent) (c : call_event) : Decision (headed ev c).
Proof. destruct c; simpl; apply _. Defined.

Lemma refused_so_far_app (ev : ChangeEvent) (calls1 calls2 : list call_event) :
  refused_so_far ev calls1 -> (Forall (headed ev) calls1 -> refused_so_far ev calls2) ->
  refused_so_far ev (calls1 ++ calls2).
Proof.
  intros H1 H2. induction calls1 as [|c calls1 IH]; simpl; [by apply H2|].
  destruct c; simpl in *; try (apply IH; [done|]; intros; apply H2; by constructor).
  intros Hh. destruct (H1 Hh) as [Hr Hc]. split; [done|]. apply IH; [done|].
  intros. apply H2. by constructor.
Qed.

Lemma refused_so_far_app_inv (ev : ChangeEvent) (calls1 calls2 : list call_event) :
  refused_so_far ev (calls1 ++ calls2) ->
  refused_so_far ev calls1 /\ (Forall (headed ev) calls1 -> refused_so_far ev calls2).
Proof.
  induction calls1 as [|c calls1 IH]; simpl; [by split|].
  assert (Hskip : refused_so_far ev (calls1 ++ calls2) -> refused_so_far ev calls1 /\
    (Forall (headed ev) (c :: calls1) -> refused_so_far ev calls2)).
  { intros [? Hc]%IH. split; [done|]. intros [_ Hh]%Forall_cons. auto. }
  destruct c; try exact Hskip. intros Hr. split.
  - intros Hh. destruct (Hr Hh) as [? Hc]. split; [done|]. by apply Hskip.
  - intros Hall. pose proof Hall as [Hh _]%Forall_cons. destruct (Hr Hh) as [_ Hc].
    by apply (proj2 (Hskip Hc)).
Qed.

(** Then nothing is published, and the buffer keeps the event at its head. *)
Definition stuck_on (ev : ChangeEvent) (e : Engine) (evs : list ChangeEvent) (e' : Engine)
    (calls : list call_event) : Prop :=
  head (e_buffer e) = Some ev -> refused_so_far ev calls ->
  head (e_buffer e') = Some ev /\ Forall (headed ev) calls /\ published calls = [].

Lemma attempts_headed (ev : ChangeEvent) (batch : list ChangeEvent) (errs : list error) :
  head batch = Some ev -> Forall (headed ev) (attempts batch errs).
Proof. intros Hh. induction errs; simpl; by constructor. Qed.

Lemma iterations_stuck (ev : ChangeEvent) (e : Engine) (consumed : list loop_input) (e' : Engine)
    (r : option (option error)) (calls : list call_event) :
  iterations e consumed e' r calls -> stuck_on ev e (received consumed) e' calls.
Proof.
  apply iterations_invariant; unfold stuck_on.
  - intros e1 Hh _. by repeat split.
  - intros e1 evs1 calls1 e2 evs2 calls2 e3 H1 H2 Hh [Hr1 Hr2]%refused_so_far_app_inv.
    destruct (H1 Hh Hr1) as (Hh2 & Hall1 & Hp1). destruct (H2 Hh2 (Hr2 Hall1)) as (Hh3 & Hall2 & Hp2).
    split; [done|]. split; [by apply Forall_app|]. by rewrite published_app, Hp1, Hp2.
  - intros e1 ev1 Hh _. split; [|by split]. unfold push. simpl. by destruct (e_buffer e1).
  - intros e1 rs e2 r2 calls2 _ Hf Hh Hr.
    destruct Hf as [| |now cb now' errs err|now cb now' t0 t1 errs ackErr saveErr Hne Hallow Hlen rs'].
    + by repeat split.
    + by repeat split.
    + split; [done|]. split; [by apply attempts_headed|apply published_attempts].
    + exfalso. apply refused_so_far_app_inv in Hr as [_ Hr].
      by destruct (Hr (attempts_headed _ _ _ Hh) Hh).
  - intros e1 rs saveErr closeErr _ Hh _. by repeat split; repeat constructor.
Qed.

(** Nor by the late calls of a shutdown that timed out. *)
Lemma run_stuck (ev : ChangeEvent) (e : Engine) (consumed : list loop_input) (e' : Engine)
    (r : option (option error)) (calls late : list call_event) :
  run_outcome e consumed e' r calls late ->
  head (e_buffer e) = Some ev -> refused_so_far ev (calls ++ late) ->
  Forall (headed ev) (calls ++ late) /\ e_buffer e' = e_buffer e ++ received consumed.
Proof.
  intros Hrun Hh [Hr _]%refused_so_far_app_inv.
  destruct (run_outcome_iterations _ _ _ _ _ _ Hrun) as (ins & r' & Hits & <- & _).
  destruct (iterations_stuck _ _ _ _ _ _ Hits Hh Hr) as (Hh' & Hall & Hpub).
  split; [|by rewrite (iterations_conserve _ _ _ _ _ Hits), Hpub].
  apply Forall_app. split; [done|].
  eapply Forall_impl; [by eapply late_publishes|].
  intros c Hc. destruct c; try done. simpl. by rewrite (Hc _ _ eq_refl).
Qed.

(** * Primary keys *)

Definition same_key (columns : list string) (row1 row2 : Row) : Prop :=
  columns <> [] /\
  Forall (fun c => row_get row1 c = row_get row2 c /\ row_get row1 c <> Nil) columns.

(** A database whose tables have primary keys: an INSERT of a key that is there
    fails.  [cloud_tables] are the tables the database had at first. *)
Class PrimaryKeys (W : Type) `{TransactionalDB W} : Type := {
  cloud_tables : sql_tables;
  primary_key : string -> list string;
  duplicate_refused tx ctx table values args (w : W) T rows row :
    well_formed (InsertInto table values) -> db_open tx w = [] -> run_all (db_committed w) cloud_tables = Some T ->
    T !! table = Some rows -> row ∈ rows ->
    same_key (primary_key table) row (assigned args values) ->
    (tx_Exec tx ctx (render (InsertInto table values)) args w).1 <> None;
}.

(** The row that an insert event would add has a key that is there already. *)
Definition already_there `{PrimaryKeys W} (ev : ChangeEvent) (ss : list stmt) : Prop :=
  exists table T rows row, ev_Operation ev = OperationInsert /\ replicable ev = true /\
    quoteQualifiedTable (ev_Table ev) = Ok table /\
    run_all ss cloud_tables = Some T /\ T !! table = Some rows /\ row ∈ rows /\
    same_key (primary_key table) row (ev_NewRow ev).

Section duplicate.
Context {W : Type} `{PrimaryKeys W}.

Lemma publish_batch_duplicate (ctx : Context) (ev : ChangeEvent) (evs : list ChangeEvent) (w : W) :
  already_there ev (db_committed w) ->
  wp (publish_batch ctx (ev :: evs)) (fun r w' =>
    r <> None /\ db_committed w' = db_committed w) w.
Proof.
  intros (table & T & rows & row & Hop & Hok & Ht & HT & Hrows & Hin & Hkey).
  unfold publish_batch. apply wp_bind, wp_call. intros [tx|err] w1 Hbegin;
    pose proof (begin_committed _ _ _ _ Hbegin) as Hc1; [|by apply wp_ret].
  pose proof (buildDML_spec ev) as Hb. rewrite Hok in Hb. destruct Hb as (t' & Ht' & Hb).
  rewrite Ht in Ht'. injection Ht' as <-.
  apply wp_bind. simpl. rewrite Hb. apply wp_bind, wp_call. intros r w2 Hexec.
  assert (r <> None) as Hr.
  { unfold event_dml, event_args in Hexec. rewrite decide_True in Hexec by done.
    rewrite decide_True in Hexec by done.
    pose proof (duplicate_refused tx ctx table (param_values (sortedKeys (ev_NewRow ev)) 1)
      (row_get (ev_NewRow ev) <$> sortedKeys (ev_NewRow ev)) w1 T rows row) as Hdup.
    rewrite Hexec in Hdup. apply Hdup; try done.
    - pose proof (event_dml_well_formed ev table Hok Ht) as Hwf.
      unfold event_dml in Hwf. by rewrite decide_True in Hwf.
    - by eapply begin_open.
    - by rewrite Hc1.
    - pose proof (assigned_row (ev_NewRow ev) []) as Ha. rewrite app_nil_r in Ha. by rewrite Ha. }
  destruct r as [err|]; [|done]. apply wp_bind, wp_call. intros r w3 Hrb. apply wp_ret, wp_ret.
  split; [done|].
  by rewrite (rollback_committed _ _ _ _ _ Hrb), (exec_committed _ _ _ _ _ _ _ Hexec).
Qed.

Lemma Publish_duplicate (p : Publisher) (ctx : Context) (ev : ChangeEvent)
    (evs : list ChangeEvent) (w : W) :
  (0 < batchSize p)%Z -> head evs = Some ev -> already_there ev (db_committed w) ->
  wp (Publish p ctx evs) (fun r w' => r <> None /\ db_committed w' = db_committed w) w.
Proof.
  intros Hb Hh Hdup. destruct evs as [|ev' evs]; [done|]. injection Hh as ->.
  unfold Publish. destruct (negb (pool p)); [by apply wp_ret|].
  rewrite decide_False by done. simpl publish_loop.
  destruct (Z.to_nat (Z.min (0 + batchSize p) (Z.of_nat (length (ev :: evs))) - 0)) as [|n] eqn:Hn.
  { simpl in Hn. lia. }
  simpl in Hn |- *. rewrite Hn. simpl. apply wp_bind.
  eapply wp_mono; [by apply publish_batch_duplicate|]. intros [err|] w1 [Hr Hc]; [|done].
  by apply wp_ret.
Qed.

Context `{Runtime W, ReplicationSubscriber W, StateStore W} (p : Publisher).
#[local] Instance pg_publisher : ReplicationPublisher W := publisher_instance p.
#[local] Existing Instance db_delivery.
Context `{!QuietEnvironment W (option stmt)}.

Definition refused_inv (ev : ChangeEvent) (w0 : W) (calls : list call_event) (w : W) : Prop :=
  refused_so_far ev calls /\
  (Forall (headed ev) calls -> db_committed w = db_committed w0).

Lemma refused_quiet (ev : ChangeEvent) (w0 w w' : W) (calls : list call_event) (c : call_event) :
  refused_inv ev w0 calls w -> refused_so_far ev [c] -> effects w' = effects w ->
  refused_inv ev w0 (calls ++ [c]) w'.
Proof.
  intros [Hr Hc] Hone Heff. split; [by apply refused_so_far_app|].
  intros [Hall _]%Forall_app. rewrite <- (Hc Hall). by apply (inj (fmap Some)).
Qed.

Lemma Publish_returns (ctx : Context) (evs : list ChangeEvent) (w : W) :
  (0 < batchSize p)%Z -> wp (Publish p ctx evs) (fun _ _ => True) w.
Proof.
  intros Hb. destruct (pool p) eqn:Hp; [by eapply wp_mono; [apply Publish_spec|]|].
  unfold Publish. by rewrite Hp.
Qed.

Lemma refused_Publish (ev : ChangeEvent) (w0 w : W) (calls : list call_event) (ctx : Context)
    (evs : list ChangeEvent) :
  (0 < batchSize p)%Z -> already_there ev (db_committed w0) -> refused_inv ev w0 calls w ->
  wp (pub_Publish ctx evs) (fun r => refused_inv ev w0 (calls ++ [CallPublish evs r])) w.
Proof.
  intros Hb Hdup [Hr Hc].
  destruct (decide (head evs = Some ev /\ Forall (headed ev) calls)) as [[Hh Hall]|Hno].
  - rewrite <- (Hc Hall) in Hdup.
    eapply wp_mono; [by apply (Publish_duplicate p ctx ev evs)|]. intros r w' [Hne Hw']. split.
    + apply refused_so_far_app; [done|]. by intros _ _.
    + intros _. rewrite Hw'. auto.
  - eapply wp_mono; [by apply (Publish_returns ctx evs)|]. intros r w' _. split.
    + apply refused_so_far_app; [done|]. intros Hall Hh. by destruct Hno.
    + intros [Hall [Hh _]%Forall_cons]%Forall_app. by destruct Hno.
Qed.

Lemma refused_responds (ev : ChangeEvent) (w0 : W) :
  (0 < batchSize p)%Z -> already_there ev (db_committed w0) -> Responds W (refused_inv ev w0).
Proof.
  intros Hb Hdup.
  assert (Hsame : forall calls (w w' : W), refused_inv ev w0 calls w -> effects w' = effects w ->
    refused_inv ev w0 calls w').
  { intros calls w w' [Hr Hc] Heff. split; [done|]. intros Hall. rewrite <- (Hc Hall).
    by apply (inj (fmap Some)). }
  split; intros.
  1: eapply Hsame; [done|apply quiet_now].
  1: eapply Hsame; [done|apply quiet_wait].
  5: by apply refused_Publish.
  all: eapply wp_mono;
    [first [apply quiet_Connect | apply quiet_Subscribe | apply quiet_Acknowledge
           | apply quiet_Close | apply quiet_HealthCheck | apply quiet_Load | apply quiet_Save]|];
    intros r w' Heff; by eapply refused_quiet.
Qed.
End duplicate.
