(* ===== verification/ExampleKeyed.v ===== *)
(** A concrete database whose tables have primary keys, and whose first commits
    may lose their answers: the theorems about the cloud's tables are
    instantiated on it. *)
From S2P Require Import Prelude GoErrors GoTime GoStrings Interfaces Sql Publisher Dml SqlText.
From S2P Require Import State PublisherSpec Delivery PublisherTables.

(** [k_lost] commits will take effect and report an error. *)
Record keyed : Type := mkKeyed {
  k_committed : list stmt;
  k_open : gmap nat (list stmt);
  k_lost : nat;
  k_clock : Time;
}.

Definition accounts : string := quoteIdentifier "public" +:+ "." +:+ quoteIdentifier "accounts".
Definition keyed_tables : sql_tables := {[ accounts := [] ]}.
Definition keyed_key (table : string) : list string := ["id"].

#[export] Instance same_key_dec (columns : list string) (row1 row2 : Row) :
  Decision (same_key columns row1 row2).
Proof. unfold same_key. apply _. Defined.

(** The statement inserts a row whose key is there. *)
Definition duplicate (q : string) (args : list any) (ss : list stmt) : bool :=
  match parse_sql q, run_all ss keyed_tables with
  | Some (InsertInto table values), Some T =>
      match T !! table with
      | Some rows =>
          existsb (fun row => bool_decide (same_key (keyed_key table) row (assigned args values)))
            rows
      | None => false
      end
  | _, _ => false
  end.

Definition unique_violation : error := Lib (PgError "23505").

Definition stmts_of (tx : nat) (k : keyed) : list stmt := default [] (k_open k !! tx).
Definition set_open (o : gmap nat (list stmt)) (k : keyed) : keyed :=
  mkKeyed (k_committed k) o (k_lost k) (k_clock k).

#[export] Instance keyed_pool : PgxPool keyed := {|
  pool_New ctx connString k := (None, k);
  pool_Ping ctx k := (None, k);
  pool_Close k := (tt, k);
  pool_BeginTx ctx k :=
    let tx := fresh (dom (k_open k)) in (Ok tx, set_open (<[tx := []]> (k_open k)) k);
  tx_Exec tx ctx query args k :=
    if duplicate query args (k_committed k ++ stmts_of tx k) then (Some unique_violation, k)
    else (None, set_open (<[tx := stmts_of tx k ++ [(query, args)]]> (k_open k)) k);
  tx_Commit tx ctx k :=
    (match k_lost k with O => None | S _ => Some (ErrorsNew "connection lost") end,
     mkKeyed (k_committed k ++ stmts_of tx k) (delete tx (k_open k)) (pred (k_lost k)) (k_clock k));
  tx_Rollback tx ctx k := (None, set_open (delete tx (k_open k)) k);
  pool_QueryRow ctx query k := (Ok 1%Z, k);
|}.

#[export] Instance keyed_transactional : TransactionalDB keyed.
Proof.
  refine {| db_committed := k_committed; db_open := stmts_of |}; simpl.
  - by intros ctx k r k' [= _ <-].
  - intros ctx k tx k' [= <- <-]. unfold stmts_of. simpl. by rewrite lookup_insert_eq.
  - intros tx ctx q args k r k'. by destruct (duplicate _ _ _); intros [= _ <-].
  - intros tx ctx q args k k'. destruct (duplicate _ _ _); [done|]. intros [= <-].
    unfold stmts_of at 1. simpl. by rewrite lookup_insert_eq.
  - intros tx ctx k k'. by destruct (k_lost k); intros [= <-].
  - intros tx ctx k err k'. destruct (k_lost k); intros [= _ <-]. by right.
  - by intros tx ctx k r k' [= _ <-].
Defined.

#[export] Instance keyed_keys : PrimaryKeys keyed.
Proof.
  refine {| cloud_tables := keyed_tables; primary_key := keyed_key |}.
  intros tx ctx table values args k T rows row Hwf Hopen HT Hrows Hin Hkey.
  change (stmts_of tx k = []) in Hopen. change (run_all (k_committed k) keyed_tables = Some T) in HT.
  unfold tx_Exec, keyed_pool.
  assert (duplicate (render (InsertInto table values)) args (k_committed k ++ stmts_of tx k) = true)
    as ->; [|done].
  unfold duplicate. rewrite Hopen, app_nil_r, parse_render, HT, Hrows by done.
  apply existsb_exists. exists row. split; [by apply list_elem_of_In|].
  by apply bool_decide_eq_true.
Defined.

#[export] Instance keyed_runtime : Runtime keyed := {|
  rt_now k := (k_clock k, k);
  rt_wait ctx t k := (None, mkKeyed (k_committed k) (k_open k) (k_lost k) (Add (k_clock k) t));
|}.
#[export] Instance keyed_subscriber : ReplicationSubscriber keyed := {|
  sub_Connect ctx db := mret None;
  sub_Subscribe ctx slot tables := mret None;
  sub_Acknowledge ctx lsn := mret None;
  sub_Close := mret None;
|}.
#[export] Instance keyed_store : StateStore keyed := {|
  store_Load := mret (Ok fresh_state);
  store_Save rs := mret None;
|}.

Definition empty_keyed (lost : nat) : keyed := mkKeyed [] ∅ lost (100 * Second)%Z.

Definition keyed_publisher : Publisher := mkPublisher true 10%Z.

#[export] Instance keyed_quiet :
  @QuietEnvironment keyed (option stmt) _ _ (publisher_instance keyed_publisher) _ db_delivery.
Proof. by split. Qed.
