(* ===== verification/TablesProps.v ===== *)
(** The properties of the cloud's tables: what the engine over the publisher has
    done to them, and what becomes of it when a commit took effect but its answer
    was lost. *)
From S2P Require Import Prelude GoErrors GoStrings GoTime Interfaces CircuitBreaker Backoff.
From S2P Require Import Config State Metrics Engine Trace Delivery EngineSpec EngineInvariants.
From S2P Require Import ExampleWorld Sql Publisher Dml SqlText PublisherSpec PublisherTables.
From S2P Require Import ExampleKeyed.

Section over_postgres.
Context {W : Type} `{Hpool : PgxPool W, !TransactionalDB W}.
Context `{Runtime W, ReplicationSubscriber W, StateStore W} (p : Publisher).
#[local] Existing Instance publisher_instance.
#[local] Existing Instance db_delivery.

(** C5: the cloud's tables mirror the changes.  As long as no call of
    [Publish] fails, what the engine has committed, run as SQL on the tables
    the cloud database had at first, gives tables on which the changes still
    buffered have to be made to get those on which all the changes, buffered
    before or received, are made in order.  (If the shutdown timed out, its flush
    may have gone through all the same: then no change has to be made.) *)
Theorem loop_mirrors_tables (e : Engine) (rs : ReplicationState) (inputs : list loop_input)
    (w : W) (T0 T : sql_tables)
    `{!QuietEnvironment W (option stmt) (H1 := publisher_instance p)} :
  pool p = true -> (0 < batchSize p)%Z -> e_state e = Some rs ->
  run_all (db_committed w) T0 = Some T ->
  Forall (has_table T) (e_buffer e ++ received inputs) ->
  wp (loop (H1 := traced_publisher (H := publisher_instance p)) e inputs) (fun '(e', r, rest) w' =>
    exists consumed left, inputs = consumed ++ rest /\
      (left = e_buffer e' \/ left = [] /\ timed_out r) /\
      (Forall publish_ok (trace w') -> exists T',
         run_all (db_committed (inner w')) T0 = Some T' /\
         replay left T' = replay (e_buffer e ++ received consumed) T /\
         is_Some (replay left T'))) (mkTraced w []).
Proof.
  intros Hp Hb Hrs HT Htables.
  pose proof (delivering_responds (H4 := QuietEnvironment0)
    (DeliveringPublisher0 := publisher_delivers p Hp Hb) w) as Hresp.
  eapply wp_mono; [apply (wp_loop (delivered_partly w) (H3 := Hresp) inputs e rs); [done|]|].
  { apply delivered_partly_start. }
  intros [[e' r] rest] w' (Hdel & calls & Htr & consumed & whole & late & -> & _ & -> & Hrun).
  simpl in Htr. destruct (run_conserves _ _ _ _ _ _ Hrun) as (left & Hleft & Hcons).
  exists consumed, left. split; [done|]. split; [done|].
  unfold holds in Hdel. rewrite Htr in *. intros Hok.
  destruct Hdel as (chunks & Hch & Heff). rewrite (chunks_of_successes _ _ _ Hch Hok) in Heff.
  apply fmap_app_inv in Heff as (ss0 & ss & Hss0 & Hss & Heq).
  assert (ss0 = db_committed w) as -> by (apply (inj (fmap Some)); by symmetry).
  rewrite Heq, run_all_app, HT. cbn [mbind option_bind].
  rewrite (run_all_events (published (whole ++ late))) by done.
  rewrite received_app, app_assoc, Hcons in Htables. apply Forall_app in Htables as [Htables _].
  destruct (replay_total _ _ Htables) as [T2 HT2]. rewrite Hcons.
  rewrite replay_app in HT2 |- *. destruct (replay (published (whole ++ late)) T) as [T'|]; [|done].
  exists T'. split; [done|]. split; [done|]. exists T2. exact HT2.
Qed.
End over_postgres.

Section keyed_tables.
Context {W : Type} `{PrimaryKeys W} `{Runtime W, ReplicationSubscriber W, StateStore W}.
Context (p : Publisher).
#[local] Existing Instance db_delivery.

(** C28: a commit whose answer was lost stops replication.  Publishing is
    retried, and an INSERT is sent again as it was; so once the row of the first
    buffered insert is in a table of the cloud with a primary key, every
    attempt is refused, nothing more is committed however long the engine runs,
    and the buffer only grows. *)
Theorem duplicate_insert_blocks_replication (e : Engine) (rs : ReplicationState)
    (inputs : list loop_input) (ev : ChangeEvent) (w : W)
    `{!QuietEnvironment W (option stmt) (H1 := publisher_instance p)} :
  (0 < batchSize p)%Z -> e_state e = Some rs ->
  head (e_buffer e) = Some ev -> already_there ev (db_committed w) ->
  wp (loop (H1 := publisher_instance p) e inputs) (fun '(e', r, rest) w' =>
    db_committed w' = db_committed w /\
    exists consumed, inputs = consumed ++ rest /\ e_buffer e' = e_buffer e ++ received consumed) w.
Proof.
  intros Hb Hrs Hh Hdup. pose proof (refused_responds p ev w Hb Hdup) as Hresp.
  eapply wp_mono; [apply (wp_loop_unrecorded (refused_inv ev w) (Responds0 := Hresp) inputs e rs); [done|by split]|].
  intros [[e' r] rest] w' (calls & [Hr Hc] & consumed & whole & late & -> & _ & -> & Hrun).
  destruct (run_stuck _ _ _ _ _ _ _ Hrun Hh Hr) as [Hall Hbuf].
  split; [auto|]. by exists consumed.
Qed.
End keyed_tables.

(** * On concrete databases *)

Definition two_events : list loop_input := [Event (an_event 1); Event (an_event 2)].

Lemma sample_tables (evs : list loop_input) :
  Forall (fun i => match i with Event ev => ev_Table ev = "public.accounts" | _ => True end) evs ->
  Forall (has_table keyed_tables) (received evs).
Proof.
  induction 1 as [|i evs Hi _ IH]; [constructor|].
  change (received (i :: evs)) with (received_by i ++ received evs).
  apply Forall_app. split; [|done]. destruct i as [ev| | |]; simpl; constructor; [|constructor].
  exists accounts. rewrite Hi. split; [reflexivity|]. unfold keyed_tables. set_solver.
Qed.

Lemma two_events_tables :
  Forall (has_table keyed_tables) (e_buffer sample_engine ++ received two_events).
Proof. apply (sample_tables two_events). by repeat constructor. Qed.

Lemma loop_mirrors_tables_witness :
  wp (loop (H1 := traced_publisher (H := publisher_instance keyed_publisher)) sample_engine two_events)
    (fun '(e', r, rest) w' => exists consumed left, two_events = consumed ++ rest /\
      (left = e_buffer e' \/ left = [] /\ timed_out r) /\
      (Forall publish_ok (trace w') -> exists T',
         run_all (db_committed (inner w')) keyed_tables = Some T' /\
         replay left T' = replay (e_buffer sample_engine ++ received consumed) keyed_tables /\
         is_Some (replay left T'))) (mkTraced (empty_keyed 0) []).
Proof.
  exact (loop_mirrors_tables keyed_publisher sample_engine fresh_state two_events (empty_keyed 0)
    keyed_tables keyed_tables eq_refl eq_refl eq_refl eq_refl two_events_tables).
Defined.

(** The first batch is committed, but the answer is lost; the retries are refused. *)
Definition stuck_run :=
  loop (H1 := publisher_instance keyed_publisher) sample_engine two_events (empty_keyed 1).
Definition stuck_engine : Engine :=
  match stuck_run with (Ret (e, _, _), _) => e | _ => sample_engine end.
Definition stuck_db : keyed := stuck_run.2.

Lemma stuck_state : is_Some (e_state stuck_engine).
Proof. vm_compute. eauto. Qed.

Lemma stuck_head : head (e_buffer stuck_engine) = Some (an_event 1).
Proof. vm_compute. reflexivity. Qed.

(** Both rows are in the table, and both events still in the buffer. *)
Lemma stuck_lengths :
  length (e_buffer stuck_engine) = 2 /\ length (k_committed stuck_db) = 2.
Proof. vm_compute. by split. Qed.

Lemma stuck_there : already_there (an_event 1) (db_committed stuck_db).
Proof.
  exists accounts, (default ∅ (run_all (k_committed stuck_db) keyed_tables)),
    [ev_NewRow (an_event 1); ev_NewRow (an_event 2)], (ev_NewRow (an_event 1)).
  split; [reflexivity|]. split; [vm_compute; reflexivity|]. split; [vm_compute; reflexivity|].
  split; [vm_compute; reflexivity|]. split; [vm_compute; reflexivity|]. split; [left|].
  apply (bool_decide_unpack _). vm_compute. exact I.
Qed.

Lemma duplicate_insert_blocks_replication_witness :
  wp (loop (H1 := publisher_instance keyed_publisher) stuck_engine [Event (an_event 3); Tick; Tick])
    (fun '(e', r, rest) w' => db_committed w' = db_committed stuck_db /\
      exists consumed, [Event (an_event 3); Tick; Tick] = consumed ++ rest /\
        e_buffer e' = e_buffer stuck_engine ++ received consumed) stuck_db.
Proof.
  destruct stuck_state as [rs Hrs].
  exact (duplicate_insert_blocks_replication keyed_publisher stuck_engine rs
    [Event (an_event 3); Tick; Tick] (an_event 1) stuck_db eq_refl Hrs stuck_head stuck_there).
Defined.
