(* ===== verification/ConfigProps.v ===== *)
(** The properties of the configuration. *)
From S2P Require Import Prelude GoErrors GoTime GoStrings Interfaces Config State Metrics.
From S2P Require Import Engine ExampleWorld.

(** C37: validation accepts exactly the usable configurations.  [Validate]
    returns no error if and only if both databases are complete (the local one
    with a replication slot), the cloud one has a certificate and a mode that
    encrypts, and the tables are listed and named. *)
Theorem Validate_accepts_valid (c : Config) : Validate c = None <-> valid_config c.
Proof.
  rewrite <- validation_errors_nil. unfold Validate.
  destruct (validation_errors c); split; done.
Qed.

(** [Load] yields nothing but what the file decodes to, validated.  It
    succeeds exactly when the file is read, decoded and valid. *)
Theorem Load_yields_valid (read : string -> option error) (decode : string -> result Config)
    (path : string) (c : Config) :
  Load read decode path = Ok c <->
  read path = None /\ decode path = Ok c /\ valid_config c.
Proof.
  rewrite <- validation_errors_nil. unfold Load.
  destruct (read path) as [err|].
  { split; [|by intros [? _]]. destruct (root_cause err) as [[]|]; try done.
    by destruct (String.eqb path ""). }
  destruct (decode path) as [c'|err]; [|by split; [|intros (_ & ? & _)]].
  unfold Validate. split.
  - destruct (validation_errors c') eqn:Herrs; [|done]. by intros [= <-].
  - intros (_ & [= ->] & ->). done.
Qed.
