(* ===== verification/Command.v ===== *)
(** cmd/state-sync/main.go: the command. *)
From S2P Require Import Prelude GoErrors Config.

(** What the command writes, and how it ends. *)
Inductive stream_write : Type :=
  | Stdout (line : string)
  | Stderr (format : string) (err : error).

Record exit : Type := mkExit {
  ex_output : list stream_write;
  ex_code : Z;
}.

(** The value of the flag, whose default is a file in the current directory. *)
Definition config_flag (given : option string) : string := default "config.yaml" given.

Section main.
(** viper, as in Config. *)
Context (v_ReadInConfig : string -> option error) (v_Unmarshal : string -> result Config).

(** After [flag.Parse], which found [given]. *)
Definition main (given : option string) : exit :=
  match Load v_ReadInConfig v_Unmarshal (config_flag given) with
  | Err err => mkExit [Stderr "startup failed: %v\n" err] 1
  | Ok _ =>
      mkExit [Stdout "State Sync Engine - Cloud Mirror"; Stdout "Configuration loaded successfully";
              Stdout "Starting..."] 0
  end.

(** The command succeeds exactly when the file can be read and decoded into a
    valid configuration; it only ever writes, and starts nothing. *)
Lemma main_exit (given : option string) :
  ex_code (main given) = 0%Z <->
  v_ReadInConfig (config_flag given) = None /\
  exists cfg, v_Unmarshal (config_flag given) = Ok cfg /\ valid_config cfg.
Proof.
  unfold main, Load. destruct (v_ReadInConfig _) as [err|].
  - split; [|by intros [? _]]. by repeat case_match.
  - destruct (v_Unmarshal _) as [cfg|err].
    + assert (Hv : Validate cfg = None <-> valid_config cfg).
      { unfold Validate. rewrite <- validation_errors_nil. by destruct (validation_errors cfg). }
      destruct (Validate cfg) as [err|]; simpl.
      * split; [done|]. intros (_ & cfg' & [= <-] & Hval). by apply Hv in Hval.
      * split; [|done]. intros _. split; [done|]. exists cfg. split; [done|]. by apply Hv.
    + split; [done|]. by intros (_ & cfg & ? & _).
Qed.
End main.
