(* ===== verification/Logging.v ===== *)
(** internal/logging/logger.go: the logger's configuration and the correlation
    id that a context carries.

    A logger of zap is what it was configured with and the fields it adds to
    each entry; building one is the library's. *)
From S2P Require Import Prelude GoErrors Interfaces.

(** * Contexts with values

    [context.WithValue]: keys of different types never compare equal, so a key
    is a value of the package's own type or some other key. *)
Inductive contextKey : Type :=
  | ContextKey (name : string)
  | ForeignKey (id : nat).

#[export] Instance contextKey_eq_dec : EqDecision contextKey.
Proof. solve_decision. Defined.

Inductive ValueContext : Type :=
  | Plain (ctx : Context)
  | WithValue (parent : ValueContext) (key : contextKey) (val : any).

(** [ctx.Value(key)], nil when there is none. *)
Fixpoint Value (ctx : ValueContext) (key : contextKey) : any :=
  match ctx with
  | Plain _ => Nil
  | WithValue parent k v => if decide (k = key) then v else Value parent key
  end.

Definition correlationIDKey : contextKey := ContextKey "correlation_id".

Definition WithCorrelationID (ctx : ValueContext) (id : string) : ValueContext :=
  WithValue ctx correlationIDKey (Str id).

Definition CorrelationID (ctx : ValueContext) : string :=
  match Value ctx correlationIDKey with Str id => id | _ => "" end.

(** * Loggers *)

Record EncoderConfig : Type := mkEncoderConfig {
  TimeKey : string;
  LevelKey : string;
  NameKey : string;
  CallerKey : string;
  MessageKey : string;
  StacktraceKey : string;
  LineEnding : string;
  EncodeLevel : string;      (** the encoders by name *)
  EncodeTime : string;
  EncodeDuration : string;
  EncodeCaller : string;
}.

Record zap_Config : Type := mkZapConfig {
  Level : string;
  Development : bool;
  Encoding : string;
  EncoderConfig_ : EncoderConfig;
  OutputPaths : list string;
  ErrorOutputPaths : list string;
}.

(** The configuration a logger was built from, and its fields. *)
Record Logger : Type := mkLogger {
  lg_config : zap_Config;
  lg_fields : list (string * string);
}.

Definition logger_config : zap_Config :=
  {| Level := "info";
     Development := false;
     Encoding := "json";
     EncoderConfig_ :=
       {| TimeKey := "ts"; LevelKey := "level"; NameKey := "logger"; CallerKey := "caller";
          MessageKey := "msg"; StacktraceKey := "stacktrace";
          LineEnding := String (Ascii.ascii_of_nat 10) "";
          EncodeLevel := "LowercaseLevelEncoder"; EncodeTime := "ISO8601TimeEncoder";
          EncodeDuration := "StringDurationEncoder"; EncodeCaller := "ShortCallerEncoder" |};
     OutputPaths := ["stdout"];
     ErrorOutputPaths := ["stderr"] |}.

Class ZapLibrary (W : Type) : Type := {
  zap_Build : zap_Config -> W -> result Logger * W;
}.

Definition New {W : Type} `{ZapLibrary W} : Go W (result Logger) := call (zap_Build logger_config).

(** [logger.With(zap.String(key, val))]: a child logger with one more field. *)
Definition With (logger : Logger) (key val : string) : Logger :=
  mkLogger (lg_config logger) (lg_fields logger ++ [(key, val)]).

Definition WithContext (logger : Logger) (ctx : ValueContext) : Logger :=
  let id := CorrelationID ctx in
  if negb (String.eqb id "") then With logger "correlation_id" id else logger.

(** * The correlation id *)

(** The last id put into a context is the one read; other values do not matter. *)
Lemma CorrelationID_set (ctx : ValueContext) (id : string) :
  CorrelationID (WithCorrelationID ctx id) = id.
Proof. done. Qed.

Lemma CorrelationID_other (ctx : ValueContext) (key : contextKey) (v : any) :
  key <> correlationIDKey -> CorrelationID (WithValue ctx key v) = CorrelationID ctx.
Proof. intros Hk. unfold CorrelationID. simpl. by case_decide. Qed.

(** The ids a context was given, the last first. *)
Fixpoint ids_of (ctx : ValueContext) : list string :=
  match ctx with
  | Plain _ => []
  | WithValue parent k (Str id) => (if decide (k = correlationIDKey) then [id] else []) ++ ids_of parent
  | WithValue parent k _ => (if decide (k = correlationIDKey) then [""] else []) ++ ids_of parent
  end.

(** A logger gets the field exactly when the last id is not empty, and keeps its
    configuration and its other fields. *)
Lemma WithContext_fields (logger : Logger) (ctx : ValueContext) :
  lg_config (WithContext logger ctx) = lg_config logger /\
  lg_fields (WithContext logger ctx) = lg_fields logger ++
    match head (ids_of ctx) with
    | Some (String c id) => [("correlation_id", String c id)]
    | _ => []
    end.
Proof.
  assert (Hid : CorrelationID ctx = default "" (head (ids_of ctx))).
  { unfold CorrelationID. induction ctx as [c|parent IH k v]; [done|]. simpl.
    destruct v; case_decide; simpl; try done. }
  unfold WithContext. rewrite Hid. split; [by destruct (negb _)|].
  destruct (head (ids_of ctx)) as [[|c id]|]; simpl; by rewrite ?app_nil_r.
Qed.
