(* ===== verification/Coordinator.v ===== *)
(** internal/coordinator/coordinator.go: switching a database between read-only
    and read-write.

    The pgx connection is a class over the world of the servers. *)
From S2P Require Import Prelude GoErrors GoStrings Interfaces ConnString Sql.

(** [pgx.Connect] and the methods of [pgx.Conn]; a connection is a handle. *)
Class PgxConn (W : Type) : Type := {
  conn_Connect : Context -> string -> W -> result nat * W;
  conn_Exec : nat -> Context -> string -> list any -> W -> option error * W;
  (** [QueryRow(ctx, sql).Scan(&value)] into a string *)
  conn_QueryRow : nat -> Context -> string -> W -> result string * W;
  conn_Close : nat -> Context -> W -> option error * W;
}.

(** ** Connection strings and identifiers

    The package has its own buildConnString and quoteIdentifier: the former has
    no replication mode. *)
Definition conn_query (config : DBConfig) : gmap string string :=
  let query : gmap string string := ∅ in
  let query := if negb (is_blank (db_SSLMode config))
               then <["sslmode" := db_SSLMode config]> query else query in
  if negb (is_blank (db_SSLRootCertPath config))
  then <["sslrootcert" := db_SSLRootCertPath config]> query else query.

Definition buildConnString (config : DBConfig) : string :=
  URL_String "postgres" (db_User config) (db_Password config)
    (db_Host config +:+ ":" +:+ itoa (db_Port config)) (db_Database config)
    (Encode (conn_query config)).

Definition quoteIdentifier (identifier : string) : string :=
  dquote_s +:+ ReplaceAll identifier dquote dquote2_s +:+ dquote_s.

(** They agree with those of the replication package. *)
Lemma buildConnString_standard (config : DBConfig) :
  buildConnString config = ConnString.buildConnString config false.
Proof. done. Qed.

Lemma quoteIdentifier_same (identifier : string) :
  quoteIdentifier identifier = Sql.quoteIdentifier identifier.
Proof. done. Qed.

(** ** The operations *)

Definition alter_sql (database : string) (value : string) : string :=
  "ALTER DATABASE " +:+ quoteIdentifier database +:+
  " SET default_transaction_read_only = " +:+ value.

Definition terminateSQL : string := "
		SELECT pg_terminate_backend(pid)
		FROM pg_stat_activity
		WHERE datname = $1
		  AND pid != pg_backend_pid()
		  AND state = 'active'
		  AND query NOT ILIKE '%pg_stat_activity%'".

Definition reset_sql : string := "RESET default_transaction_read_only".
Definition show_sql : string := "SHOW default_transaction_read_only".

Section coordinator.
Context {W : Type} `{PgxConn W}.

Definition connect (ctx : Context) (db : DBConfig) : Go W (result nat) :=
  let connStr := buildConnString db in
  r ← call (conn_Connect ctx connStr);
  match r with
  | Err err =>
      mret (Err (Wrapf "failed to connect to database %q at %s:%d: %w"
                   [AStr (db_Database db); AStr (db_Host db); AInt (db_Port db)] err))
  | Ok conn => mret (Ok conn)
  end.

(** [getStateWithConn] *)
Definition getStateWithConn (ctx : Context) (conn : nat) : Go W (DatabaseState * option error) :=
  r ← call (conn_Exec conn ctx reset_sql []);
  match r with
  | Some err =>
      mret ("", Some (Wrapf "failed to reset transaction read-only setting: %w" [] err))
  | None =>
      r ← call (conn_QueryRow conn ctx show_sql);
      match r with
      | Err err =>
          mret ("", Some (Wrapf "failed to query default_transaction_read_only: %w" [] err))
      | Ok value =>
          let v := TrimSpace (ToLower value) in
          if String.eqb v "on" then mret (DatabaseStateReadOnly, None)
          else if String.eqb v "off" then mret (DatabaseStateReadWrite, None)
          else mret ("", Some (Errorf "unexpected default_transaction_read_only value: %q"
                                 [AStr value]))
      end
  end.

(** A function that opens a connection and defers closing it. *)
Definition with_conn {A} (ctx : Context) (db : DBConfig) (failed : error -> A)
    (body : nat -> Go W A) : Go W A :=
  r ← connect ctx db;
  match r with
  | Err err => mret (failed err)
  | Ok conn =>
      a ← body conn;
      _ ← call (conn_Close conn ctx);
      mret a
  end.

Definition SetReadOnly (ctx : Context) (db : DBConfig) : Go W (option error) :=
  with_conn ctx db Some (fun conn =>
    r ← call (conn_Exec conn ctx (alter_sql (db_Database db) "on") []);
    match r with
    | Some err =>
        mret (Some (Wrapf "failed to set database %q to read-only: %w" [AStr (db_Database db)] err))
    | None =>
        r ← call (conn_Exec conn ctx terminateSQL [Str (db_Database db)]);
        match r with
        | Some err =>
            mret (Some (Wrapf "failed to terminate active transactions on %q: %w"
                          [AStr (db_Database db)] err))
        | None =>
            '(state, err) ← getStateWithConn ctx conn;
            match err with
            | Some err =>
                mret (Some (Wrapf "failed to verify read-only state on %q: %w"
                              [AStr (db_Database db)] err))
            | None =>
                if negb (String.eqb state DatabaseStateReadOnly)
                then mret (Some (Errorf "database %q is not in read-only mode after SET (got %s)"
                                   [AStr (db_Database db); AStr state]))
                else mret None
            end
        end
    end).

Definition SetReadWrite (ctx : Context) (db : DBConfig) : Go W (option error) :=
  with_conn ctx db Some (fun conn =>
    r ← call (conn_Exec conn ctx (alter_sql (db_Database db) "off") []);
    match r with
    | Some err =>
        mret (Some (Wrapf "failed to set database %q to read-write: %w" [AStr (db_Database db)] err))
    | None =>
        '(state, err) ← getStateWithConn ctx conn;
        match err with
        | Some err =>
            mret (Some (Wrapf "failed to verify read-write state on %q: %w"
                          [AStr (db_Database db)] err))
        | None =>
            if negb (String.eqb state DatabaseStateReadWrite)
            then mret (Some (Errorf "database %q is not in read-write mode after SET (got %s)"
                               [AStr (db_Database db); AStr state]))
            else mret None
        end
    end).

Definition GetState (ctx : Context) (db : DBConfig) : Go W (DatabaseState * option error) :=
  with_conn ctx db (fun err => ("", Some err)) (getStateWithConn ctx).

Definition PGStateCoordinator : StateCoordinator W := {|
  coord_SetReadOnly := SetReadOnly;
  coord_SetReadWrite := SetReadWrite;
  coord_GetState := GetState;
|}.
End coordinator.
