(* ===== verification/CoordinatorSpec.v ===== *)
(** What the coordinator does to a PostgreSQL server.

    [PgServer] states the documented behaviour of PostgreSQL that matters here:
    the per-database default set by ALTER DATABASE is taken by the sessions
    started afterwards; RESET returns a session to the default it started with;
    and ALTER is refused in a session whose transactions are read-only. *)
From S2P Require Import Prelude GoErrors GoStrings Interfaces ConnString Sql Coordinator.

Definition on_off (v : bool) : string := if v then "on" else "off".

Class PgServer (W : Type) `{PgxConn W} : Type := {
  (** the default of the database a configuration leads to *)
  read_only : DBConfig -> W -> bool;
  (** a session: the connection string it was opened with, and the default it
      took when it started *)
  session_target : nat -> W -> option string;
  session_default : nat -> W -> bool;
  srv_connect ctx db w r w' :
    conn_Connect ctx (buildConnString db) w = (r, w') ->
    read_only db w' = read_only db w /\
    forall c, r = Ok c -> session_target c w' = Some (buildConnString db) /\
                          session_default c w' = read_only db w;
  srv_alter c ctx db v w r w' :
    session_target c w = Some (buildConnString db) ->
    conn_Exec c ctx (alter_sql (db_Database db) (on_off v)) [] w = (r, w') ->
    session_target c w' = session_target c w /\ session_default c w' = session_default c w /\
    match r with
    | None => session_default c w = false /\ read_only db w' = v
    | Some _ => read_only db w' = read_only db w
    end;
  srv_exec c ctx db sql args w r w' :
    sql = terminateSQL \/ sql = reset_sql ->
    conn_Exec c ctx sql args w = (r, w') ->
    session_target c w' = session_target c w /\ session_default c w' = session_default c w /\
    read_only db w' = read_only db w;
  srv_show c ctx db w r w' :
    conn_QueryRow c ctx show_sql w = (r, w') ->
    read_only db w' = read_only db w /\
    forall v, r = Ok v -> v = on_off (session_default c w);
  srv_close c ctx db w r w' :
    conn_Close c ctx w = (r, w') -> read_only db w' = read_only db w;
}.

Definition mode_of (v : bool) : DatabaseState :=
  if v then DatabaseStateReadOnly else DatabaseStateReadWrite.

Section server.
Context {W : Type} `{PgServer W}.

(** The state a session reports is the default it started with. *)
Lemma getStateWithConn_spec (ctx : Context) (db : DBConfig) (conn : nat) (w : W) :
  wp (getStateWithConn ctx conn) (fun '(s, err) w' =>
    read_only db w' = read_only db w /\
    (err = None -> s = mode_of (session_default conn w))) w.
Proof.
  unfold getStateWithConn. apply wp_bind, wp_call. intros [err|] w1 Hreset;
    destruct (srv_exec _ _ db _ _ _ _ _ (or_intror eq_refl) Hreset) as (_ & Hd & Hro).
  { by apply wp_ret. }
  apply wp_bind, wp_call. intros [v|err] w2 Hshow;
    destruct (srv_show _ _ db _ _ _ Hshow) as [Hro2 Hv].
  2:{ apply wp_ret. split; [congruence|done]. }
  rewrite (Hv v eq_refl), Hd.
  destruct (session_default conn w); apply wp_ret; split; done || congruence.
Qed.

(** A body run over a fresh session, whose default is the database's. *)
Lemma with_conn_spec {A} (ctx : Context) (db : DBConfig) (failed : error -> A)
    (body : nat -> Go W A) (Q : A -> bool -> Prop) (w : W) :
  (forall err, Q (failed err) (read_only db w)) ->
  (forall conn w1, session_target conn w1 = Some (buildConnString db) ->
     session_default conn w1 = read_only db w -> read_only db w1 = read_only db w ->
     wp (body conn) (fun a w2 => Q a (read_only db w2)) w1) ->
  wp (with_conn ctx db failed body) (fun a w' => Q a (read_only db w')) w.
Proof.
  intros Hfail Hbody. unfold with_conn, connect. apply wp_bind, wp_bind, wp_call.
  intros [conn|err] w1 Hc; destruct (srv_connect _ _ _ _ _ Hc) as [Hro Hs].
  2:{ apply wp_ret, wp_ret. by rewrite Hro. }
  destruct (Hs conn eq_refl) as [Ht Hd]. apply wp_ret, wp_bind.
  eapply wp_mono; [by apply Hbody|]. intros a w2 HQ.
  apply wp_bind, wp_call. intros r w3 Hclose. apply wp_ret.
  by rewrite (srv_close _ _ db _ _ _ Hclose).
Qed.

(** [SetReadOnly] never reports success: on a read-only database the ALTER is
    refused, and otherwise the session that verifies the change started before
    it and still answers off. *)
Lemma SetReadOnly_spec (ctx : Context) (db : DBConfig) (w : W) :
  wp (SetReadOnly ctx db) (fun r w' =>
    r <> None /\ (read_only db w' = true \/ read_only db w' = read_only db w)) w.
Proof.
  apply (with_conn_spec ctx db Some _ (fun r ro => r <> None /\
    (ro = true \/ ro = read_only db w))); [by split; [|right]|].
  intros conn w1 Ht Hd Hro. apply wp_bind, wp_call. intros [err|] w2 Halter;
    destruct (srv_alter _ _ _ true _ _ _ Ht Halter) as (Ht2 & Hd2 & Hr).
  { apply wp_ret. split; [done|]. right. congruence. }
  destruct Hr as [Hfalse Hro2].
  apply wp_bind, wp_call. intros [err|] w3 Hterm;
    destruct (srv_exec _ _ db _ _ _ _ _ (or_introl eq_refl) Hterm) as (_ & Hd3 & Hro3).
  { apply wp_ret. split; [done|]. left. congruence. }
  apply wp_bind. eapply wp_mono; [apply (getStateWithConn_spec ctx db)|].
  intros [s err] w4 [Hro4 Hs]. assert (read_only db w4 = true) as Hset by congruence.
  destruct err as [err|]; [apply wp_ret; by split; [|left]|].
  rewrite (Hs eq_refl), Hd3, Hd2, Hfalse. apply wp_ret. by split; [|left].
Qed.

(** [SetReadWrite] changes nothing: on a read-only database the ALTER is
    refused. *)
Lemma SetReadWrite_spec (ctx : Context) (db : DBConfig) (w : W) :
  wp (SetReadWrite ctx db) (fun r w' =>
    read_only db w' = read_only db w /\ (read_only db w = true -> r <> None)) w.
Proof.
  apply (with_conn_spec ctx db Some _ (fun r ro =>
    ro = read_only db w /\ (read_only db w = true -> r <> None))); [done|].
  intros conn w1 Ht Hd Hro. apply wp_bind, wp_call. intros [err|] w2 Halter;
    destruct (srv_alter _ _ _ false _ _ _ Ht Halter) as (Ht2 & Hd2 & Hr).
  { apply wp_ret. split; [congruence|done]. }
  destruct Hr as [Hfalse Hro2].
  apply wp_bind. eapply wp_mono; [apply (getStateWithConn_spec ctx db)|].
  intros [s err] w4 [Hro4 Hs].
  assert (read_only db w4 = read_only db w) as Hset by congruence.
  assert (read_only db w = false) as Hw by congruence.
  destruct err as [err|]; [by apply wp_ret|].
  destruct (negb _); apply wp_ret; (split; [done|]); congruence.
Qed.

Lemma GetState_spec (ctx : Context) (db : DBConfig) (w : W) :
  wp (GetState ctx db) (fun '(s, err) w' =>
    read_only db w' = read_only db w /\ (err = None -> s = mode_of (read_only db w))) w.
Proof.
  eapply wp_mono.
  - apply (with_conn_spec ctx db _ _ (fun a ro => ro = read_only db w /\
      (a.2 = None -> a.1 = mode_of (read_only db w)))); [done|].
    intros conn w1 Ht Hd Hro. eapply wp_mono; [apply (getStateWithConn_spec ctx db)|].
    intros [s err] w2 [Hro2 Hs]. split; [congruence|]. simpl. by rewrite <- Hd.
  - by intros [s err] w'.
Qed.

(** The coordinator keeps the contract the failover manager relies on. *)
#[local] Existing Instance PGStateCoordinator.
Definition server_modes : DatabaseModes W := {| mode db w := mode_of (read_only db w) |}.
#[local] Existing Instance server_modes.

Lemma PGStateCoordinator_faithful : FaithfulCoordinator W.
Proof.
  split; intros ctx db w; simpl.
  - eapply wp_mono; [apply SetReadOnly_spec|]. intros r w' [Hr [->| ->]]; [by left|by right].
  - eapply wp_mono; [apply SetReadWrite_spec|]. intros r w' [-> Hr].
    destruct (read_only db w); [right; auto|by left].
  - eapply wp_mono; [apply GetState_spec|]. intros [s err] w' [-> Hs]. done.
Qed.
End server.
