(* ===== verification/Failover.v ===== *)
(** internal/failover/failover.go: the failover manager.

    The manager is a record passed along explicitly; the lock, the coordinator,
    the publisher and the clock are the classes of Interfaces.v.  Only the
    goroutine of [Run] writes the fields; the mutex makes the reads of
    [ActiveNode] and [LastFailoverTime] consistent. *)
From S2P Require Import Prelude GoErrors GoTime Interfaces Config State Metrics.

Record Manager : Type := mkManager {
  fm_cfg : Config;
  fm_nodeID : string;
  fm_activeNode : NodeType;
  fm_lockHeld : bool;
  fm_lastFailover : Time;
  fm_metrics : option Metrics;
}.

Definition set_active (n : NodeType) (fm : Manager) : Manager :=
  mkManager (fm_cfg fm) (fm_nodeID fm) n (fm_lockHeld fm) (fm_lastFailover fm) (fm_metrics fm).
Definition set_lastFailover (t : Time) (fm : Manager) : Manager :=
  mkManager (fm_cfg fm) (fm_nodeID fm) (fm_activeNode fm) (fm_lockHeld fm) t (fm_metrics fm).
Definition set_lockHeld (b : bool) (fm : Manager) : Manager :=
  mkManager (fm_cfg fm) (fm_nodeID fm) (fm_activeNode fm) b (fm_lastFailover fm) (fm_metrics fm).
Definition fm_add_metrics (ops : Metrics) (fm : Manager) : Manager :=
  mkManager (fm_cfg fm) (fm_nodeID fm) (fm_activeNode fm) (fm_lockHeld fm) (fm_lastFailover fm)
    (metric_calls ops (fm_metrics fm)).

Definition NewManager (cfg : Config) (m : option Metrics) (nodeID : string) : Manager :=
  {| fm_cfg := cfg; fm_nodeID := nodeID; fm_activeNode := NodeLocal; fm_lockHeld := false;
     fm_lastFailover := zero_time; fm_metrics := m |}.

Definition toDBConfig (db : DatabaseConfig) : DBConfig :=
  {| db_Host := Host db; db_Port := Port db; db_Database := Database db; db_User := User db;
     db_Password := Password db; db_SSLMode := SSLMode db;
     db_SSLRootCertPath := SSLRootCertPath db; db_ReplicationSlot := ReplicationSlot db |}.

Definition localDB (fm : Manager) : DBConfig := toDBConfig (LocalDatabase (fm_cfg fm)).
Definition lockKey (fm : Manager) : string := LockKey (DistributedLock_ (fm_cfg fm)).

Definition ActiveNode (fm : Manager) : NodeType := fm_activeNode fm.
Definition LastFailoverTime (fm : Manager) : Time := fm_lastFailover fm.

Section manager.
Context {W : Type}
  `{Runtime W, DistributedLock W, StateCoordinator W, ReplicationPublisher W}.

(** The arguments [holder] and [previousNode] of the handlers are only logged. *)
Definition handleCloudActive (ctx : Context) (fm : Manager) : Go W Manager :=
  if String.eqb (fm_activeNode fm) NodeCloud then mret fm else
  let fm := set_active NodeCloud fm in
  now ← call rt_now;
  let fm := set_lastFailover now fm in
  let fm := fm_add_metrics [MSet M_ActiveNode (Count 1); MInc M_FailoverEvents] fm in
  _ ← coord_SetReadOnly ctx (localDB fm);
  mret fm.

Definition recoverLocal (ctx : Context) (fm : Manager) : Go W Manager :=
  _ ← pub_HealthCheck ctx;
  r ← coord_SetReadWrite ctx (localDB fm);
  match r with
  | Some _ => mret fm
  | None =>
      r ← lock_Release ctx (lockKey fm);
      match r with
      | Some _ => mret fm
      | None => mret (fm_add_metrics [MSet M_LockHeld (Count 0)] (set_lockHeld false fm))
      end
  end.

Definition handleLocalActive (ctx : Context) (fm : Manager) : Go W Manager :=
  if String.eqb (fm_activeNode fm) NodeLocal then mret fm else
  let fm := set_active NodeLocal fm in
  let fm := fm_add_metrics [MSet M_ActiveNode (Count 0)] fm in
  recoverLocal ctx fm.

Definition detectSplitBrain (ctx : Context) (lockHolder : string) (fm : Manager)
    : Go W Manager :=
  if String.eqb lockHolder "" then mret fm else
  '(localState, err) ← coord_GetState ctx (localDB fm);
  match err with
  | Some _ => mret fm
  | None =>
      if negb (String.eqb lockHolder (fm_nodeID fm)) &&
         String.eqb localState DatabaseStateReadWrite
      then
        (* the time of detection is logged *)
        _ ← call rt_now;
        let fm := fm_add_metrics [MInc M_SplitBrainEvents] fm in
        _ ← coord_SetReadOnly ctx (localDB fm);
        mret fm
      else mret fm
  end.

Definition check (ctx : Context) (fm : Manager) : Go W Manager :=
  '(holder, err) ← lock_GetHolder ctx (lockKey fm);
  match err with
  | Some _ => mret fm
  | None =>
      fm ← (if negb (String.eqb holder "") && negb (String.eqb holder (fm_nodeID fm))
            then handleCloudActive ctx fm
            else if String.eqb holder (fm_nodeID fm) || String.eqb holder ""
            then handleLocalActive ctx fm
            else mret fm);
      detectSplitBrain ctx holder fm
  end.

(** The period of the ticker of [Run]. *)
Definition checkInterval (fm : Manager) : Duration :=
  let d := CheckInterval (Health (fm_cfg fm)) in
  if (d <=? 0)%Z then (10 * Second)%Z else d.

(** The loop of [Run] over [n] ticks; then the context is done. *)
Fixpoint Run (n : nat) (ctx : Context) (fm : Manager) : Go W Manager :=
  match n with
  | O => mret fm
  | S n => fm ← check ctx fm; Run n ctx fm
  end.
End manager.
