(* ===== verification/FailoverSpec.v ===== *)
(** What one check of the failover manager amounts to, for every environment
    that answers: the calls it makes and how it changes the manager. *)
From S2P Require Import Prelude GoErrors GoTime Interfaces Config State Metrics Trace Failover.

(** * The outcome of a check *)

Definition cloud_active (now : Time) (fm : Manager) : Manager :=
  fm_add_metrics [MSet M_ActiveNode (Count 1); MInc M_FailoverEvents]
    (set_lastFailover now (set_active NodeCloud fm)).
Definition local_active (fm : Manager) : Manager :=
  fm_add_metrics [MSet M_ActiveNode (Count 0)] (set_active NodeLocal fm).
Definition released (fm : Manager) : Manager :=
  fm_add_metrics [MSet M_LockHeld (Count 0)] (set_lockHeld false fm).
Definition split_detected (fm : Manager) : Manager :=
  fm_add_metrics [MInc M_SplitBrainEvents] fm.

(** Another node holds the lock. *)
Definition other_holds (fm : Manager) (holder : string) : bool :=
  negb (String.eqb holder "") && negb (String.eqb holder (fm_nodeID fm)).

Inductive handled (fm : Manager) : bool -> Manager -> list call_event -> Prop :=
  | CloudAlready : fm_activeNode fm = NodeCloud -> handled fm true fm []
  | CloudNow now r : fm_activeNode fm <> NodeCloud ->
      handled fm true (cloud_active now fm) [CallSetReadOnly (localDB fm) r]
  | LocalAlready : fm_activeNode fm = NodeLocal -> handled fm false fm []
  | LocalFailed h err : fm_activeNode fm <> NodeLocal ->
      handled fm false (local_active fm)
        [CallHealthCheck h; CallSetReadWrite (localDB fm) (Some err)]
  | LocalNow h rel : fm_activeNode fm <> NodeLocal ->
      handled fm false
        (match rel with None => released (local_active fm) | Some _ => local_active fm end)
        [CallHealthCheck h; CallSetReadWrite (localDB fm) None; CallRelease (lockKey fm) rel].

Inductive split_checked (fm : Manager) (holder : string) : Manager -> list call_event -> Prop :=
  | NoHolder : holder = "" -> split_checked fm holder fm []
  | NoSplit s err : holder <> "" ->
      (err <> None \/ holder = fm_nodeID fm \/ s <> DatabaseStateReadWrite) ->
      split_checked fm holder fm [CallGetState (localDB fm) (s, err)]
  | Split r : holder <> "" -> holder <> fm_nodeID fm ->
      split_checked fm holder (split_detected fm)
        [CallGetState (localDB fm) (DatabaseStateReadWrite, None); CallSetReadOnly (localDB fm) r].

Inductive check_outcome (fm : Manager) : Manager -> list call_event -> Prop :=
  | HolderUnknown holder err :
      check_outcome fm fm [CallGetHolder (lockKey fm) (holder, Some err)]
  | HolderKnown holder fm1 calls1 fm2 calls2 :
      handled fm (other_holds fm holder) fm1 calls1 ->
      split_checked fm1 holder fm2 calls2 ->
      check_outcome fm fm2 (CallGetHolder (lockKey fm) (holder, None) :: calls1 ++ calls2).

(** A sequence of checks. *)
Inductive checks (fm : Manager) : nat -> Manager -> list call_event -> Prop :=
  | ChecksNil : checks fm 0 fm []
  | ChecksCons n fm1 calls1 fm2 calls2 :
      check_outcome fm fm1 calls1 -> checks fm1 n fm2 calls2 ->
      checks fm (S n) fm2 (calls1 ++ calls2).

(** The local database is a matter of configuration. *)
Lemma handled_localDB (fm : Manager) (b : bool) (fm' : Manager) (calls : list call_event) :
  handled fm b fm' calls -> localDB fm' = localDB fm.
Proof. by destruct 1 as [| | | |? []]. Qed.

Lemma check_localDB (fm fm' : Manager) (calls : list call_event) :
  check_outcome fm fm' calls -> localDB fm' = localDB fm.
Proof.
  intros [|holder fm1 calls1 fm2 calls2 Hh Hs]; [done|].
  rewrite <- (handled_localDB _ _ _ _ Hh). by destruct Hs.
Qed.

(** * Every check has one of these outcomes *)

(** The methods the manager calls, on its local database [db], return and keep
    [Inv]. *)
Class ManagerResponds (W : Type) (db : DBConfig) (Inv : list call_event -> W -> Prop)
  `{Runtime W, DistributedLock W, StateCoordinator W, ReplicationPublisher W} : Prop := {
  mgr_now calls w : Inv calls w -> Inv calls (rt_now w).2;
  mgr_GetHolder ctx key calls w : Inv calls w ->
    wp (lock_GetHolder (W := W) ctx key) (fun r => Inv (calls ++ [CallGetHolder key r])) w;
  mgr_Release ctx key calls w : Inv calls w ->
    wp (lock_Release (W := W) ctx key) (fun r => Inv (calls ++ [CallRelease key r])) w;
  mgr_SetReadOnly ctx calls w : Inv calls w ->
    wp (coord_SetReadOnly (W := W) ctx db) (fun r => Inv (calls ++ [CallSetReadOnly db r])) w;
  mgr_SetReadWrite ctx calls w : Inv calls w ->
    wp (coord_SetReadWrite (W := W) ctx db) (fun r => Inv (calls ++ [CallSetReadWrite db r])) w;
  mgr_GetState ctx calls w : Inv calls w ->
    wp (coord_GetState (W := W) ctx db) (fun r => Inv (calls ++ [CallGetState db r])) w;
  mgr_HealthCheck ctx calls w : Inv calls w ->
    wp (pub_HealthCheck (W := W) ctx) (fun r => Inv (calls ++ [CallHealthCheck r])) w;
}.

Section manager.
Context {W : Type} (db : DBConfig) (Inv : list call_event -> W -> Prop).
Context `{ManagerResponds W db Inv}.

Definition after {A} (w0 : traced W) (P : A -> list call_event -> Prop) (a : A)
    (w : traced W) : Prop :=
  holds Inv w /\ exists calls, trace w = trace w0 ++ calls /\ P a calls.

(** One recorded call at the head of a computation. *)
Lemma wp_recorded {A B} (m : Go W A) (f : A -> call_event) (k : A -> Go (traced W) B)
    (P : B -> list call_event -> Prop) (w : traced W) :
  wp m (fun a => Inv (trace w ++ [f a])) (inner w) ->
  (forall a w', holds Inv w' -> wp (k a) (after w' (fun b calls => P b (f a :: calls))) w') ->
  wp (recording m f ≫= k) (after w P) w.
Proof.
  intros Hm Hk. apply wp_bind. eapply wp_recording; [exact Hm|]. intros a w' HI Htr.
  eapply wp_mono; [by apply Hk|]. intros b w2 (HI2 & calls & Htr2 & HP). split; [done|].
  exists (f a :: calls). split; [|done]. by rewrite Htr2, Htr, <- app_assoc.
Qed.

Lemma wp_after_ret {B} (b : B) (P : B -> list call_event -> Prop) (w : traced W) :
  holds Inv w -> P b [] -> wp (mret b) (after w P) w.
Proof. intros HI HP. apply wp_ret. split; [done|]. exists []. by rewrite app_nil_r. Qed.

Lemma wp_after_now {B} (k : Time -> Go (traced W) B) (P : B -> list call_event -> Prop)
    (w : traced W) :
  holds Inv w -> (forall t w', holds Inv w' -> wp (k t) (after w' P) w') ->
  wp (call rt_now ≫= k) (after w P) w.
Proof.
  intros HI Hk. apply wp_bind, wp_call. intros t w' Hnow. simpl in Hnow.
  pose proof (mgr_now _ _ HI) as HI'. destruct (rt_now (inner w)) as [t' w''].
  injection Hnow as <- <-.
  eapply wp_mono; [by apply Hk|]. intros b w2 (HI2 & calls & Htr2 & HP). split; [done|].
  by exists calls.
Qed.

(** Running one computation after another. *)
Lemma wp_after_bind {A B} (m : Go (traced W) A) (k : A -> Go (traced W) B)
    (P : A -> list call_event -> Prop) (Q : B -> list call_event -> Prop) (w : traced W) :
  wp m (after w P) w ->
  (forall a calls w', holds Inv w' -> P a calls ->
     wp (k a) (after w' (fun b calls' => Q b (calls ++ calls'))) w') ->
  wp (m ≫= k) (after w Q) w.
Proof.
  intros Hm Hk. apply wp_bind. eapply wp_mono; [exact Hm|].
  intros a w1 (HI1 & calls1 & Htr1 & HP). eapply wp_mono; [by apply Hk|].
  intros b w2 (HI2 & calls2 & Htr2 & HQ). split; [done|]. exists (calls1 ++ calls2).
  split; [by rewrite Htr2, Htr1, app_assoc|done].
Qed.

(** A call of the coordinator on the local database. *)
Ltac local_call law :=
  let Hlaw := fresh in
  match goal with
  | Hdb : localDB _ = db, HI : holds Inv ?w |- wp _ _ (inner ?w) =>
      pose proof (fun ctx => law ctx _ _ HI) as Hlaw; rewrite <- Hdb in Hlaw; exact (Hlaw _)
  end.

Lemma wp_handleCloudActive (ctx : Context) (fm : Manager) (w : traced W) :
  localDB fm = db -> holds Inv w -> wp (handleCloudActive ctx fm) (after w (handled fm true)) w.
Proof.
  intros Hdb HI. unfold handleCloudActive.
  destruct (String.eqb_spec (fm_activeNode fm) NodeCloud) as [Ha|Ha].
  { apply wp_after_ret; [done|]. by constructor. }
  apply wp_after_now; [done|]. intros now w1 HI1.
  apply wp_recorded; [local_call mgr_SetReadOnly|]. intros r w2 HI2.
  apply wp_after_ret; [done|]. exact (CloudNow fm now r Ha).
Qed.

Lemma wp_handleLocalActive (ctx : Context) (fm : Manager) (w : traced W) :
  localDB fm = db -> holds Inv w -> wp (handleLocalActive ctx fm) (after w (handled fm false)) w.
Proof.
  intros Hdb HI. unfold handleLocalActive, recoverLocal.
  destruct (String.eqb_spec (fm_activeNode fm) NodeLocal) as [Ha|Ha].
  { apply wp_after_ret; [done|]. by constructor. }
  apply wp_recorded; [by apply mgr_HealthCheck|]. intros h w1 HI1.
  apply wp_recorded; [local_call mgr_SetReadWrite|]. intros [err|] w2 HI2.
  { apply wp_after_ret; [done|]. exact (LocalFailed fm h err Ha). }
  apply wp_recorded; [by apply mgr_Release|]. intros rel w3 HI3.
  pose proof (LocalNow fm h rel Ha) as Hnow.
  destruct rel; apply wp_after_ret; done.
Qed.

Lemma wp_detectSplitBrain (ctx : Context) (holder : string) (fm : Manager) (w : traced W) :
  localDB fm = db -> holds Inv w ->
  wp (detectSplitBrain ctx holder fm) (after w (split_checked fm holder)) w.
Proof.
  intros Hdb HI. unfold detectSplitBrain. destruct (String.eqb_spec holder "") as [Hh|Hh].
  { apply wp_after_ret; [done|]. by constructor. }
  apply wp_recorded; [local_call mgr_GetState|]. intros [s [err|]] w1 HI1.
  { apply wp_after_ret; [done|]. apply NoSplit; [done|by left]. }
  destruct (String.eqb_spec holder (fm_nodeID fm)) as [Hn|Hn]; simpl.
  { apply wp_after_ret; [done|]. apply NoSplit; auto. }
  destruct (String.eqb_spec s DatabaseStateReadWrite) as [->|Hs].
  2:{ apply wp_after_ret; [done|]. apply NoSplit; auto. }
  apply wp_after_now; [done|]. intros now w2 HI2.
  apply wp_recorded; [local_call mgr_SetReadOnly|]. intros r w3 HI3.
  apply wp_after_ret; [done|]. exact (Split fm holder r Hh Hn).
Qed.

Lemma wp_check (ctx : Context) (fm : Manager) (w : traced W) :
  localDB fm = db -> holds Inv w -> wp (check ctx fm) (after w (check_outcome fm)) w.
Proof.
  intros Hdb HI. unfold check. apply wp_recorded; [by apply mgr_GetHolder|].
  intros [holder [err|]] w1 HI1; [apply wp_after_ret; [done|constructor]|].
  eapply (wp_after_bind _ _ (handled fm (other_holds fm holder))).
  - fold (other_holds fm holder). destruct (other_holds fm holder) eqn:Ho.
    + by apply wp_handleCloudActive.
    + unfold other_holds in Ho. rewrite <- negb_orb, negb_false_iff, orb_comm in Ho.
      rewrite Ho. by apply wp_handleLocalActive.
  - intros fm1 calls1 w2 HI2 Hh. eapply wp_mono;
      [apply wp_detectSplitBrain; [by rewrite (handled_localDB _ _ _ _ Hh)|done]|].
    intros fm2 w3 (HI3 & calls2 & Htr & Hs). split; [done|]. exists calls2.
    split; [done|]. by eapply HolderKnown.
Qed.

Lemma wp_Run (n : nat) (ctx : Context) (fm : Manager) (w : traced W) :
  localDB fm = db -> holds Inv w -> wp (Run n ctx fm) (after w (checks fm n)) w.
Proof.
  revert fm w. induction n as [|n IH]; intros fm w Hdb HI; simpl.
  { apply wp_after_ret; [done|constructor]. }
  eapply wp_after_bind; [by apply wp_check|]. intros fm1 calls1 w1 HI1 Hc.
  eapply wp_mono; [apply IH; [by rewrite (check_localDB _ _ _ Hc)|done]|]. intros fm2 w2 (HI2 & calls2 & Htr & Hs).
  split; [done|]. exists calls2. split; [done|]. by eapply ChecksCons.
Qed.
End manager.
