(* ===== verification/ExampleServer.v ===== *)
(** A small concrete PostgreSQL server, with sessions, and a lock service that
    answers from a script: the properties of the coordinator and of the failover
    manager are instantiated on it. *)
From S2P Require Import Prelude GoErrors GoTime GoStrings Interfaces ConnString Sql Trace.
From S2P Require Import Coordinator CoordinatorSpec Failover FailoverSpec.
From Stdlib Require Import Ascii.

Record server : Type := mkServer {
  defaults : gmap string bool;             (** by connection string: on? *)
  sessions : gmap nat (string * bool);     (** target and default at start *)
  holders : list (string * option error);  (** the next answers about the lock *)
}.

Definition default_of (s : string) (w : server) : bool := default false (defaults w !! s).

Fixpoint last_char (s : string) (d : ascii) : ascii :=
  match s with EmptyString => d | String c s => last_char s c end.

Lemma last_char_app (s t : string) (d : ascii) :
  last_char (s +:+ t) d = last_char t (last_char s d).
Proof. revert d. induction s as [|c s IH]; intros d; [done|]. rewrite str_app_cons. apply IH. Qed.

Definition exec_on (c : nat) (sql : string) (w : server) : option error * server :=
  match (sessions w !! c : option (string * bool)) with
  | None => (Some (ErrorsNew "conn closed"), w)
  | Some (s, d) =>
      match strip_prefix "ALTER DATABASE " sql with
      | None => (None, w)
      | Some _ =>
          if d then (Some (Lib (PgError "25006")), w)
          else (None, mkServer (<[s := Ascii.eqb (last_char sql "x") "n"]> (defaults w))
                        (sessions w) (holders w))
      end
  end.

#[export] Instance server_conn : PgxConn server := {|
  conn_Connect ctx s w :=
    let c := fresh (dom (sessions w)) in
    (Ok c, mkServer (defaults w) (<[c := (s, default_of s w)]> (sessions w)) (holders w));
  conn_Exec c ctx sql args w := exec_on c sql w;
  conn_QueryRow c ctx sql w :=
    match (sessions w !! c : option (string * bool)) with
    | None => (Err (ErrorsNew "conn closed"), w)
    | Some (_, d) => (Ok (on_off d), w)
    end;
  conn_Close c ctx w := (None, mkServer (defaults w) (delete c (sessions w)) (holders w));
|}.

Lemma exec_on_alter (c : nat) (db : DBConfig) (v : bool) (w : server) :
  sessions w !! c = Some (buildConnString db, false) ->
  exec_on c (alter_sql (db_Database db) (on_off v)) w =
    (None, mkServer (<[buildConnString db := v]> (defaults w)) (sessions w) (holders w)).
Proof.
  intros Hs. unfold exec_on. rewrite Hs. unfold alter_sql.
  change (strip_prefix "ALTER DATABASE " ("ALTER DATABASE " +:+ ?t)) with (Some t). cbv iota beta.
  rewrite !last_char_app. by destruct v.
Qed.

#[export] Program Instance server_laws : PgServer server := {|
  read_only db w := default_of (buildConnString db) w;
  session_target c w := fst <$> sessions w !! c;
  session_default c w := default false (snd <$> sessions w !! c);
|}.
Next Obligation.
  intros ctx db w r w' [= <- <-]. split; [done|]. intros c [= <-]. simpl.
  by rewrite lookup_insert_eq.
Qed.
Next Obligation.
  intros c ctx db v w r w' Ht He. simpl in *.
  destruct (sessions w !! c) as [[s d]|] eqn:Hs; simpl in *; [|done]. injection Ht as ->.
  destruct d.
  - unfold exec_on in He. rewrite Hs in He.
    change (strip_prefix "ALTER DATABASE " (alter_sql ?a ?b)) with
      (Some (quoteIdentifier a +:+ " SET default_transaction_read_only = " +:+ b)) in He.
    injection He as <- <-. by rewrite Hs.
  - rewrite (exec_on_alter c db v w Hs) in He. injection He as <- <-. simpl. rewrite Hs.
    repeat split. unfold default_of. simpl. by rewrite lookup_insert_eq.
Qed.
Next Obligation.
  intros c ctx db sql args w r w' Hsql He. simpl in *. unfold exec_on in He.
  destruct (sessions w !! c) as [[s d]|] eqn:Hs; simpl in *.
  - destruct Hsql as [->| ->]; simpl in He; injection He as <- <-; by rewrite Hs.
  - injection He as <- <-. by rewrite Hs.
Qed.
Next Obligation.
  intros c ctx db w r w' He. simpl in *.
  destruct (sessions w !! c) as [[s d]|] eqn:Hs; injection He as <- <-; simpl.
  - split; [done|]. by intros v [= <-].
  - done.
Qed.
Next Obligation. by intros c ctx db w r w' [= _ <-]. Qed.

#[export] Instance server_runtime : Runtime server := {|
  rt_now w := (zero_time, w);
  rt_wait ctx d w := (None, w);
|}.

#[export] Instance server_lock : DistributedLock server := {|
  lock_Acquire ctx key ttl := mret (false, None);
  lock_Renew ctx key ttl := mret None;
  lock_Release ctx key := mret None;
  lock_GetHolder ctx key := call (fun w =>
    (default ("", None) (head (holders w)), mkServer (defaults w) (sessions w) (tail (holders w))));
|}.

#[export] Instance server_publisher : ReplicationPublisher server := {|
  pub_Publish ctx evs := mret None;
  pub_HealthCheck ctx := mret None;
|}.
