(* ===== verification/FailoverProps.v ===== *)
(** The properties of the failover manager and of the coordinator. *)
From S2P Require Import Prelude GoErrors GoTime GoStrings Interfaces ConnString Sql Config.
From S2P Require Import State Metrics Trace Coordinator CoordinatorSpec Failover FailoverSpec.
From S2P Require Import ExampleWorld ExampleServer.

(** * The abstract manager

    It follows the holder of the lock: another node's lock means the cloud is
    active, anything else that the local node is; a lock that cannot be read
    changes nothing. *)

Definition observe (node : string) (active : NodeType) (r : string * option error) : NodeType :=
  match r with
  | (_, Some _) => active
  | (holder, None) =>
      if negb (String.eqb holder "") && negb (String.eqb holder node) then NodeCloud else NodeLocal
  end.

(** How many times the active node becomes [to], along a list of observations. *)
Fixpoint switches (to : NodeType) (node : string) (active : NodeType)
    (obs : list (string * option error)) : nat :=
  match obs with
  | [] => 0
  | r :: obs =>
      let active' := observe node active r in
      (if decide (active <> to /\ active' = to) then 1 else 0) + switches to node active' obs
  end.

Definition observed (c : call_event) : option (string * option error) :=
  match c with CallGetHolder _ r => Some r | _ => None end.
Definition observations (calls : list call_event) : list (string * option error) :=
  omap observed calls.

Definition is_SetReadWrite (c : call_event) : bool :=
  match c with CallSetReadWrite _ _ => true | _ => false end.
Definition promotions (calls : list call_event) : nat :=
  length (filter is_SetReadWrite calls).

Lemma observations_app (l k : list call_event) :
  observations (l ++ k) = observations l ++ observations k.
Proof. apply omap_app. Qed.

Lemma promotions_app (l k : list call_event) : promotions (l ++ k) = promotions l + promotions k.
Proof. unfold promotions. by rewrite filter_app, length_app. Qed.

Definition is_node (n : NodeType) : Prop := n = NodeLocal \/ n = NodeCloud.

(** The part of the manager the abstract one is about. *)
Record tracks (fm fm' : Manager) (obs : list (string * option error)) (promoted : nat) : Prop := {
  tracks_id : fm_nodeID fm' = fm_nodeID fm;
  tracks_cfg : fm_cfg fm' = fm_cfg fm;
  tracks_active : fm_activeNode fm' = foldl (observe (fm_nodeID fm)) (fm_activeNode fm) obs;
  tracks_node : is_node (fm_activeNode fm');
  tracks_promoted : promoted = switches NodeLocal (fm_nodeID fm) (fm_activeNode fm) obs;
  tracks_metrics : forall ops, fm_metrics fm = Some ops -> exists more,
    fm_metrics fm' = Some (ops ++ more) /\
    counter_value M_FailoverEvents more =
      Z.of_nat (switches NodeCloud (fm_nodeID fm) (fm_activeNode fm) obs);
}.

Lemma switches_app (to : NodeType) (node : string) (active : NodeType)
    (obs obs' : list (string * option error)) :
  switches to node active (obs ++ obs') =
  switches to node active obs + switches to node (foldl (observe node) active obs) obs'.
Proof.
  revert active. induction obs as [|r obs IH]; intros active; simpl; [done|]. rewrite IH. lia.
Qed.

Lemma tracks_trans (fm1 fm2 fm3 : Manager) (obs1 obs2 : list (string * option error))
    (p1 p2 : nat) :
  tracks fm1 fm2 obs1 p1 -> tracks fm2 fm3 obs2 p2 -> tracks fm1 fm3 (obs1 ++ obs2) (p1 + p2).
Proof.
  intros [Hid1 Hcfg1 Ha1 Hn1 Hp1 Hm1] [Hid2 Hcfg2 Ha2 Hn2 Hp2 Hm2].
  rewrite Hid1 in *. rewrite Ha1 in *.
  split; try congruence; [by rewrite foldl_app|rewrite switches_app; congruence|].
  intros ops Hops. destruct (Hm1 ops Hops) as (more1 & Hops1 & Hc1).
  destruct (Hm2 _ Hops1) as (more2 & Hops2 & Hc2). exists (more1 ++ more2).
  rewrite Hops2, <- app_assoc, counter_value_app, Hc1, Hc2, switches_app. split; [done|lia].
Qed.

(** One observation: the manager moves to where the lock says. *)
Lemma tracks_move (fm fm' : Manager) (r : string * option error) (promoted : nat)
    (ops' : Metrics) :
  let active := fm_activeNode fm in
  let active' := observe (fm_nodeID fm) active r in
  fm_nodeID fm' = fm_nodeID fm -> fm_cfg fm' = fm_cfg fm -> fm_activeNode fm' = active' ->
  is_node active -> fm_metrics fm' = metric_calls ops' (fm_metrics fm) ->
  promoted = (if decide (active <> NodeLocal /\ active' = NodeLocal) then 1 else 0) ->
  counter_value M_FailoverEvents ops' =
    (if decide (active <> NodeCloud /\ active' = NodeCloud) then 1 else 0)%Z ->
  tracks fm fm' [r] promoted.
Proof.
  intros active active' Hid Hcfg Ha Hn Hm Hp Hc. subst active active'. split; try done.
  - rewrite Ha. destruct r as [holder [err|]]; simpl; [done|].
    destruct (_ && _); [by right|by left].
  - rewrite Hp. simpl. rewrite Nat.add_0_r. done.
  - intros ops Hops. exists ops'. rewrite Hm, Hops. split; [done|]. rewrite Hc. simpl.
    rewrite Nat.add_0_r. by repeat case_decide.
Qed.

Lemma handled_tracks (fm fm' : Manager) (holder : string) (calls : list call_event) :
  is_node (fm_activeNode fm) -> handled fm (other_holds fm holder) fm' calls ->
  tracks fm fm' [(holder, None)] (promotions calls) /\ observations calls = [].
Proof.
  intros Hn Hh. remember (other_holds fm holder) as o eqn:Ho.
  assert (Hobs : observe (fm_nodeID fm) (fm_activeNode fm) (holder, None) =
    if o then NodeCloud else NodeLocal) by (subst o; done).
  split; [|by destruct Hh].
  destruct Hh as [Ha|now r Ha|Ha|h err Ha|h rel Ha].
  - apply (tracks_move _ _ _ _ []); rewrite ?Hobs, ?Ha, ?metric_calls_nil; by try right.
  - apply (tracks_move _ _ _ _ [MSet M_ActiveNode (Count 1); MInc M_FailoverEvents]);
      rewrite ?Hobs; try done; destruct Hn as [Hn|Hn]; rewrite ?Hn in *; done.
  - apply (tracks_move _ _ _ _ []); rewrite ?Hobs, ?Ha, ?metric_calls_nil; by try left.
  - apply (tracks_move _ _ _ _ [MSet M_ActiveNode (Count 0)]);
      rewrite ?Hobs; try done; destruct Hn as [Hn|Hn]; rewrite ?Hn in *; done.
  - apply (tracks_move _ _ _ _ (MSet M_ActiveNode (Count 0) ::
      match rel with None => [MSet M_LockHeld (Count 0)] | Some _ => [] end));
      rewrite ?Hobs; try done; destruct rel; try done; simpl; rewrite ?metric_calls_app; try done;
      destruct Hn as [Hn|Hn]; rewrite ?Hn in *; done.
Qed.

Lemma split_checked_tracks (fm fm' : Manager) (holder : string) (calls : list call_event) :
  is_node (fm_activeNode fm) -> split_checked fm holder fm' calls ->
  tracks fm fm' [] (promotions calls) /\ observations calls = [].
Proof.
  intros Hn Hs. split; [|by destruct Hs].
  destruct Hs; split; try done; intros ops Hops.
  - exists []. by rewrite app_nil_r.
  - exists []. by rewrite app_nil_r.
  - exists [MInc M_SplitBrainEvents]. simpl. by rewrite Hops.
Qed.

Lemma check_tracks (fm fm' : Manager) (calls : list call_event) :
  is_node (fm_activeNode fm) -> check_outcome fm fm' calls ->
  tracks fm fm' (observations calls) (promotions calls) /\ length (observations calls) = 1.
Proof.
  intros Hn [holder err|holder fm1 calls1 fm2 calls2 Hh Hs].
  - split; [|done]. apply (tracks_move _ _ _ _ []); try done.
    + by rewrite metric_calls_nil.
    + simpl. by rewrite decide_False by (intros [? ?]; congruence).
    + simpl. by rewrite decide_False by (intros [? ?]; congruence).
  - destruct (handled_tracks _ _ _ _ Hn Hh) as [Ht1 Ho1].
    destruct (split_checked_tracks _ _ _ _ (tracks_node _ _ _ _ Ht1) Hs) as [Ht2 Ho2].
    change (observations (?c :: calls1 ++ calls2)) with
      ((holder, None) :: observations (calls1 ++ calls2)).
    rewrite observations_app, Ho1, Ho2. split; [|done].
    change (promotions (?c :: calls1 ++ calls2)) with (promotions (calls1 ++ calls2)).
    rewrite promotions_app. exact (tracks_trans _ _ _ _ _ _ _ Ht1 Ht2).
Qed.

Lemma checks_track (fm : Manager) (n : nat) (fm' : Manager) (calls : list call_event) :
  is_node (fm_activeNode fm) -> checks fm n fm' calls ->
  tracks fm fm' (observations calls) (promotions calls) /\ length (observations calls) = n.
Proof.
  intros Hn Hc. revert Hn. induction Hc as [fm|fm n fm1 calls1 fm2 calls2 Hc _ IH]; intros Hn.
  - split; [|done]. split; try done. intros ops Hops. exists []. by rewrite app_nil_r.
  - destruct (check_tracks _ _ _ Hn Hc) as [Ht1 Hl1].
    destruct (IH (tracks_node _ _ _ _ Ht1)) as [Ht2 Hl2].
    rewrite observations_app, promotions_app, length_app, Hl1, Hl2. split; [|done].
    by eapply tracks_trans.
Qed.

(** ** The lock is released only by a node that has taken over *)

Definition releases_after_promotion (db : DBConfig) (calls : list call_event) : Prop :=
  forall pre key r post, calls = pre ++ CallRelease key r :: post ->
  exists pre', pre = pre' ++ [CallSetReadWrite db None].

Definition no_release (c : call_event) : Prop :=
  match c with CallRelease _ _ => False | _ => True end.

Lemma releases_none (db : DBConfig) (calls : list call_event) :
  Forall no_release calls -> releases_after_promotion db calls.
Proof.
  intros Hno pre key r post ->. apply Forall_app in Hno as [_ Hno].
  by apply Forall_cons in Hno as [? _].
Qed.

Lemma releases_app (db : DBConfig) (l k : list call_event) :
  releases_after_promotion db l -> releases_after_promotion db k ->
  releases_after_promotion db (l ++ k).
Proof.
  intros Hl Hk pre key r post Heq.
  apply app_eq_inv in Heq as [(m & -> & Hm)|(m & -> & Hm)].
  - destruct m as [|c m]; simpl in Hm.
    + destruct (Hk [] key r post) as [pre' Habs]; [done|]. by destruct pre'.
    + injection Hm as <- ->. by eapply Hl.
  - destruct (Hk m key r post Hm) as [pre' ->]. exists (l ++ pre'). by rewrite app_assoc.
Qed.

Lemma handled_releases (fm fm' : Manager) (b : bool) (calls : list call_event) :
  handled fm b fm' calls -> releases_after_promotion (localDB fm) calls.
Proof.
  destruct 1 as [Ha|now r Ha|Ha|h err Ha|h rel Ha];
    try (apply releases_none; by repeat constructor).
  intros pre key r post Heq. destruct pre as [|c1 [|c2 [|c3 pre]]]; simplify_list_eq.
  - by exists [CallHealthCheck h].
  - by destruct pre.
Qed.

Lemma check_releases (fm fm' : Manager) (calls : list call_event) :
  check_outcome fm fm' calls -> releases_after_promotion (localDB fm) calls.
Proof.
  intros [holder err|holder fm1 calls1 fm2 calls2 Hh Hs].
  - apply releases_none. by repeat constructor.
  - apply (releases_app _ [_]); [apply releases_none; by repeat constructor|].
    apply releases_app; [by eapply handled_releases|].
    apply releases_none. destruct Hs; by repeat constructor.
Qed.

Lemma checks_release (fm : Manager) (n : nat) (fm' : Manager) (calls : list call_event) :
  is_node (fm_activeNode fm) -> checks fm n fm' calls ->
  releases_after_promotion (localDB fm) calls.
Proof.
  intros Hn Hc. revert Hn. induction Hc as [fm|fm n fm1 calls1 fm2 calls2 Hc _ IH]; intros Hn.
  - by apply releases_none.
  - destruct (check_tracks _ _ _ Hn Hc) as [[_ Hcfg _ Hn1 _ _] _].
    apply releases_app; [by eapply check_releases|].
    unfold localDB in *. rewrite <- Hcfg. by apply IH.
Qed.

(** * The mode of the local database *)

(** How one call can change the mode of [db], under the coordinator's contract. *)
Definition mode_step (db : DBConfig) (c : call_event) (m m' : DatabaseState) : Prop :=
  match c with
  | CallSetReadOnly db' r =>
      db' = db -> m' = DatabaseStateReadOnly \/ (r <> None /\ m' = m)
  | CallSetReadWrite db' r =>
      db' = db -> m' = DatabaseStateReadWrite \/ (r <> None /\ m' = m)
  | CallGetState db' (s, err) => db' = db -> m' = m /\ (err = None -> s = m)
  | _ => m' = m
  end.

Inductive mode_path (db : DBConfig) (m : DatabaseState) : list call_event -> DatabaseState -> Prop :=
  | PathNil : mode_path db m [] m
  | PathSnoc calls c m1 m2 :
      mode_path db m calls m1 -> mode_step db c m1 m2 -> mode_path db m (calls ++ [c]) m2.

Lemma mode_path_cons (db : DBConfig) (m : DatabaseState) (c : call_event)
    (calls : list call_event) (m' : DatabaseState) :
  mode_path db m (c :: calls) m' ->
  exists m1, mode_step db c m m1 /\ mode_path db m1 calls m'.
Proof.
  remember (c :: calls) as all eqn:Hall. intros Hp. revert c calls Hall.
  induction Hp as [|pre c' m1 m2 Hp IH Hs]; intros c calls Hall; [done|].
  destruct pre as [|c0 pre]; simpl in Hall; injection Hall as <- <-.
  - inversion Hp as [|? ? ? ? ? ? Habs]; subst; [|by destruct calls]. 
    exists m2. split; [done|constructor].
  - destruct (IH c0 pre eq_refl) as (m3 & Hs3 & Hp3). exists m3. split; [done|].
    by apply PathSnoc with m1.
Qed.

(** Nothing but the coordinator changes the mode of a database. *)
Class QuietManager (W : Type)
  `{Runtime W, DistributedLock W, StateCoordinator W, ReplicationPublisher W, DatabaseModes W}
  (db : DBConfig) : Prop := {
  quiet_mgr_now (w : W) : mode db (rt_now w).2 = mode db w;
  quiet_mgr_GetHolder ctx key (w : W) :
    wp (lock_GetHolder ctx key) (fun _ w' => mode db w' = mode db w) w;
  quiet_mgr_Release ctx key (w : W) :
    wp (lock_Release ctx key) (fun _ w' => mode db w' = mode db w) w;
  quiet_mgr_HealthCheck ctx (w : W) :
    wp (pub_HealthCheck ctx) (fun _ w' => mode db w' = mode db w) w;
}.

Section modes.
Context {W : Type} (db : DBConfig).
Context `{Runtime W, DistributedLock W, StateCoordinator W, ReplicationPublisher W}.
Context `{!DatabaseModes W, !FaithfulCoordinator W, !QuietManager W db}.

Definition mode_since (w0 : W) (calls : list call_event) (w : W) : Prop :=
  mode_path db (mode db w0) calls (mode db w).

Lemma mode_since_step (w0 w w' : W) (calls : list call_event) (c : call_event) :
  mode_since w0 calls w -> mode_step db c (mode db w) (mode db w') ->
  mode_since w0 (calls ++ [c]) w'.
Proof. intros Hp Hs. by apply PathSnoc with (mode db w). Qed.

Lemma faithful_responds (w0 : W) : ManagerResponds W db (mode_since w0).
Proof.
  split.
  - intros calls w Hp. unfold mode_since. by rewrite quiet_mgr_now.
  - intros ctx key calls w Hp. eapply wp_mono; [apply (quiet_mgr_GetHolder (db := db))|].
    intros r w' Hm. by eapply mode_since_step.
  - intros ctx key calls w Hp. eapply wp_mono; [apply (quiet_mgr_Release (db := db))|].
    intros r w' Hm. by eapply mode_since_step.
  - intros ctx calls w Hp. eapply wp_mono; [apply set_read_only_mode|].
    intros r w' Hm. eapply mode_since_step; [done|]. by intros _.
  - intros ctx calls w Hp. eapply wp_mono; [apply set_read_write_mode|].
    intros r w' Hm. eapply mode_since_step; [done|]. by intros _.
  - intros ctx calls w Hp. eapply wp_mono; [apply get_state_mode|].
    intros [s err] w' Hm. eapply mode_since_step; [done|]. by intros _.
  - intros ctx calls w Hp. eapply wp_mono; [apply (quiet_mgr_HealthCheck (db := db))|].
    intros r w' Hm. by eapply mode_since_step.
Qed.
End modes.

(** A call of the coordinator that reported a failure. *)
Definition coordination_failed (c : call_event) : Prop :=
  match c with
  | CallSetReadOnly _ (Some _) | CallSetReadWrite _ (Some _) | CallGetState _ (_, Some _) => True
  | _ => False
  end.

Lemma handled_mode (fm fm' : Manager) (b : bool) (calls : list call_event)
    (rest : list call_event) (m m' : DatabaseState) :
  handled fm b fm' calls -> mode_path (localDB fm) m (calls ++ rest) m' ->
  localDB fm' = localDB fm /\ fm_nodeID fm' = fm_nodeID fm /\
  exists m1, mode_path (localDB fm) m1 rest m'.
Proof.
  intros Hh Hp. split; [by destruct Hh as [| | | |? []]|]. split; [by destruct Hh as [| | | |? []]|].
  clear Hh. revert m Hp. induction calls as [|c calls IH]; intros m Hp; [eauto|].
  simpl in Hp. apply mode_path_cons in Hp as (m1 & _ & Hp). by eapply IH.
Qed.

(** The split-brain check does not leave the database writable, or reports a failure. *)
Lemma split_checked_mode (fm fm' : Manager) (holder : string) (calls : list call_event)
    (m m' : DatabaseState) :
  other_holds fm holder = true -> split_checked fm holder fm' calls ->
  mode_path (localDB fm) m calls m' ->
  m' <> DatabaseStateReadWrite \/ Exists coordination_failed calls.
Proof.
  unfold other_holds. rewrite andb_true_iff, !negb_true_iff, !String.eqb_neq.
  intros [Hne Hnode] Hs Hp.
  destruct Hs as [Hh|s err Hh Hor|r Hh Hn]; [done| |].
  - apply mode_path_cons in Hp as (m1 & [-> Hs]%(fun f => f eq_refl) & Hp).
    inversion Hp as [|? ? ? ? ? ? Habs]; subst; [|by destruct calls].
    destruct err as [err|]; [right; by left|]. rewrite (Hs eq_refl) in Hor.
    left. by destruct Hor as [?|[?|?]].
  - apply mode_path_cons in Hp as (m1 & _ & Hp).
    apply mode_path_cons in Hp as (m2 & Hs & Hp).
    inversion Hp as [|? ? ? ? ? ? Habs]; subst; [|by destruct calls].
    destruct (Hs eq_refl) as [->|[Hr _]]; [by left|].
    right. right. left. by destruct r.
Qed.

(** * The properties *)

Section manager.
Context {W : Type}
  `{Runtime W, DistributedLock W, StateCoordinator W, ReplicationPublisher W}.

(** C18: the manager follows the lock.  Over any number of checks, in any
    environment that answers, the active node is the one the answers about the
    lock lead to; the failover counter counts the switches to the cloud; and
    the local database is switched back to read-write exactly as many times
    as the active node became local again: once per recovery, whether it
    succeeded or not. *)
Theorem manager_follows_lock (n : nat) (ctx : Context) (fm : Manager)
    `{!ManagerResponds W (localDB fm) (fun _ _ => True)} (ops : Metrics) (w : traced W) :
  fm_activeNode fm = NodeLocal \/ fm_activeNode fm = NodeCloud ->
  fm_metrics fm = Some ops ->
  wp (Run n ctx fm) (fun fm' w' => exists calls more,
    trace w' = trace w ++ calls /\
    let obs := observations calls in
    length obs = n /\
    fm_activeNode fm' = foldl (observe (fm_nodeID fm)) (fm_activeNode fm) obs /\
    fm_metrics fm' = Some (ops ++ more) /\
    counter_value M_FailoverEvents more =
      Z.of_nat (switches NodeCloud (fm_nodeID fm) (fm_activeNode fm) obs) /\
    promotions calls = switches NodeLocal (fm_nodeID fm) (fm_activeNode fm) obs) w.
Proof.
  intros Hn Hops. eapply wp_mono; [by apply (wp_Run (localDB fm) (fun _ _ => True))|].
  intros fm' w' (_ & calls & Htr & Hc).
  destruct (checks_track _ _ _ _ Hn Hc) as [[_ _ Ha _ Hp Hm] Hlen].
  destruct (Hm ops Hops) as (more & Hops' & Hcount). exists calls, more. auto 10.
Qed.

(** C19: the lock is released only after a takeover.  Every release of the
    lock immediately follows a switch of the local database to read-write
    that reported success. *)
Theorem manager_releases_after_promotion (n : nat) (ctx : Context) (fm : Manager)
    `{!ManagerResponds W (localDB fm) (fun _ _ => True)} (w : traced W) :
  fm_activeNode fm = NodeLocal \/ fm_activeNode fm = NodeCloud ->
  wp (Run n ctx fm) (fun _ w' => exists calls, trace w' = trace w ++ calls /\
    forall pre key r post, calls = pre ++ CallRelease key r :: post ->
      exists pre', pre = pre' ++ [CallSetReadWrite (localDB fm) None]) w.
Proof.
  intros Hn. eapply wp_mono; [by apply (wp_Run (localDB fm) (fun _ _ => True))|].
  intros fm' w' (_ & calls & Htr & Hc). exists calls. split; [done|].
  by apply (checks_release fm n fm' calls).
Qed.

(** A check that finds another node's lock stops local writes.  With a
    coordinator that keeps its contract, after a check that read another
    holder from the lock, the local database does not take writes, unless a
    call of the coordinator reported a failure during the check.  This holds
    also when the manager already believed the cloud active: the switch is
    tried again at every check. *)
Theorem check_stops_local_writes `{!DatabaseModes W, !FaithfulCoordinator W} (ctx : Context)
    (fm : Manager) (w : W) `{!QuietManager W (localDB fm)} :
  wp (check ctx fm) (fun _ w' => exists calls, trace w' = calls /\
    forall holder, CallGetHolder (lockKey fm) (holder, None) ∈ calls ->
      holder <> "" -> holder <> fm_nodeID fm ->
      mode (localDB fm) (inner w') <> DatabaseStateReadWrite \/
      Exists coordination_failed calls) (mkTraced w []).
Proof.
  pose proof (faithful_responds (localDB fm) w).
  eapply wp_mono; [apply (wp_check (localDB fm) (mode_since (localDB fm) w)); [done|apply PathNil]|].
  intros fm' w' (HI & calls & Htr & Hc). simpl in Htr. exists calls. split; [done|].
  unfold holds in HI. rewrite Htr in HI. unfold mode_since in HI.
  intros holder Hin Hne Hnode.
  destruct Hc as [holder' err|holder' fm1 calls1 fm2 calls2 Hh Hs].
  { apply list_elem_of_singleton in Hin. done. }
  assert (holder' = holder) as ->.
  { apply elem_of_cons in Hin as [[= ->]|Hin]; [done|]. exfalso.
    apply elem_of_app in Hin as [Hin|Hin]; [destruct Hh|destruct Hs];
      repeat (apply elem_of_cons in Hin as [?|Hin]; [done|]); by apply elem_of_nil in Hin. }
  apply mode_path_cons in HI as (m1 & _ & HI).
  destruct (handled_mode _ _ _ _ _ _ _ Hh HI) as (Hdb & Hid & m2 & Hp).
  rewrite <- Hdb in Hp.
  assert (Hother : other_holds fm1 holder = true).
  { unfold other_holds. rewrite Hid. apply andb_true_iff.
    split; apply negb_true_iff, String.eqb_neq; done. }
  destruct (split_checked_mode _ _ _ _ _ _ Hother Hs Hp) as [Hm|Hf].
  - left. by rewrite <- Hdb.
  - right. right. apply Exists_app. by right.
Qed.
End manager.

(** * The coordinator over PostgreSQL *)

Section over_postgres.
Context {W : Type} `{Hconn : PgxConn W, !PgServer W}.

(** The state that [GetState] reports is the database's.  When it reports
    no error, the answer is read-only if and only if the default of the
    database is; and it changes nothing. *)
Theorem GetState_reports_default (ctx : Context) (db : DBConfig) (w : W) :
  wp (GetState ctx db) (fun '(s, err) w' =>
    read_only db w' = read_only db w /\
    (err = None -> s = if read_only db w then DatabaseStateReadOnly else DatabaseStateReadWrite)) w.
Proof. apply GetState_spec. Qed.

(** C21: [SetReadOnly] never reports success.  A database that was writable
    may well have been switched, but the session that verifies the switch
    started before it, and RESET takes a session back to the default it
    started with; and in a database that is read-only already the ALTER is
    refused. *)
Theorem SetReadOnly_always_fails (ctx : Context) (db : DBConfig) (w : W) :
  wp (SetReadOnly ctx db) (fun r w' =>
    r <> None /\ (read_only db w' = true \/ read_only db w' = read_only db w)) w.
Proof. apply SetReadOnly_spec. Qed.

Context `{Runtime W, DistributedLock W, ReplicationPublisher W}.
#[local] Existing Instance PGStateCoordinator.
#[local] Existing Instance server_modes.

Definition stays_read_only (db : DBConfig) (w0 : W) (_ : list call_event) (w : W) : Prop :=
  read_only db w0 = true -> read_only db w = true.

Lemma postgres_responds (db : DBConfig) (w0 : W)
    `{!QuietManager W db} : ManagerResponds W db (stays_read_only db w0).
Proof.
  assert (Hmode : forall w w' : W, mode db w' =
    mode db w -> read_only db w' = read_only db w).
  { intros w w'. simpl. by destruct (read_only db w), (read_only db w'). }
  split; unfold stays_read_only; intros.
  - rewrite (Hmode w); [auto|]. apply quiet_mgr_now.
  - eapply wp_mono; [apply (quiet_mgr_GetHolder (db := db))|].
    intros r w' Hm%Hmode Hro. rewrite Hm. auto.
  - eapply wp_mono; [apply (quiet_mgr_Release (db := db))|].
    intros r w' Hm%Hmode Hro. rewrite Hm. auto.
  - eapply wp_mono; [apply SetReadOnly_spec|]. intros r w' [_ [->| ->]]; auto.
  - eapply wp_mono; [apply SetReadWrite_spec|]. intros r w' [-> _]; auto.
  - eapply wp_mono; [apply GetState_spec|]. intros [s err] w' [-> _]; auto.
  - eapply wp_mono; [apply (quiet_mgr_HealthCheck (db := db))|].
    intros r w' Hm%Hmode Hro. rewrite Hm. auto.
Qed.

(** The manager never restores writes over PostgreSQL.  Once the local
    database is read-only it stays so, over any number of checks and whatever
    they read from the lock: the ALTER of a recovery is refused in the very
    sessions the read-only default applies to. *)
Theorem manager_never_restores_writes (n : nat) (ctx : Context) (fm : Manager) (w : W)
    `{!QuietManager W (localDB fm)} :
  read_only (localDB fm) w = true ->
  wp (Run n ctx fm) (fun _ w' => read_only (localDB fm) (inner w') = true) (mkTraced w []).
Proof.
  intros Hro. pose proof (postgres_responds (localDB fm) w).
  eapply wp_mono; [apply (wp_Run (localDB fm) (stays_read_only (localDB fm) w)); [done|by intros ?]|].
  intros fm' w' (HI & _). by apply HI.
Qed.
End over_postgres.

(** * On concrete runs *)

Definition sample_manager : Manager := NewManager (sample_config 2) (Some []) "node-a".

(** The other node takes the lock, then it is free, then it cannot be read. *)
Definition sample_server : server :=
  mkServer ∅ ∅ [("node-b", None); ("", None); ("", Some (ErrorsNew "timeout"))].

#[local] Existing Instance PGStateCoordinator.

#[local] Instance sample_responds :
  ManagerResponds server (localDB sample_manager) (fun _ _ => True).
Proof.
  split; intros; try done; try (by apply wp_call).
  - eapply wp_mono; [apply SetReadOnly_spec|done].
  - eapply wp_mono; [apply SetReadWrite_spec|done].
  - eapply wp_mono; [apply GetState_spec|done].
Qed.

#[local] Existing Instance server_modes.
#[local] Existing Instance PGStateCoordinator_faithful.
#[local] Instance sample_quiet : QuietManager server (localDB sample_manager).
Proof. by split. Qed.

Lemma manager_follows_lock_witness :
  exists fm' w', Run 3 Background sample_manager (mkTraced sample_server []) = (Ret fm', w') /\
  fm_activeNode fm' = foldl (observe "node-a") NodeLocal (observations (trace w')).
Proof.
  pose proof (manager_follows_lock 3 Background sample_manager [] (mkTraced sample_server [])
    (or_introl eq_refl) eq_refl) as Hwp.
  apply wp_run in Hwp as (fm' & w' & Hrun & calls & more & Htr & _ & Ha & _).
  exists fm', w'. split; [exact Hrun|]. simpl in Htr. rewrite Htr. exact Ha.
Defined.

Lemma manager_releases_after_promotion_witness :
  exists fm' w', Run 3 Background sample_manager (mkTraced sample_server []) = (Ret fm', w') /\
  forall pre key r post, trace w' = pre ++ CallRelease key r :: post ->
    exists pre', pre = pre' ++ [CallSetReadWrite (localDB sample_manager) None].
Proof.
  pose proof (manager_releases_after_promotion 3 Background sample_manager
    (mkTraced sample_server []) (or_introl eq_refl)) as Hwp.
  apply wp_run in Hwp as (fm' & w' & Hrun & calls & Htr & Hrel).
  exists fm', w'. split; [exact Hrun|]. simpl in Htr. rewrite Htr. exact Hrel.
Defined.

Lemma check_stops_local_writes_witness :
  exists fm' w', check Background sample_manager (mkTraced sample_server []) = (Ret fm', w') /\
  forall holder, CallGetHolder "k" (holder, None) ∈ trace w' -> holder <> "" ->
    holder <> "node-a" ->
    mode (localDB sample_manager) (inner w') <> DatabaseStateReadWrite \/
    Exists coordination_failed (trace w').
Proof.
  pose proof (check_stops_local_writes Background sample_manager sample_server) as Hwp.
  apply wp_run in Hwp as (fm' & w' & Hrun & calls & Htr & Hstop).
  exists fm', w'. split; [exact Hrun|]. rewrite Htr. exact Hstop.
Defined.

Lemma GetState_reports_default_witness :
  exists s err w', GetState Background (localDB sample_manager) sample_server = (Ret (s, err), w') /\
  (err = None -> s = DatabaseStateReadWrite).
Proof.
  pose proof (GetState_reports_default Background (localDB sample_manager) sample_server) as Hwp.
  apply wp_run in Hwp as ([s err] & w' & Hrun & _ & Hs).
  exists s, err, w'. split; [exact Hrun|exact Hs].
Defined.

Lemma SetReadOnly_always_fails_witness :
  exists r w', SetReadOnly Background (localDB sample_manager) sample_server = (Ret r, w') /\
  r <> None.
Proof.
  pose proof (SetReadOnly_always_fails Background (localDB sample_manager) sample_server) as Hwp.
  apply wp_run in Hwp as (r & w' & Hrun & Hr & _).
  exists r, w'. split; [exact Hrun|exact Hr].
Defined.

(** The server when the local database is read-only and the lock is free. *)
Definition read_only_server : server :=
  mkServer {[ buildConnString (localDB sample_manager) := true ]} ∅ [("", None)].

Lemma manager_never_restores_writes_witness :
  exists fm' w', Run 1 Background (set_active NodeCloud sample_manager)
    (mkTraced read_only_server []) = (Ret fm', w') /\
  read_only (localDB sample_manager) (inner w') = true.
Proof.
  pose proof (manager_never_restores_writes 1 Background (set_active NodeCloud sample_manager)
    read_only_server (QuietManager0 := sample_quiet)) as Hwp.
  apply wp_run in Hwp as (fm' & w' & Hrun & Hro).
  - exists fm', w'. split; [exact Hrun|exact Hro].
  - simpl. unfold default_of, read_only_server. simpl. rewrite lookup_singleton_eq. reflexivity.
Defined.
