(* ===== verification/Lock.v ===== *)
(** internal/lock/gcslock.go: the distributed lock on an object of Google Cloud
    Storage.

    An operation is a tree of the calls it makes on the bucket and the clock:
    the same tree is run alone, as the [DistributedLock] of one process, and
    interleaved with the operations of other processes (LockSystem.v). *)
From S2P Require Import Prelude Effects GoErrors GoTime GoTimeFormat GoStrings GoJson Interfaces.

(** * Calls on the storage client and the clock *)

(** A bucket and the key of an object in it. *)
Abbreviation ObjectHandle := (string * string)%type.

(** How an upload ends: in a failed [Write], after which the writer is closed
    and the result of that ignored, or with what [Close] reports. *)
Inductive upload : Type :=
  | WriteFailed (err : error)
  | Closed (r : option error).

(** [Download] is [NewReader] followed, if it gives a reader, by [io.ReadAll] and
    [Close]: a reader stays at the generation of the object it was opened on.
    [Upload] is [NewWriter], under the condition [DoesNotExist] if [ifAbsent],
    [Write] and [Close]: the object is created or replaced when it is closed. *)
Inductive gcsE : Type -> Type :=
  | Now : gcsE Time
  | Download (ctx : Context) (obj : ObjectHandle) : gcsE (result (result string))
  | Upload (ctx : Context) (obj : ObjectHandle) (ifAbsent : bool) (data : string) : gcsE upload
  | Delete (ctx : Context) (obj : ObjectHandle) : gcsE (option error).

(** * The metadata in the object *)

Record lockMetadata : Type := mkLockMetadata {
  Holder : string;
  Acquired : string;
  ExpiresAt : string;
}.

(** [json.Marshal(meta)], which cannot fail on strings. *)
Definition marshal_meta (m : lockMetadata) : string :=
  object_text compact [("holder", string_text (Holder m));
                       ("acquired", string_text (Acquired m));
                       ("expires_at", string_text (ExpiresAt m))].

Definition set_meta (key : string) (v : json) (m : lockMetadata) : result lockMetadata :=
  if is_field "holder" key then
    s ← decode_string v (Holder m); Ok (mkLockMetadata s (Acquired m) (ExpiresAt m))
  else if is_field "acquired" key then
    s ← decode_string v (Acquired m); Ok (mkLockMetadata (Holder m) s (ExpiresAt m))
  else if is_field "expires_at" key then
    s ← decode_string v (ExpiresAt m); Ok (mkLockMetadata (Holder m) (Acquired m) s)
  else Ok m.

(** [json.Unmarshal(data, &meta)] into a zero value. *)
Definition unmarshal_meta (data : string) : result lockMetadata :=
  Unmarshal set_meta data (mkLockMetadata "" "" "").

(** * The lock *)

(** [l_zone] is the local time zone of the process, in which [time.Now] is
    written: the offset from UTC in seconds at an instant. *)
Record GCSLock : Type := mkGCSLock {
  l_bucket : string;
  l_nodeID : string;
  l_zone : Time -> Z;
}.

Definition NewGCSLock (zone : Time -> Z) (bucketName nodeID : string) : GCSLock :=
  {| l_bucket := bucketName; l_nodeID := nodeID; l_zone := zone |}.

Definition ErrNotLockHolder : error := ErrorsNew "not the lock holder".
Definition ErrLockNotFound : error := ErrorsNew "lock not found".

Definition format (l : GCSLock) (t : Time) : string := Format_RFC3339 (l_zone l t) t.

Definition tryCreate (l : GCSLock) (ctx : Context) (obj : ObjectHandle) (ttl : Duration)
    : prog gcsE (bool * option error) :=
  now ← trigger Now;
  let meta := {| Holder := l_nodeID l;
                 Acquired := format l now;
                 ExpiresAt := format l (Add now ttl) |} in
  r ← trigger (Upload ctx obj true (marshal_meta meta));
  mret match r with
       | WriteFailed err => (false, Some (Wrapf "writing lock object: %w" [] err))
       | Closed (Some err) =>
           if decide (errors_As_GoogleAPI err = Some 412%Z) then (false, None)
           else (false, Some (Wrapf "closing lock writer: %w" [] err))
       | Closed None => (true, None)
       end.

Definition readMeta (ctx : Context) (obj : ObjectHandle) : prog gcsE (result lockMetadata) :=
  r ← trigger (Download ctx obj);
  mret match r with
       | Err err => Err err
       | Ok (Err err) => Err (Wrapf "reading lock data: %w" [] err)
       | Ok (Ok data) =>
           match unmarshal_meta data with
           | Err err => Err (Wrapf "parsing lock metadata: %w" [] err)
           | Ok meta => Ok meta
           end
       end.

Definition writeMeta (ctx : Context) (obj : ObjectHandle) (meta : lockMetadata)
    : prog gcsE (option error) :=
  r ← trigger (Upload ctx obj false (marshal_meta meta));
  mret match r with
       | WriteFailed err => Some err
       | Closed r => r
       end.

(** An error of a delete that matters: the object being gone already does not. *)
Definition delete_failed (r : option error) : option error :=
  match r with
  | Some err => if errors_Is err StorageErrObjectNotExist then None else Some err
  | None => None
  end.

Definition Acquire (l : GCSLock) (ctx : Context) (lockKey : string) (ttl : Duration)
    : prog gcsE (bool * option error) :=
  let obj := (l_bucket l, lockKey) in
  '(acquired, err) ← tryCreate l ctx obj ttl;
  match err with
  | Some err => mret (false, Some err)
  | None =>
      if acquired : bool then mret (true, None) else
      meta ← readMeta ctx obj;
      match meta with
      | Err err =>
          if errors_Is err StorageErrObjectNotExist then tryCreate l ctx obj ttl
          else mret (false, Some (Wrapf "reading existing lock: %w" [] err))
      | Ok meta =>
          match Parse_RFC3339 (ExpiresAt meta) with
          | None => mret (false, None)
          | Some expiresAt =>
              now ← trigger Now;
              if Before now expiresAt then mret (false, None) else
              r ← trigger (Delete ctx obj);
              match delete_failed r with
              | Some err => mret (false, Some (Wrapf "deleting expired lock: %w" [] err))
              | None => tryCreate l ctx obj ttl
              end
          end
      end
  end.

Definition Renew (l : GCSLock) (ctx : Context) (lockKey : string) (ttl : Duration)
    : prog gcsE (option error) :=
  let obj := (l_bucket l, lockKey) in
  meta ← readMeta ctx obj;
  match meta with
  | Err err =>
      if errors_Is err StorageErrObjectNotExist then mret (Some ErrLockNotFound)
      else mret (Some (Wrapf "reading lock for renewal: %w" [] err))
  | Ok meta =>
      if negb (String.eqb (Holder meta) (l_nodeID l)) then mret (Some ErrNotLockHolder) else
      now ← trigger Now;
      let newMeta := {| Holder := l_nodeID l;
                        Acquired := Acquired meta;
                        ExpiresAt := format l (Add now ttl) |} in
      r ← writeMeta ctx obj newMeta;
      match r with
      | Some err => mret (Some (Wrapf "renewing lock: %w" [] err))
      | None => mret None
      end
  end.

Definition Release (l : GCSLock) (ctx : Context) (lockKey : string) : prog gcsE (option error) :=
  let obj := (l_bucket l, lockKey) in
  meta ← readMeta ctx obj;
  match meta with
  | Err err =>
      if errors_Is err StorageErrObjectNotExist then mret None
      else mret (Some (Wrapf "reading lock for release: %w" [] err))
  | Ok meta =>
      if negb (String.eqb (Holder meta) (l_nodeID l)) then mret (Some ErrNotLockHolder) else
      r ← trigger (Delete ctx obj);
      match delete_failed r with
      | Some err => mret (Some (Wrapf "deleting lock object: %w" [] err))
      | None => mret None
      end
  end.

Definition GetHolder (l : GCSLock) (ctx : Context) (lockKey : string)
    : prog gcsE (string * option error) :=
  let obj := (l_bucket l, lockKey) in
  meta ← readMeta ctx obj;
  match meta with
  | Err err =>
      if errors_Is err StorageErrObjectNotExist then mret ("", Some ErrLockNotFound)
      else mret ("", Some (Wrapf "reading lock holder: %w" [] err))
  | Ok meta => mret (Holder meta, None)
  end.

(** * Running an operation alone *)

(** The lock of one process, as the failover manager is given it. *)
Definition gcs_lock {W} `{Handler gcsE W} (l : GCSLock) : DistributedLock W := {|
  lock_Acquire ctx key ttl := run (Acquire l ctx key ttl);
  lock_Renew ctx key ttl := run (Renew l ctx key ttl);
  lock_Release ctx key := run (Release l ctx key);
  lock_GetHolder ctx key := run (GetHolder l ctx key);
|}.
