(* ===== verification/LockSpec.v ===== *)
(** What the lock does to a bucket when its operation runs alone.

    [answers] states the documented behaviour of the storage service: objects
    are strongly consistent, an upload takes effect as a whole when it is
    closed, the condition [DoesNotExist] fails with status 412, and a call that
    reports any other failure may or may not have taken effect.  The abstract
    lock is a lease: nobody's, or somebody's up to some instant. *)
From S2P Require Import Prelude Effects GoErrors GoTime GoTimeFormat GoStrings GoJson Interfaces Lock.

(** * The storage service *)

Abbreviation objects := (gmap ObjectHandle string).

(** [answers os e x os']: on the objects [os] the call [e] may answer [x] and
    leave [os']. *)
Definition answers {X : Type} (os : objects) (e : gcsE X) : X -> objects -> Prop :=
  match e with
  | Now => fun _ os' => os' = os
  | Download _ obj => fun r os' =>
      os' = os /\
      match r with
      | Ok (Ok data) => os !! obj = Some data
      | Ok (Err err) => errors_Is err StorageErrObjectNotExist = false
      | Err err => errors_Is err StorageErrObjectNotExist = true -> os !! obj = None
      end
  | Upload _ obj ifAbsent data => fun r os' =>
      let done := os' = <[obj := data]> os /\ (ifAbsent = true -> os !! obj = None) in
      match r with
      | Closed None => done
      | Closed (Some err) =>
          if decide (ifAbsent = true /\ errors_As_GoogleAPI err = Some 412%Z)
          then os' = os /\ is_Some (os !! obj) else done \/ os' = os
      | WriteFailed _ => done \/ os' = os
      end
  | Delete _ obj => fun r os' =>
      match r with
      | None => os' = delete obj os
      | Some err =>
          if errors_Is err StorageErrObjectNotExist then os' = os /\ os !! obj = None
          else os' = delete obj os \/ os' = os
      end
  end.

(** A client of such a service, with a clock that does not go back. *)
Class LawfulStorage (W : Type) `{Handler gcsE W} : Type := {
  stored : W -> objects;
  clock : W -> Time;
  storage_answers {X} (e : gcsE X) (w w' : W) (x : X) :
    handle e w = (x, w') -> answers (stored w) e x (stored w') /\ (clock w <= clock w')%Z;
  storage_now (w w' : W) (t : Time) : handle Now w = (t, w') -> t = clock w';
}.

(** * Leases *)

(** [Held h None] has an expiry that cannot be read: it does not expire.
    [Corrupt] is an object that is not the metadata of a lock. *)
Inductive lease : Type :=
  | Free
  | Held (holder : string) (until : option Time)
  | Corrupt.

Definition lease_of (o : option string) : lease :=
  match o with
  | None => Free
  | Some data =>
      match unmarshal_meta data with
      | Ok m => Held (Holder m) (Parse_RFC3339 (ExpiresAt m))
      | Err _ => Corrupt
      end
  end.

Definition expired (now : Time) (s : lease) : Prop :=
  exists h until, s = Held h (Some until) /\ (until <= now)%Z.

Inductive lock_op : Type :=
  | OpAcquire (ttl : Duration)
  | OpRenew (ttl : Duration)
  | OpRelease
  | OpGetHolder.

#[export] Instance lock_op_eq_dec : EqDecision lock_op.
Proof. intros [] []; unfold Duration in *; solve_decision. Defined.

Inductive lock_result : Type :=
  | RAcquired (r : bool * option error)
  | RRenewed (r : option error)
  | RReleased (r : option error)
  | RHolder (r : string * option error).

(** The operation of a process, as one program. *)
Definition perform (l : GCSLock) (ctx : Context) (key : string) (op : lock_op) : prog gcsE lock_result :=
  match op with
  | OpAcquire ttl => r ← Acquire l ctx key ttl; mret (RAcquired r)
  | OpRenew ttl => r ← Renew l ctx key ttl; mret (RRenewed r)
  | OpRelease => r ← Release l ctx key; mret (RReleased r)
  | OpGetHolder => r ← GetHolder l ctx key; mret (RHolder r)
  end.

(** How a lease taken or renewed at [t] reads: the instant it is written to end
    at, which has no fraction of a second. *)
Definition lease_from (l : GCSLock) (t : Time) (ttl : Duration) : lease :=
  Held (l_nodeID l) (Parse_RFC3339 (format l (Add t ttl))).

(** The lock as a lease that operations of process [l] move, between the
    instants [t0] and [t1]. *)
Inductive lease_step (l : GCSLock) (t0 t1 : Time) : lock_op -> lease -> lock_result -> lease -> Prop :=
  | Granted ttl s t : s = Free \/ expired t1 s -> (t0 <= t <= t1)%Z ->
      lease_step l t0 t1 (OpAcquire ttl) s (RAcquired (true, None)) (lease_from l t ttl)
  | Refused ttl h until : (forall u, until = Some u -> (t0 < u)%Z) ->
      lease_step l t0 t1 (OpAcquire ttl) (Held h until) (RAcquired (false, None)) (Held h until)
  | AcquireFailed ttl s s' err :
      s' = s \/ (expired t1 s /\ s' = Free) \/
      ((s = Free \/ expired t1 s) /\ exists t, (t0 <= t <= t1)%Z /\ s' = lease_from l t ttl) ->
      lease_step l t0 t1 (OpAcquire ttl) s (RAcquired (false, Some err)) s'
  | Renewed ttl until t : (t0 <= t <= t1)%Z ->
      lease_step l t0 t1 (OpRenew ttl) (Held (l_nodeID l) until) (RRenewed None) (lease_from l t ttl)
  | RenewMissing ttl :
      lease_step l t0 t1 (OpRenew ttl) Free (RRenewed (Some ErrLockNotFound)) Free
  | RenewRefused ttl h until : h <> l_nodeID l ->
      lease_step l t0 t1 (OpRenew ttl) (Held h until) (RRenewed (Some ErrNotLockHolder)) (Held h until)
  | RenewFailed ttl s s' f err :
      s' = s \/ (exists until t, s = Held (l_nodeID l) until /\ (t0 <= t <= t1)%Z /\
                                 s' = lease_from l t ttl) ->
      lease_step l t0 t1 (OpRenew ttl) s (RRenewed (Some (Wrapf f [] err))) s'
  | Released until :
      lease_step l t0 t1 OpRelease (Held (l_nodeID l) until) (RReleased None) Free
  | ReleasedAlready : lease_step l t0 t1 OpRelease Free (RReleased None) Free
  | ReleaseRefused h until : h <> l_nodeID l ->
      lease_step l t0 t1 OpRelease (Held h until) (RReleased (Some ErrNotLockHolder)) (Held h until)
  | ReleaseFailed s s' f err :
      s' = s \/ (exists until, s = Held (l_nodeID l) until /\ s' = Free) ->
      lease_step l t0 t1 OpRelease s (RReleased (Some (Wrapf f [] err))) s'
  | HolderIs h until :
      lease_step l t0 t1 OpGetHolder (Held h until) (RHolder (h, None)) (Held h until)
  | HolderMissing :
      lease_step l t0 t1 OpGetHolder Free (RHolder ("", Some ErrLockNotFound)) Free
  | HolderFailed s f err :
      lease_step l t0 t1 OpGetHolder s (RHolder ("", Some (Wrapf f [] err))) s.

(** * Reading back what was written *)

Lemma unmarshal_marshal (m : lockMetadata) :
  unmarshal_meta (marshal_meta m) =
    Ok {| Holder := unquote (escape (Holder m));
          Acquired := unquote (escape (Acquired m));
          ExpiresAt := unquote (escape (ExpiresAt m)) |}.
Proof.
  unfold unmarshal_meta, marshal_meta.
  rewrite (Unmarshal_object_text set_meta compact _
    [("holder", JStr (escape (Holder m))); ("acquired", JStr (escape (Acquired m)));
     ("expires_at", JStr (escape (ExpiresAt m)))]).
  - done.
  - done.
  - repeat constructor; apply value_text_string.
  - done.
Qed.

(** An object that cannot be read is not taken for one that is missing. *)
Lemma unmarshal_meta_error (data : string) (err : error) :
  unmarshal_meta data = Err err -> errors_Is err StorageErrObjectNotExist = false.
Proof.
  assert (Hset : forall key v m err, set_meta key v m = Err err -> err = type_error).
  { intros key v m err'. unfold set_meta.
    destruct (is_field "holder" key); [|destruct (is_field "acquired" key);
      [|destruct (is_field "expires_at" key); [|done]]]; destruct v; simpl; congruence. }
  assert (Hfold : forall ms r, (forall err, r = Err err -> err = type_error) ->
    foldl (fun r '(key, v) => r ≫= set_meta key v) r ms = Err err -> err = type_error).
  { induction ms as [|[key v] ms IH]; intros r Hr; simpl; [apply Hr|]. apply IH.
    intros err'. destruct r as [m|e]; simpl; [apply Hset|]. intros [= <-]. auto. }
  unfold unmarshal_meta, Unmarshal. destruct (parse data) as [[]|]; try (by intros [= <-]).
  intros ->%Hfold; done.
Qed.

(** The object a process writes is its lease. *)
Lemma lease_of_written (l : GCSLock) (acquired : string) (t : Time) (ttl : Duration) :
  valid_utf8 (l_nodeID l) = true ->
  lease_of (Some (marshal_meta {| Holder := l_nodeID l; Acquired := acquired;
                                  ExpiresAt := format l (Add t ttl) |})) = lease_from l t ttl.
Proof.
  intros Hid. unfold lease_of, lease_from. rewrite unmarshal_marshal. simpl.
  rewrite !unquote_escape; [done| |done].
  apply plain_valid, append_instant_plain.
Qed.

(** * Running alone *)

Section alone.
Context {W : Type} `{Hlaw : LawfulStorage W}.

(** What a call does: the objects answer, the clock does not go back. *)
Lemma wp_trigger {X : Type} (e : gcsE X) (Q : X -> W -> Prop) (w : W) :
  (forall x w', answers (stored w) e x (stored w') -> (clock w <= clock w')%Z ->
     handle e w = (x, w') -> Q x w') -> wp (run (trigger e)) Q w.
Proof.
  intros HQ. apply wp_run_trigger. intros x w' Hcall.
  destruct (storage_answers e w w' x Hcall). by apply HQ.
Qed.

(** From [w] to [w'] only the object [obj] has changed, and time has passed. *)
Definition moves (obj : ObjectHandle) (w w' : W) : Prop :=
  (clock w <= clock w')%Z /\ forall o, o <> obj -> stored w' !! o = stored w !! o.

Lemma moves_same (obj : ObjectHandle) (w w' : W) :
  stored w' = stored w -> (clock w <= clock w')%Z -> moves obj w w'.
Proof. intros Hs Hc. split; [done|]. intros o _. by rewrite Hs. Qed.

Lemma moves_trans (obj : ObjectHandle) (w1 w2 w3 : W) :
  moves obj w1 w2 -> moves obj w2 w3 -> moves obj w1 w3.
Proof. intros [H1 H2] [H3 H4]. split; [lia|]. intros o Ho. by rewrite H4, H2. Qed.

Definition lease_at (obj : ObjectHandle) (w : W) : lease := lease_of (stored w !! obj).

Lemma lease_at_absent (obj : ObjectHandle) (w : W) :
  stored w !! obj = None -> lease_at obj w = Free.
Proof. unfold lease_at. by intros ->. Qed.

(** The lease after an upload that was made. *)
Lemma upload_done (l : GCSLock) (obj : ObjectHandle) (acquired : string) (t : Time)
    (ttl : Duration) (w w' : W) :
  valid_utf8 (l_nodeID l) = true -> (clock w <= clock w')%Z ->
  stored w' = <[obj := marshal_meta {| Holder := l_nodeID l; Acquired := acquired;
                                       ExpiresAt := format l (Add t ttl) |}]> (stored w) ->
  moves obj w w' /\ lease_at obj w' = lease_from l t ttl.
Proof.
  intros Hid Hc Hs. split.
  - split; [done|]. intros o Ho. by rewrite Hs, lookup_insert_ne.
  - unfold lease_at. rewrite Hs, lookup_insert_eq. by apply lease_of_written.
Qed.

Lemma delete_done (obj : ObjectHandle) (w w' : W) :
  (clock w <= clock w')%Z -> stored w' = delete obj (stored w) ->
  moves obj w w' /\ stored w' !! obj = None.
Proof.
  intros Hc Hs. split; [split; [done|]|].
  - intros o Ho. by rewrite Hs, lookup_delete_ne.
  - by rewrite Hs, lookup_delete_eq.
Qed.

Lemma wp_tryCreate (l : GCSLock) (ctx : Context) (obj : ObjectHandle) (ttl : Duration) (w : W) :
  valid_utf8 (l_nodeID l) = true ->
  wp (run (tryCreate l ctx obj ttl)) (fun r w' => moves obj w w' /\
    let created := stored w !! obj = None /\
      exists t, (clock w <= t <= clock w')%Z /\ lease_at obj w' = lease_from l t ttl in
    match r with
    | (true, None) => created
    | (true, Some _) => False
    | (false, None) => stored w' = stored w /\ is_Some (stored w !! obj)
    | (false, Some _) => stored w' = stored w \/ created
    end) w.
Proof.
  intros Hid. unfold tryCreate. apply wp_run_bind, wp_trigger. intros now w1 Hs1 Hc1 Hnow.
  apply storage_now in Hnow. simpl in Hs1. apply wp_run_bind, wp_trigger.
  intros r w2 Hr Hc2 _. apply wp_ret.
  assert (Hdone : forall obj', obj' = obj -> stored w2 = <[obj' := marshal_meta
      {| Holder := l_nodeID l; Acquired := format l now; ExpiresAt := format l (Add now ttl) |}]>
      (stored w1) /\ (true = true -> stored w1 !! obj' = None) ->
    moves obj w w2 /\ stored w !! obj = None /\
    exists t, (clock w <= t <= clock w2)%Z /\ lease_at obj w2 = lease_from l t ttl).
  { intros obj' -> [Hup Habs]. destruct (upload_done _ _ _ _ _ _ _ Hid Hc2 Hup) as [Hm Hl].
    split; [|split].
    - eapply moves_trans; [|exact Hm]. by apply moves_same.
    - rewrite <- Hs1. auto.
    - exists now. split; [lia|done]. }
  assert (Hsame : stored w2 = stored w1 -> moves obj w w2 /\ stored w2 = stored w).
  { intros Hs2. rewrite Hs1 in Hs2. split; [apply moves_same; [done|lia]|done]. }
  simpl in Hr. destruct r as [err|[err|]].
  - destruct Hr as [Hr|Hr]; [by destruct (Hdone obj eq_refl Hr); auto|by destruct (Hsame Hr); auto].
  - destruct (decide (errors_As_GoogleAPI err = Some 412%Z)) as [H412|H412].
    + rewrite decide_True in Hr by done. destruct Hr as [Hs2 Hsome].
      rewrite Hs1 in Hsome. destruct (Hsame Hs2). auto.
    + rewrite decide_False in Hr by (by intros [_ ?]).
      destruct Hr as [Hr|Hr]; [by destruct (Hdone obj eq_refl Hr); auto|by destruct (Hsame Hr); auto].
  - apply (Hdone obj eq_refl Hr).
Qed.

Lemma wp_readMeta (ctx : Context) (obj : ObjectHandle) (w : W) :
  wp (run (readMeta ctx obj)) (fun r w' => moves obj w w' /\ stored w' = stored w /\
    match r with
    | Ok m => lease_at obj w = Held (Holder m) (Parse_RFC3339 (ExpiresAt m))
    | Err err => errors_Is err StorageErrObjectNotExist = true -> stored w !! obj = None
    end) w.
Proof.
  unfold readMeta. apply wp_run_bind, wp_trigger. intros r w1 [Hs Hr] Hc _. apply wp_ret.
  split; [by apply moves_same|]. split; [done|].
  destruct r as [[data|err]|err].
  - unfold lease_at. rewrite Hr. simpl.
    destruct (unmarshal_meta data) as [m|err] eqn:Hm; [done|].
    rewrite errors_Is_Wrapf, (unmarshal_meta_error _ _ Hm). done.
  - rewrite errors_Is_Wrapf. congruence.
  - done.
Qed.

(** What an operation promises: it moves its own object as the lease does. *)
Definition keeps_lease (l : GCSLock) (obj : ObjectHandle) (op : lock_op) (w : W)
    (r : lock_result) (w' : W) : Prop :=
  moves obj w w' /\
  lease_step l (clock w) (clock w') op (lease_at obj w) r (lease_at obj w').

Lemma lease_at_same (obj : ObjectHandle) (w w' : W) :
  stored w' = stored w -> lease_at obj w' = lease_at obj w.
Proof. unfold lease_at. by intros ->. Qed.

Lemma expired_later (t t' : Time) (s : lease) : (t <= t')%Z -> expired t s -> expired t' s.
Proof. intros Ht (h & u & -> & Hu). exists h, u. split; [done|lia]. Qed.

(** Creating the object once it is known to be absent, at the end of [Acquire]:
    [s] is the lease before, which was free or expired. *)
Lemma wp_create_absent (l : GCSLock) (ctx : Context) (obj : ObjectHandle) (ttl : Duration)
    (w0 w : W) :
  valid_utf8 (l_nodeID l) = true -> moves obj w0 w -> stored w !! obj = None ->
  lease_at obj w0 = Free \/ expired (clock w) (lease_at obj w0) ->
  wp (run (tryCreate l ctx obj ttl))
     (fun r => keeps_lease l obj (OpAcquire ttl) w0 (RAcquired r)) w.
Proof.
  intros Hid Hm Habs Hbefore. eapply wp_mono; [by apply wp_tryCreate|].
  intros [b err] w' [Hm' Hr]. pose proof (proj1 Hm) as Hc. pose proof (proj1 Hm') as Hc'.
  assert (Hbefore' : lease_at obj w0 = Free \/ expired (clock w') (lease_at obj w0)).
  { destruct Hbefore as [?|He]; [by left|right]. by eapply expired_later. }
  split; [by eapply moves_trans|]. destruct b, err as [err|]; [done| | |].
  - destruct Hr as (_ & t & Ht & ->). apply Granted; [done|lia].
  - apply AcquireFailed. destruct Hr as [Hs|(_ & t & Ht & ->)].
    + rewrite (lease_at_same _ _ _ Hs), (lease_at_absent _ _ Habs).
      destruct Hbefore' as [->|He]; auto.
    + right. right. split; [done|]. exists t. split; [lia|done].
  - destruct Hr as [_ [d Hd]]. congruence.
Qed.

(** Deleting an expired lock and taking it, at the end of [Acquire]. *)
Lemma wp_replace_expired (l : GCSLock) (ctx : Context) (obj : ObjectHandle) (ttl : Duration)
    (w w3 : W) :
  valid_utf8 (l_nodeID l) = true -> moves obj w w3 -> stored w3 = stored w ->
  is_Some (stored w !! obj) -> expired (clock w3) (lease_at obj w) ->
  wp (run (r ← trigger (Delete ctx obj);
           match delete_failed r with
           | Some err => mret (false, Some (Wrapf "deleting expired lock: %w" [] err))
           | None => tryCreate l ctx obj ttl
           end))
     (fun r => keeps_lease l obj (OpAcquire ttl) w (RAcquired r)) w3.
Proof.
  intros Hid Hm3 Hs3 [data Hdata] Hexp.
  apply wp_run_bind, wp_trigger. intros r w4 Hdel Hc4 _. simpl in Hdel.
  assert (Hexp4 : expired (clock w4) (lease_at obj w)) by (by eapply expired_later).
  assert (Hgone : stored w4 = delete obj (stored w3) -> moves obj w w4 /\ stored w4 !! obj = None).
  { intros Hs4. destruct (delete_done obj w3 w4 Hc4 Hs4). split; [by eapply moves_trans|done]. }
  destruct r as [err|]; simpl.
  - destruct (errors_Is err StorageErrObjectNotExist).
    { destruct Hdel as [_ Habs]. congruence. }
    apply wp_ret. destruct Hdel as [Hs4|Hs4].
    + destruct (Hgone Hs4) as [Hm4 Habs]. split; [done|]. apply AcquireFailed.
      right. left. by rewrite (lease_at_absent _ _ Habs).
    + split; [by eapply moves_trans, moves_same|]. apply AcquireFailed. left.
      apply lease_at_same. by rewrite Hs4.
  - destruct (Hgone Hdel) as [Hm4 Habs]. apply wp_create_absent; auto.
Qed.

Lemma wp_Acquire (l : GCSLock) (ctx : Context) (key : string) (ttl : Duration) (w : W) :
  valid_utf8 (l_nodeID l) = true ->
  wp (run (Acquire l ctx key ttl))
     (fun r => keeps_lease l (l_bucket l, key) (OpAcquire ttl) w (RAcquired r)) w.
Proof.
  intros Hid. unfold Acquire. set (obj := (l_bucket l, key)).
  apply wp_run_bind. eapply wp_mono; [by apply wp_tryCreate|]. intros [b err] w1 [Hm1 Hr].
  pose proof (proj1 Hm1) as Hc1. destruct err as [err|].
  { destruct b; [done|]. apply wp_ret. split; [done|]. apply AcquireFailed.
    destruct Hr as [Hs|(Habs & t & Ht & ->)]; [left; by apply lease_at_same|].
    right. right. rewrite lease_at_absent by done. split; [by left|]. by exists t. }
  destruct b.
  { apply wp_ret. split; [done|]. destruct Hr as (Habs & t & Ht & ->).
    apply Granted; [left; by apply lease_at_absent|done]. }
  destruct Hr as [Hs1 [data Hdata]]. apply wp_run_bind. eapply wp_mono; [apply wp_readMeta|].
  intros r w2 (Hm2 & Hs2 & Hr). rewrite Hs1 in Hs2.
  rewrite (lease_at_same _ _ _ Hs1) in Hr.
  pose proof (moves_trans _ _ _ _ Hm1 Hm2) as Hm. pose proof (proj1 Hm) as Hc.
  destruct r as [m|err].
  2:{ destruct (errors_Is err StorageErrObjectNotExist); [rewrite Hs1 in Hr; specialize (Hr eq_refl); congruence|].
      apply wp_ret. split; [done|]. apply AcquireFailed. left. by apply lease_at_same. }
  destruct (Parse_RFC3339 (ExpiresAt m)) as [until|].
  2:{ apply wp_ret. split; [done|]. rewrite (lease_at_same _ _ _ Hs2), Hr. by apply Refused. }
  apply wp_run_bind, wp_trigger. intros now w3 Hs3 Hc3 Hnow%storage_now. simpl in Hs3.
  assert (Hm3 : moves obj w w3) by (eapply moves_trans; [done|by apply moves_same]).
  rewrite Hs2 in Hs3. unfold Before. destruct (Z.ltb_spec now until) as [Hu|Hu].
  { apply wp_ret. split; [done|]. rewrite (lease_at_same _ _ _ Hs3), Hr. apply Refused.
    intros u [= <-]. lia. }
  apply wp_replace_expired; [done..|by exists data|].
  exists (Holder m), until. split; [done|lia].
Qed.

Lemma wp_Renew (l : GCSLock) (ctx : Context) (key : string) (ttl : Duration) (w : W) :
  valid_utf8 (l_nodeID l) = true ->
  wp (run (Renew l ctx key ttl))
     (fun r => keeps_lease l (l_bucket l, key) (OpRenew ttl) w (RRenewed r)) w.
Proof.
  intros Hid. unfold Renew. set (obj := (l_bucket l, key)).
  apply wp_run_bind. eapply wp_mono; [apply wp_readMeta|]. intros r w1 (Hm1 & Hs1 & Hr).
  pose proof (lease_at_same obj _ _ Hs1) as Hl1. destruct r as [m|err].
  2:{ destruct (errors_Is err StorageErrObjectNotExist); apply wp_ret; (split; [done|]); rewrite Hl1.
      - rewrite lease_at_absent by auto. apply RenewMissing.
      - apply RenewFailed. by left. }
  destruct (String.eqb_spec (Holder m) (l_nodeID l)) as [Hh|Hh]; cbn [negb].
  2:{ apply wp_ret. split; [done|]. rewrite Hl1, Hr. by apply RenewRefused. }
  apply wp_run_bind, wp_trigger. intros now w2 Hs2 Hc2 Hnow%storage_now. simpl in Hs2.
  rewrite Hs1 in Hs2. pose proof (proj1 Hm1) as Hc1.
  assert (Hm2 : moves obj w w2) by (eapply moves_trans; [done|apply moves_same; congruence]).
  unfold writeMeta. apply wp_run_bind, wp_run_bind, wp_trigger. intros r w3 Hup Hc3 _.
  apply wp_ret. simpl in Hup.
  assert (Hdone : forall d, stored w3 = <[obj := marshal_meta {| Holder := l_nodeID l;
      Acquired := Acquired m; ExpiresAt := format l (Add now ttl) |}]> (stored w2) /\ d ->
    moves obj w w3 /\ lease_at obj w3 = lease_from l now ttl).
  { intros d [Hs3 _]. destruct (upload_done _ _ _ _ _ _ _ Hid Hc3 Hs3). split; [|done].
    by eapply moves_trans. }
  assert (Hfail : forall d, (stored w3 = <[obj := marshal_meta {| Holder := l_nodeID l;
      Acquired := Acquired m; ExpiresAt := format l (Add now ttl) |}]> (stored w2) /\ d) \/
      stored w3 = stored w2 -> forall f err,
    keeps_lease l obj (OpRenew ttl) w (RRenewed (Some (Wrapf f [] err))) w3).
  { intros d [Hd|Hs3] f err.
    - destruct (Hdone _ Hd) as [Hm3 Hl3]. split; [done|]. apply RenewFailed. right.
      exists (Parse_RFC3339 (ExpiresAt m)), now. rewrite <- Hh. split; [done|]. split; [lia|done].
    - split; [by eapply moves_trans, moves_same|]. apply RenewFailed. left.
      apply lease_at_same. congruence. }
  destruct r as [err|[err|]]; apply wp_ret.
  - by eapply Hfail.
  - by eapply Hfail.
  - destruct (Hdone _ Hup) as [Hm3 Hl3]. split; [done|]. rewrite Hl3, Hr, Hh.
    apply Renewed. lia.
Qed.

Lemma wp_Release (l : GCSLock) (ctx : Context) (key : string) (w : W) :
  wp (run (Release l ctx key))
     (fun r => keeps_lease l (l_bucket l, key) OpRelease w (RReleased r)) w.
Proof.
  unfold Release. set (obj := (l_bucket l, key)).
  apply wp_run_bind. eapply wp_mono; [apply wp_readMeta|]. intros r w1 (Hm1 & Hs1 & Hr).
  pose proof (lease_at_same obj _ _ Hs1) as Hl1. destruct r as [m|err].
  2:{ destruct (errors_Is err StorageErrObjectNotExist); apply wp_ret; (split; [done|]); rewrite Hl1.
      - rewrite lease_at_absent by auto. apply ReleasedAlready.
      - apply ReleaseFailed. by left. }
  destruct (String.eqb_spec (Holder m) (l_nodeID l)) as [Hh|Hh]; cbn [negb].
  2:{ apply wp_ret. split; [done|]. rewrite Hl1, Hr. by apply ReleaseRefused. }
  apply wp_run_bind, wp_trigger. intros r w2 Hdel Hc2 _. simpl in Hdel. rewrite Hh in Hr.
  assert (Hgone : stored w2 = delete obj (stored w1) -> moves obj w w2 /\ lease_at obj w2 = Free).
  { intros Hs2. destruct (delete_done obj w1 w2 Hc2 Hs2).
    split; [by eapply moves_trans|by apply lease_at_absent]. }
  destruct r as [err|]; simpl.
  - destruct (errors_Is err StorageErrObjectNotExist).
    { destruct Hdel as [_ Habs]. rewrite Hs1 in Habs. rewrite lease_at_absent in Hr; done. }
    apply wp_ret. destruct Hdel as [Hs2|Hs2].
    + destruct (Hgone Hs2) as [Hm2 Hl2]. split; [done|]. apply ReleaseFailed. right. eauto.
    + split; [by eapply moves_trans, moves_same|]. apply ReleaseFailed. left.
      apply lease_at_same. congruence.
  - apply wp_ret. destruct (Hgone Hdel) as [Hm2 Hl2]. split; [done|]. rewrite Hl2, Hr. apply Released.
Qed.

Lemma wp_GetHolder (l : GCSLock) (ctx : Context) (key : string) (w : W) :
  wp (run (GetHolder l ctx key))
     (fun r => keeps_lease l (l_bucket l, key) OpGetHolder w (RHolder r)) w.
Proof.
  unfold GetHolder. set (obj := (l_bucket l, key)).
  apply wp_run_bind. eapply wp_mono; [apply wp_readMeta|]. intros r w1 (Hm1 & Hs1 & Hr).
  pose proof (lease_at_same obj _ _ Hs1) as Hl1. destruct r as [m|err].
  - apply wp_ret. split; [done|]. rewrite Hl1, Hr. apply HolderIs.
  - destruct (errors_Is err StorageErrObjectNotExist); apply wp_ret; (split; [done|]); rewrite Hl1.
    + rewrite lease_at_absent by auto. apply HolderMissing.
    + apply HolderFailed.
Qed.
End alone.
