(* ===== verification/LockSystem.v ===== *)
(** Several processes on one lock.

    Each process runs one operation of internal/lock/gcslock.go at a time; the
    calls the operations make on the bucket are interleaved in any order, each
    call being answered as [answers] allows, and a process may crash between
    two of them.  The clocks of the processes show instants of a window. *)
From S2P Require Import Prelude Effects GoErrors GoTime GoTimeFormat GoStrings GoJson Interfaces.
From S2P Require Import Lock LockSpec.

(** The processes, known by their identifiers and the zones they are in, the
    lock they share, and the window of time. *)
Record setting : Type := {
  s_bucket : string;
  s_key : string;
  s_nodes : gset string;
  s_zone : string -> Time -> Z;
  s_from : Time;
  s_until : Time;
  s_ttl : Duration;   (** the shortest lease the processes ask for *)
}.

(** The leases asked for end within the years that can be written. *)
Definition ttl_ok (S : setting) (op : lock_op) : Prop :=
  match op with
  | OpAcquire ttl | OpRenew ttl =>
      (s_ttl S <= ttl)%Z /\ writable (Add (s_from S) ttl) /\ writable (Add (s_until S) ttl)
  | OpRelease | OpGetHolder => True
  end.

Definition node_lock (S : setting) (n : string) : GCSLock := NewGCSLock (s_zone S n) (s_bucket S) n.
Definition lock_object (S : setting) : ObjectHandle := (s_bucket S, s_key S).

(** The objects in the bucket; the operation each process is in the middle of;
    and the processes that were told they have the lock, have not begun to
    release it and have not crashed. *)
Record system : Type := mkSystem {
  sys_objects : objects;
  sys_running : gmap string (lock_op * prog gcsE lock_result);
  sys_holders : gset string;
}.

Definition granted (r : lock_result) : bool :=
  match r with RAcquired (true, _) => true | _ => false end.

Definition clock_ok (S : setting) {X : Type} (e : gcsE X) : X -> Prop :=
  match e with
  | Now => fun t => (s_from S <= t <= s_until S)%Z
  | _ => fun _ => True
  end.

Inductive system_step (S : setting) : system -> system -> Prop :=
  | Start os running holders n ctx op :
      n ∈ s_nodes S -> running !! n = None -> ttl_ok S op ->
      system_step S (mkSystem os running holders)
        (mkSystem os (<[n := (op, perform (node_lock S n) ctx (s_key S) op)]> running)
           (if decide (op = OpRelease) then holders ∖ {[n]} else holders))
  | Call os running holders n op X (e : gcsE X) k x os' :
      running !! n = Some (op, Vis e k) -> answers os e x os' -> clock_ok S e x ->
      system_step S (mkSystem os running holders)
        (mkSystem os' (<[n := (op, k x)]> running) holders)
  | Finish os running holders n op r :
      running !! n = Some (op, Done r) ->
      system_step S (mkSystem os running holders)
        (mkSystem os (delete n running) (if granted r then {[n]} ∪ holders else holders))
  | Crash os running holders n :
      system_step S (mkSystem os running holders)
        (mkSystem os (delete n running) (holders ∖ {[n]})).

(** * Safety of the calls of one process

    [mine n os]: the object is a lease of [n].  [stable os]: it does not expire
    within the window. *)
Section safety.
Context (S : setting).

Definition lease_in (os : objects) : lease := lease_of (os !! lock_object S).
Definition mine (n : string) (os : objects) : Prop := exists until, lease_in os = Held n until.
Definition stable (os : objects) : Prop :=
  forall h until, lease_in os = Held h (Some until) -> (s_until S < until)%Z.

(** What every call of [n] guarantees to the others: it leaves their leases
    alone, and its own unless it is releasing it. *)
Definition guarantees (n : string) (op : lock_op) (os os' : objects) : Prop :=
  stable os' /\ (forall m, m <> n \/ op <> OpRelease -> mine m os -> mine m os').

(** [safe n op known p Q]: every call of [p] keeps the guarantee, provided the
    lease is [n]'s where [known] says so; [Q] is what it ends with. *)
Fixpoint safe {A} (n : string) (op : lock_op) (known : bool) (p : prog gcsE A)
    (Q : A -> bool -> Prop) : Prop :=
  match p with
  | Done a => Q a known
  | Vis e k => forall os x os',
      stable os -> (known = true -> mine n os) -> answers os e x os' -> clock_ok S e x ->
      guarantees n op os os' /\
      exists known', (known' = true -> mine n os') /\ safe n op known' (k x) Q
  end.

Lemma safe_bind {A B} (n : string) (op : lock_op) (known : bool) (p : prog gcsE A) (f : A -> prog gcsE B)
    (P : A -> bool -> Prop) (Q : B -> bool -> Prop) :
  safe n op known p P -> (forall a known, P a known -> safe n op known (f a) Q) ->
  safe n op known (p ≫= f) Q.
Proof.
  intros Hp Hf. revert known Hp. induction p as [a|X e k IH]; intros known Hp; [by apply Hf|].
  intros os x os' Hst Hk Ha Hc. destruct (Hp os x os' Hst Hk Ha Hc) as (Hg & known' & Hk' & Hs).
  split; [done|]. exists known'. split; [done|]. by apply IH.
Qed.

Lemma guarantees_same (n : string) (op : lock_op) (os : objects) :
  stable os -> guarantees n op os os.
Proof. intros Hst. by split. Qed.

Lemma mine_unique (n m : string) (os : objects) : mine n os -> mine m os -> n = m.
Proof. intros [u Hu] [v Hv]. congruence. Qed.

Lemma mine_present (n : string) (os : objects) : mine n os -> os !! lock_object S <> None.
Proof. intros [u Hu] Hnone. unfold lease_in in Hu. by rewrite Hnone in Hu. Qed.

Lemma safe_now (n : string) (op : lock_op) (known : bool) :
  safe n op known (trigger Now) (fun t known' =>
    (s_from S <= t <= s_until S)%Z /\ known' = known).
Proof.
  intros os t os' Hst Hk Hos Hc. simpl in Hos. subst os'. split; [by apply guarantees_same|].
  by exists known.
Qed.

(** A process whose identifier can be written in JSON, in a zone of whole
    minutes; and leases that last longer than the window. *)
Definition node_ok (n : string) : Prop :=
  valid_utf8 n = true /\ forall t, good_offset (s_zone S n t).
Definition leases_outlast_window : Prop := (s_until S - s_from S + Second <= s_ttl S)%Z.

Context (Hlong : leases_outlast_window).

Lemma new_lease (n : string) (t : Time) (ttl : Duration) :
  node_ok n -> ttl_ok S (OpAcquire ttl) -> (s_from S <= t <= s_until S)%Z ->
  exists until, lease_from (node_lock S n) t ttl = Held n (Some until) /\ (s_until S < until)%Z.
Proof.
  intros [_ Hzone] (Httl & [Hw1 _] & [_ Hw2]) Ht. unfold leases_outlast_window in Hlong.
  destruct (Parse_Format_writable (s_zone S n (Add t ttl)) (Add t ttl)) as (u & Hu & Hlo & _).
  { apply Hzone. }
  { unfold writable, Add in *. lia. }
  exists u. split; [|unfold Add in *; lia].
  change (Held n (Parse_RFC3339 (Format_RFC3339 (s_zone S n (Add t ttl)) (Add t ttl))) =
          Held n (Some u)). by rewrite Hu.
Qed.

(** Writing a lease of one's own where there was none of another's. *)
Lemma write_own (n : string) (op : lock_op) (acquired : string) (t : Time) (ttl : Duration)
    (os : objects) :
  node_ok n -> ttl_ok S (OpAcquire ttl) -> (s_from S <= t <= s_until S)%Z ->
  os !! lock_object S = None \/ mine n os ->
  let os' := <[lock_object S := marshal_meta {| Holder := n; Acquired := acquired;
                 ExpiresAt := format (node_lock S n) (Add t ttl) |}]> os in
  guarantees n op os os' /\ mine n os'.
Proof.
  intros Hn Httl Ht Hos os'. destruct (new_lease n t ttl Hn Httl Ht) as (u & Hu & Hlt).
  assert (Hl : lease_in os' = Held n (Some u)).
  { rewrite <- Hu. unfold lease_in, os'. rewrite lookup_insert_eq.
    apply (lease_of_written (node_lock S n)). apply Hn. }
  split; [split|].
  - intros h until Hh. rewrite Hl in Hh. congruence.
  - intros m _ Hm. destruct Hos as [Hnone|Hmine]; [by destruct (mine_present _ _ Hm)|].
    rewrite (mine_unique _ _ _ Hm Hmine). by eexists.
  - by eexists.
Qed.

Lemma safe_tryCreate (n : string) (op : lock_op) (known : bool) (ctx : Context) (ttl : Duration) :
  node_ok n -> ttl_ok S (OpAcquire ttl) ->
  safe n op known (tryCreate (node_lock S n) ctx (lock_object S) ttl)
    (fun r known' => r.1 = true -> known' = true).
Proof.
  intros Hn Httl. eapply safe_bind; [apply safe_now|]. intros t known' [Ht ->].
  intros os r os' Hst Hk Hup _. simpl in Hup.
  assert (Hdone : forall d : objects, os' = d /\ (true = true -> os !! lock_object S = None) ->
    d = <[lock_object S := marshal_meta {| Holder := n; Acquired := format (node_lock S n) t;
           ExpiresAt := format (node_lock S n) (Add t ttl) |}]> os ->
    guarantees n op os os' /\ mine n os').
  { intros d [-> Habs] ->. apply write_own; auto. }
  assert (Hfail : (os' = <[lock_object S := marshal_meta {| Holder := n;
      Acquired := format (node_lock S n) t; ExpiresAt := format (node_lock S n) (Add t ttl) |}]> os /\
      (true = true -> os !! lock_object S = None)) \/ os' = os ->
    guarantees n op os os' /\ exists known', (known' = true -> mine n os') /\ known' = known).
  { intros [Hd| ->].
    - destruct (Hdone _ Hd eq_refl). split; [done|]. by exists known.
    - split; [by apply guarantees_same|]. by exists known. }
  destruct r as [err|[err|]].
  - destruct (Hfail Hup) as (Hg & known' & Hk' & _). split; [done|]. exists known'. by split.
  - destruct (decide (errors_As_GoogleAPI err = Some 412%Z)) as [H412|H412].
    + rewrite decide_True in Hup by done. destruct Hup as [-> _].
      split; [by apply guarantees_same|]. exists known. split; [done|]. simpl.
      by rewrite decide_True by done.
    + rewrite decide_False in Hup by (by intros [_ ?]).
      destruct (Hfail Hup) as (Hg & known' & Hk' & _). split; [done|]. exists known'. split; [done|].
      simpl. by rewrite decide_False by done.
  - destruct (Hdone _ Hup eq_refl) as [Hg Hm]. split; [done|]. exists true. by split.
Qed.

(** Reading the metadata: if the holder is [n], the lease is known to be its own;
    and no expiry within the window is read. *)
Lemma safe_readMeta (n : string) (op : lock_op) (known : bool) (ctx : Context) :
  safe n op known (readMeta ctx (lock_object S)) (fun r known' =>
    match r with
    | Ok m => (Holder m = n -> known' = true) /\
              forall until, Parse_RFC3339 (ExpiresAt m) = Some until -> (s_until S < until)%Z
    | Err _ => True
    end).
Proof.
  intros os r os' Hst Hk [-> Hr] _. split; [by apply guarantees_same|].
  destruct r as [[data|err]|err]; [|by exists known..]. simpl.
  destruct (unmarshal_meta data) as [m|err] eqn:Hm; [|by exists known].
  assert (Hl : lease_in os = Held (Holder m) (Parse_RFC3339 (ExpiresAt m))).
  { unfold lease_in. rewrite Hr. simpl. by rewrite Hm. }
  exists (bool_decide (Holder m = n)). split; [|split].
  - intros Hh%bool_decide_eq_true. subst n. by eexists.
  - intros Hh. by apply bool_decide_eq_true.
  - intros u Hu. rewrite Hu in Hl. by eapply Hst.
Qed.

Lemma safe_Acquire (n : string) (known : bool) (ctx : Context) (ttl : Duration) :
  node_ok n -> ttl_ok S (OpAcquire ttl) ->
  safe n (OpAcquire ttl) known (Acquire (node_lock S n) ctx (s_key S) ttl)
    (fun r known' => r.1 = true -> known' = true).
Proof.
  intros Hn Httl. eapply safe_bind; [by apply (safe_tryCreate n (OpAcquire ttl) known ctx ttl)|].
  intros [b [err|]] k1 Hb; [done|]. destruct b; [exact Hb|].
  eapply safe_bind; [apply (safe_readMeta n (OpAcquire ttl) k1 ctx)|].
  intros [m|err] k2 Hm; [|by destruct (errors_Is _ _); [apply safe_tryCreate|]].
  destruct (Parse_RFC3339 (ExpiresAt m)) as [u|]; [|done].
  eapply safe_bind; [apply safe_now|]. intros now k3 [Hnow _].
  destruct Hm as [_ Hu]. specialize (Hu u eq_refl). unfold Before.
  destruct (Z.ltb_spec now u); [done|lia].
Qed.

Lemma safe_Renew (n : string) (known : bool) (ctx : Context) (ttl : Duration) :
  node_ok n -> ttl_ok S (OpRenew ttl) ->
  safe n (OpRenew ttl) known (Renew (node_lock S n) ctx (s_key S) ttl) (fun _ _ => True).
Proof.
  intros Hn Httl. eapply safe_bind; [apply (safe_readMeta n (OpRenew ttl) known ctx)|].
  intros [m|err] k1 Hm; [|by destruct (errors_Is _ _)].
  destruct (String.eqb_spec (Holder m) (l_nodeID (node_lock S n))) as [Hh|]; [|done]. cbn [negb].
  destruct Hm as [Hk _]. specialize (Hk Hh). subst k1.
  eapply safe_bind; [apply safe_now|]. intros now k2 [Hnow ->].
  eapply (safe_bind _ _ _ _ _ (fun _ _ => True)); [|by intros [err|] ? _].
  intros os r os' Hst Hk Hup _. specialize (Hk eq_refl).
  destruct (write_own n (OpRenew ttl) (Acquired m) now ttl os Hn Httl Hnow (or_intror Hk)) as [Hg Hm'].
  assert (Hcases : os' = os \/ os' = <[lock_object S := marshal_meta {| Holder := n;
    Acquired := Acquired m; ExpiresAt := format (node_lock S n) (Add now ttl) |}]> os).
  { simpl in Hup. destruct r as [err|[err|]]; [destruct Hup as [[? _]|?]..|destruct Hup as [? _]]; auto. }
  destruct Hcases as [->| ->].
  - split; [by apply guarantees_same|]. by exists true.
  - split; [done|]. by exists true.
Qed.

Lemma safe_Release (n : string) (known : bool) (ctx : Context) :
  safe n OpRelease known (Release (node_lock S n) ctx (s_key S)) (fun _ _ => True).
Proof.
  eapply safe_bind; [apply (safe_readMeta n OpRelease known ctx)|].
  intros [m|err] k1 Hm; [|by destruct (errors_Is _ _)].
  destruct (String.eqb_spec (Holder m) (l_nodeID (node_lock S n))) as [Hh|]; [|done]. cbn [negb].
  destruct Hm as [Hk _]. specialize (Hk Hh). subst k1.
  eapply (safe_bind _ _ _ _ _ (fun _ _ => True)); [|intros r ? _; by destruct (delete_failed r)].
  intros os r os' Hst Hk Hdel _. specialize (Hk eq_refl).
  assert (Hcases : os' = os \/ os' = delete (lock_object S) os).
  { simpl in Hdel. destruct r as [err|]; [|by right].
    destruct (errors_Is _ _); [left; apply Hdel|by destruct Hdel; auto]. }
  split; [|by exists false]. destruct Hcases as [->| ->]; [by apply guarantees_same|]. split.
  - intros h u. unfold lease_in. by rewrite lookup_delete_eq.
  - intros m' [Hne|]; [|done]. intros Hm'. by destruct (Hne (mine_unique _ _ _ Hm' Hk)).
Qed.

(** Every operation keeps the guarantee, and knows the lease is its own when it
    has been granted. *)
Lemma safe_perform (n : string) (ctx : Context) (op : lock_op) :
  node_ok n -> ttl_ok S op ->
  safe n op false (perform (node_lock S n) ctx (s_key S) op)
    (fun r known => granted r = true -> known = true).
Proof.
  intros Hn Httl. destruct op as [ttl|ttl| |].
  - eapply safe_bind; [by apply safe_Acquire|]. intros [[] err] known Hr; [exact Hr|done].
  - eapply safe_bind; [by apply safe_Renew|]. done.
  - eapply safe_bind; [by apply safe_Release|]. done.
  - eapply (safe_bind _ _ _ _ _ (fun _ _ => True)); [|done].
    eapply safe_bind; [apply (safe_readMeta n OpGetHolder false ctx)|].
    intros [m|err] known _; [done|]. by destruct (errors_Is _ _).
Qed.

(** * The invariant of the system *)

Record system_inv (s : system) : Prop := {
  inv_stable : stable (sys_objects s);
  inv_holders n : n ∈ sys_holders s -> mine n (sys_objects s);
  inv_running n op p : sys_running s !! n = Some (op, p) ->
    (op = OpRelease -> n ∉ sys_holders s) /\
    exists known, (known = true -> mine n (sys_objects s)) /\
      safe n op known p (fun r known => granted r = true -> known = true);
}.

Lemma system_step_inv (s s' : system) :
  (forall n, n ∈ s_nodes S -> node_ok n) ->
  system_inv s -> system_step S s s' -> system_inv s'.
Proof.
  intros Hnodes [Hst Hh Hr] Hstep.
  destruct Hstep as [os rs hs n ctx op Hn Hidle Httl|os rs hs n op X e k x os' Hrun Ha Hc
    |os rs hs n op r Hrun|os rs hs n]; simpl in *.
  - split; simpl; [done| |].
    + intros m Hm. apply Hh. case_decide; [by apply elem_of_difference in Hm as [Hm _]|done].
    + intros m op' p [[<- [= <- <-]]|[Hne Hm]]%lookup_insert_Some.
      * split; [intros ->; rewrite decide_True by done;
          by intros [_ []%not_elem_of_singleton]%elem_of_difference|].
        exists false. split; [done|]. apply safe_perform; auto.
      * destruct (Hr _ _ _ Hm) as [Hrel Hsafe]. split; [|done].
        intros Hop. specialize (Hrel Hop). case_decide; [by intros [? _]%elem_of_difference|done].
  - destruct (Hr _ _ _ Hrun) as [Hrel (known & Hk & Hs)].
    destruct (Hs os x os' Hst Hk Ha Hc) as ([Hst' Hother] & known' & Hk' & Hs').
    split; simpl; [done| |].
    + intros m Hm. apply Hother; [|auto]. destruct (decide (m = n)) as [->|]; [|by left].
      right. intros Hop. by apply (Hrel Hop).
    + intros m op' p [[<- [= <- <-]]|[Hne Hm]]%lookup_insert_Some; [by eauto|].
      destruct (Hr _ _ _ Hm) as [Hrel' (km & Hkm & Hsm)]. split; [done|].
      exists km. split; [|done]. intros Heq. apply Hother; auto.
  - destruct (Hr _ _ _ Hrun) as [Hrel (known & Hk & Hs)].
    split; simpl; [done| |].
    + intros m Hm. destruct (granted r) eqn:Hg; [|by apply Hh].
      apply elem_of_union in Hm as [->%elem_of_singleton|Hm]; auto.
    + intros m op' p [Hne Hm]%lookup_delete_Some. destruct (Hr _ _ _ Hm) as [Hrel' Hsafe].
      split; [|done]. intros Hop. specialize (Hrel' Hop). destruct (granted r); [|done].
      by intros [->%elem_of_singleton|]%elem_of_union.
  - split; simpl; [done| |].
    + intros m [Hm _]%elem_of_difference. by apply Hh.
    + intros m op' p [Hne Hm]%lookup_delete_Some. destruct (Hr _ _ _ Hm) as [Hrel Hsafe].
      split; [|done]. intros Hop [Hm' _]%elem_of_difference. by apply (Hrel Hop).
Qed.
End safety.

(** * Taking over an expired lease

    The two halves of [Acquire] on an expired lease: looking, which changes
    nothing, and taking it, which deletes whatever object is there. *)
Section takeover.
Context (S : setting) (ctx : Context) (ttl : Duration) (t : Time).
Context (Ht : (s_from S <= t <= s_until S)%Z).

Definition takeover (n : string) : prog gcsE lock_result :=
  r ← (r ← trigger (Delete ctx (lock_object S));
       match delete_failed r with
       | Some err => mret (false, Some (Wrapf "deleting expired lock: %w" [] err))
       | None => tryCreate (node_lock S n) ctx (lock_object S) ttl
       end);
  mret (RAcquired r).

Lemma call_step {X : Type} (os os' : objects) rs hs (n : string) (op : lock_op) (e : gcsE X) k (x : X) s :
  answers os e x os' -> clock_ok S e x ->
  rtc (system_step S) (mkSystem os' (<[n := (op, k x)]> rs) hs) s ->
  rtc (system_step S) (mkSystem os (<[n := (op, Vis e k)]> rs) hs) s.
Proof.
  intros Ha Hc Hs. rewrite <- (insert_insert_eq rs n (op, k x) (op, Vis e k)) in Hs.
  eapply rtc_l; [|exact Hs].
  eapply Call; [apply lookup_insert_eq|done..].
Qed.

Lemma look_steps (n : string) (os : objects) rs hs (data h : string) (until : Time) :
  n ∈ s_nodes S -> rs !! n = None -> ttl_ok S (OpAcquire ttl) ->
  os !! lock_object S = Some data -> lease_of (Some data) = Held h (Some until) -> (until <= t)%Z ->
  rtc (system_step S) (mkSystem os rs hs) (mkSystem os (<[n := (OpAcquire ttl, takeover n)]> rs) hs).
Proof.
  intros Hn Hidle Httl Hdata Hlease Hu. unfold lease_of in Hlease.
  destruct (unmarshal_meta data) as [m|] eqn:Hm; [|done]. injection Hlease as <- Hexp.
  eapply rtc_l; [by apply (Start S os rs hs n ctx (OpAcquire ttl))|]. rewrite decide_False by done.
  eapply call_step; [done|exact Ht|].
  apply (call_step os os _ _ _ _ _ _ (Closed (Some (Lib (GoogleAPIError 412))))); [by split|done|].
  apply (call_step os os _ _ _ _ _ _ (Ok (Ok data))); [by split|done|].
  rewrite Hm. cbn -[Parse_RFC3339]. rewrite Hexp.
  eapply call_step; [done|exact Ht|]. unfold Before. destruct (Z.ltb_spec t until); [lia|].
  apply rtc_refl.
Qed.

Lemma take_steps (n : string) (os : objects) rs hs :
  rs !! n = None -> valid_utf8 n = true ->
  exists data, lease_of (Some data) = lease_from (node_lock S n) t ttl /\
    rtc (system_step S) (mkSystem os (<[n := (OpAcquire ttl, takeover n)]> rs) hs)
      (mkSystem (<[lock_object S := data]> (delete (lock_object S) os)) rs ({[n]} ∪ hs)).
Proof.
  intros Hidle Hn. eexists. split.
  { apply (lease_of_written (node_lock S n) (format (node_lock S n) t) t ttl Hn). }
  apply (call_step os (delete (lock_object S) os) _ _ _ _ _ _ None); [done..|].
  eapply call_step; [done|exact Ht|].
  eapply (call_step _ _ _ _ _ _ _ _ (Closed None)); [by split; [|rewrite lookup_delete_eq]|done|].
  eapply rtc_l; [eapply Finish, lookup_insert_eq|]. rewrite delete_insert_id by done. apply rtc_refl.
Qed.
End takeover.
