(* ===== verification/ExampleBucket.v ===== *)
(** A concrete bucket: a storage service without failures, whose clock advances
    by a second at every reading.  The theorems about the lock are applied to it. *)
From S2P Require Import Prelude Effects GoErrors GoTime GoTimeFormat GoStrings GoJson Interfaces.
From S2P Require Import Lock LockSpec LockSystem.

Record bucket : Type := mkBucket {
  b_objects : objects;
  b_clock : Time;
}.

Definition serve {X : Type} (e : gcsE X) : bucket -> X * bucket :=
  match e with
  | Now => fun b =>
      let t := Add (b_clock b) Second in (t, mkBucket (b_objects b) t)
  | Download _ obj => fun b =>
      match b_objects b !! obj with
      | Some data => (Ok (Ok data), b)
      | None => (Err (Lib StorageErrObjectNotExist), b)
      end
  | Upload _ obj ifAbsent data => fun b =>
      match b_objects b !! obj, ifAbsent with
      | Some _, true => (Closed (Some (Lib (GoogleAPIError 412))), b)
      | _, _ => (Closed None, mkBucket (<[obj := data]> (b_objects b)) (b_clock b))
      end
  | Delete _ obj => fun b =>
      match b_objects b !! obj with
      | Some _ => (None, mkBucket (delete obj (b_objects b)) (b_clock b))
      | None => (Some (Lib StorageErrObjectNotExist), b)
      end
  end.

#[export] Instance bucket_client : Handler gcsE bucket := {| handle X e := serve e |}.

#[export] Instance bucket_lawful : LawfulStorage bucket.
Proof.
  refine {| stored := b_objects; clock := b_clock |}.
  - intros X e [os t] w' x Hcall. simpl in Hcall.
    destruct e as [|ctx obj|ctx obj ifAbsent data|ctx obj]; simpl in Hcall.
    + injection Hcall as <- <-. simpl. split; [done|]. unfold Add, Second. lia.
    + destruct (os !! obj) eqn:Ho; injection Hcall as <- <-; (split; [by split|done]).
    + destruct (os !! obj) eqn:Ho, ifAbsent; injection Hcall as <- <-; simpl; (split; [|done]).
      * rewrite Ho. by split.
      * by split.
      * by split.
      * by split.
    + destruct (os !! obj) eqn:Ho; injection Hcall as <- <-; (split; [done|done]).
  - intros [os t] w' t' Hcall. by injection Hcall as <- <-.
Defined.

(** The other components of a process, which always succeed. *)
#[export] Instance bucket_runtime : Runtime bucket := {|
  rt_now b := (b_clock b, b);
  rt_wait _ _ b := (None, b);
|}.
#[export] Instance bucket_coordinator : StateCoordinator bucket := {|
  coord_SetReadOnly _ _ := mret None;
  coord_SetReadWrite _ _ := mret None;
  coord_GetState _ _ := mret (DatabaseStateReadOnly, None);
|}.
#[export] Instance bucket_publisher : ReplicationPublisher bucket := {|
  pub_Publish _ _ := mret None;
  pub_HealthCheck _ := mret None;
|}.

Definition sample_time : Time := (63850000000 * Second)%Z.
Definition two_minutes : Duration := (2 * Minute)%Z.

(** Two processes, in two zones, for a minute of the year 2024. *)
Definition sample_setting : setting := {|
  s_bucket := "locks";
  s_key := "leader";
  s_nodes := {[ "node-a"; "node-b" ]};
  s_zone := fun n _ => if String.eqb n "node-a" then 7200 else -19800;
  s_from := sample_time;
  s_until := sample_time + Minute;
  s_ttl := two_minutes;
|}%Z.

(** The lease of a third process that ended when the minute began. *)
Definition old_lease : string :=
  marshal_meta {| Holder := "node-c"; Acquired := "";
                  ExpiresAt := Format_RFC3339 0 sample_time |}.
Definition sample_objects : objects := {[ ("locks", "leader") := old_lease ]}.
