(* ===== verification/LockProps.v ===== *)
(** The properties of the distributed lock. *)
From S2P Require Import Prelude Effects GoErrors GoTime GoTimeFormat GoStrings GoJson Interfaces.
From S2P Require Import Config State Metrics Trace Failover ExampleWorld.
From S2P Require Import Lock LockSpec LockSystem ExampleBucket.

(** C16: an operation that runs alone is a step of a lease.  Over any storage
    service, with failures, each of the four operations returns and moves the
    lease in its object as the abstract lock does: a free or expired lease is
    granted, for the time asked for without its fraction of a second; a valid
    one is refused; only the holder renews and releases; a failure leaves the
    lease as it was or moved as the operation would have.  No other object is
    touched. *)
Theorem lock_refines_lease {W} `{LawfulStorage W} (l : GCSLock) (ctx : Context) (key : string)
    (op : lock_op) (w : W) :
  valid_utf8 (l_nodeID l) = true ->
  wp (run (perform l ctx key op)) (fun r w' =>
    lease_step l (clock w) (clock w') op
      (lease_of (stored w !! (l_bucket l, key))) r (lease_of (stored w' !! (l_bucket l, key))) /\
    forall o, o <> (l_bucket l, key) -> stored w' !! o = stored w !! o) w.
Proof.
  intros Hid.
  assert (Hkeep : wp (run (perform l ctx key op)) (keeps_lease l (l_bucket l, key) op w) w).
  { destruct op; apply wp_run_bind;
      (eapply wp_mono; [by first [apply wp_Acquire | apply wp_Renew | apply wp_Release | apply wp_GetHolder]|]);
      intros r w' Hr; apply wp_ret; exact Hr. }
  eapply wp_mono; [exact Hkeep|]. intros r w' [[_ Ho] Hs]. by split.
Qed.

(** C14: at most one process holds the lock.  Any number of processes run
    their operations on one lock, their calls on the bucket interleaved in any
    order, answered with failures or without, any of them crashing at any point.
    As long as no lease can expire (the leases asked for are longer, by a second
    for the rounding, than the window of time all the clocks show) at most one
    process has been granted the lock and has not begun to release it. *)
Theorem lock_mutual_exclusion (S : setting) (os : objects) (s : system) (n m : string) :
  (forall n, n ∈ s_nodes S -> node_ok S n) ->
  leases_outlast_window S ->
  stable S os ->
  rtc (system_step S) (mkSystem os ∅ ∅) s ->
  n ∈ sys_holders s -> m ∈ sys_holders s -> n = m.
Proof.
  intros Hnodes Hlong Hst Hrun.
  assert (Hinv : system_inv S s).
  { assert (Hstart : system_inv S (mkSystem os ∅ ∅)) by (split; simpl; [done|set_solver|done]).
    revert Hstart. induction Hrun as [s|s1 s2 s3 Hstep _ IH]; [done|].
    intros Hinv. apply IH. by apply (system_step_inv S Hlong s1). }
  intros Hn Hm. eapply mine_unique; by apply (inv_holders S s Hinv).
Qed.

(** C15: once a lease has expired, two processes can both be granted the lock.
    [Acquire] deletes the object without checking that it still is the expired
    one: a process that looked before another took the lock over deletes the
    new lease and takes the lock too.  No call fails in this run; the bucket is
    left with a new lease of the process that came last. *)
Theorem expired_lock_granted_twice (S : setting) (ctx : Context) (ttl : Duration) (a b : string)
    (os : objects) (data h : string) (until : Time) :
  a ∈ s_nodes S -> b ∈ s_nodes S -> a <> b -> valid_utf8 a = true -> valid_utf8 b = true ->
  ttl_ok S (OpAcquire ttl) -> (s_from S <= s_until S)%Z ->
  os !! lock_object S = Some data ->
  lease_of (Some data) = Held h (Some until) -> (until <= s_until S)%Z ->
  exists os', rtc (system_step S) (mkSystem os ∅ ∅) (mkSystem os' ∅ {[ a; b ]}) /\
    lease_in S os' = lease_from (node_lock S a) (s_until S) ttl.
Proof.
  intros Ha Hb Hne Hva Hvb Httl Hwin Hdata Hlease Hu.
  assert (Ht : (s_from S <= s_until S <= s_until S)%Z) by lia.
  destruct (take_steps S ctx ttl (s_until S) Ht b os (<[a := (OpAcquire ttl, takeover S ctx ttl a)]> ∅) ∅)
    as (d1 & _ & Htake1); [by rewrite lookup_insert_ne|done|].
  destruct (take_steps S ctx ttl (s_until S) Ht a (<[lock_object S := d1]> (delete (lock_object S) os))
    ∅ ({[b]} ∪ ∅)) as (d2 & Hd2 & Htake2); [done..|].
  eexists. split; [|unfold lease_in; by rewrite lookup_insert_eq].
  etransitivity.
  { eapply (look_steps S ctx ttl (s_until S) Ht a os ∅ ∅); done. }
  etransitivity.
  { eapply (look_steps S ctx ttl (s_until S) Ht b os _ ∅); [done|by rewrite lookup_insert_ne|done..]. }
  etransitivity; [exact Htake1|].
  rewrite (right_id_L ∅ (∪) {[b]}) in Htake2 |- *.
  exact Htake2.
Qed.

(** * The failover manager over this lock *)

Section manager.
Context {W : Type} `{Runtime W, StateCoordinator W, ReplicationPublisher W, LawfulStorage W}.

(** C17: the manager does not see that the lock is free.  Over this lock a
    missing object is an error of [GetHolder], not an empty holder, and a check
    ends there: however often it checks, the manager stays as it is and makes no
    call on the coordinator, although its own comment takes a lock that nobody
    holds for the sign that the local node is active again. *)
Theorem manager_ignores_free_lock (l : GCSLock) (n : nat) (ctx : Context) (fm : Manager)
    (w : traced W) :
  stored (inner w) !! (l_bucket l, lockKey fm) = None ->
  wp (@Run (traced W) _ (@traced_lock W (gcs_lock l)) _ _ n ctx fm) (fun fm' w' =>
    fm' = fm /\ stored (inner w') !! (l_bucket l, lockKey fm) = None /\
    exists calls, trace w' = trace w ++ calls /\
      Forall (fun c => exists err, c = CallGetHolder (lockKey fm) ("", Some err)) calls) w.
Proof.
  revert w. induction n as [|n IH]; intros w Habs.
  { apply wp_ret. split; [done|]. split; [done|]. exists []. by rewrite app_nil_r. }
  apply wp_bind, wp_bind. unfold lock_GetHolder, traced_lock, gcs_lock.
  apply (wp_recording _ _ (fun calls w' => stored w' !! (l_bucket l, lockKey fm) = None /\
    exists err, calls = trace w ++ [CallGetHolder (lockKey fm) ("", Some err)])).
  - eapply wp_mono; [apply wp_GetHolder|]. intros r w' [[_ _] Hs].
    unfold lease_at in Hs. rewrite Habs in Hs. simpl in Hs.
    remember (lease_of (stored w' !! _)) as s' eqn:Hs'.
    inversion Hs; subst.
    + split; [|by eexists]. destruct (stored w' !! _) eqn:Ho; [|done].
      simpl in *. by destruct (unmarshal_meta _).
    + split; [|by eexists]. destruct (stored w' !! _) eqn:Ho; [|done].
      simpl in *. by destruct (unmarshal_meta _).
  - intros [holder err] w1 [Habs1 [err' Hcalls]] Htr. rewrite Htr in Hcalls.
    apply app_inv_head in Hcalls. injection Hcalls as -> ->.
    apply wp_ret. eapply wp_mono; [by apply IH|].
    intros fm' w' (-> & Habs' & calls & Htr' & Hall). split; [done|]. split; [done|].
    eexists. split; [by rewrite Htr', Htr, <- app_assoc|]. constructor; [by eexists|done].
Qed.
End manager.

(** * On concrete buckets *)

Definition sample_lock : GCSLock := node_lock sample_setting "node-a".

Lemma lock_refines_lease_witness :
  let w := mkBucket sample_objects sample_time in
  lease_of (stored w !! ("locks", "leader")) = Held "node-c" (Some sample_time) /\
  wp (run (perform sample_lock Background "leader" (OpAcquire two_minutes))) (fun r w' =>
    lease_step sample_lock (clock w) (clock w') (OpAcquire two_minutes)
      (lease_of (stored w !! (l_bucket sample_lock, "leader"))) r
      (lease_of (stored w' !! (l_bucket sample_lock, "leader"))) /\
    forall o, o <> (l_bucket sample_lock, "leader") -> stored w' !! o = stored w !! o) w.
Proof.
  intros w. split; [vm_compute; reflexivity|].
  apply (lock_refines_lease sample_lock Background "leader" (OpAcquire two_minutes) w). reflexivity.
Defined.

Lemma sample_nodes_ok (n : string) : n ∈ s_nodes sample_setting -> node_ok sample_setting n.
Proof.
  intros Hn. assert (n = "node-a" \/ n = "node-b") as [->| ->] by set_solver.
  - split; [done|]. intros t. by exists 120%Z.
  - split; [done|]. intros t. by exists (-330)%Z.
Qed.

Lemma sample_ttl_ok : ttl_ok sample_setting (OpAcquire two_minutes).
Proof. vm_compute. naive_solver. Qed.

(** One process takes the free lock. *)
Definition sample_holding : system :=
  mkSystem {[ ("locks", "leader") := marshal_meta {| Holder := "node-a";
      Acquired := format sample_lock sample_time;
      ExpiresAt := format sample_lock (Add sample_time two_minutes) |} ]} ∅ {[ "node-a" ]}.

Lemma sample_run : rtc (system_step sample_setting) (mkSystem ∅ ∅ ∅) sample_holding.
Proof.
  eapply rtc_l; [apply (Start _ _ _ _ "node-a" Background (OpAcquire two_minutes));
    [set_solver|done|apply sample_ttl_ok]|]. rewrite decide_False by done.
  eapply (call_step sample_setting _ _ _ _ _ _ _ _ sample_time); [done|done|].
  eapply (call_step sample_setting _ _ _ _ _ _ _ _ (Closed None)); [by split|done|].
  eapply rtc_l; [eapply Finish, lookup_insert_eq|].
  replace (delete "node-a" _) with (∅ : gmap string (lock_op * prog gcsE lock_result)) by done.
  apply rtc_refl.
Qed.

Lemma lock_mutual_exclusion_witness :
  "node-a" ∈ sys_holders sample_holding /\
  forall m, m ∈ sys_holders sample_holding -> "node-a" = m.
Proof.
  split; [set_solver|]. intros m.
  apply (lock_mutual_exclusion sample_setting ∅ sample_holding).
  - apply sample_nodes_ok.
  - vm_compute. discriminate.
  - intros h u. unfold lease_in. rewrite lookup_empty. discriminate.
  - apply sample_run.
  - set_solver.
Defined.

Lemma expired_lock_granted_twice_witness :
  exists os', rtc (system_step sample_setting) (mkSystem sample_objects ∅ ∅)
      (mkSystem os' ∅ {[ "node-a"; "node-b" ]}) /\
    lease_in sample_setting os' =
      lease_from sample_lock (sample_time + Minute)%Z two_minutes.
Proof.
  apply (expired_lock_granted_twice sample_setting Background two_minutes "node-a" "node-b"
           sample_objects old_lease "node-c" sample_time).
  - set_solver.
  - set_solver.
  - discriminate.
  - reflexivity.
  - reflexivity.
  - apply sample_ttl_ok.
  - vm_compute. discriminate.
  - reflexivity.
  - vm_compute. reflexivity.
  - vm_compute. discriminate.
Defined.

Lemma manager_ignores_free_lock_witness :
  let fm := NewManager (sample_config 2) (Some []) "node-a" in
  wp (@Run (traced bucket) _ (@traced_lock bucket (gcs_lock sample_lock)) _ _ 3 Background fm)
    (fun fm' w' => fm' = fm /\ stored (inner w') !! ("locks", lockKey fm) = None /\
      exists calls, trace w' = calls /\
        Forall (fun c => exists err, c = CallGetHolder (lockKey fm) ("", Some err)) calls)
    (mkTraced (mkBucket ∅ sample_time) []).
Proof.
  apply (manager_ignores_free_lock sample_lock 3 Background
           (NewManager (sample_config 2) (Some []) "node-a") (mkTraced (mkBucket ∅ sample_time) [])).
  reflexivity.
Defined.
