(* ===== verification/FailoverCluster.v ===== *)
(** The failover manager in its cluster: the lock on GCS and the coordinator
    over PostgreSQL together.

    Failover is proved against interfaces; here they are the lock of Lock and
    the coordinator of Coordinator.  [Cluster] says that the bucket and the
    databases are different services, [Reachable] that they answer. *)
From S2P Require Import Prelude Effects GoErrors GoTime GoTimeFormat GoStrings GoJson Interfaces.
From S2P Require Import ConnString Sql Config State Metrics Trace Coordinator CoordinatorSpec.
From S2P Require Import Failover FailoverSpec ExampleWorld ExampleServer.
From S2P Require Import Lock LockSpec LockSystem ExampleBucket.

(** * The services *)

Class Cluster (W : Type)
  `{LawfulStorage W, PgServer W, Runtime W, ReplicationPublisher W} : Prop := {
  cl_handle {X} (e : gcsE X) db (w : W) : read_only db (handle e w).2 = read_only db w;
  cl_connect ctx s (w : W) : stored (conn_Connect ctx s w).2 = stored w;
  cl_exec c ctx sql args (w : W) : stored (conn_Exec c ctx sql args w).2 = stored w;
  cl_query c ctx sql (w : W) : stored (conn_QueryRow c ctx sql w).2 = stored w;
  cl_close c ctx (w : W) : stored (conn_Close c ctx w).2 = stored w;
  cl_now_stored (w : W) : stored (rt_now w).2 = stored w;
  cl_now_mode db (w : W) : read_only db (rt_now w).2 = read_only db w;
  cl_health_stored ctx : preserves (W := W) stored (pub_HealthCheck ctx);
  cl_health_mode ctx db : preserves (W := W) (read_only db) (pub_HealthCheck ctx);
}.

(** The lock object can be read, the database of [db] accepts connections and
    its statements succeed, but that an ALTER needs a session that may write. *)
Class Reachable (W : Type) (db : DBConfig) `{LawfulStorage W, PgServer W} : Prop := {
  rc_download ctx obj data (w : W) :
    stored w !! obj = Some data -> (handle (Download ctx obj) w).1 = Ok (Ok data);
  rc_connect ctx (w : W) : exists c, (conn_Connect ctx (buildConnString db) w).1 = Ok c;
  rc_alter c ctx v (w : W) :
    session_target c w = Some (buildConnString db) -> session_default c w = false ->
    (conn_Exec c ctx (alter_sql (db_Database db) (on_off v)) [] w).1 = None;
  rc_reset c ctx (w : W) :
    session_target c w = Some (buildConnString db) -> (conn_Exec c ctx reset_sql [] w).1 = None;
  rc_show c ctx (w : W) :
    session_target c w = Some (buildConnString db) ->
    exists v, (conn_QueryRow c ctx show_sql w).1 = Ok v;
}.

(** * The operations over reachable services *)

Section reached.
Context {W : Type} {db : DBConfig} `{Reachable W db}.

Lemma GetHolder_reached (l : GCSLock) (ctx : Context) (key h : string) (until : option Time) (w : W) :
  lease_at (l_bucket l, key) w = Held h until ->
  wp (run (GetHolder l ctx key)) (fun r w' => r = (h, None) /\ stored w' = stored w) w.
Proof.
  intros Hl. unfold GetHolder, readMeta. apply wp_run_bind, wp_run_bind, wp_run_trigger.
  intros r w1 Hcall. pose proof (storage_answers _ _ _ _ Hcall) as [[Hs _] _].
  unfold lease_at, lease_of in Hl.
  destruct (stored w !! (l_bucket l, key)) as [data|] eqn:Hd; [|done].
  pose proof (rc_download ctx _ _ _ Hd) as Hr. rewrite Hcall in Hr. simpl in Hr. subst r.
  destruct (unmarshal_meta data) as [m|]; [|done]. injection Hl as <- _.
  by apply wp_ret, wp_ret.
Qed.

Lemma getStateWithConn_reached (ctx : Context) (conn : nat) (w : W) :
  session_target conn w = Some (buildConnString db) ->
  wp (getStateWithConn ctx conn) (fun r w' =>
    read_only db w' = read_only db w /\ r = (mode_of (session_default conn w), None)) w.
Proof.
  intros Ht. unfold getStateWithConn. apply wp_bind, wp_call. intros r w1 Hreset.
  pose proof (rc_reset conn ctx w Ht) as Hr. rewrite Hreset in Hr. simpl in Hr. subst r.
  destruct (srv_exec _ _ db _ _ _ _ _ (or_intror eq_refl) Hreset) as (Ht1 & Hd & Hro).
  rewrite <- (Ht1 : session_target conn w1 = _) in Ht.
  apply wp_bind, wp_call. intros r w2 Hshow.
  destruct (rc_show conn ctx w1 Ht) as [v Hv]. rewrite Hshow in Hv. simpl in Hv. subst r.
  destruct (srv_show _ _ db _ _ _ Hshow) as [Hro2 Hv]. rewrite (Hv v eq_refl), Hd.
  destruct (session_default conn w); apply wp_ret; (split; [congruence|done]).
Qed.

Lemma with_conn_reached {A} (ctx : Context) (failed : error -> A) (body : nat -> Go W A)
    (Q : A -> bool -> Prop) (w : W) :
  (forall conn w1, session_target conn w1 = Some (buildConnString db) ->
     session_default conn w1 = read_only db w -> read_only db w1 = read_only db w ->
     wp (body conn) (fun a w2 => Q a (read_only db w2)) w1) ->
  wp (with_conn ctx db failed body) (fun a w' => Q a (read_only db w')) w.
Proof.
  intros Hbody. unfold with_conn, connect. apply wp_bind, wp_bind, wp_call. intros r w1 Hc.
  destruct (rc_connect ctx w) as [conn Hr]. rewrite Hc in Hr. simpl in Hr. subst r.
  destruct (srv_connect _ _ _ _ _ Hc) as [Hro Hs]. destruct (Hs conn eq_refl) as [Ht Hd].
  apply wp_ret, wp_bind. eapply wp_mono; [by apply Hbody|]. intros a w2 HQ.
  apply wp_bind, wp_call. intros r w3 Hclose. apply wp_ret.
  by rewrite (srv_close _ _ db _ _ _ Hclose).
Qed.

Lemma GetState_reached (ctx : Context) (w : W) :
  wp (GetState ctx db) (fun r w' =>
    read_only db w' = read_only db w /\ r = (mode_of (read_only db w), None)) w.
Proof.
  apply (with_conn_reached ctx _ _ (fun a ro => ro = read_only db w /\
    a = (mode_of (read_only db w), None))).
  intros conn w1 Ht Hd Hro. eapply wp_mono; [by apply getStateWithConn_reached|].
  intros r w2 [Hro2 ->]. by rewrite Hro2, Hd.
Qed.

(** Whatever it reports, the switch is made. *)
Lemma SetReadOnly_reached (ctx : Context) (w : W) :
  wp (SetReadOnly ctx db) (fun _ w' => read_only db w' = true) w.
Proof.
  apply (with_conn_reached ctx Some _ (fun _ ro => ro = true)). intros conn w1 Ht Hd Hro.
  apply wp_bind, wp_call. intros r w2 Halter.
  pose proof (srv_alter _ _ _ true _ _ _ Ht Halter) as (Ht2 & _ & Hr).
  destruct (session_default conn w1) eqn:Hdef.
  { destruct r as [err|]; [|by destruct Hr]. apply wp_ret. congruence. }
  pose proof (rc_alter conn ctx true w1 Ht Hdef) as Hok. simpl in Hok. rewrite Halter in Hok.
  simpl in Hok. subst r. destruct Hr as [_ Hro2].
  apply wp_bind, wp_call. intros r w3 Hterm.
  destruct (srv_exec _ _ db _ _ _ _ _ (or_introl eq_refl) Hterm) as (_ & _ & Hro3).
  destruct r as [err|]; [apply wp_ret; congruence|].
  apply wp_bind. eapply wp_mono; [apply (getStateWithConn_spec ctx db)|].
  intros [s [err|]] w4 [Hro4 _]; [apply wp_ret; congruence|].
  destruct (negb _); apply wp_ret; congruence.
Qed.
End reached.

(** * What is kept *)

Section frame.
Context {W : Type} `{Cluster W}.

Lemma run_keeps_mode {A} (db : DBConfig) (p : prog gcsE A) :
  preserves (W := W) (read_only db) (run p).
Proof.
  induction p as [a|X e k IH]; simpl; [apply preserves_ret|].
  apply preserves_bind; [|done]. apply preserves_call. intros w. apply cl_handle.
Qed.

#[local] Hint Resolve cl_connect cl_exec cl_query cl_close : go.

Lemma getStateWithConn_keeps_objects (ctx : Context) (conn : nat) :
  preserves (W := W) stored (getStateWithConn ctx conn).
Proof. unfold getStateWithConn. preserves_tac.
Qed.
#[local] Hint Resolve getStateWithConn_keeps_objects : go.

Lemma SetReadOnly_keeps_objects (ctx : Context) (db : DBConfig) :
  preserves (W := W) stored (SetReadOnly ctx db).
Proof. unfold SetReadOnly, with_conn, connect. preserves_tac. Qed.

Lemma SetReadWrite_keeps_objects (ctx : Context) (db : DBConfig) :
  preserves (W := W) stored (SetReadWrite ctx db).
Proof. unfold SetReadWrite, with_conn, connect. preserves_tac. Qed.

Lemma GetState_keeps_objects (ctx : Context) (db : DBConfig) :
  preserves (W := W) stored (GetState ctx db).
Proof. unfold GetState, with_conn, connect. preserves_tac. Qed.
End frame.

(** * What the manager is told *)

Definition no_release (calls : list call_event) : bool :=
  forallb (fun c => match c with CallRelease _ _ => false | _ => true end) calls.

(** Until the lock is released, the holder of [key] is [h]. *)
Fixpoint told (key h : string) (calls : list call_event) : Prop :=
  match calls with
  | [] => True
  | CallRelease _ _ :: _ => True
  | CallGetHolder k r :: calls => (k = key -> r = (h, None)) /\ told key h calls
  | _ :: calls => told key h calls
  end.

Definition not_asked (c : call_event) : bool :=
  match c with CallGetHolder _ _ => false | _ => true end.

Lemma told_app (key h : string) (calls1 calls2 : list call_event) :
  (no_release calls1 = true -> told key h calls2) -> told key h calls1 ->
  told key h (calls1 ++ calls2).
Proof.
  induction calls1 as [|c calls1 IH]; simpl; [auto|]. intros H2 H1.
  destruct c; try exact (IH H2 H1); [done|]. destruct H1 as [Hr H1]. split; [done|]. by apply IH.
Qed.

Lemma told_app_inv (key h : string) (calls1 calls2 : list call_event) :
  told key h (calls1 ++ calls2) -> no_release calls1 = true -> told key h calls2.
Proof.
  induction calls1 as [|c calls1 IH]; simpl; [auto|]. destruct c; try exact IH; try done.
  intros [_ Ht]. auto.
Qed.

Lemma told_prefix (key h : string) (calls1 calls2 : list call_event) :
  told key h (calls1 ++ calls2) -> told key h calls1.
Proof.
  induction calls1 as [|c calls1 IH]; simpl; [done|]. destruct c; try exact IH; try done.
  intros [? Ht]. auto.
Qed.

Lemma no_release_app (calls1 calls2 : list call_event) :
  no_release (calls1 ++ calls2) = no_release calls1 && no_release calls2.
Proof. apply forallb_app. Qed.

(** What the coordinator's answers say of a database that was read-only, or not,
    at first ([ro0]) and is at the end ([ro]). *)
Definition answered (ro0 ro : bool) (c : call_event) : Prop :=
  match c with
  | CallSetReadOnly _ _ => ro = true
  | CallGetState _ r => exists b, r = (mode_of b, None) /\ (b = true -> ro = true)
  | CallSetReadWrite _ r => ro0 = true -> r <> None
  | _ => True
  end.

Lemma answered_mono (ro0 ro ro' : bool) (c : call_event) :
  (ro = true -> ro' = true) -> answered ro0 ro c -> answered ro0 ro' c.
Proof. destruct c; simpl; auto. intros Hm (b & -> & Hb). eauto. Qed.

Section told.
Context {W : Type} {db : DBConfig} `{Cluster W, !Reachable W db}.
Context (l : GCSLock) (key h : string) (w0 : W).

Definition cluster_inv (calls : list call_event) (w : W) : Prop :=
  (read_only db w0 = true -> read_only db w = true) /\
  Forall (answered (read_only db w0) (read_only db w)) calls /\
  told key h calls /\ (no_release calls = true -> stored w = stored w0).

Lemma cluster_inv_step (calls : list call_event) (c : call_event) (w w' : W) :
  cluster_inv calls w -> (read_only db w = true -> read_only db w' = true) ->
  answered (read_only db w0) (read_only db w') c ->
  (no_release calls = true -> told key h [c]) ->
  (no_release [c] = true -> stored w' = stored w) -> cluster_inv (calls ++ [c]) w'.
Proof.
  intros (Hro & Hans & Htold & Hst) Hmono Hc Htc Hsc. split; [auto|]. split; [|split].
  - apply Forall_app. split; [|by constructor].
    eapply Forall_impl; [exact Hans|]. intros c'. by apply answered_mono.
  - by apply told_app.
  - rewrite no_release_app. intros [Hn1 Hn2]%andb_true_iff. rewrite Hsc by done. auto.
Qed.

#[local] Instance cluster_lock : DistributedLock W := gcs_lock l.
#[local] Existing Instance PGStateCoordinator.

(** Two facts about one run. *)
Lemma wp_keeps {A B} (f : W -> B) (m : Go W A) (Q : A -> W -> Prop) (w : W) :
  preserves f m -> wp m Q w -> wp m (fun a w' => f w' = f w /\ Q a w') w.
Proof. intros Hf HQ. by apply wp_and. Qed.

Lemma GetHolder_keeps_objects (ctx : Context) (k : string) :
  preserves (W := W) stored (run (GetHolder l ctx k)).
Proof.
  intros w. unfold GetHolder. apply wp_run_bind. eapply wp_mono; [apply wp_readMeta|].
  intros [m|err] w1 (_ & Hs & _); [by apply wp_ret|]. by destruct (errors_Is _ _); apply wp_ret.
Qed.

Lemma GetHolder_told (until : option Time) (ctx : Context) (k : string) (b : bool) (w : W) :
  lease_at (l_bucket l, key) w0 = Held h until -> (b = true -> stored w = stored w0) ->
  wp (run (GetHolder l ctx k)) (fun r _ => b = true -> k = key -> r = (h, None)) w.
Proof.
  intros Hl Hs. destruct b; [|eapply wp_mono; [apply run_returns|done]].
  destruct (decide (k = key)) as [->|Hk]; [|eapply wp_mono; [apply run_returns|done]].
  rewrite <- (lease_at_same _ _ _ (Hs eq_refl)) in Hl.
  eapply wp_mono; [by eapply GetHolder_reached|]. by intros r w' [-> _].
Qed.

(** A call that leaves the mode of the database and the objects alone. *)
Lemma cluster_quiet {A} (m : Go W A) (f : A -> call_event) (P : A -> Prop)
    (calls : list call_event) (w : W) :
  cluster_inv calls w -> preserves (read_only db) m -> preserves stored m ->
  wp m (fun a _ => P a) w ->
  (forall a ro, P a -> answered (read_only db w0) ro (f a) /\     (no_release calls = true -> told key h [f a])) ->
  wp m (fun a => cluster_inv (calls ++ [f a])) w.
Proof.
  intros Hinv Hro Hst HP Hf.
  eapply wp_mono; [exact (wp_keeps _ _ _ _ Hro (wp_keeps _ _ _ _ Hst HP))|].
  intros a w' (Hro' & Hst' & Ha). destruct (Hf a (read_only db w') Ha).
  apply (cluster_inv_step calls (f a) w w'); try done; congruence.
Qed.

Lemma cluster_responds (until : option Time) :
  lease_at (l_bucket l, key) w0 = Held h until -> ManagerResponds W db cluster_inv.
Proof.
  intros Hlease. split.
  - intros calls w (Hro & Hans & Htold & Hst). unfold cluster_inv.
    by rewrite cl_now_mode, cl_now_stored.
  - intros ctx k calls w Hinv. pose proof Hinv as (_ & _ & _ & Hst).
    eapply (cluster_quiet _ (CallGetHolder k)); [done|apply run_keeps_mode|
      apply GetHolder_keeps_objects|by eapply GetHolder_told|]. intros r ro Hr.
    split; [done|]. intros Hn. split; [auto|done].
  - intros ctx k calls w Hinv. eapply wp_mono; [apply (run_keeps_mode db)|]. cbn beta. intros r w' Hro.
    apply (cluster_inv_step calls _ w w'); cbn; try done; congruence.
  - intros ctx calls w Hinv.
    eapply wp_mono; [apply (wp_keeps stored); [apply SetReadOnly_keeps_objects|
      apply SetReadOnly_reached]|].
    intros r w' [Hst Hro]. by apply (cluster_inv_step calls _ w w').
  - intros ctx calls w Hinv.
    eapply wp_mono; [apply (wp_keeps stored); [apply SetReadWrite_keeps_objects|
      apply SetReadWrite_spec]|].
    intros r w' (Hst & Hro & Hr). apply (cluster_inv_step calls _ w w'); try done; [congruence|].
    intros Hro0. destruct Hinv as [Hro' _]. auto.
  - intros ctx calls w Hinv.
    eapply wp_mono; [apply (wp_keeps stored); [apply GetState_keeps_objects|
      apply GetState_reached]|].
    intros r w' (Hst & Hro & ->). apply (cluster_inv_step calls _ w w'); try done; [congruence|].
    exists (read_only db w). split; [done|congruence].
  - intros ctx calls w Hinv.
    eapply (cluster_quiet _ CallHealthCheck (fun _ => True)); [done|apply cl_health_mode|
      apply cl_health_stored| |by intros].
    eapply wp_mono; [apply (cl_health_stored ctx)|done].
Qed.
End told.

(** * What the checks come to *)

Lemma handled_keeps (fm fm' : Manager) (b : bool) (calls : list call_event) :
  handled fm b fm' calls -> fm_cfg fm' = fm_cfg fm /\ fm_nodeID fm' = fm_nodeID fm.
Proof. by destruct 1 as [| | | |? []]. Qed.

Lemma check_keeps (fm fm' : Manager) (calls : list call_event) :
  check_outcome fm fm' calls -> fm_cfg fm' = fm_cfg fm /\ fm_nodeID fm' = fm_nodeID fm.
Proof.
  intros [|holder fm1 calls1 fm2 calls2 Hh Hs]; [done|].
  destruct (handled_keeps _ _ _ _ Hh) as [<- <-]. by destruct Hs.
Qed.

(** Another node holds the lock: the switch is made by the handler, or by the
    split-brain check after it. *)
Lemma check_of_other (ro0 ro : bool) (h : string) (fm fm' : Manager) (calls : list call_event) :
  check_outcome fm fm' calls -> other_holds fm h = true ->
  told (lockKey fm) h calls -> Forall (answered ro0 ro) calls ->
  fm_activeNode fm' = NodeCloud /\ ro = true /\ no_release calls = true.
Proof.
  intros [holder err|holder fm1 calls1 fm2 calls2 Hh Hs] Hother [Hr _] Hans.
  { by specialize (Hr eq_refl). }
  specialize (Hr eq_refl). injection Hr as ->. rewrite Hother in Hh.
  apply Forall_cons in Hans as [_ [Hans1 Hans2]%Forall_app].
  destruct (handled_keeps _ _ _ _ Hh) as [_ Hid].
  unfold other_holds in Hother. rewrite <- Hid in Hother.
  apply andb_true_iff in Hother as [Hne%negb_true_iff%String.eqb_neq
    Hn%negb_true_iff%String.eqb_neq].
  assert (Ha : fm_activeNode fm1 = NodeCloud) by by inversion Hh.
  assert (Hr1 : no_release calls1 = true) by by inversion Hh.
  simpl. rewrite no_release_app, Hr1.
  destruct Hs as [?|s err _ Hor|r _ _]; [done| |].
  - apply Forall_cons in Hans2 as [(b & [= -> ->] & Hb) _]. split; [done|]. split; [|done].
    destruct b; [auto|]. by destruct Hor as [?|[?|?]].
  - apply Forall_cons in Hans2 as [_ [-> _]%Forall_cons]. done.
Qed.

(** The local node holds the lock and its database stays read-only. *)
Lemma check_of_own (ro : bool) (fm fm' : Manager) (calls : list call_event) :
  check_outcome fm fm' calls ->
  told (lockKey fm) (fm_nodeID fm) calls -> Forall (answered true ro) calls ->
  fm_activeNode fm' = NodeLocal /\ no_release calls = true.
Proof.
  intros [holder err|holder fm1 calls1 fm2 calls2 Hh Hs] [Hr _] Hans.
  { by specialize (Hr eq_refl). }
  specialize (Hr eq_refl). injection Hr as ->.
  apply Forall_cons in Hans as [_ [Hans1 _]%Forall_app].
  assert (Hother : other_holds fm (fm_nodeID fm) = false).
  { unfold other_holds. by rewrite String.eqb_refl, andb_false_r. }
  rewrite Hother in Hh.
  assert (fm_activeNode fm1 = NodeLocal /\ no_release calls1 = true) as [Ha Hr1].
  { inversion Hh; subst; simpl; try done. exfalso.
    apply Forall_cons in Hans1 as [_ [Hrw _]%Forall_cons]. by apply Hrw. }
  simpl. rewrite no_release_app, Hr1. by destruct Hs.
Qed.

(** From one check to any number of them: [P] is what each comes to. *)
Lemma checks_of (ro0 ro : bool) (h : string) (I P : Manager -> Prop) (n : nat) (fm fm' : Manager)
    (calls : list call_event) :
  (forall fm fm' calls, I fm -> check_outcome fm fm' calls -> told (lockKey fm) h calls ->
     Forall (answered ro0 ro) calls -> I fm' /\ P fm' /\ no_release calls = true) ->
  I fm -> checks fm (S n) fm' calls -> told (lockKey fm) h calls ->
  Forall (answered ro0 ro) calls -> P fm' /\ no_release calls = true.
Proof.
  intros Hone HI Hc Ht Ha. revert fm calls HI Hc Ht Ha. induction n as [|n IH];
    intros fm calls HI Hc Ht Ha; inversion Hc as [|n' fm1 calls1 fm2 calls2 Hc1 Hc2]; subst;
    destruct (proj1 (Forall_app _ _ _) Ha) as [Ha1 Ha2];
    destruct (Hone _ _ _ HI Hc1 (told_prefix _ _ _ _ Ht) Ha1) as (HI1 & HP1 & Hr1).
  - inversion Hc2; subst. by rewrite app_nil_r.
  - destruct (check_keeps _ _ _ Hc1) as [Hcfg _].
    pose proof (told_app_inv _ _ _ _ Ht Hr1) as Ht2.
    rewrite no_release_app, Hr1. apply (IH fm1); try done. unfold lockKey. by rewrite Hcfg.
Qed.

(** * The properties *)

Section cluster.
Context {W : Type} `{Cluster W}.
#[local] Existing Instance PGStateCoordinator.

(** Any number of checks, over the lock of [l]. *)
Definition run_manager (l : GCSLock) (n : nat) (ctx : Context) (fm : Manager)
    : Go (traced W) Manager :=
  let _ := gcs_lock (W := W) l in Run n ctx fm.

Lemma wp_run_manager (l : GCSLock) (n : nat) (ctx : Context) (fm : Manager) (h : string)
    (until : option Time) (w : W) `{!Reachable W (localDB fm)} :
  lease_at (l_bucket l, lockKey fm) w = Held h until ->
  wp (run_manager l n ctx fm) (fun fm' w' => exists calls, checks fm n fm' calls /\
    cluster_inv (db := localDB fm) (lockKey fm) h w calls (inner w')) (mkTraced w []).
Proof.
  intros Hl. pose proof (cluster_responds (db := localDB fm) l _ _ _ _ Hl) as Hresp.
  unfold run_manager. eapply wp_mono; [apply (wp_Run (localDB fm) _); [done|]|].
  - split; [done|]. split; [constructor|done].
  - intros fm' w' (HI & calls & Htr & Hc). exists calls. split; [done|].
    unfold holds in HI. by rewrite Htr in HI.
Qed.

(** C20: a failover stops local writes.  Over the lock on GCS and PostgreSQL,
    both reachable, when another node holds the lock then after one check or
    more the manager takes the cloud for active and the local database is
    read-only; this although the coordinator reports every switch as failed.
    The lock is left as it is. *)
Theorem cluster_stops_local_writes (l : GCSLock) (n : nat) (ctx : Context) (fm : Manager)
    (h : string) (until : option Time) (w : W) `{!Reachable W (localDB fm)} :
  lease_at (l_bucket l, lockKey fm) w = Held h until -> h <> "" -> h <> fm_nodeID fm ->
  wp (run_manager l (S n) ctx fm) (fun fm' w' =>
    fm_activeNode fm' = NodeCloud /\ read_only (localDB fm) (inner w') = true /\
    stored (inner w') = stored w) (mkTraced w []).
Proof.
  intros Hl Hne Hid. eapply wp_mono; [exact (wp_run_manager l (S n) ctx fm h until w Hl)|].
  intros fm' w' (calls & Hc & _ & Hans & Htold & Hst).
  destruct (checks_of (read_only (localDB fm) w) (read_only (localDB fm) (inner w')) h
    (fun fm0 => other_holds fm0 h = true)
    (fun fm0 => fm_activeNode fm0 = NodeCloud /\ read_only (localDB fm) (inner w') = true)
    n fm fm' calls) as [[Ha Hro] Hrel]; try done; [|
    by apply andb_true_iff; split; apply negb_true_iff, String.eqb_neq|by auto].
  intros fm0 fm1 calls0 Hother Hc0 Ht0 Ha0.
  destruct (check_of_other _ _ _ _ _ _ Hc0 Hother Ht0 Ha0) as (? & ? & ?).
  destruct (check_keeps _ _ _ Hc0) as [_ Hid0]. split; [|done].
  unfold other_holds. by rewrite Hid0.
Qed.

(** C22: a recovery leaves no writable database.  When the local node holds the
    lock again and its database is read-only, as every failover leaves it, then
    over any number of checks the manager takes the local node for active, but
    its database stays read-only and the lock stays with it: the ALTER that
    should allow writes is refused, and the release comes after it. *)
Theorem recovery_leaves_no_writer (l : GCSLock) (n : nat) (ctx : Context) (fm : Manager)
    (until : option Time) (w : W) `{!Reachable W (localDB fm)} :
  lease_at (l_bucket l, lockKey fm) w = Held (fm_nodeID fm) until ->
  read_only (localDB fm) w = true ->
  wp (run_manager l (S n) ctx fm) (fun fm' w' =>
    fm_activeNode fm' = NodeLocal /\ read_only (localDB fm) (inner w') = true /\
    stored (inner w') = stored w) (mkTraced w []).
Proof.
  intros Hl Hro. eapply wp_mono; [exact (wp_run_manager l (S n) ctx fm (fm_nodeID fm) until w Hl)|].
  intros fm' w' (calls & Hc & Hkeep & Hans & Htold & Hst).
  destruct (checks_of (read_only (localDB fm) w) (read_only (localDB fm) (inner w')) (fm_nodeID fm)
    (fun fm0 => fm_nodeID fm0 = fm_nodeID fm) (fun fm0 => fm_activeNode fm0 = NodeLocal)
    n fm fm' calls) as [Ha Hrel]; try done; [|by auto].
  intros fm0 fm1 calls0 Hid0 Hc0 Ht0 Ha0. rewrite Hro in Ha0. rewrite <- Hid0 in Ht0.
  destruct (check_of_own _ _ _ _ Hc0 Ht0 Ha0). destruct (check_keeps _ _ _ Hc0) as [_ Hid1].
  split; [congruence|done].
Qed.
End cluster.

(** * On a concrete cluster *)

(** The server of ExampleServer and the bucket of ExampleBucket, side by side. *)
Record site : Type := mkSite {
  si_server : server;
  si_bucket : bucket;
}.

Definition at_server {A} (f : server -> A * server) (s : site) : A * site :=
  ((f (si_server s)).1, mkSite (f (si_server s)).2 (si_bucket s)).
Definition at_bucket {A} (f : bucket -> A * bucket) (s : site) : A * site :=
  ((f (si_bucket s)).1, mkSite (si_server s) (f (si_bucket s)).2).

#[export] Instance site_conn : PgxConn site := {|
  conn_Connect ctx s := at_server (conn_Connect ctx s);
  conn_Exec c ctx sql args := at_server (conn_Exec c ctx sql args);
  conn_QueryRow c ctx sql := at_server (conn_QueryRow c ctx sql);
  conn_Close c ctx := at_server (conn_Close c ctx);
|}.
#[export] Instance site_storage : Handler gcsE site := {| handle X e := at_bucket (handle e) |}.
#[export] Instance site_runtime : Runtime site := {|
  rt_now s := (zero_time, s);
  rt_wait _ _ s := (None, s);
|}.
#[export] Instance site_publisher : ReplicationPublisher site := {|
  pub_Publish _ _ := mret None;
  pub_HealthCheck _ := mret None;
|}.

Lemma at_server_inv {A} (f : server -> A * server) (s s' : site) (a : A) :
  at_server f s = (a, s') -> f (si_server s) = (a, si_server s').
Proof. intros [= <- <-]. simpl. by destruct (f _). Qed.

#[export] Instance site_pg : PgServer site.
Proof.
  refine {| read_only db s := read_only db (si_server s);
            session_target c s := session_target c (si_server s);
            session_default c s := session_default c (si_server s) |}.
  - intros ctx db s r s' Hc%at_server_inv. by apply (srv_connect _ _ _ _ _ Hc).
  - intros c ctx db v s r s' Ht Hc%at_server_inv. by apply (srv_alter _ _ _ _ _ _ _ Ht Hc).
  - intros c ctx db sql args s r s' Hs Hc%at_server_inv. by apply (srv_exec _ _ _ _ _ _ _ _ Hs Hc).
  - intros c ctx db s r s' Hc%at_server_inv. by apply (srv_show _ _ _ _ _ _ Hc).
  - intros c ctx db s r s' Hc%at_server_inv. by apply (srv_close _ _ _ _ _ _ Hc).
Defined.

#[export] Instance site_lawful : LawfulStorage site.
Proof.
  refine {| stored s := stored (si_bucket s); clock s := clock (si_bucket s) |}.
  - intros X e s s' x [= <- <-].
    exact (storage_answers (W := bucket) e _ _ _ (surjective_pairing (handle e (si_bucket s)))).
  - intros s s' t [= <- <-].
    exact (storage_now (W := bucket) _ _ _ (surjective_pairing (handle Now (si_bucket s)))).
Defined.

#[export] Instance site_cluster : Cluster site.
Proof. by split. Qed.

#[export] Instance site_reachable (db : DBConfig) : Reachable site db.
Proof.
  split.
  - intros ctx obj data s Hs. simpl in *. by rewrite Hs.
  - intros ctx s. simpl. eauto.
  - intros c ctx v s Ht Hd. simpl in *.
    destruct (sessions (si_server s) !! c) as [[t d]|] eqn:Hs; simpl in *; [|done].
    injection Ht as ->. subst d. by rewrite (exec_on_alter c db v).
  - intros c ctx s Ht. simpl in *. unfold exec_on.
    by destruct (sessions (si_server s) !! c) as [[t d]|].
  - intros c ctx s Ht. simpl in *. destruct (sessions (si_server s) !! c) as [[t d]|]; [eauto|done].
Qed.

Definition cluster_manager : Manager := NewManager (sample_config 2) (Some []) "node-a".
Definition cluster_lock_a : GCSLock := mkGCSLock "locks" "node-a" (fun _ => 0%Z).

(** The lock of [h], whose expiry cannot be read. *)
Definition lock_of (h : string) : objects :=
  {[ ("locks", lockKey cluster_manager) :=
     marshal_meta {| Holder := h; Acquired := ""; ExpiresAt := "" |} ]}.

Definition failing_over : site := mkSite (mkServer ∅ ∅ []) (mkBucket (lock_of "node-b") sample_time).

Lemma failing_over_lease :
  lease_at (l_bucket cluster_lock_a, lockKey cluster_manager) failing_over = Held "node-b" None.
Proof. vm_compute. reflexivity. Qed.

Lemma other_node : "node-b" <> fm_nodeID cluster_manager.
Proof. discriminate. Qed.

Lemma cluster_stops_local_writes_witness :
  wp (run_manager cluster_lock_a 3 Background cluster_manager) (fun fm' w' =>
    fm_activeNode fm' = NodeCloud /\ read_only (localDB cluster_manager) (inner w') = true /\
    stored (inner w') = stored failing_over) (mkTraced failing_over []).
Proof.
  exact (cluster_stops_local_writes cluster_lock_a 2 Background cluster_manager "node-b" None
    failing_over failing_over_lease ltac:(discriminate) other_node).
Defined.

Definition failing_back : site :=
  mkSite (mkServer {[ buildConnString (localDB cluster_manager) := true ]} ∅ [])
         (mkBucket (lock_of "node-a") sample_time).

(** As a failover leaves it. *)
Definition failed_over : Manager := set_active NodeCloud cluster_manager.

Lemma failing_back_lease :
  lease_at (l_bucket cluster_lock_a, lockKey failed_over) failing_back =
  Held (fm_nodeID failed_over) None.
Proof. vm_compute. reflexivity. Qed.

Lemma failing_back_read_only : read_only (localDB failed_over) failing_back = true.
Proof. vm_compute. reflexivity. Qed.

Lemma recovery_leaves_no_writer_witness :
  wp (run_manager cluster_lock_a 3 Background failed_over) (fun fm' w' =>
    fm_activeNode fm' = NodeLocal /\ read_only (localDB failed_over) (inner w') = true /\
    stored (inner w') = stored failing_back) (mkTraced failing_back []).
Proof.
  exact (recovery_leaves_no_writer cluster_lock_a 2 Background failed_over None failing_back
    failing_back_lease failing_back_read_only).
Defined.
