(* ===== verification/Subscriber.v ===== *)
(** internal/replication/subscriber.go: the logical replication subscriber.

    The subscriber is a record passed along explicitly; the connections, the
    replication protocol and the event channel are classes over a world.  The
    messages are those of pglogrepl, which the program reads by reflection: the
    fields it looks up by name exist with the kinds it expects, so the model
    reads them as fields; decoding the bytes is the library's. *)
From S2P Require Import Prelude GoErrors GoTime GoStrings Interfaces Coordinator.
From S2P Require Import ConnString Sql.
From Stdlib Require Import Ascii.

Definition defaultPublicationName : string := "state_sync_publication".
Definition replicationProtocolV1 : string := "proto_version '1'".
Definition duplicateObjectSQLState : string := "42710".

Record relationInfo : Type := mkRelationInfo {
  ri_table : string;
  ri_columns : list string;
}.

(** * The messages of pglogrepl *)

Record TupleDataColumn : Type := mkTupleDataColumn {
  DataType : ascii;
  Data : string;
}.

(** A tuple: its columns are pointers, which may be nil. *)
Definition TupleData : Type := list (option TupleDataColumn).

Inductive Message : Type :=
  | BeginMessage (FinalLSN : LSN) (CommitTime : Time)
  | CommitMessage (CommitLSN : LSN)
  | RelationMessage (RelationID : Z) (Namespace RelationName : string)
      (Columns : list (option string))  (** the names; a nil column is [None] *)
  | InsertMessage (RelationID : Z) (Tuple : option TupleData)
  | UpdateMessage (RelationID : Z) (OldTuple NewTuple : option TupleData)
  | DeleteMessage (RelationID : Z) (OldTuple : option TupleData)
  | OtherMessage.

(** A message of the wire protocol. *)
Inductive BackendMessage : Type :=
  | CopyData (data : string)
  | OtherBackendMessage.

Definition PrimaryKeepaliveMessageByteID : ascii := "k".
Definition XLogDataByteID : ascii := "w".

(** * The subscriber *)

Record Subscriber : Type := mkSubscriber {
  s_dbConfig : DBConfig;
  s_replConn : option nat;
  s_relationByID : gmap Z relationInfo;
  s_lastAckedLSN : LSN;
  s_publicationName : string;
  s_stream : option nat;   (** [streamCancel] and [streamDone], set together *)
}.

Definition zero_DBConfig : DBConfig := mkDBConfig "" 0 "" "" "" "" "" "".

Definition NewSubscriber : Subscriber :=
  mkSubscriber zero_DBConfig None ∅ 0%Z defaultPublicationName None.

Definition set_acked (lsn : LSN) (s : Subscriber) : Subscriber :=
  mkSubscriber (s_dbConfig s) (s_replConn s) (s_relationByID s) lsn (s_publicationName s)
    (s_stream s).
Definition set_relations (r : gmap Z relationInfo) (s : Subscriber) : Subscriber :=
  mkSubscriber (s_dbConfig s) (s_replConn s) r (s_lastAckedLSN s) (s_publicationName s)
    (s_stream s).
Definition set_stream (t : option nat) (s : Subscriber) : Subscriber :=
  mkSubscriber (s_dbConfig s) (s_replConn s) (s_relationByID s) (s_lastAckedLSN s)
    (s_publicationName s) t.

(** ** Relations and tuples *)

Definition column_name (c : option string) : string := default "" c.

Definition storeRelation (id : Z) (namespace relationName : string)
    (columns : list (option string)) (s : Subscriber) : Subscriber :=
  set_relations (<[id := mkRelationInfo (namespace +:+ "." +:+ relationName)
                           (column_name <$> columns)]> (s_relationByID s)) s.

Definition relationName (s : Subscriber) (id : Z) : string :=
  match s_relationByID s !! id with Some r => ri_table r | None => "" end.

Definition relationColumns (s : Subscriber) (id : Z) : list string :=
  match s_relationByID s !! id with Some r => ri_columns r | None => [] end.

Definition currentAckedLSN (s : Subscriber) : LSN := s_lastAckedLSN s.

(** The name of column [i], counted from 0. *)
Definition tuple_column (columns : list string) (i : nat) : string :=
  match columns !! i with
  | Some c => if negb (is_blank c) then c else "col_" +:+ itoa (Z.of_nat i + 1)
  | None => "col_" +:+ itoa (Z.of_nat i + 1)
  end.

Definition tuple_value (c : TupleDataColumn) : any :=
  if Ascii.eqb (DataType c) "n" then Nil
  else if Ascii.eqb (DataType c) "u" then Str "unchanged_toast"
  else Str (Data c).

(** The loop of [extractTuple], from column [i]. *)
Fixpoint tuple_row (columns : list string) (i : nat) (t : TupleData) (row : Row) : Row :=
  match t with
  | [] => row
  | None :: t => tuple_row columns (S i) t row
  | Some c :: t =>
      tuple_row columns (S i) t (<[tuple_column columns i := tuple_value c]> row)
  end.

(** A nil tuple gives a nil row, which is an empty one. *)
Definition extractTuple (tuple : option TupleData) (columns : list string) : Row :=
  match tuple with None => ∅ | Some t => tuple_row columns 0 t ∅ end.

(** * Operations *)

(** The replication side of a server (pgconn, pglogrepl), the query of
    [ensurePublication], and the channel of events. *)
Class ReplicationServer (W : Type) : Type := {
  pgconn_Connect : Context -> string -> W -> result nat * W;
  pgconn_Close : nat -> Context -> W -> option error * W;
  StartReplication : nat -> Context -> string -> LSN -> list string -> W -> option error * W;
  (** the three positions of a status update are the same LSN *)
  SendStandbyStatusUpdate : nat -> Context -> LSN -> W -> option error * W;
  ReceiveMessage : nat -> Context -> W -> result BackendMessage * W;
  (** [QueryRow(ctx, sql, args).Scan(&exists)] *)
  conn_QueryExists : nat -> Context -> string -> list any -> W -> result bool * W;
  (** starting the goroutine of a stream: its handle *)
  go_stream : Context -> W -> nat * W;
  cancel_stream : nat -> W -> unit * W;
  (** [select { case out <- event: true; case <-ctx.Done(): false }] *)
  chan_send : Context -> ChangeEvent -> W -> bool * W;
}.

Section subscriber.
Context {W : Type} `{PgxConn W, ReplicationServer W}.
(** pglogrepl's decoders. *)
Context (ParsePrimaryKeepaliveMessage : string -> result bool)
        (ParseXLogData : string -> result string)
        (Parse : string -> result Message).

Definition create_slot_sql : string :=
  "SELECT pg_create_logical_replication_slot($1, 'pgoutput')".

Definition is_duplicate (err : error) : bool :=
  match errors_As_PgError err with
  | Some code => String.eqb code duplicateObjectSQLState
  | None => false
  end.

(** After the checks: the slot, then the replication connection.  The deferred
    close of the standard connection comes last. *)
Definition Connect (ctx : Context) (config : DBConfig) (s : Subscriber)
    : Go W (Subscriber * option error) :=
  if is_blank (db_ReplicationSlot config)
  then mret (s, Some (ErrorsNew "replication slot is required")) else
  match s_replConn s with
  | Some _ => mret (s, Some (ErrorsNew "replication subscriber is already connected"))
  | None =>
      r ← call (conn_Connect ctx (buildConnString config false));
      match r with
      | Err err => mret (s, Some (Wrapf "failed to connect to local database: %w" [] err))
      | Ok standardConn =>
          r ← call (conn_Exec standardConn ctx create_slot_sql [Str (db_ReplicationSlot config)]);
          out ← (match r with
                 | Some err =>
                     if negb (is_duplicate err)
                     then mret (s, Some (Wrapf "failed to create replication slot %q: %w"
                                           [AStr (db_ReplicationSlot config)] err))
                     else mret (s, None)
                 | None => mret (s, None)
                 end) ;
          out ← (match out with
                 | (s, Some err) => mret (s, Some err)
                 | (s, None) =>
                     r ← call (pgconn_Connect ctx (buildConnString config true));
                     match r with
                     | Err err =>
                         mret (s, Some (Wrapf "failed to establish replication connection: %w" [] err))
                     | Ok replConn =>
                         mret (mkSubscriber config (Some replConn) ∅ 0%Z (s_publicationName s)
                                 (s_stream s), None)
                     end
                 end);
          _ ← call (conn_Close standardConn ctx);
          mret out
      end
  end.

Fixpoint quote_tables (tables : list string) : result (list string) :=
  match tables with
  | [] => Ok []
  | table :: tables =>
      match quoteQualifiedTable table with
      | Err err => Err err
      | Ok qt => match quote_tables tables with Err err => Err err | Ok qts => Ok (qt :: qts) end
      end
  end.

(** The statement that creates the publication. *)
Definition publication_sql (name : string) (tables : list string) : result string :=
  match tables with
  | [] => Ok ("CREATE PUBLICATION " +:+ quoteIdentifier name +:+ " FOR ALL TABLES")
  | _ =>
      match quote_tables tables with
      | Err err => Err err
      | Ok quoted => Ok ("CREATE PUBLICATION " +:+ quoteIdentifier name +:+ " FOR TABLE " +:+
                           Join quoted ", ")
      end
  end.

Definition publication_exists_sql : string :=
  "SELECT EXISTS(SELECT 1 FROM pg_publication WHERE pubname = $1)".

Definition ensurePublication (ctx : Context) (tables : list string) (s : Subscriber)
    : Go W (option error) :=
  r ← call (conn_Connect ctx (buildConnString (s_dbConfig s) false));
  match r with
  | Err err => mret (Some (Wrapf "failed to connect for publication setup: %w" [] err))
  | Ok conn =>
      out ← (r ← call (conn_QueryExists conn ctx publication_exists_sql
                         [Str (s_publicationName s)]);
             match r with
             | Err err => mret (Some (Wrapf "failed to check publication existence: %w" [] err))
             | Ok true => mret None
             | Ok false =>
                 match publication_sql (s_publicationName s) tables with
                 | Err err => mret (Some err)
                 | Ok statement =>
                     r ← call (conn_Exec conn ctx statement []);
                     match r with
                     | Some err =>
                         if negb (is_duplicate err)
                         then mret (Some (Wrapf "failed to create publication %q: %w"
                                            [AStr (s_publicationName s)] err))
                         else mret None
                     | None => mret None
                     end
                 end
             end);
      _ ← call (conn_Close conn ctx);
      mret out
  end.

Definition Subscribe (ctx : Context) (slotName : string) (tables : list string)
    (s : Subscriber) : Go W (Subscriber * option error) :=
  match s_replConn s with
  | None => mret (s, Some (ErrorsNew "replication subscriber is not connected"))
  | Some conn =>
      match s_stream s with
      | Some _ => mret (s, Some (ErrorsNew "replication stream is already active"))
      | None =>
          let slotName := if is_blank slotName then db_ReplicationSlot (s_dbConfig s) else slotName in
          if is_blank slotName then mret (s, Some (ErrorsNew "slot name is required")) else
          r ← ensurePublication ctx tables s;
          match r with
          | Some err => mret (s, Some err)
          | None =>
              let startLSN := s_lastAckedLSN s in
              r ← call (StartReplication conn ctx slotName startLSN
                          [replicationProtocolV1;
                           "publication_names '" +:+ s_publicationName s +:+ "'"]);
              match r with
              | Some err =>
                  mret (s, Some (Wrapf "failed to start logical replication: %w" [] err))
              | None =>
                  stream ← call (go_stream ctx);
                  mret (set_stream (Some stream) s, None)
              end
          end
      end
  end.

Definition Acknowledge (ctx : Context) (lsn : LSN) (s : Subscriber)
    : Go W (Subscriber * option error) :=
  match s_replConn s with
  | None => mret (s, Some (ErrorsNew "replication subscriber is not connected"))
  | Some conn =>
      r ← call (SendStandbyStatusUpdate conn ctx lsn);
      match r with
      | Some err => mret (s, Some (Wrapf "failed to acknowledge LSN %d: %w" [AInt lsn] err))
      | None =>
          mret (if (s_lastAckedLSN s <? lsn)%Z then set_acked lsn s else s, None)
      end
  end.

(** The critical section of [Close]. *)
Definition close_fields (s : Subscriber) : Subscriber :=
  mkSubscriber (s_dbConfig s) None (s_relationByID s) (s_lastAckedLSN s) (s_publicationName s) None.

(** The context of the close of the connection times out on its own; waiting
    for the stream to end has no effect on the subscriber. *)
Definition Close (closeCtx : Context) (s : Subscriber) : Go W (Subscriber * option error) :=
  let cancel := s_stream s in
  let conn := s_replConn s in
  let s := close_fields s in
  _ ← (match cancel with Some stream => call (cancel_stream stream) | None => mret tt end);
  match conn with
  | None => mret (s, None)
  | Some conn =>
      r ← call (pgconn_Close conn closeCtx);
      match r with
      | Some err => mret (s, Some (Wrapf "failed to close replication connection: %w" [] err))
      | None => mret (s, None)
      end
  end.

(** * The stream *)

(** The variables of [consumeStream]. *)
Record stream_vars : Type := mkVars { txLSN : LSN; txTime : Time }.

Definition emitEvent (ctx : Context) (event : ChangeEvent) : Go W unit :=
  _ ← call (chan_send ctx event); mret tt.

(** The switch on the logical message. *)
Definition handle_message (ctx : Context) (v : stream_vars) (s : Subscriber) (m : Message)
    : Go W (stream_vars * Subscriber) :=
  match m with
  | BeginMessage lsn time => mret (mkVars lsn time, s)
  | RelationMessage id ns name columns => mret (v, storeRelation id ns name columns s)
  | InsertMessage id tuple =>
      _ ← emitEvent ctx
            {| ev_LSN := txLSN v; ev_Timestamp := txTime v; ev_Table := relationName s id;
               ev_Operation := OperationInsert; ev_OldRow := ∅;
               ev_NewRow := extractTuple tuple (relationColumns s id) |};
      mret (v, s)
  | UpdateMessage id old new =>
      _ ← emitEvent ctx
            {| ev_LSN := txLSN v; ev_Timestamp := txTime v; ev_Table := relationName s id;
               ev_Operation := OperationUpdate;
               ev_OldRow := extractTuple old (relationColumns s id);
               ev_NewRow := extractTuple new (relationColumns s id) |};
      mret (v, s)
  | DeleteMessage id old =>
      _ ← emitEvent ctx
            {| ev_LSN := txLSN v; ev_Timestamp := txTime v; ev_Table := relationName s id;
               ev_Operation := OperationDelete;
               ev_OldRow := extractTuple old (relationColumns s id); ev_NewRow := ∅ |};
      mret (v, s)
  | CommitMessage lsn =>
      '(s, _) ← Acknowledge Background lsn s;
      mret (mkVars lsn (txTime v), s)
  | OtherMessage => mret (v, s)
  end.

(** The body of the loop on a received message. *)
Definition handle_data (ctx : Context) (v : stream_vars) (s : Subscriber) (data : string)
    : Go W (stream_vars * Subscriber) :=
  match data with
  | EmptyString => mret (v, s)
  | String c rest =>
      if Ascii.eqb c PrimaryKeepaliveMessageByteID then
        match ParsePrimaryKeepaliveMessage rest with
        | Err _ => mret (v, s)
        | Ok replyRequested =>
            if (replyRequested : bool) then
              '(s, _) ← Acknowledge Background (currentAckedLSN s) s;
              mret (v, s)
            else mret (v, s)
        end
      else if Ascii.eqb c XLogDataByteID then
        match ParseXLogData rest with
        | Err _ => mret (v, s)
        | Ok walData =>
            match Parse walData with
            | Err _ => mret (v, s)
            | Ok m => handle_message ctx v s m
            end
        end
      else mret (v, s)
  end.

(** One iteration of [consumeStream]; [None] ends the stream. *)
Definition consume_iter (ctx : Context) (v : stream_vars) (s : Subscriber)
    : Go W (option (stream_vars * Subscriber)) :=
  match s_replConn s with
  | None => panic "runtime error: invalid memory address or nil pointer dereference"
  | Some conn =>
      r ← call (ReceiveMessage conn ctx);
      match r with
      | Err _ => mret None
      | Ok OtherBackendMessage => mret (Some (v, s))
      | Ok (CopyData data) => out ← handle_data ctx v s data; mret (Some out)
      end
  end.

(** [consumeStream], for at most [fuel] messages; it returns the subscriber it
    leaves when the stream ends. *)
Fixpoint consume_loop (fuel : nat) (ctx : Context) (v : stream_vars) (s : Subscriber)
    : Go W Subscriber :=
  match fuel with
  | O => out_of_fuel
  | S fuel =>
      r ← consume_iter ctx v s;
      match r with
      | None => mret s
      | Some (v, s) => consume_loop fuel ctx v s
      end
  end.

Definition consumeStream (fuel : nat) (ctx : Context) (s : Subscriber) : Go W Subscriber :=
  consume_loop fuel ctx (mkVars 0%Z zero_time) s.
End subscriber.
