(* ===== verification/SubscriberSpec.v ===== *)
(** What the subscriber makes of a replication stream.

    A stream is a sequence of transactions; [stream_events] are the changes they
    stand for.  [StreamWorld] says what receiving, emitting and acknowledging do
    to the queue of messages, the channel and the slot. *)
From stdpp Require Import sorting.
From S2P Require Import Prelude GoErrors GoTime GoStrings Interfaces ConnString Sql.
From S2P Require Import Coordinator Subscriber Config State Metrics Engine Trace Delivery.
From S2P Require Import EngineSpec EngineInvariants.
From Stdlib Require Import Ascii.

(** * Transactions *)

Record transaction : Type := mkTransaction {
  tx_lsn : LSN;             (** of the commit *)
  tx_commit_time : Time;
  tx_body : list Message;
}.

(** Begin and commit only delimit transactions. *)
Definition body_message (m : Message) : bool :=
  match m with BeginMessage _ _ | CommitMessage _ => false | _ => true end.

Definition tx_messages (t : transaction) : list Message :=
  BeginMessage (tx_lsn t) (tx_commit_time t) :: tx_body t ++ [CommitMessage (tx_lsn t)].

Abbreviation relations := (gmap Z relationInfo).

Definition relations_after (rels : relations) (m : Message) : relations :=
  match m with
  | RelationMessage id ns name columns =>
      <[id := mkRelationInfo (ns +:+ "." +:+ name) (column_name <$> columns)]> rels
  | _ => rels
  end.

Definition rel_table (rels : relations) (id : Z) : string :=
  match rels !! id with Some r => ri_table r | None => "" end.
Definition rel_columns (rels : relations) (id : Z) : list string :=
  match rels !! id with Some r => ri_columns r | None => [] end.

(** The change a message stands for, in a transaction and given the relations
    announced before it. *)
Definition message_event (lsn : LSN) (time : Time) (rels : relations) (m : Message)
    : list ChangeEvent :=
  match m with
  | InsertMessage id tuple =>
      [mkChangeEvent lsn time (rel_table rels id) OperationInsert ∅
         (extractTuple tuple (rel_columns rels id))]
  | UpdateMessage id old new =>
      [mkChangeEvent lsn time (rel_table rels id) OperationUpdate
         (extractTuple old (rel_columns rels id)) (extractTuple new (rel_columns rels id))]
  | DeleteMessage id old =>
      [mkChangeEvent lsn time (rel_table rels id) OperationDelete
         (extractTuple old (rel_columns rels id)) ∅]
  | _ => []
  end.

Fixpoint body_events (lsn : LSN) (time : Time) (rels : relations) (body : list Message)
    : list ChangeEvent :=
  match body with
  | [] => []
  | m :: body =>
      message_event lsn time rels m ++ body_events lsn time (relations_after rels m) body
  end.

Fixpoint stream_events (rels : relations) (txs : list transaction) : list ChangeEvent :=
  match txs with
  | [] => []
  | t :: txs =>
      body_events (tx_lsn t) (tx_commit_time t) rels (tx_body t) ++
      stream_events (foldl relations_after rels (tx_body t)) txs
  end.

(** * The world of a stream *)

Class StreamWorld (W : Type) `{ReplicationServer W} : Type := {
  pending : W -> list BackendMessage;  (** what the server has to send *)
  emitted : W -> list ChangeEvent;     (** what went into the channel *)
  confirmed : W -> list LSN;           (** the positions reported to the slot *)
  stream_receive conn ctx w r w' :
    ReceiveMessage conn ctx w = (r, w') ->
    emitted w' = emitted w /\ confirmed w' = confirmed w /\
    match pending w with
    | [] => (exists err, r = Err err) /\ pending w' = []
    | m :: ms => r = Ok m /\ pending w' = ms
    end;
  stream_send ctx ev w r w' :
    chan_send ctx ev w = (r, w') ->
    pending w' = pending w /\ confirmed w' = confirmed w /\
    emitted w' = emitted w ++ (if r then [ev] else []);
  stream_status conn ctx lsn w r w' :
    SendStandbyStatusUpdate conn ctx lsn w = (r, w') ->
    pending w' = pending w /\ emitted w' = emitted w /\
    confirmed w' = confirmed w ++ (match r with None => [lsn] | Some _ => [] end);
}.

Section stream.
Context {W : Type} `{Hpgx : PgxConn W, Hrepl : ReplicationServer W, !StreamWorld W}.
Context (ParsePrimaryKeepaliveMessage : string -> result bool)
        (ParseXLogData : string -> result string)
        (Parse : string -> result Message).
(** The context of the stream is not done, so the channel takes every event. *)
Context (ctx : Context) (Hopen : forall ev w, (chan_send (W := W) ctx ev w).1 = true).
(** Status updates are sent. *)
Context (Hsend : forall conn ctx lsn w,
  (SendStandbyStatusUpdate (W := W) conn ctx lsn w).1 = None).

(** The message in some WAL data, as the program decodes it. *)
Definition decoded (data : string) (m : Message) : Prop :=
  exists rest walData, data = String XLogDataByteID rest /\
    ParseXLogData rest = Ok walData /\ Parse walData = Ok m.

Lemma wp_emit (ev : ChangeEvent) (w : W) (Q : unit -> W -> Prop) :
  (forall w', pending w' = pending w -> emitted w' = emitted w ++ [ev] ->
     confirmed w' = confirmed w -> Q tt w') ->
  wp (emitEvent ctx ev) Q w.
Proof.
  intros HQ. unfold emitEvent. apply wp_bind, wp_call. intros r w' Hs. apply wp_ret.
  assert (r = true) as -> by (rewrite <- (Hopen ev w); by rewrite Hs).
  destruct (stream_send _ _ _ _ _ Hs) as (? & ? & ?). by apply HQ.
Qed.

Lemma wp_Acknowledge_sent (ctx' : Context) (lsn : LSN) (s : Subscriber) (conn : nat) (w : W)
    (Q : Subscriber * option error -> W -> Prop) :
  s_replConn s = Some conn ->
  (forall w', pending w' = pending w -> emitted w' = emitted w ->
     confirmed w' = confirmed w ++ [lsn] ->
     Q (set_acked (Z.max (s_lastAckedLSN s) lsn) s, None) w') ->
  wp (Acknowledge ctx' lsn s) Q w.
Proof.
  intros Hconn HQ. unfold Acknowledge. rewrite Hconn. apply wp_bind, wp_call.
  intros r w' Hs. assert (r = None) as -> by (rewrite <- (Hsend conn ctx' lsn w); by rewrite Hs).
  destruct (stream_status _ _ _ _ _ _ Hs) as (? & ? & ?). apply wp_ret.
  replace (if (s_lastAckedLSN s <? lsn)%Z then set_acked lsn s else s)
    with (set_acked (Z.max (s_lastAckedLSN s) lsn) s); [by apply HQ|].
  destruct (s_lastAckedLSN s <? lsn)%Z eqn:E.
  - by rewrite Z.max_r by lia.
  - rewrite Z.max_l by lia. by destruct s.
Qed.

(** What one message does. *)
Definition acks_of (m : Message) : list LSN :=
  match m with CommitMessage lsn => [lsn] | _ => [] end.

Definition vars_after (v : stream_vars) (m : Message) : stream_vars :=
  match m with
  | BeginMessage lsn time => mkVars lsn time
  | CommitMessage lsn => mkVars lsn (txTime v)
  | _ => v
  end.

Lemma handle_message_spec (v : stream_vars) (s : Subscriber) (conn : nat) (m : Message) (w : W) :
  s_replConn s = Some conn ->
  wp (handle_message ctx v s m) (fun '(v', s') w' =>
    v' = vars_after v m /\ s_replConn s' = Some conn /\
    s_relationByID s' = relations_after (s_relationByID s) m /\
    pending w' = pending w /\ confirmed w' = confirmed w ++ acks_of m /\
    emitted w' = emitted w ++ message_event (txLSN v) (txTime v) (s_relationByID s) m) w.
Proof.
  intros Hconn. destruct m; simpl.
  2:{ apply wp_bind, (wp_Acknowledge_sent _ _ _ conn); [done|]. intros w' Hp He Hc.
      apply wp_ret. rewrite app_nil_r. done. }
  3,4,5: apply wp_bind, wp_emit; intros w' Hp He Hc; apply wp_ret; rewrite app_nil_r; done.
  all: apply wp_ret; rewrite !app_nil_r; done.
Qed.

(** A run over decoded messages. *)
Fixpoint run_events (v : stream_vars) (rels : relations) (ms : list Message)
    : list ChangeEvent :=
  match ms with
  | [] => []
  | m :: ms =>
      message_event (txLSN v) (txTime v) rels m ++
      run_events (vars_after v m) (relations_after rels m) ms
  end.

Lemma consume_loop_spec (datas : list string) (ms : list Message) (fuel : nat)
    (v : stream_vars) (s : Subscriber) (conn : nat) (w : W) :
  s_replConn s = Some conn -> Forall2 decoded datas ms ->
  pending w = CopyData <$> datas -> length datas < fuel ->
  wp (consume_loop ParsePrimaryKeepaliveMessage ParseXLogData Parse fuel ctx v s)
    (fun s' w' =>
      s_relationByID s' = foldl relations_after (s_relationByID s) ms /\
      emitted w' = emitted w ++ run_events v (s_relationByID s) ms /\
      confirmed w' = confirmed w ++ concat (acks_of <$> ms)) w.
Proof.
  intros Hconn Hdec. revert fuel v s w Hconn.
  induction Hdec as [|data m datas ms Hd _ IH]; intros fuel v s w Hconn Hpend Hfuel;
    (destruct fuel as [|fuel]; [simpl in *; lia|]); simpl;
    unfold consume_iter; rewrite Hconn; apply wp_bind, wp_bind, wp_call; intros r w1 Hr;
    destruct (stream_receive _ _ _ _ _ Hr) as (He & Hc & Hp); rewrite Hpend in Hp; simpl in Hp.
  - destruct Hp as [[err ->] _]. apply wp_ret, wp_ret. by rewrite !app_nil_r.
  - destruct Hp as [-> Hp]. destruct Hd as (rest & walData & -> & Hx & Hm). simpl.
    rewrite Hx, Hm. apply wp_bind. eapply wp_mono; [by apply handle_message_spec|].
    intros [v' s'] w2 (-> & Hconn' & Hrel & Hp2 & Hc2 & He2). apply wp_ret.
    eapply wp_mono; [apply IH; [done|rewrite Hp2; exact Hp|simpl in Hfuel; lia]|].
    intros s'' w3 (Hrel3 & He3 & Hc3). rewrite Hrel3, He3, Hc3, He2, Hc2, He, Hc, Hrel.
    simpl. by rewrite <- !app_assoc.
Qed.
End stream.

(** * Runs over whole transactions *)

Definition well_formed (t : transaction) : Prop := Forall (fun m => body_message m = true) (tx_body t).

Lemma run_events_body (v : stream_vars) (rels : relations) (body ms : list Message) :
  Forall (fun m => body_message m = true) body ->
  run_events v rels (body ++ ms) =
  body_events (txLSN v) (txTime v) rels body ++ run_events v (foldl relations_after rels body) ms.
Proof.
  intros Hb. revert rels. induction Hb as [|m body Hm _ IH]; intros rels; [done|].
  simpl. replace (vars_after v m) with v by (by destruct m). by rewrite IH, app_assoc.
Qed.

Lemma run_events_stream (v : stream_vars) (rels : relations) (txs : list transaction) :
  Forall well_formed txs ->
  run_events v rels (concat (tx_messages <$> txs)) = stream_events rels txs.
Proof.
  intros Hw. revert v rels. induction Hw as [|t txs Ht _ IH]; intros v rels; [done|].
  simpl. rewrite <- app_assoc. rewrite run_events_body by done. simpl. by rewrite IH.
Qed.

Lemma acks_of_body (body : list Message) :
  Forall (fun m => body_message m = true) body -> concat (acks_of <$> body) = [].
Proof.
  induction 1 as [|m body Hm _ IH]; [done|]. rewrite fmap_cons. simpl. rewrite IH. by destruct m.
Qed.

Lemma acks_of_stream (txs : list transaction) :
  Forall well_formed txs ->
  concat (acks_of <$> concat (tx_messages <$> txs)) = tx_lsn <$> txs.
Proof.
  induction 1 as [|t txs Ht _ IH]; [done|].
  change (concat (tx_messages <$> t :: txs)) with (tx_messages t ++ concat (tx_messages <$> txs)).
  rewrite fmap_app, concat_app, IH. unfold tx_messages. rewrite fmap_cons, fmap_app.
  simpl. rewrite concat_app. simpl.
  by rewrite (acks_of_body _ Ht).
Qed.

Lemma body_events_lsn (lsn : LSN) (time : Time) (rels : relations) (body : list Message) :
  Forall (fun ev => ev_LSN ev = lsn) (body_events lsn time rels body).
Proof.
  revert rels. induction body as [|m body IH]; intros rels; simpl; [done|].
  apply Forall_app. split; [|apply IH]. destruct m; simpl; by repeat constructor.
Qed.

Lemma stream_events_bound (lsn : LSN) (rels : relations) (txs : list transaction) :
  Forall (fun t => lsn <= tx_lsn t)%Z txs ->
  Forall (fun ev => lsn <= ev_LSN ev)%Z (stream_events rels txs).
Proof.
  intros Hb. revert rels. induction Hb as [|t txs Ht _ IH]; intros rels; simpl; [done|].
  apply Forall_app. split; [|apply IH].
  eapply Forall_impl; [apply body_events_lsn|]. intros ev ->. done.
Qed.

Lemma StronglySorted_const (lsn : LSN) (evs : list ChangeEvent) :
  Forall (fun ev => ev_LSN ev = lsn) evs ->
  StronglySorted (fun a b => ev_LSN a <= ev_LSN b)%Z evs.
Proof.
  induction 1 as [|ev evs Hev Hevs IH]; constructor; [done|].
  eapply Forall_impl; [exact Hevs|]. intros ev' ->. rewrite Hev. done.
Qed.

(** Transactions in commit order give events in LSN order. *)
Lemma stream_events_sorted (rels : relations) (txs : list transaction) :
  StronglySorted (fun t u => tx_lsn t <= tx_lsn u)%Z txs ->
  Forall (fun t => 0 <= tx_lsn t)%Z txs -> lsn_sorted (stream_events rels txs).
Proof.
  intros Hs Hpos. split; [|by apply stream_events_bound].
  clear Hpos. revert rels. induction Hs as [|t txs Hs IH Hb]; intros rels; simpl; [constructor|].
  apply StronglySorted_app. split; [|split; [|apply IH]].
  - intros a b Ha Hb'.
    pose proof (body_events_lsn (tx_lsn t) (tx_commit_time t) rels (tx_body t)) as Hl.
    rewrite Forall_forall in Hl. rewrite (Hl a Ha).
    pose proof (stream_events_bound (tx_lsn t) (foldl relations_after rels (tx_body t)) txs Hb) as Hg.
    rewrite Forall_forall in Hg. by apply Hg.
  - eapply StronglySorted_const, body_events_lsn.
Qed.

(** * Tuples *)

Lemma tuple_row_skip (columns : list string) (i : nat) (t : list (option TupleDataColumn))
    (row : Row) (name : string) :
  (forall j c, t !! j = Some (Some c) -> tuple_column columns (i + j) <> name) ->
  tuple_row columns i t row !! name = row !! name.
Proof.
  revert i row. induction t as [|[c|] t IH]; intros i row Hne; simpl; [done|..].
  - rewrite IH.
    + rewrite lookup_insert_ne; [done|]. specialize (Hne 0 c eq_refl).
      by rewrite Nat.add_0_r in Hne.
    + intros j c' Hj. specialize (Hne (S j) c' Hj). by rewrite <- Nat.add_succ_comm in Hne.
  - apply IH. intros j c' Hj. specialize (Hne (S j) c' Hj). by rewrite <- Nat.add_succ_comm in Hne.
Qed.

Lemma tuple_row_lookup (columns : list string) (i j : nat)
    (t : list (option TupleDataColumn)) (row : Row)
    (c : TupleDataColumn) :
  (forall k c', t !! k = Some (Some c') -> tuple_column columns (i + k) = tuple_column columns (i + j) ->
     k = j) ->
  t !! j = Some (Some c) ->
  tuple_row columns i t row !! tuple_column columns (i + j) = Some (tuple_value c).
Proof.
  revert i j row. induction t as [|o t IH]; intros i j row Hinj Hj; [done|].
  destruct j as [|j]; simpl in Hj.
  - injection Hj as ->. rewrite Nat.add_0_r. simpl. rewrite tuple_row_skip.
    + by rewrite lookup_insert_eq.
    + intros k c' Hk Heq. rewrite Nat.add_0_r in Hinj.
      specialize (Hinj (S k) c' Hk). rewrite <- Nat.add_succ_comm in Hinj. by apply Hinj in Heq.
  - replace (i + S j) with (S i + j) in * by lia.
    assert (Hinj' : forall k c', t !! k = Some (Some c') ->
      tuple_column columns (S i + k) = tuple_column columns (S i + j) -> k = j).
    { intros k c' Hk Heq. replace (S i + k) with (i + S k) in Heq by lia.
      specialize (Hinj (S k) c' Hk Heq). lia. }
    destruct o as [c0|]; cbn [tuple_row]; by apply IH.
Qed.
