(* ===== verification/SubscriberProps.v ===== *)
(** The properties of the subscriber. *)
From stdpp Require Import sorting.
From S2P Require Import Prelude GoErrors GoTime GoStrings Interfaces ConnString Sql.
From S2P Require Import Coordinator Subscriber EngineInvariants SubscriberSpec.
From Stdlib Require Import Ascii.

Section stream.
Context {W : Type} `{Hpgx : PgxConn W, Hrepl : ReplicationServer W, !StreamWorld W}.
Context (ParsePrimaryKeepaliveMessage : string -> result bool)
        (ParseXLogData : string -> result string)
        (Parse : string -> result Message).
Context (ctx : Context) (Hopen : forall ev w, (chan_send (W := W) ctx ev w).1 = true).
Context (Hsend : forall conn ctx lsn w,
  (SendStandbyStatusUpdate (W := W) conn ctx lsn w).1 = None).

(** C29: the stream becomes the changes of its transactions.  Consuming the
    messages of a sequence of transactions puts into the channel exactly their
    changes, in order, each with the LSN and the time of the commit of its
    transaction and with the table and columns last announced for its
    relation; and when the transactions come in commit order the events come
    in LSN order, as the engine's bookkeeping expects. *)
Theorem consumeStream_emits_changes (s : Subscriber) (conn : nat) (txs : list transaction)
    (datas : list string) (fuel : nat) (w : W) :
  s_replConn s = Some conn -> Forall well_formed txs ->
  Forall2 (decoded ParseXLogData Parse) datas (concat (tx_messages <$> txs)) ->
  pending w = CopyData <$> datas -> length datas < fuel ->
  wp (consumeStream ParsePrimaryKeepaliveMessage ParseXLogData Parse fuel ctx s)
    (fun _ w' =>
      emitted w' = emitted w ++ stream_events (s_relationByID s) txs /\
      (StronglySorted (fun t u => tx_lsn t <= tx_lsn u)%Z txs ->
       Forall (fun t => 0 <= tx_lsn t)%Z txs ->
       lsn_sorted (stream_events (s_relationByID s) txs))) w.
Proof.
  intros Hconn Hw Hdec Hpend Hfuel. eapply wp_mono.
  - by apply (consume_loop_spec ParsePrimaryKeepaliveMessage ParseXLogData Parse ctx Hopen Hsend
      datas _ fuel _ s conn w Hconn Hdec).
  - intros s' w' (_ & He & _). rewrite run_events_stream in He by done.
    split; [done|]. apply stream_events_sorted.
Qed.

(** A transaction is confirmed when it is received, not when it is
    published.  By the time the messages of some transactions are consumed,
    the commit position of every one of them has been reported to the
    replication slot as flushed and applied, although all that has happened
    to its events is that they were put into the channel. *)
Theorem consumeStream_confirms_on_receipt (s : Subscriber) (conn : nat)
    (txs : list transaction) (datas : list string) (fuel : nat) (w : W) :
  s_replConn s = Some conn -> Forall well_formed txs ->
  Forall2 (decoded ParseXLogData Parse) datas (concat (tx_messages <$> txs)) ->
  pending w = CopyData <$> datas -> length datas < fuel ->
  wp (consumeStream ParsePrimaryKeepaliveMessage ParseXLogData Parse fuel ctx s)
    (fun _ w' => confirmed w' = confirmed w ++ (tx_lsn <$> txs)) w.
Proof.
  intros Hconn Hw Hdec Hpend Hfuel. eapply wp_mono.
  - by apply (consume_loop_spec ParsePrimaryKeepaliveMessage ParseXLogData Parse ctx Hopen Hsend
      datas _ fuel _ s conn w Hconn Hdec).
  - intros s' w' (_ & _ & Hc). by rewrite acks_of_stream in Hc.
Qed.
End stream.

Lemma tuple_column_named (columns : list string) (i : nat) (name : string) :
  columns !! i = Some name -> is_blank name = false -> tuple_column columns i = name.
Proof. unfold tuple_column. intros -> Hb. by rewrite Hb. Qed.

(** A tuple is read column by column.  For a relation whose columns have
    distinct names, and a tuple with as many columns, the row has under each
    name the value of its column: nil for NULL, the text of the value, and, for
    an unchanged out-of-line value, the literal unchanged_toast. *)
Theorem extractTuple_by_column (columns : list string) (t : list TupleDataColumn) (i : nat)
    (name : string) (c : TupleDataColumn) :
  NoDup columns -> Forall (fun n => is_blank n = false) columns ->
  length t = length columns -> columns !! i = Some name -> t !! i = Some c ->
  extractTuple (Some (Some <$> t)) columns !! name =
  Some (if Ascii.eqb (DataType c) "n" then Nil
        else if Ascii.eqb (DataType c) "u" then Str "unchanged_toast" else Str (Data c)).
Proof.
  intros Hnd Hblank Hlen Hname Hc. rewrite Forall_forall in Hblank.
  assert (Hcol : forall k n, columns !! k = Some n -> tuple_column columns k = n).
  { intros k n Hk. apply tuple_column_named; [done|]. by apply Hblank, (list_elem_of_lookup_2 _ k). }
  rewrite <- (Hcol i name Hname).
  apply (tuple_row_lookup columns 0 i (Some <$> t) ∅ c); [|by rewrite list_lookup_fmap, Hc].
  intros k c' Hk Heq. simpl in Heq. rewrite list_lookup_fmap in Hk.
  destruct (columns !! k) as [n|] eqn:Hkn.
  - rewrite (Hcol k n Hkn), (Hcol i name Hname) in Heq. subst n.
    by eapply NoDup_lookup.
  - apply lookup_ge_None in Hkn. rewrite (proj2 (lookup_ge_None t k)) in Hk by lia. done.
Qed.

(** * The life of a subscriber *)

Inductive sub_op : Type :=
  | OpConnect (ctx : Context) (config : DBConfig)
  | OpSubscribe (ctx : Context) (slot : string) (tables : list string)
  | OpAcknowledge (ctx : Context) (lsn : LSN)
  | OpClose (ctx : Context).

Definition apply_op {W} `{PgxConn W, ReplicationServer W} (o : sub_op) (s : Subscriber)
    : Go W (Subscriber * option error) :=
  match o with
  | OpConnect ctx config => Connect ctx config s
  | OpSubscribe ctx slot tables => Subscribe ctx slot tables s
  | OpAcknowledge ctx lsn => Acknowledge ctx lsn s
  | OpClose ctx => Close ctx s
  end.

Fixpoint apply_ops {W} `{PgxConn W, ReplicationServer W} (ops : list sub_op) (s : Subscriber)
    : Go W Subscriber :=
  match ops with
  | [] => mret s
  | o :: ops => '(s, _) ← apply_op o s; apply_ops ops s
  end.

(** A stream runs over a connection, and nothing was acknowledged before the
    first one. *)
Record subscriber_ok (s : Subscriber) : Prop := {
  ok_stream : is_Some (s_stream s) -> is_Some (s_replConn s);
  ok_acked : (0 <= s_lastAckedLSN s)%Z;
}.

(** What an operation that answered [err] has done to the subscriber. *)
Definition op_effect (o : sub_op) (err : option error) (s s' : Subscriber) : Prop :=
  match o, err with
  | OpConnect _ config, None =>
      s_replConn s = None /\ is_Some (s_replConn s') /\ s_dbConfig s' = config /\
      s_relationByID s' = ∅ /\ s_lastAckedLSN s' = 0%Z
  | OpSubscribe _ _ _, None =>
      is_Some (s_replConn s) /\ s_stream s = None /\ is_Some (s_stream s') /\
      s_replConn s' = s_replConn s /\ s_lastAckedLSN s' = s_lastAckedLSN s
  | OpAcknowledge _ lsn, None =>
      is_Some (s_replConn s) /\ s_lastAckedLSN s' = Z.max (s_lastAckedLSN s) lsn
  | OpClose _, _ =>
      s_replConn s' = None /\ s_stream s' = None /\ s_lastAckedLSN s' = s_lastAckedLSN s
  | _, Some _ => s' = s
  end.

Section life.
Context {W : Type} `{PgxConn W, ReplicationServer W}.

Lemma ensurePublication_returns (ctx : Context) (tables : list string) (s : Subscriber) (w : W) :
  wp (ensurePublication ctx tables s) (fun _ _ => True) w.
Proof. unfold ensurePublication. repeat (go_step || done). Qed.

(** What each operation can do to the subscriber. *)
Lemma apply_op_spec (o : sub_op) (s : Subscriber) (w : W) :
  subscriber_ok s ->
  wp (apply_op o s) (fun '(s', err) _ =>
    subscriber_ok s' /\
    op_effect o err s s') w.
Proof.
  intros Hok. pose proof Hok as [Hstream Hacked].
  destruct o as [ctx config|ctx slot tables|ctx lsn|ctx]; simpl.
  - unfold Connect. destruct (is_blank _); [by apply wp_ret|].
    destruct (s_replConn s) as [c|] eqn:Hconn; [by apply wp_ret|].
    apply wp_bind, wp_call. intros [std|err] w1 _; [|by apply wp_ret].
    apply wp_bind, wp_call. intros r w2 _. apply wp_bind.
    apply (wp_mono _ (fun out _ => out.1 = s)).
    { destruct r as [err|]; [destruct (negb _)|]; by apply wp_ret. }
    intros [s1 [err|]] w3 Hs1; simpl in Hs1; subst s1; apply wp_bind.
    + apply wp_ret, wp_bind, wp_call. intros u w4 _. by apply wp_ret.
    + apply wp_bind, wp_call. intros [c|err] w4 _; apply wp_ret, wp_bind, wp_call; intros u w5 _;
        apply wp_ret; [|done].
      split; [|by repeat split]. split; simpl; [by eauto|done].
  - unfold Subscribe. destruct (s_replConn s) as [c|] eqn:Hconn; [|by apply wp_ret].
    destruct (s_stream s) as [t|] eqn:Ht; [by apply wp_ret|].
    destruct (is_blank _); [by apply wp_ret|].
    apply wp_bind. eapply wp_mono; [apply ensurePublication_returns|].
    intros [err|] w1 _; [by apply wp_ret|].
    apply wp_bind, wp_call. intros [err|] w2 _; [by apply wp_ret|].
    apply wp_bind, wp_call. intros stream w3 _. apply wp_ret.
    split; [|by eauto]. split; simpl; [rewrite Hconn; eauto|done].
  - unfold Acknowledge. destruct (s_replConn s) as [c|] eqn:Hconn; [|by apply wp_ret].
    apply wp_bind, wp_call. intros [err|] w1 _; apply wp_ret; [done|].
    destruct (s_lastAckedLSN s <? lsn)%Z eqn:E; simpl.
    + split; [split; simpl; [rewrite Hconn; eauto|lia]|]. split; [eauto|]. by rewrite Z.max_r by lia.
    + split; [done|]. split; [eauto|]. by rewrite Z.max_l by lia.
  - unfold Close. apply wp_bind.
    apply (wp_mono _ (fun _ _ => True)); [destruct (s_stream s); [by apply wp_call|by apply wp_ret]|].
    intros u w1 _. assert (subscriber_ok (close_fields s)) by (split; [by intros [? ?]|done]).
    destruct (s_replConn s); [|by apply wp_ret].
    apply wp_bind, wp_call. intros [err|] w2 _; by apply wp_ret.
Qed.

Lemma apply_ops_ok (ops : list sub_op) (s : Subscriber) (w : W) :
  subscriber_ok s -> wp (apply_ops ops s) (fun s' _ => subscriber_ok s') w.
Proof.
  revert s w. induction ops as [|o ops IH]; intros s w Hok; simpl; [by apply wp_ret|].
  apply wp_bind. eapply wp_mono; [by apply apply_op_spec|]. intros [s' err] w1 [Hok' _].
  by apply IH.
Qed.

(** C30: the life of a subscriber.  After any sequence of operations on a new
    subscriber, in any environment, a stream only exists over a connection,
    and the next operation does what it should: connecting needs no
    connection to exist and starts from nothing; subscribing needs one and no
    stream; acknowledging needs one and never moves the acknowledged position
    back; closing drops both; and an operation that fails, other than
    closing, changes nothing. *)
Theorem subscriber_life (ops : list sub_op) (o : sub_op) (w : W) :
  wp (s ← apply_ops ops NewSubscriber; '(s', err) ← apply_op o s; mret (s, s', err))
    (fun '(s, s', err) _ =>
      (is_Some (s_stream s) -> is_Some (s_replConn s)) /\ op_effect o err s s') w.
Proof.
  apply wp_bind. eapply wp_mono; [apply apply_ops_ok; split; [by intros [? ?]|done]|].
  intros s w1 Hok. apply wp_bind. eapply wp_mono; [by apply apply_op_spec|].
  intros [s' err] w2 [_ Heff]. apply wp_ret. split; [apply Hok|done].
Qed.

(** Closing races with the stream.  [Close] drops the connection before it
    cancels the stream; if the goroutine of the stream is at the head of its
    loop then, its next iteration dereferences the nil connection and panics,
    in every environment. *)
Theorem Close_crashes_stream (parseKeepalive : string -> result bool)
    (parseXLogData : string -> result string) (parse : string -> result Message)
    (closeCtx ctx : Context) (v : stream_vars) (s : Subscriber) (w : W) :
  exists w', ('(s', _) ← Close closeCtx s;
              consume_iter parseKeepalive parseXLogData parse ctx v s') w =
    (Panic "runtime error: invalid memory address or nil pointer dereference", w').
Proof.
  assert (Hclose : exists err w1, Close closeCtx s w = (Ret (close_fields s, err), w1)).
  { unfold Close, mbind, Go_bind, call. destruct (s_stream s) as [t|], (s_replConn s) as [c|];
      repeat (case_match; simplify_eq); eauto. }
  destruct Hclose as (err & w1 & Hclose). exists w1. unfold mbind, Go_bind. by rewrite Hclose.
Qed.
End life.

(** * On a concrete stream *)

Record stream_world : Type := mkStream {
  queue : list BackendMessage;
  channel : list ChangeEvent;
  positions : list LSN;
}.

#[local] Instance stream_pgx : PgxConn stream_world := {|
  conn_Connect ctx s w := (Ok 0, w);
  conn_Exec c ctx sql args w := (None, w);
  conn_QueryRow c ctx sql w := (Ok "on", w);
  conn_Close c ctx w := (None, w);
|}.

#[local] Instance stream_server : ReplicationServer stream_world := {|
  pgconn_Connect ctx s w := (Ok 1, w);
  pgconn_Close c ctx w := (None, w);
  StartReplication c ctx slot lsn args w := (None, w);
  SendStandbyStatusUpdate c ctx lsn w :=
    (None, mkStream (queue w) (channel w) (positions w ++ [lsn]));
  ReceiveMessage c ctx w :=
    match queue w with
    | [] => (Err (ErrorsNew "EOF"), w)
    | m :: ms => (Ok m, mkStream ms (channel w) (positions w))
    end;
  conn_QueryExists c ctx sql args w := (Ok true, w);
  go_stream ctx w := (0, w);
  cancel_stream t w := (tt, w);
  chan_send ctx ev w := (true, mkStream (queue w) (channel w ++ [ev]) (positions w));
|}.

#[local] Program Instance stream_laws : StreamWorld stream_world := {|
  pending := queue;
  emitted := channel;
  confirmed := positions;
|}.
Next Obligation.
  intros conn ctx w r w' Hr. simpl in *. destruct w as [[|m ms] ch ps]; simpl in *;
    injection Hr as <- <-; simpl; eauto.
Qed.
Next Obligation. by intros ctx ev w r w' [= <- <-]. Qed.
Next Obligation. by intros conn ctx lsn w r w' [= <- <-]. Qed.

(** One transaction that announces a table and inserts a row. *)
Definition sample_tx : transaction :=
  mkTransaction 40%Z Second
    [RelationMessage 7 "public" "accounts" [Some "id"; Some "name"];
     InsertMessage 7 (Some [Some (mkTupleDataColumn "t" "1"); Some (mkTupleDataColumn "n" "")])].

(** WAL data that names its message by its first byte. *)
Definition sample_parse (walData : string) : result Message :=
  match walData with
  | String "B" _ => Ok (BeginMessage 40%Z Second)
  | String "R" _ => Ok (RelationMessage 7 "public" "accounts" [Some "id"; Some "name"])
  | String "I" _ =>
      Ok (InsertMessage 7 (Some [Some (mkTupleDataColumn "t" "1"); Some (mkTupleDataColumn "n" "")]))
  | String "C" _ => Ok (CommitMessage 40%Z)
  | _ => Err (ErrorsNew "unknown message")
  end.

Definition sample_datas : list string := ["wB"; "wR"; "wI"; "wC"].
Definition sample_stream : stream_world := mkStream (CopyData <$> sample_datas) [] [].
Definition sample_subscriber : Subscriber :=
  mkSubscriber zero_DBConfig (Some 1) ∅ 0%Z defaultPublicationName (Some 0).

Lemma sample_decoded :
  Forall2 (decoded Ok sample_parse) sample_datas (concat (tx_messages <$> [sample_tx])).
Proof.
  repeat (constructor; [eexists _, _; split; [reflexivity|split; reflexivity]|]). constructor.
Qed.

Lemma consumeStream_emits_changes_witness :
  exists s' w', consumeStream (fun _ => Ok false) Ok sample_parse 5 Background sample_subscriber
    sample_stream = (Ret s', w') /\
  channel w' = [mkChangeEvent 40%Z Second "public.accounts" OperationInsert ∅
                  {["id" := Str "1"; "name" := Nil]}].
Proof.
  pose proof (consumeStream_emits_changes (fun _ => Ok false) Ok sample_parse Background
    (fun _ _ => eq_refl) (fun _ _ _ _ => eq_refl) sample_subscriber 1 [sample_tx] sample_datas 5
    sample_stream eq_refl ltac:(repeat constructor) sample_decoded eq_refl ltac:(simpl; lia)) as Hwp.
  apply wp_run in Hwp as (s' & w' & Hrun & He & _).
  exists s', w'. split; [exact Hrun|]. simpl in He. rewrite He. reflexivity.
Defined.

Lemma consumeStream_confirms_on_receipt_witness :
  exists s' w', consumeStream (fun _ => Ok false) Ok sample_parse 5 Background sample_subscriber
    sample_stream = (Ret s', w') /\ positions w' = [40%Z].
Proof.
  pose proof (consumeStream_confirms_on_receipt (fun _ => Ok false) Ok sample_parse Background
    (fun _ _ => eq_refl) (fun _ _ _ _ => eq_refl) sample_subscriber 1 [sample_tx] sample_datas 5
    sample_stream eq_refl ltac:(repeat constructor) sample_decoded eq_refl ltac:(simpl; lia)) as Hwp.
  apply wp_run in Hwp as (s' & w' & Hrun & Hc). exists s', w'. split; [exact Hrun|exact Hc].
Defined.

Lemma extractTuple_by_column_witness :
  extractTuple (Some (Some <$> [mkTupleDataColumn "t" "1"; mkTupleDataColumn "u" ""]))
    ["id"; "doc"] !! "doc" = Some (Str "unchanged_toast").
Proof.
  apply (extractTuple_by_column ["id"; "doc"] [mkTupleDataColumn "t" "1"; mkTupleDataColumn "u" ""]
    1 "doc" (mkTupleDataColumn "u" "")); try reflexivity.
  - apply (bool_decide_unpack _). reflexivity.
  - repeat constructor.
Defined.
