(* ===== verification/Pipeline.v ===== *)
(** The pipeline: the local database, the subscriber, the engine and the cloud
    in one system.

    The parts are the definitions of Subscriber and Engine.  Around them are
    what they run in: a PostgreSQL server with a log, a replication slot and a
    session ([pipe]); the memory of the process and the backend it publishes and
    saves to ([node]); and the schedule.  The stream goroutine and the server act
    between any two calls of the engine: [n_oracle] says what they do there, so
    a statement about every oracle is one about every interleaving of calls. *)
From S2P Require Import Prelude GoErrors GoTime GoStrings Interfaces Coordinator Subscriber.
From S2P Require Import Config State Metrics Halting Engine Trace Delivery SubscriberSpec.
From Stdlib Require Import Ascii.

(** * The server *)

(** A transaction in the log of the local database, with the changes it made. *)
Record commit : Type := mkCommit {
  c_lsn : LSN;
  c_time : Time;
  c_changes : list ChangeEvent;
}.

#[export] Instance commit_eq_dec : EqDecision commit.
Proof. intros [] []. unfold LSN, Time in *. solve_decision. Defined.

Definition changes (cs : list commit) : list ChangeEvent := concat (c_changes <$> cs).

(** A stretch of messages that carries a transaction, in a session in which
    [rels] have been announced. *)
Definition sends (rels : relations) (t : transaction) (c : commit) : Prop :=
  tx_lsn t = c_lsn c /\ tx_commit_time t = c_time c /\
  Forall (fun m => body_message m = true) (tx_body t) /\
  body_events (tx_lsn t) (tx_commit_time t) rels (tx_body t) = c_changes c.

#[export] Instance sends_dec (rels : relations) (t : transaction) (c : commit) :
  Decision (sends rels t c).
Proof. unfold sends, LSN, Time. apply _. Defined.

(** What the server and the connection can do by themselves, and an iteration of
    the goroutine of the stream. *)
Inductive action : Type :=
  | Commit (c : commit)       (** a transaction commits *)
  | Send (t : transaction)    (** the next transaction is sent, as [t] *)
  | Receive                   (** the goroutine takes a message *)
  | Break.                    (** the replication connection breaks *)

(** [p_session] and [p_emitted] are history: the transactions of the session,
    and the events that went into its channel. *)
Record pipe : Type := mkPipe {
  p_log : list commit;
  p_slot : LSN;                 (** the position the slot has been told *)
  p_session : list commit;
  p_todo : list commit;         (** of the session, not sent yet *)
  p_wire : list Message;        (** sent, not received yet *)
  p_broken : bool;
  p_chan : list ChangeEvent;    (** the channel, and the event that is being sent *)
  p_emitted : list ChangeEvent;
}.

Definition set_slot (lsn : LSN) (p : pipe) : pipe :=
  mkPipe (p_log p) lsn (p_session p) (p_todo p) (p_wire p) (p_broken p) (p_chan p) (p_emitted p).
Definition set_wire (ms : list Message) (p : pipe) : pipe :=
  mkPipe (p_log p) (p_slot p) (p_session p) (p_todo p) ms (p_broken p) (p_chan p) (p_emitted p).
Definition set_todo (cs : list commit) (p : pipe) : pipe :=
  mkPipe (p_log p) (p_slot p) (p_session p) cs (p_wire p) (p_broken p) (p_chan p) (p_emitted p).
Definition set_broken (b : bool) (p : pipe) : pipe :=
  mkPipe (p_log p) (p_slot p) (p_session p) (p_todo p) (p_wire p) b (p_chan p) (p_emitted p).
Definition set_chan (ch : list ChangeEvent) (p : pipe) : pipe :=
  mkPipe (p_log p) (p_slot p) (p_session p) (p_todo p) (p_wire p) (p_broken p) ch (p_emitted p).

(** A session sends the transactions whose commit is not before the position
    asked for and not before the slot's, the later of the two. *)
Definition from_position (lsn : LSN) (cs : list commit) : list commit :=
  filter (fun c => lsn <= c_lsn c)%Z cs.

Definition start_session (lsn : LSN) (p : pipe) : pipe :=
  let cs := from_position (Z.max (p_slot p) lsn) (p_log p) in
  mkPipe (p_log p) (p_slot p) cs cs [] false (p_chan p) (p_emitted p).

(** The log grows at its end, past every position confirmed. *)
Definition fresh_commit (c : commit) (p : pipe) : Prop :=
  Forall (fun c' => c_lsn c' < c_lsn c)%Z (p_log p) /\ (p_slot p <= c_lsn c)%Z /\
  Forall (fun ev => ev_LSN ev = c_lsn c) (c_changes c).

#[export] Instance fresh_commit_dec (c : commit) (p : pipe) : Decision (fresh_commit c p).
Proof. unfold fresh_commit, LSN. apply _. Defined.

Definition append_commit (c : commit) (p : pipe) : pipe :=
  mkPipe (p_log p ++ [c]) (p_slot p) (p_session p ++ [c]) (p_todo p ++ [c]) (p_wire p)
    (p_broken p) (p_chan p) (p_emitted p).

Definition emit (ev : ChangeEvent) (p : pipe) : pipe :=
  mkPipe (p_log p) (p_slot p) (p_session p) (p_todo p) (p_wire p) (p_broken p)
    (p_chan p ++ [ev]) (p_emitted p ++ [ev]).

(** A new channel. *)
Definition make_chan (p : pipe) : pipe :=
  mkPipe (p_log p) (p_slot p) (p_session p) (p_todo p) (p_wire p) (p_broken p) [] [].

Definition connection_lost : error := ErrorsNew "connection lost".

#[export] Instance pipe_pgx : PgxConn pipe := {|
  conn_Connect ctx s p := (Ok 0, p);
  conn_Exec c ctx sql args p := (None, p);
  conn_QueryRow c ctx sql p := (Ok "off", p);
  conn_Close c ctx p := (None, p);
|}.

(** The bytes of a message on the wire are pgoutput's, a parameter like the
    decoders that read them. *)
Definition pipe_server (encode : Message -> string) : ReplicationServer pipe := {|
  pgconn_Connect ctx s p := (Ok 1, p);
  pgconn_Close c ctx p := (None, p);
  StartReplication c ctx slot lsn args p := (None, start_session lsn p);
  SendStandbyStatusUpdate c ctx lsn p :=
    if p_broken p then (Some connection_lost, p) else (None, set_slot (Z.max (p_slot p) lsn) p);
  ReceiveMessage c ctx p :=
    match p_wire p with
    | m :: ms =>
        if p_broken p then (Err connection_lost, p) else (Ok (CopyData (encode m)), set_wire ms p)
    | [] => (Err connection_lost, p)
    end;
  conn_QueryExists c ctx sql args p := (Ok true, p);
  go_stream ctx p := (0, make_chan p);
  cancel_stream t p := (tt, set_broken true p);
  chan_send ctx ev p := (true, emit ev p);
|}.

(** * The process *)

Record node (V : Type) : Type := mkNode {
  n_outer : V;                        (** the clock, the cloud and the store *)
  n_oracle : list (list action);      (** what happens before each call *)
  n_pipe : pipe;
  n_sub : Subscriber;
  n_vars : stream_vars;               (** of the stream goroutine *)
  n_streaming : bool;                 (** it runs; when not, the channel is closed *)
}.
Arguments mkNode {V} n_outer n_oracle n_pipe n_sub n_vars n_streaming.
Arguments n_outer {V} n.
Arguments n_oracle {V} n.
Arguments n_pipe {V} n.
Arguments n_sub {V} n.
Arguments n_vars {V} n.
Arguments n_streaming {V} n.

Section setters.
Context {V : Type}.
Definition set_outer (v : V) (n : node V) : node V :=
  mkNode v (n_oracle n) (n_pipe n) (n_sub n) (n_vars n) (n_streaming n).
Definition set_oracle (o : list (list action)) (n : node V) : node V :=
  mkNode (n_outer n) o (n_pipe n) (n_sub n) (n_vars n) (n_streaming n).
Definition set_pipe (p : pipe) (n : node V) : node V :=
  mkNode (n_outer n) (n_oracle n) p (n_sub n) (n_vars n) (n_streaming n).
Definition set_sub (s : Subscriber) (n : node V) : node V :=
  mkNode (n_outer n) (n_oracle n) (n_pipe n) s (n_vars n) (n_streaming n).
Definition set_vars (v : stream_vars) (n : node V) : node V :=
  mkNode (n_outer n) (n_oracle n) (n_pipe n) (n_sub n) v (n_streaming n).
Definition set_streaming (b : bool) (n : node V) : node V :=
  mkNode (n_outer n) (n_oracle n) (n_pipe n) (n_sub n) (n_vars n) b.
End setters.

(** [make(chan interfaces.ChangeEvent, 256)] *)
Definition chan_capacity : nat := 256.

(** The parameters of the system: the decoders, the encoder, and the
    configuration the process is started with. *)
Record setup : Type := mkSetup {
  ParsePrimaryKeepaliveMessage : string -> result bool;
  ParseXLogData : string -> result string;
  Parse : string -> result Message;
  su_encode : Message -> string;
  su_cfg : Config;
  su_metrics : option Metrics;
}.
Existing Class setup.

Section pipeline.
Context {V : Type} `{Runtime V, ReplicationPublisher V, StateStore V}.
Context (su : setup).

(** The goroutine waits while there is no message, and while it cannot send: the
    event after the first [chan_capacity] of [p_chan] is the one in its hands,
    blocked in [emitEvent], and the next in line when the engine takes one.  With
    a full channel it still takes messages that emit nothing, and the one that
    does is the last until there is room.  A panic ends it with the whole process,
    which then is in its exit. *)
Definition receive (n : node V) : node V :=
  let p := n_pipe n in
  if negb (n_streaming n) || (bool_decide (p_wire p = []) && negb (p_broken p)) ||
     (chan_capacity <? length (p_chan p))
  then n
  else
    let _ := pipe_server (su_encode su) in
    match consume_iter (ParsePrimaryKeepaliveMessage su) (ParseXLogData su) (Parse su) Background
            (n_vars n) (n_sub n) p with
    | (Ret (Some (v, s)), p) => set_vars v (set_sub s (set_pipe p n))
    | (_, p) => set_streaming false (set_pipe p n)
    end.

(** An action that cannot happen does nothing. *)
Definition perform (a : action) (n : node V) : node V :=
  let p := n_pipe n in
  match a with
  | Commit c => if decide (fresh_commit c p) then set_pipe (append_commit c p) n else n
  | Send t =>
      match p_todo p with
      | c :: todo =>
          if decide (sends (foldl relations_after (s_relationByID (n_sub n)) (p_wire p)) t c)
          then set_pipe (set_todo todo (set_wire (p_wire p ++ tx_messages t) p)) n
          else n
      | [] => n
      end
  | Receive => receive n
  | Break => set_pipe (set_broken true p) n
  end.

Definition perform_all (l : list action) (n : node V) : node V := foldl (fun n a => perform a n) n l.

(** What happens before a call of the engine. *)
Definition interfere (n : node V) : node V :=
  match n_oracle n with
  | [] => n
  | l :: o => perform_all l (set_oracle o n)
  end.

(** A call of the engine on the backend, and one on the subscriber. *)
Definition lifted {A} (m : Go V A) : Go (node V) A := fun n =>
  let n := interfere n in
  let '(r, v) := m (n_outer n) in (r, set_outer v n).

Definition on_sub {A} (f : Subscriber -> Go pipe (Subscriber * A)) : Go (node V) A := fun n =>
  let n := interfere n in
  match f (n_sub n) (n_pipe n) with
  | (Ret (s, a), p) => (Ret a, set_sub s (set_pipe p n))
  | (Panic msg, p) => (Panic msg, set_pipe p n)
  | (OutOfFuel, p) => (OutOfFuel, set_pipe p n)
  end.

Definition start_stream (r : option error) : Go (node V) (option error) := fun n =>
  (Ret r, match r with
          | None => set_streaming true (set_vars (mkVars 0%Z zero_time) n)
          | Some _ => n
          end).

#[export] Instance node_runtime : Runtime (node V) := {|
  rt_now n := let n := interfere n in let '(t, v) := rt_now (n_outer n) in (t, set_outer v n);
  rt_wait ctx d n :=
    let n := interfere n in let '(r, v) := rt_wait ctx d (n_outer n) in (r, set_outer v n);
|}.

#[export] Instance node_subscriber : ReplicationSubscriber (node V) :=
  let _ := pipe_server (su_encode su) in {|
  sub_Connect ctx db := on_sub (Connect ctx db);
  sub_Subscribe ctx slot tables := r ← on_sub (Subscribe ctx slot tables); start_stream r;
  sub_Acknowledge ctx lsn := on_sub (Acknowledge ctx lsn);
  sub_Close := on_sub (Close Background);
|}.

#[export] Instance node_publisher : ReplicationPublisher (node V) := {|
  pub_Publish ctx evs := lifted (pub_Publish ctx evs);
  pub_HealthCheck ctx := lifted (pub_HealthCheck ctx);
|}.

#[export] Instance node_store : StateStore (node V) := {|
  store_Load := lifted store_Load;
  store_Save rs := lifted (store_Save rs);
|}.

#[export] Instance node_delivery {E : Type} `{Delivery V E} : Delivery (node V) E := {|
  effects n := effects (n_outer n);
  effect := effect;
|}.

(** * The system *)

(** The engine of the process that runs, if one does; and, as history, the
    events that were in the memory of processes when they ended. *)
Record system : Type := mkSystem {
  sy_engine : option Engine;
  sy_node : node V;
  sy_dropped : list ChangeEvent;
}.

(** [timer]: that of the shutdown this leads to, if the channel is closed. *)
Inductive input : Type :=
  | Env (a : action)
  | Take (timer : option nat)     (** the engine's select takes from the channel *)
  | TickerFires
  | Terminate (timer : option nat)  (** a signal *)
  | Crash                         (** the process is killed between two iterations, *)
  | CrashTaking (k : nat)         (** or in that for the next event, after [k] calls, *)
  | CrashTicking (k : nat)        (** or in that for the ticker *)
  | Start.                        (** the process is started *)

(** The memory of a process that has ended is gone: what was buffered, [left],
    and the channel. *)
Definition ended (left dropped : list ChangeEvent) (n : node V) : system :=
  mkSystem None (set_streaming false (set_sub NewSubscriber (set_pipe (make_chan (n_pipe n)) n)))
    (dropped ++ left ++ p_chan (n_pipe n)).

Definition engine_step (e : Engine) (i : loop_input) (n : node V) (dropped : list ChangeEvent)
    : system :=
  match loop e [i] n with
  | (Ret (e', None, _), n') => mkSystem (Some e') n' dropped
  | (Ret (e', Some _, _), n') => ended (e_buffer e') dropped n'
  | (_, n') => ended (e_buffer e) dropped n'
  end.

(** The process is killed in an iteration, with [left] buffered in it. *)
Definition killed (k : nat) (e : Engine) (i : loop_input) (left : list ChangeEvent) (n : node V)
    (dropped : list ChangeEvent) : system :=
  ended left dropped (stopped_after k (loop e [i]) n).2.

Definition take (timer : option nat) (e : Engine) (n : node V) (dropped : list ChangeEvent) : system :=
  match p_chan (n_pipe n) with
  | ev :: ch => engine_step e (Event ev) (set_pipe (set_chan ch (n_pipe n)) n) dropped
  | [] =>
      if n_streaming n then mkSystem (Some e) n dropped
      else engine_step e (ChannelClosed Background timer) n dropped
  end.

(** The server answers, so one attempt to connect is enough. *)
Definition start (n : node V) (dropped : list ChangeEvent) : system :=
  match Run 1 Background (New (su_cfg su) (su_metrics su)) [] n with
  | (Ret (e, None, _), n') => mkSystem (Some e) n' dropped
  | (_, n') => ended [] dropped n'
  end.

Definition exec (st : system) (i : input) : system :=
  let n := sy_node st in
  let dropped := sy_dropped st in
  match i, sy_engine st with
  | Env a, e => mkSystem e (perform a n) dropped
  | Take timer, Some e => take timer e n dropped
  | TickerFires, Some e => engine_step e Tick n dropped
  | Terminate timer, Some e => engine_step e (CtxDone Background timer) n dropped
  | Crash, Some e => ended (e_buffer e) dropped n
  | CrashTaking k, Some e =>
      match p_chan (n_pipe n) with
      | ev :: ch => 
          killed k e (Event ev) (e_buffer e ++ [ev]) (set_pipe (set_chan ch (n_pipe n)) n) dropped
      | [] => st
      end
  | CrashTicking k, Some e => killed k e Tick (e_buffer e) n dropped
  | Start, None => start n dropped
  | _, _ => st
  end.

Definition execute (ins : list input) (st : system) : system := foldl exec st ins.

(** A database with an empty log, and no process. *)
Definition initial (v : V) (oracle : list (list action)) : system :=
  ended [] [] (mkNode v oracle (mkPipe [] 0%Z [] [] [] false [] []) NewSubscriber
           (mkVars 0%Z zero_time) false).
End pipeline.
Arguments system V : clear implicits.
Arguments sy_engine {V} s.
Arguments sy_node {V} s.
Arguments sy_dropped {V} s.
