(* ===== verification/PipelineSpec.v ===== *)
(** What holds of the pipeline at every moment.

    [pipe_ok] relates what the server has sent to what the goroutine of the
    stream has put into the channel; [later] is how a pipe can have changed after
    any number of actions and calls of the engine, and keeps it. *)
From stdpp Require Import sorting.
From S2P Require Import Prelude GoErrors GoTime GoStrings Interfaces Coordinator Subscriber.
From S2P Require Import Config State Metrics Engine Trace Delivery SubscriberSpec.
From S2P Require Import EngineSpec EngineInvariants Pipeline.

(** * The messages of a session *)

(** Messages, between two transactions, that carry [cs]. *)
Inductive carries : relations -> list Message -> list commit -> Prop :=
  | CarriesNil rels : carries rels [] []
  | CarriesTx rels t c ms cs :
      sends rels t c -> carries (foldl relations_after rels (tx_body t)) ms cs ->
      carries rels (tx_messages t ++ ms) (c :: cs).

Lemma relations_after_tx (rels : relations) (t : transaction) :
  foldl relations_after rels (tx_messages t) = foldl relations_after rels (tx_body t).
Proof. unfold tx_messages. simpl. by rewrite foldl_app. Qed.

Lemma carries_snoc (rels : relations) (ms : list Message) (cs : list commit) (t : transaction)
    (c : commit) :
  carries rels ms cs -> sends (foldl relations_after rels ms) t c ->
  carries rels (ms ++ tx_messages t) (cs ++ [c]).
Proof.
  induction 1 as [rels|rels t' c' ms cs Ht' _ IH]; intros Ht.
  - simpl. rewrite <- (app_nil_r (tx_messages t)). constructor; [done|constructor].
  - rewrite foldl_app, relations_after_tx in Ht. rewrite <- app_assoc. constructor; auto.
Qed.

(** What is on the wire: the rest of the transaction being received, [cur], of
    which [part] has been emitted, and then whole transactions, [ahead]. *)
Definition wire_ok (v : stream_vars) (rels : relations) (wire : list Message)
    (cur : option commit) (part : list ChangeEvent) (ahead : list commit) : Prop :=
  match cur with
  | None => part = [] /\ carries rels wire ahead
  | Some c => exists body ms,
      wire = body ++ CommitMessage (c_lsn c) :: ms /\
      Forall (fun m => body_message m = true) body /\ v = mkVars (c_lsn c) (c_time c) /\
      c_changes c = part ++ body_events (c_lsn c) (c_time c) rels body /\
      carries (foldl relations_after rels body) ms ahead
  end.

(** The changes still to come from the wire. *)
Lemma carries_events (v : stream_vars) (rels : relations) (ms : list Message) (cs : list commit) :
  carries rels ms cs -> run_events v rels ms = changes cs.
Proof.
  intros Hc. revert v. induction Hc as [rels|rels t c ms cs (Hl & Ht & Hb & He) _ IH]; intros v;
    [done|]. unfold tx_messages. simpl. rewrite <- app_assoc, run_events_body by done. simpl.
  rewrite IH, He. done.
Qed.

Lemma wire_events (v : stream_vars) (rels : relations) (wire : list Message)
    (cur : option commit) (part : list ChangeEvent) (ahead : list commit) :
  wire_ok v rels wire cur part ahead ->
  part ++ run_events v rels wire = changes (option_list cur ++ ahead).
Proof.
  destruct cur as [c|]; simpl.
  - intros (body & ms & -> & Hb & -> & Hc & Hms). rewrite run_events_body by done. simpl.
    unfold changes. simpl. rewrite Hc, <- app_assoc. do 2 f_equal. by apply carries_events.
  - intros [-> Hc]. by apply carries_events.
Qed.

(** * The log *)

Definition before (c d : commit) : Prop := (c_lsn c < c_lsn d)%Z.

(** The commits are in order, and the changes of each have its position. *)
Record log_ok (p : pipe) : Prop := {
  lo_log : StronglySorted before (p_log p);
  lo_lsn : Forall (fun c => Forall (fun ev => ev_LSN ev = c_lsn c) (c_changes c)) (p_log p);
  lo_session : StronglySorted before (p_session p);
  lo_sub : p_session p ⊆ p_log p;
  lo_slot : (0 <= p_slot p)%Z;
}.

Lemma changes_app (cs ds : list commit) : changes (cs ++ ds) = changes cs ++ changes ds.
Proof. unfold changes. by rewrite fmap_app, concat_app. Qed.
#[export] Hint Rewrite changes_app : go.

Lemma elem_of_changes (x : ChangeEvent) (cs : list commit) :
  x ∈ changes cs <-> exists c, c ∈ cs /\ x ∈ c_changes c.
Proof.
  induction cs as [|c cs IH]; unfold changes; simpl.
  { split; [by intros ?%elem_of_nil|]. by intros (c & ?%elem_of_nil & _). }
  rewrite elem_of_app. fold (changes cs). rewrite IH. split.
  - intros [Hx|(d & Hd & Hx)]; [exists c|exists d]; (split; [|done]); by constructor.
  - intros (d & [->|Hd]%elem_of_cons & Hx); [by left|right; by exists d].
Qed.

(** A position that the log has got to. *)
Definition in_log (B : LSN) (p : pipe) : Prop :=
  (B <= p_slot p)%Z \/ exists c, c ∈ p_log p /\ (B <= c_lsn c)%Z.

(** [B] is a position that may still be confirmed from what has been emitted. *)
Definition pipe_ok (B : LSN) (p : pipe) (v : stream_vars) (rels : relations) : Prop :=
  exists done cur part ahead,
    let rest := option_list cur ++ ahead ++ p_todo p in
    p_session p = done ++ rest /\ p_emitted p = changes done ++ part /\
    wire_ok v rels (p_wire p) cur part ahead /\
    Forall (fun c => p_slot p <= c_lsn c /\ B <= c_lsn c)%Z rest /\ in_log B p.

Lemma change_lsn (p : pipe) (c : commit) (x : ChangeEvent) :
  log_ok p -> c ∈ p_log p -> x ∈ c_changes c -> ev_LSN x = c_lsn c.
Proof.
  intros Hl Hc Hx. pose proof (lo_lsn _ Hl) as Hf. rewrite Forall_forall in Hf.
  specialize (Hf c Hc). rewrite Forall_forall in Hf. by apply Hf.
Qed.

(** What has been emitted comes from the session. *)
Lemma emitted_session (B : LSN) (p : pipe) (v : stream_vars) (rels : relations) (x : ChangeEvent) :
  pipe_ok B p v rels -> x ∈ p_emitted p -> x ∈ changes (p_session p).
Proof.
  intros (done & cur & part & ahead & -> & -> & Hw & _) Hx.
  rewrite !changes_app, app_assoc, <- changes_app.
  apply elem_of_app. apply elem_of_app in Hx as [Hx|Hx].
  - left. rewrite changes_app. apply elem_of_app. by left.
  - destruct cur as [c|]; [|by destruct Hw as [-> _]; apply elem_of_nil in Hx].
    destruct Hw as (body & ms & _ & _ & _ & Hc & _). left. rewrite changes_app.
    apply elem_of_app. right. unfold changes. simpl. rewrite Hc, app_nil_r. set_solver.
Qed.

(** What has been emitted and what is still to come are the session. *)
Definition coming (p : pipe) (v : stream_vars) (rels : relations) : list ChangeEvent :=
  run_events v rels (p_wire p) ++ changes (p_todo p).

Lemma emitted_coming (B : LSN) (p : pipe) (v : stream_vars) (rels : relations) :
  pipe_ok B p v rels -> p_emitted p ++ coming p v rels = changes (p_session p).
Proof.
  intros (done & cur & part & ahead & -> & -> & Hw & _). unfold coming.
  rewrite <- app_assoc, (app_assoc part), (wire_events _ _ _ _ _ _ Hw), !changes_app.
  by rewrite <- !app_assoc.
Qed.

Lemma pipe_ok_le (B B' : LSN) (p : pipe) (v : stream_vars) (rels : relations) :
  (B' <= B)%Z -> pipe_ok B p v rels -> pipe_ok B' p v rels.
Proof.
  intros HB (done & cur & part & ahead & H1 & H2 & H3 & Hf & Hlog).
  exists done, cur, part, ahead. repeat split; [done..| |].
  - eapply Forall_impl; [exact Hf|]. intros c [? ?]. unfold LSN in *. lia.
  - unfold in_log, LSN in *. destruct Hlog as [?|(c & ? & ?)]; [left; lia|].
    right. exists c. split; [done|lia].
Qed.

Lemma sorted_app_lt (l k : list commit) (c d : commit) :
  StronglySorted before (l ++ k) -> c ∈ l -> d ∈ k -> before c d.
Proof. intros (Hlt & _ & _)%StronglySorted_app Hc Hd. by apply Hlt. Qed.

(** The position of anything emitted may be confirmed. *)
Lemma pipe_ok_emitted (p : pipe) (v : stream_vars) (rels : relations) (x : ChangeEvent) :
  log_ok p -> pipe_ok 0%Z p v rels -> x ∈ p_emitted p -> pipe_ok (ev_LSN x) p v rels.
Proof.
  intros Hl Hok Hx. pose proof (emitted_session _ _ _ _ _ Hok Hx) as Hxs.
  apply elem_of_changes in Hxs as (cx & Hcx & Hxc).
  apply (lo_sub _ Hl) in Hcx. pose proof (change_lsn p cx x Hl Hcx Hxc) as Hlx.
  destruct Hok as (done & cur & part & ahead & Hs & He & Hw & Hf & _).
  exists done, cur, part, ahead. repeat split; [done..| |right; exists cx; by rewrite Hlx].
  rewrite Forall_forall in Hf |- *. intros d Hd. destruct (Hf d Hd) as [Hslot _].
  split; [done|]. pose proof (lo_session _ Hl) as Hsort. rewrite Hs in Hsort.
  assert (Hsub : forall c, c ∈ done \/ c ∈ option_list cur -> c ∈ p_log p).
  { intros c Hc. apply (lo_sub _ Hl). rewrite Hs, !elem_of_app. tauto. }
  rewrite He in Hx. apply elem_of_app in Hx as [Hx|Hx].
  - apply elem_of_changes in Hx as (c & Hc & Hx).
    rewrite (change_lsn p c x Hl) by auto.
    pose proof (sorted_app_lt _ _ _ _ Hsort Hc Hd). unfold before, LSN in *. lia.
  - destruct cur as [c|]; [|by destruct Hw as [-> _]; apply elem_of_nil in Hx].
    destruct Hw as (body & ms & _ & _ & _ & Hc & _).
    rewrite (change_lsn p c x Hl);
      [|apply Hsub; right; by constructor|rewrite Hc, elem_of_app; by left].
    simpl in Hd. apply elem_of_cons in Hd as [->|Hd]; [reflexivity|].
    apply StronglySorted_app in Hsort as (_ & _ & Hsort). simpl in Hsort.
    inversion Hsort as [|? ? _ Hall]; subst. rewrite Forall_forall in Hall.
    specialize (Hall d Hd). unfold before, LSN in *. lia.
Qed.

Lemma pipe_ok_batch (p : pipe) (v : stream_vars) (rels : relations) (batch : list ChangeEvent) :
  log_ok p -> pipe_ok 0%Z p v rels -> batch ⊆ p_emitted p -> pipe_ok (batch_maxLSN batch) p v rels.
Proof.
  intros Hl Hp Hsub. unfold batch_maxLSN.
  destruct (batch_extent_LSN batch 0%Z zero_time) as (_ & _ & [->|(x & Hx & <-)]); [done|].
  apply pipe_ok_emitted; auto.
Qed.

(** * What the server and the stream do *)

Section node.
Context {V : Type} (su : setup).
(** The decoders read what the server writes. *)
Context (Hdecode : forall m, decoded (ParseXLogData su) (Parse su) (su_encode su m) m).

(** The relations the subscriber knows. *)
Definition n_rels (n : node V) : relations := s_relationByID (n_sub n).

Definition node_ok (B : LSN) (n : node V) : Prop := pipe_ok B (n_pipe n) (n_vars n) (n_rels n).

(** [later B n n']: [n'] is what [n] can have become while positions up to [B]
    were confirmed. *)
Record later (B : LSN) (n n' : node V) : Prop := {
  lt_log_ok : log_ok (n_pipe n) -> log_ok (n_pipe n');
  lt_ok : log_ok (n_pipe n) -> node_ok B n -> node_ok B n';
  lt_log : exists new, p_log (n_pipe n') = p_log (n_pipe n) ++ new /\
    p_session (n_pipe n') = p_session (n_pipe n) ++ new /\
    Forall (fun c => p_slot (n_pipe n) <= c_lsn c)%Z new;
  lt_chan : exists more, p_chan (n_pipe n') = p_chan (n_pipe n) ++ more /\
    p_emitted (n_pipe n') = p_emitted (n_pipe n) ++ more;
  lt_slot : (p_slot (n_pipe n) <= p_slot (n_pipe n'))%Z;
}.

(** Nothing of the pipe has changed. *)
Definition same_pipe (n n' : node V) : Prop :=
  n_pipe n' = n_pipe n /\ n_vars n' = n_vars n /\ n_rels n' = n_rels n.

Lemma later_same (B : LSN) (n n' : node V) : same_pipe n n' -> later B n n'.
Proof.
  intros (Hp & Hv & Hr). unfold node_ok. split; rewrite ?Hp.
  - done.
  - unfold node_ok. by rewrite Hp, Hv, Hr.
  - exists []. by rewrite !app_nil_r.
  - exists []. by rewrite !app_nil_r.
  - unfold LSN. lia.
Qed.

Lemma later_refl (B : LSN) (n : node V) : later B n n.
Proof. by apply later_same. Qed.

Lemma later_trans (B : LSN) (n1 n2 n3 : node V) : later B n1 n2 -> later B n2 n3 -> later B n1 n3.
Proof.
  intros [Hl1 Ho1 (new1 & Hlog1 & Hs1 & Hn1) (more1 & Hc1 & He1) Hslot1]
         [Hl2 Ho2 (new2 & Hlog2 & Hs2 & Hn2) (more2 & Hc2 & He2) Hslot2].
  split; [auto|auto| | |unfold LSN in *; lia].
  - exists (new1 ++ new2). rewrite Hlog2, Hlog1, Hs2, Hs1, !app_assoc. repeat split.
    apply Forall_app. split; [done|]. eapply Forall_impl; [exact Hn2|].
    intros c Hc. simpl in Hc. unfold LSN in *. lia.
  - exists (more1 ++ more2). by rewrite Hc2, Hc1, He2, He1, !app_assoc.
Qed.

(** ** Commits *)

Lemma sorted_snoc (cs : list commit) (c : commit) :
  StronglySorted before cs -> Forall (fun c' => before c' c) cs -> StronglySorted before (cs ++ [c]).
Proof.
  intros Hs Hf. apply StronglySorted_app. split; [|split; [done|repeat constructor]].
  intros a b Ha ->%list_elem_of_singleton. rewrite Forall_forall in Hf. by apply Hf.
Qed.

Lemma append_commit_log_ok (c : commit) (p : pipe) :
  fresh_commit c p -> log_ok p -> log_ok (append_commit c p).
Proof.
  intros (Hlt & Hslot & Hlsn) [Hlog Hls Hsess Hsub H0]. split; simpl; [| | | |done].
  - by apply sorted_snoc.
  - apply Forall_app. by repeat constructor.
  - apply sorted_snoc; [done|]. rewrite Forall_forall in Hlt |- *. intros d Hd. by apply Hlt, Hsub.
  - intros d [Hd|Hd]%elem_of_app; apply elem_of_app; auto.
Qed.

Lemma pipe_ok_append (B : LSN) (c : commit) (p : pipe) (v : stream_vars) (rels : relations) :
  fresh_commit c p -> pipe_ok B p v rels -> pipe_ok B (append_commit c p) v rels.
Proof.
  intros (Hlog & Hslot & _) (done & cur & part & ahead & Hs & He & Hw & Hf & Hin).
  assert (HB : (B <= c_lsn c)%Z).
  { destruct Hin as [?|(d & Hd & ?)]; [unfold LSN in *; lia|].
    rewrite Forall_forall in Hlog. specialize (Hlog d Hd). unfold LSN in *. lia. }
  exists done, cur, part, ahead. simpl. rewrite Hs. repeat split.
  - by rewrite <- !app_assoc.
  - done.
  - done.
  - rewrite !app_assoc. apply Forall_app. split; [by rewrite <- app_assoc|].
    constructor; [by split|constructor].
  - destruct Hin as [?|(d & Hd & ?)]; [by left|right; exists d].
    simpl. rewrite elem_of_app. auto.
Qed.

Lemma later_commit (B : LSN) (c : commit) (n : node V) :
  fresh_commit c (n_pipe n) -> later B n (set_pipe (append_commit c (n_pipe n)) n).
Proof.
  intros Hc. split; simpl; [by apply append_commit_log_ok|intros _; by apply pipe_ok_append| | |].
  - exists [c]. repeat split. constructor; [apply Hc|constructor].
  - exists []. by rewrite !app_nil_r.
  - unfold LSN. lia.
Qed.

(** ** Sending *)

Lemma wire_ok_snoc (v : stream_vars) (rels : relations) (wire : list Message) (cur : option commit)
    (part : list ChangeEvent) (ahead : list commit) (t : transaction) (c : commit) :
  wire_ok v rels wire cur part ahead -> sends (foldl relations_after rels wire) t c ->
  wire_ok v rels (wire ++ tx_messages t) cur part (ahead ++ [c]).
Proof.
  destruct cur as [d|]; simpl.
  - intros (body & ms & -> & Hb & -> & Hc & Hms) Hs. exists body, (ms ++ tx_messages t).
    repeat split; [by rewrite <- app_assoc|done|done|].
    apply carries_snoc; [done|]. by rewrite foldl_app in Hs.
  - intros [-> Hc] Hs. split; [done|]. by apply carries_snoc.
Qed.

Lemma later_send (B : LSN) (t : transaction) (c : commit) (todo : list commit) (n : node V) :
  p_todo (n_pipe n) = c :: todo ->
  sends (foldl relations_after (n_rels n) (p_wire (n_pipe n))) t c ->
  later B n (set_pipe (set_todo todo (set_wire (p_wire (n_pipe n) ++ tx_messages t) (n_pipe n))) n).
Proof.
  intros Htodo Hs. split; simpl.
  - by intros [].
  - intros _ (done & cur & part & ahead & H1 & H2 & H3 & Hf & Hin).
    rewrite Htodo in *. exists done, cur, part, (ahead ++ [c]). simpl.
    rewrite <- app_assoc. simpl. repeat split; try done. by apply wire_ok_snoc.
  - exists []. by rewrite !app_nil_r.
  - exists []. by rewrite !app_nil_r.
  - unfold LSN. lia.
Qed.

(** ** Receiving *)

(** What a message does to the pipe. *)
Definition message_pipe (v : stream_vars) (rels : relations) (m : Message) (p : pipe) : pipe :=
  match m with
  | CommitMessage lsn => set_slot (Z.max (p_slot p) lsn) p
  | _ => foldl (fun p ev => emit ev p) p (message_event (txLSN v) (txTime v) rels m)
  end.

Lemma handle_message_pipe (v : stream_vars) (s : Subscriber) (conn : nat) (m : Message) (p : pipe) :
  let _ := pipe_server (su_encode su) in
  s_replConn s = Some conn -> p_broken p = false ->
  exists s', handle_message Background v s m p =
    (Ret (vars_after v m, s'), message_pipe v (s_relationByID s) m p) /\
    s_replConn s' = Some conn /\ s_relationByID s' = relations_after (s_relationByID s) m.
Proof.
  intros srv Hconn Hb. destruct m; try by eexists.
  unfold handle_message, Acknowledge. rewrite Hconn. unfold mbind, Go_bind, call. simpl.
  rewrite Hb. eexists. split; [reflexivity|]. by destruct (_ <? _)%Z.
Qed.

Lemma receive_cases (n : node V) (m : Message) (ms : list Message) :
  p_wire (n_pipe n) = m :: ms ->
  same_pipe n (receive su n) \/
  same_pipe (set_vars (vars_after (n_vars n) m) (set_sub
    (set_relations (relations_after (n_rels n) m) (n_sub n))
      (set_pipe (message_pipe (n_vars n) (n_rels n) m (set_wire ms (n_pipe n))) n))) (receive su n).
Proof.
  intros Hw. unfold receive. destruct (_ || _ || _); [by left|].
  unfold consume_iter. destruct (s_replConn (n_sub n)) as [conn|] eqn:Hconn; [|by left].
  unfold mbind, Go_bind, call. cbn [ReceiveMessage pipe_server]. rewrite Hw.
  destruct (p_broken (n_pipe n)) eqn:Hb; [by left|]. right.
  destruct (Hdecode m) as (rest & data & -> & Hx & Hm). unfold handle_data. simpl.
  rewrite Hx, Hm.
  destruct (handle_message_pipe (n_vars n) (n_sub n) conn m (set_wire ms (n_pipe n)))
    as (s' & -> & _ & Hrel); [done..|].
  by repeat split.
Qed.

Lemma receive_nothing (n : node V) : p_wire (n_pipe n) = [] -> same_pipe n (receive su n).
Proof.
  intros Hw. unfold receive. destruct (_ || _ || _); [done|].
  unfold consume_iter. destruct (s_replConn (n_sub n)) as [conn|]; [|done].
  unfold mbind, Go_bind, call. cbn [ReceiveMessage pipe_server]. by rewrite Hw.
Qed.

(** The node after a message has been handled. *)
Definition handled (m : Message) (ms : list Message) (n : node V) : node V :=
  set_vars (vars_after (n_vars n) m) (set_sub
    (set_relations (relations_after (n_rels n) m) (n_sub n))
      (set_pipe (message_pipe (n_vars n) (n_rels n) m (set_wire ms (n_pipe n))) n)).

(** The fields that only the messages between transactions do not change. *)
Lemma message_pipe_event (v : stream_vars) (rels : relations) (m : Message) (p : pipe) :
  message_pipe v rels m p =
  let evs := message_event (txLSN v) (txTime v) rels m in
  mkPipe (p_log p) (match m with CommitMessage lsn => Z.max (p_slot p) lsn | _ => p_slot p end)
    (p_session p) (p_todo p) (p_wire p) (p_broken p) (p_chan p ++ evs) (p_emitted p ++ evs).
Proof. destruct m, p; simpl; by rewrite ?app_nil_r. Qed.

Lemma handled_begin (v : stream_vars) (rels : relations) (ahead : list commit) (m : Message)
    (ms : list Message) :
  carries rels (m :: ms) ahead ->
  exists c ahead', ahead = c :: ahead' /\ message_event (txLSN v) (txTime v) rels m = [] /\
    relations_after rels m = rels /\ (forall lsn, m <> CommitMessage lsn) /\
    wire_ok (vars_after v m) rels ms (Some c) [] ahead'.
Proof.
  intros Hc. inversion Hc as [|? t c ms' cs (Hl & Ht & Hb & He) Hcs]; subst.
  exists c, cs. repeat split; [done|].
  exists (tx_body t), ms'. rewrite <- Hl, <- Ht, He, <- app_assoc. repeat split; done.
Qed.

Lemma later_handled (B : LSN) (m : Message) (ms : list Message) (n : node V) :
  p_wire (n_pipe n) = m :: ms -> later B n (handled m ms n).
Proof.
  intros Hwire. unfold handled. rewrite message_pipe_event. split; simpl.
  - intros [Hlog Hls Hsess Hsub H0]. split; simpl; try done. destruct m; unfold LSN in *; lia.
  - intros Hl (done & cur & part & ahead & Hs & He & Hw & Hf & Hin). unfold node_ok, pipe_ok. simpl.
    rewrite Hwire in Hw. destruct cur as [c|].
    + destruct Hw as ([|b body] & ms' & Heq & Hb & Hv & Hc & Hms); simpl in Heq.
      * injection Heq as -> ->. exists (done ++ [c]), None, [], ahead. simpl in *.
        rewrite <- app_assoc. rewrite app_nil_r in Hc. repeat split; [done| |done| |].
        -- rewrite He, !changes_app, !app_nil_r. unfold changes at 3. simpl.
           by rewrite app_nil_r, Hc.
        -- pose proof (lo_session _ Hl) as Hsort. rewrite Hs in Hsort.
           apply StronglySorted_app in Hsort as (_ & _ & Hsort).
           inversion Hsort as [|? ? _ Hall]; subst. inversion Hf as [|? ? _ Hf']; subst.
           rewrite Forall_forall in Hall, Hf' |- *. intros d Hd.
           specialize (Hall d Hd). specialize (Hf' d Hd). unfold before, LSN in *. lia.
        -- destruct Hin as [?|?]; [left; simpl; unfold LSN in *; lia|by right].
      * injection Heq as -> ->. inversion Hb as [|? ? Hb1 Hb2]; subst.
        exists done, (Some c), (part ++ message_event (c_lsn c) (c_time c) (n_rels n) b), ahead.
        simpl in *. rewrite Hv. simpl.
        replace (match b with CommitMessage lsn => _ | _ => _ end) with (p_slot (n_pipe n))
          by (by destruct b).
        repeat split; [done| | |done|done].
        -- by rewrite He, app_assoc.
        -- exists body, ms'. repeat split; [done| |by rewrite <- app_assoc|done].
           by destruct b.
    + destruct Hw as [-> Hw].
      destruct (handled_begin (n_vars n) _ _ _ _ Hw) as (c & ahead' & -> & Hev & Hrel & Hm & Hw').
      exists done, (Some c), [], ahead'. rewrite Hev, Hrel, !app_nil_r in *.
      destruct m; try done. by specialize (Hm CommitLSN).
  - exists []. by rewrite !app_nil_r.
  - eauto.
  - destruct m; unfold LSN; lia.
Qed.

(** ** Everything that happens *)

Lemma later_receive (B : LSN) (n : node V) : later B n (receive su n).
Proof.
  destruct (p_wire (n_pipe n)) as [|m ms] eqn:Hw.
  - by apply later_same, receive_nothing.
  - destruct (receive_cases n m ms Hw) as [Hsame|Hsame]; [by apply later_same|].
    eapply later_trans; [by apply (later_handled _ m ms)|by apply later_same].
Qed.

Lemma later_perform (B : LSN) (a : action) (n : node V) : later B n (perform su a n).
Proof.
  destruct a as [c|t| |]; simpl.
  - case_decide; [by apply later_commit|apply later_refl].
  - destruct (p_todo (n_pipe n)) as [|c todo] eqn:Htodo; [apply later_refl|].
    case_decide; [by eapply later_send|apply later_refl].
  - apply later_receive.
  - split; simpl; try done.
    + intros [Hlog Hls Hsess Hsub H0]. by split.
    + exists []. by rewrite !app_nil_r.
    + exists []. by rewrite !app_nil_r.
Qed.

Lemma later_perform_all (B : LSN) (l : list action) (n : node V) :
  later B n (perform_all su l n).
Proof.
  revert n. induction l as [|a l IH]; intros n; [apply later_refl|].
  eapply later_trans; [apply later_perform|apply IH].
Qed.

Lemma later_interfere (B : LSN) (n : node V) : later B n (interfere su n).
Proof.
  unfold interfere. destruct (n_oracle n) as [|l o]; [apply later_refl|].
  eapply later_trans; [|apply later_perform_all]. by apply later_same.
Qed.
End node.
