(* ===== verification/PipelineEngine.v ===== *)
(** The engine over the pipeline: what its calls, an iteration of its loop and
    its start do to the pipe and to the cloud. *)
From stdpp Require Import sorting.
From S2P Require Import Prelude GoErrors GoTime GoStrings Interfaces Backoff Coordinator Subscriber.
From S2P Require Import Config State Metrics CircuitBreaker Halting Engine Trace Delivery.
From S2P Require Import SubscriberSpec EngineSpec EngineInvariants SubscriberProps Pipeline PipelineSpec.

(** Of the backend only [Publish] touches the cloud, and every call returns. *)
Class Backend (V E : Type)
  `{Runtime V, ReplicationPublisher V, StateStore V, Delivery V E} : Prop := {
  backend_now v : effects (rt_now v).2 = effects v;
  backend_wait ctx d v : effects (rt_wait ctx d v).2 = effects v;
  backend_HealthCheck ctx v :
    wp (pub_HealthCheck (W := V) ctx) (fun _ v' => effects v' = effects v) v;
  backend_Load v : wp (store_Load (W := V)) (fun _ v' => effects v' = effects v) v;
  backend_Save rs v : wp (store_Save (W := V) rs) (fun _ v' => effects v' = effects v) v;
}.

(** What the engine may do without disturbing a session: confirm positions up
    to [B], but not connect again. *)
Definition tame_call (B : LSN) (c : call_event) : Prop :=
  match c with
  | CallConnect _ _ | CallSubscribe _ _ _ => False
  | CallAcknowledge lsn _ => (lsn <= B)%Z
  | _ => True
  end.
Definition tame (B : LSN) (calls : list call_event) : Prop := Forall (tame_call B) calls.

Lemma tame_app (B : LSN) (calls1 calls2 : list call_event) :
  tame B (calls1 ++ calls2) <-> tame B calls1 /\ tame B calls2.
Proof. apply Forall_app. Qed.

Lemma flush_tame (e : Engine) (rs : ReplicationState) (e' : Engine) (r : option error)
    (calls : list call_event) :
  flush_outcome e rs e' r calls -> tame (batch_maxLSN (e_buffer e)) calls.
Proof.
  assert (Hatt : forall B batch errs, tame B (attempts batch errs)).
  { intros B batch errs. induction errs; simpl; by constructor. }
  destruct 1; [constructor|constructor|apply Hatt|].
  rewrite !tame_app. split; [apply Hatt|]. split; [by repeat constructor|].
  split; [|by repeat constructor]. unfold ack_calls. destruct (0 <? _)%Z; repeat constructor.
  simpl. unfold LSN. lia.
Qed.

Lemma iter_tame (e : Engine) (rs : ReplicationState) (i : loop_input) (e' : Engine)
    (r : option (option error)) (calls : list call_event) :
  iter_outcome e rs i e' r calls -> tame (batch_maxLSN (e_buffer (before_flush e i))) calls.
Proof.
  destruct 1 as [|e' r calls _ _ Hf|e' r calls rs' saveErr closeErr Hstop Hf _].
  - constructor.
  - by eapply flush_tame.
  - apply tame_app. split; [|by repeat constructor].
    replace (before_flush e i) with e by (by destruct i). by eapply flush_tame.
Qed.

(** One input is one iteration, or the part of one that its timer left. *)
Lemma loop_outcome_one (e : Engine) (i : loop_input) (e' : Engine) (r : option (option error))
    (rest : list loop_input) (calls : list call_event) :
  loop_outcome e [i] (e', r, rest) calls ->
  exists whole late, calls = whole ++ late /\ run_outcome e [i] e' r whole late.
Proof.
  intros (consumed & whole & late & Heq & Hrest & -> & Hrun). exists whole, late. split; [done|].
  destruct consumed as [|i' [|]]; simplify_list_eq; [|done].
  destruct r as [err|]; [|by specialize (Hrest eq_refl)].
  destruct (run_outcome_stop _ _ _ _ _ _ Hrun) as (before & i' & _ & _ & _ & _ & Habs & _).
  by destruct before.
Qed.

Lemma iterations_one (e : Engine) (rs : ReplicationState) (i : loop_input) (e' : Engine)
    (r : option (option error)) (calls : list call_event) :
  e_state e = Some rs -> iterations e [i] e' r calls -> iter_outcome e rs i e' r calls.
Proof.
  intros Hrs. inversion 1 as [|? ? ? ? ? ? Hrs' Hit|? ? ? ? ? ? ? ? ? Hrs' Hit Hits]; simplify_eq.
  - done.
  - inversion Hits; subst. by rewrite app_nil_r.
Qed.

Lemma run_state (e : Engine) (rs : ReplicationState) (i : loop_input) (e' : Engine)
    (r : option (option error)) (calls late : list call_event) :
  e_state e = Some rs -> run_outcome e [i] e' r calls late -> is_Some (e_state e').
Proof.
  intros Hrs. inversion 1 as [? ? ? ? Hits|]; subst; [|by eexists].
  pose proof (iterations_one _ _ _ _ _ _ Hrs Hits) as Hit.
  destruct (iter_outcome_state _ _ _ _ _ _ Hrs Hit) as [_ [rs' ->]]. by eexists.
Qed.

Lemma run_tame (e : Engine) (rs : ReplicationState) (i : loop_input) (e' : Engine)
    (r : option (option error)) (calls late : list call_event) :
  e_state e = Some rs -> run_outcome e [i] e' r calls late ->
  tame (batch_maxLSN (e_buffer (before_flush e i))) (calls ++ late).
Proof.
  intros Hrs (e2 & r2 & todo & Hits)%run_outcome_completes.
  pose proof (iter_tame _ _ _ _ _ _ (iterations_one _ _ _ _ _ _ Hrs Hits)) as Ht.
  rewrite app_assoc in Ht. by apply tame_app in Ht as [? _].
Qed.

Lemma before_flush_buffer (e : Engine) (i : loop_input) :
  e_buffer (before_flush e i) = e_buffer e ++ received_by i.
Proof. destruct i; simpl; by rewrite ?app_nil_r. Qed.

(** What an iteration publishes is what it has. *)
Lemma iter_publishes (e : Engine) (rs : ReplicationState) (i : loop_input) (e' : Engine)
    (r : option (option error)) (calls : list call_event) :
  iter_outcome e rs i e' r calls ->
  Forall (fun c => forall evs err, c = CallPublish evs err -> evs = e_buffer e ++ received_by i) calls.
Proof.
  rewrite <- before_flush_buffer.
  destruct 1 as [|e' r calls _ _ Hf|e' r calls rs' saveErr closeErr Hstop Hf _].
  - constructor.
  - by eapply flush_publishes.
  - replace (before_flush e i) with e by (by destruct i).
    apply Forall_app. split; [by eapply flush_publishes|by repeat constructor].
Qed.

Section node.
Context {V E : Type} `{Runtime V, ReplicationPublisher V, StateStore V, !Delivery V E}.
Context {su : setup}.

Lemma outer_receive (n : node V) : n_outer (receive su n) = n_outer n.
Proof. unfold receive. destruct (_ || _ || _); [done|]. by repeat case_match. Qed.

Lemma outer_perform (a : action) (n : node V) : n_outer (perform su a n) = n_outer n.
Proof. destruct a; simpl; [by case_decide| |apply outer_receive|done]. by repeat case_match. Qed.

Lemma outer_interfere (n : node V) : n_outer (interfere su n) = n_outer n.
Proof.
  unfold interfere, perform_all. destruct (n_oracle n) as [|l o]; [done|].
  assert (Hset : n_outer (set_oracle o n) = n_outer n) by done. revert Hset.
  generalize (set_oracle o n). induction l as [|a l IH]; intros m Hm; [done|].
  apply IH. by rewrite outer_perform.
Qed.

(** A call on the backend, after what happened before it. *)
Lemma wp_lifted {A} (m : Go V A) (Q : A -> V -> Prop) (n : node V) :
  wp m Q (n_outer n) ->
  wp (lifted su m) (fun a n' => exists v, Q a v /\ n' = set_outer v (interfere su n)) n.
Proof.
  unfold wp, lifted. rewrite outer_interfere. destruct (m (n_outer n)) as [[a|msg|] v]; [|done..].
  intros HQ. by exists v.
Qed.

Lemma wp_on_sub {A} (f : Subscriber -> Go pipe (Subscriber * A))
    (Q : Subscriber -> A -> pipe -> Prop) (n : node V) :
  wp (f (n_sub (interfere su n))) (fun '(s, a) p => Q s a p) (n_pipe (interfere su n)) ->
  wp (on_sub su f) (fun a n' => exists s p, Q s a p /\
    n' = set_sub s (set_pipe p (interfere su n))) n.
Proof.
  unfold wp, on_sub. destruct (f _ _) as [[[s a]|msg|] p]; [|done..]. eauto.
Qed.
End node.

(** The subscriber's operations return. *)
Lemma apply_op_returns {W} `{PgxConn W, ReplicationServer W} (o : sub_op) (s : Subscriber) (w : W) :
  wp (apply_op o s) (fun _ _ => True) w.
Proof.
  destruct o as [ctx config|ctx slot tables|ctx lsn|ctx]; simpl.
  - unfold Connect. repeat (go_step || done).
  - unfold Subscribe. repeat case_match; try (by apply wp_ret); apply wp_bind;
      (eapply wp_mono; [apply ensurePublication_returns|]); intros; repeat (go_step || done).
  - unfold Acknowledge. repeat (go_step || done).
  - unfold Close. repeat (go_step || done).
Qed.

(** * The calls of the engine *)

Section calls.
Context {V E : Type} `{Runtime V, ReplicationPublisher V, StateStore V, !Delivery V E}.
Context `{!Backend V E} `{!DeliveringPublisher V E} {su : setup}.
Context (Hdecode : forall m, decoded (ParseXLogData su) (Parse su) (su_encode su m) m).

Lemma on_sub_quiet {A} (f : Subscriber -> Go pipe (Subscriber * A)) (n : node V) :
  (forall s p, wp (f s) (fun _ _ => True) p) ->
  wp (on_sub su f) (fun _ n' => effects n' = effects n) n.
Proof.
  intros Hf. eapply wp_mono; [apply (wp_on_sub _ (fun _ _ _ => True));
    eapply wp_mono; [apply Hf|by intros []]|].
  intros a n' (s & p & _ & ->). simpl. by rewrite outer_interfere.
Qed.

#[export] Instance node_quiet : QuietEnvironment (node V) E.
Proof.
  assert (Hlift : forall {A} (m : Go V A) n,
    (forall v, wp m (fun _ v' => effects v' = effects v) v) ->
    wp (lifted su m) (fun _ n' => effects n' = effects n) n).
  { intros A m n Hm. eapply wp_mono; [apply wp_lifted, Hm|]. intros a n' (v & Hv & ->). done. }
  split.
  - intros n. simpl. pose proof (backend_now (n_outer (interfere su n))) as Hnow.
    destruct (rt_now _) as [t v]. simpl in *. by rewrite Hnow, outer_interfere.
  - intros ctx d n. simpl. pose proof (backend_wait ctx d (n_outer (interfere su n))) as Hwait.
    destruct (rt_wait _ _ _) as [r v]. simpl in *. by rewrite Hwait, outer_interfere.
  - intros. apply on_sub_quiet. intros s p. apply (apply_op_returns (OpConnect ctx db)).
  - intros. apply wp_bind. eapply wp_mono; [apply on_sub_quiet|].
    + intros s p. apply (apply_op_returns (OpSubscribe ctx slot tables)).
    + intros r n' Heff. by destruct r.
  - intros. apply on_sub_quiet. intros s p. apply (apply_op_returns (OpAcknowledge ctx lsn)).
  - intros. apply on_sub_quiet. intros s p. apply (apply_op_returns (OpClose Background)).
  - intros. apply Hlift, backend_HealthCheck.
  - intros. apply Hlift, backend_Load.
  - intros. apply Hlift. intros v. apply backend_Save.
Qed.

#[export] Instance node_delivers : DeliveringPublisher (node V) E.
Proof.
  split. intros ctx evs n. eapply wp_mono; [apply wp_lifted, publish_delivers|].
  by intros r n' (v & Hv & ->).
Qed.

#[export] Instance node_atomic `{!AtomicPublisher V E} : AtomicPublisher (node V) E.
Proof.
  split. intros ctx evs n. eapply wp_mono; [apply wp_lifted, publish_atomic|].
  by intros r n' (v & Hv & ->).
Qed.

(** Confirming a position up to [B]. *)
Lemma later_confirm (B lsn : LSN) (s : Subscriber) (n : node V) :
  (lsn <= B)%Z -> s_relationByID s = n_rels n ->
  later B n (set_sub s (set_pipe (set_slot (Z.max (p_slot (n_pipe n)) lsn) (n_pipe n)) n)).
Proof.
  intros Hle Hrel. split; simpl.
  - intros [Hlog Hls Hsess Hsub Hpos]. split; try done. simpl. unfold LSN in *. lia.
  - intros _ (done & cur & part & ahead & Hsess & Hemit & Hwire & Hf & Hin).
    exists done, cur, part, ahead. unfold n_rels. simpl. rewrite Hrel. repeat split; try done.
    + eapply Forall_impl; [exact Hf|]. intros c [? ?]. simpl. unfold LSN in *. lia.
    + destruct Hin as [?|?]; [left; simpl; unfold LSN in *; lia|by right].
  - exists []. by rewrite !app_nil_r.
  - exists []. by rewrite !app_nil_r.
  - unfold LSN. lia.
Qed.

(** Breaking the connection. *)
Lemma later_broken (B : LSN) (b : bool) (s : Subscriber) (n : node V) :
  s_relationByID s = n_rels n -> later B n (set_sub s (set_pipe (set_broken b (n_pipe n)) n)).
Proof.
  intros Hrel. split; simpl.
  - by intros [Hlog Hls Hsess Hsub Hpos].
  - intros _ (done & cur & part & ahead & Hsess & Hemit & Hwire & Hf & Hin).
    exists done, cur, part, ahead. unfold n_rels. simpl. by rewrite Hrel.
  - exists []. by rewrite !app_nil_r.
  - exists []. by rewrite !app_nil_r.
  - unfold LSN. lia.
Qed.

Lemma Acknowledge_pipe (B lsn : LSN) (ctx : Context) (n : node V) :
  (lsn <= B)%Z -> wp (sub_Acknowledge ctx lsn) (fun _ n' => later B n n') n.
Proof.
  intros Hle. set (n1 := interfere su n).
  eapply wp_mono; [apply (wp_on_sub _ (fun s _ p =>
    later B n1 (set_sub s (set_pipe p n1))))|].
  - fold n1. unfold Acknowledge. destruct (s_replConn (n_sub n1)) as [conn|];
      [|apply wp_ret, later_same; by repeat split].
    apply wp_bind, wp_call. intros r p'. cbn [SendStandbyStatusUpdate pipe_server].
    destruct (p_broken (n_pipe n1)); intros [= <- <-]; apply wp_ret.
    + apply later_same. by repeat split.
    + apply later_confirm; [done|]. by destruct (_ <? _)%Z.
  - intros r n' (s & p & Hlater & ->). eapply later_trans; [apply later_interfere|exact Hlater].
    exact Hdecode.
Qed.

Lemma Close_pipe (B : LSN) (n : node V) : wp sub_Close (fun _ n' => later B n n') n.
Proof.
  set (n1 := interfere su n).
  eapply wp_mono; [apply (wp_on_sub _ (fun s _ p =>
    later B n1 (set_sub s (set_pipe p n1))))|].
  - fold n1. unfold Close. apply wp_bind.
    apply (wp_mono _ (fun _ p' => exists b, p' = set_broken b (n_pipe n1))).
    { destruct (s_stream (n_sub n1)).
      - apply wp_call. intros ? ? [= <- <-]. by exists true.
      - apply wp_ret. exists (p_broken (n_pipe n1)). by destruct (n_pipe n1). }
    intros _ p' [b ->]. destruct (s_replConn (n_sub n1)); [|by apply wp_ret, later_broken].
    apply wp_bind, wp_call. intros r p2 [= <- <-]. by apply wp_ret, later_broken.
  - intros r n' (s & p & Hlater & ->). eapply later_trans; [apply later_interfere|exact Hlater].
    exact Hdecode.
Qed.

(** The calls of the engine leave the pipe as it can be later. *)
Lemma node_keeps_pipe (B : LSN) (n0 : node V) :
  Responds (node V) (fun calls n => tame B calls -> later B n0 n).
Proof.
  assert (Hinter : forall (n : node V) (v : V), later B n (set_outer v (interfere su n))).
  { intros n v. eapply later_trans; [by apply later_interfere|by apply later_same]. }
  assert (Hret : forall {A} (m : Go (node V) A) (c : A -> call_event) calls (n : node V),
    (tame B calls -> later B n0 n) -> wp m (fun a n' => tame_call B (c a) -> later B n n') n ->
    wp m (fun a n' => tame B (calls ++ [c a]) -> later B n0 n') n).
  { intros A m c calls n Hn Hm. eapply wp_mono; [exact Hm|]. intros a n' Hl [Hc Hlast]%tame_app.
    eapply later_trans; [by apply Hn|]. apply Hl. by inversion Hlast. }
  assert (Hlift : forall {A} (m : Go V A) (c : A -> call_event) calls (n : node V),
    (tame B calls -> later B n0 n) -> wp m (fun _ _ => True) (n_outer n) ->
    wp (lifted su m) (fun a n' => tame B (calls ++ [c a]) -> later B n0 n') n).
  { intros A m c calls n Hn Hm. apply Hret; [done|]. eapply wp_mono; [by apply wp_lifted|].
    intros a n' (v & _ & ->) _. apply Hinter. }
  split; [intros calls n Hn Htame|intros ctx d calls n Hn Htame|intros..].
  - eapply later_trans; [by apply Hn|]. simpl. destruct (rt_now _) as [t v]. apply Hinter.
  - eapply later_trans; [by apply Hn|]. simpl. destruct (rt_wait _ _ _) as [r v]. apply Hinter.
  - apply (Hret _ _ (CallConnect db)); [done|]. eapply wp_mono; [apply quiet_Connect|]. by intros.
  - apply (Hret _ _ (CallSubscribe slot tables)); [done|].
    eapply wp_mono; [apply quiet_Subscribe|]. by intros.
  - apply (Hret _ _ (CallAcknowledge lsn)); [done|].
    destruct (Z.le_gt_cases lsn B) as [Hle|Hgt].
    + eapply wp_mono; [by apply (Acknowledge_pipe B)|]. auto.
    + eapply wp_mono; [apply quiet_Acknowledge|]. intros r n' _ Hc. simpl in Hc.
      unfold LSN in *. lia.
  - apply (Hret _ _ CallClose); [done|]. eapply wp_mono; [apply (Close_pipe B)|]. auto.
  - apply (Hlift _ _ (CallPublish evs)); [done|]. eapply wp_mono; [apply publish_delivers|]. done.
  - apply (Hlift _ _ CallHealthCheck); [done|]. eapply wp_mono; [apply backend_HealthCheck|]. done.
  - apply (Hlift _ _ CallLoad); [done|]. eapply wp_mono; [apply backend_Load|]. done.
  - apply (Hlift _ _ (CallSave rs)); [done|]. eapply wp_mono; [apply backend_Save|]. done.
Qed.

(** * An iteration of the loop *)

Definition may_confirm (e : Engine) (i : loop_input) : LSN := batch_maxLSN (e_buffer (before_flush e i)).

Lemma wp_loop_one (D : list call_event -> node V -> Prop) `{!Responds (node V) D} (e : Engine)
    (rs : ReplicationState) (i : loop_input) (n : node V) :
  e_state e = Some rs -> D [] n ->
  wp (loop e [i]) (fun '(e', r, _) n' => exists calls late,
    D (calls ++ late) n' /\ run_outcome e [i] e' r calls late /\ later (may_confirm e i) n n') n.
Proof.
  intros Hrs HD. set (B := may_confirm e i).
  set (P := fun calls n' => tame B calls -> later B n n').
  assert (Responds (node V) P) by apply node_keeps_pipe.
  pose proof (Responds_and D P) as Hboth.
  assert (HDP : D [] n /\ P [] n) by (split; [done|intros _; apply later_refl]).
  eapply wp_mono; [exact (wp_loop_unrecorded _ [i] e rs n Hrs HDP)|].
  intros [[e' r] rest] n' (? & [HD' Hlater] & Hout).
  apply loop_outcome_one in Hout as (calls & late & -> & Hrun). exists calls, late.
  split; [done|]. split; [done|]. by apply Hlater, (run_tame e rs i e' r).
Qed.

(** An iteration delivers the events it has, down to those it leaves. *)
Lemma wp_loop_delivers (e : Engine) (rs : ReplicationState) (i : loop_input) (n : node V) :
  e_state e = Some rs ->
  wp (loop e [i]) (fun '(e', r, _) n' =>
    later (may_confirm e i) n n' /\ is_Some (e_state e') /\
    (exists pub, e_buffer e ++ received_by i = pub ++ e_buffer e') /\
    exists xs, effects n' = effects n ++ xs /\
      redelivers (effect <$> e_buffer e') (effect <$> e_buffer e ++ received_by i) xs) n.
Proof.
  intros Hrs. pose proof (delivering_responds n) as Hresp.
  eapply wp_mono; [apply (wp_loop_one _ e rs i n Hrs), delivered_partly_start|].
  intros [[e' r] rest] n' (calls & late & (chunks & Hch & Heff) & Hrun & Hlater).
  split; [done|]. split; [by eapply run_state|]. rewrite <- received_one. split.
  - destruct (run_outcome_iterations _ _ _ _ _ _ Hrun) as (ins & r' & Hits & <- & _).
    eexists. by eapply iterations_conserve.
  - exists (concat chunks). split; [done|]. by eapply run_redelivers.
Qed.

Lemma wp_loop_exact `{!AtomicPublisher V E} (e : Engine) (rs : ReplicationState) (i : loop_input)
    (n : node V) :
  e_state e = Some rs ->
  wp (loop e [i]) (fun '(e', r, _) n' =>
    later (may_confirm e i) n n' /\ is_Some (e_state e') /\
    (r = None -> exists xs, effects n' = effects n ++ xs /\
      effect <$> e_buffer e ++ received_by i = xs ++ (effect <$> e_buffer e'))) n.
Proof.
  intros Hrs. pose proof node_atomic as Hat. pose proof (atomic_responds n) as Hresp.
  eapply wp_mono; [apply (wp_loop_one _ e rs i n Hrs), delivered_exactly_start|].
  intros [[e' r] rest] n' (calls & late & Heff & Hrun & Hlater). split; [done|].
  split; [by eapply run_state|]. intros ->.
  destruct (run_conserves _ _ _ _ _ _ Hrun) as (left & [->|[_ [=]]] & Hcons).
  eexists. split; [exact Heff|]. by rewrite <- received_one, Hcons, fmap_app.
Qed.

(** What a process that is killed in an iteration has done. *)
Lemma wp_loop_killed_delivers (k : nat) (e : Engine) (rs : ReplicationState) (i : loop_input)
    (n : node V) :
  stop_input i = false -> e_state e = Some rs ->
  let all := effect <$> e_buffer e ++ received_by i in
  wp (stopped_after k (loop e [i])) (fun _ n' => later (may_confirm e i) n n' /\
    exists xs, effects n' = effects n ++ xs /\ redelivers all all xs) n.
Proof.
  intros Hns Hrs all. set (B := may_confirm e i).
  set (P := fun calls n' => tame B calls -> later B n n').
  assert (Responds (node V) P) by apply node_keeps_pipe.
  pose proof (delivering_responds n) as Hresp.
  pose proof (Responds_and (delivered_partly n) P) as Hboth.
  assert (HDP : delivered_partly n [] n /\ P [] n)
    by (split; [apply delivered_partly_start|intros _; apply later_refl]).
  eapply wp_mono; [exact (wp_loop_killed_unrecorded _ k e rs i n Hns Hrs HDP)|].
  intros ? n' (calls & e' & todo & [(chunks & Hch & Heff) Hlater] & Hit).
  pose proof (iter_tame _ _ _ _ _ _ Hit) as [Ht _]%tame_app. split; [by apply Hlater|].
  pose proof (iter_publishes _ _ _ _ _ _ Hit) as [Hpub _]%Forall_app.
  exists (concat chunks). split; [done|].
  pose proof (late_redelivers effect _ [] calls chunks all [] Hpub Hch) as Hre.
  rewrite !app_nil_r in Hre. apply Hre, RdStop.
Qed.
End calls.
