(* ===== verification/PipelineRuns.v ===== *)
(** Runs of the pipeline: starting a process, and what every reachable state of
    the system satisfies. *)
From stdpp Require Import sorting.
From S2P Require Import Prelude GoErrors GoTime GoStrings Interfaces Backoff Coordinator Subscriber.
From S2P Require Import Config State Metrics CircuitBreaker Halting Engine Trace Delivery.
From S2P Require Import SubscriberSpec EngineSpec EngineInvariants SubscriberProps Pipeline PipelineSpec.
From S2P Require Import PipelineEngine.

Section runs.
Context {V E : Type} `{Runtime V, ReplicationPublisher V, StateStore V, !Delivery V E}.
Context `{!Backend V E} `{!DeliveringPublisher V E} {su : setup}.
Context (Hdecode : forall m, decoded (ParseXLogData su) (Parse su) (su_encode su m) m).

#[local] Instance server : ReplicationServer pipe := pipe_server (su_encode su).

(** * Starting *)

(** While no stream runs, only the log can change; the channel is closed. *)
Record idle_since (n0 n : node V) : Prop := {
  is_log_ok : log_ok (n_pipe n0) -> log_ok (n_pipe n);
  is_log : exists new, p_log (n_pipe n) = p_log (n_pipe n0) ++ new /\
    Forall (fun c => p_slot (n_pipe n0) <= c_lsn c)%Z new;
  is_slot : p_slot (n_pipe n) = p_slot (n_pipe n0);
  is_chan : p_chan (n_pipe n) = p_chan (n_pipe n0);
  is_streaming : n_streaming n = false;
  is_effects : effects n = effects n0;
}.

Lemma idle_refl (n : node V) : n_streaming n = false -> idle_since n n.
Proof. intros Hs. split; try done. exists []. by rewrite app_nil_r. Qed.

Lemma idle_trans (n1 n2 n3 : node V) : idle_since n1 n2 -> idle_since n2 n3 -> idle_since n1 n3.
Proof.
  intros [Hl1 (new1 & Hlog1 & Hn1) Hs1 Hc1 Ht1 He1] [Hl2 (new2 & Hlog2 & Hn2) Hs2 Hc2 Ht2 He2].
  split; [auto| |congruence..]. exists (new1 ++ new2). rewrite Hlog2, Hlog1, app_assoc.
  split; [done|]. apply Forall_app. by rewrite Hs1 in Hn2.
Qed.

Lemma idle_perform (a : action) (n : node V) :
  n_streaming n = false -> idle_since n (perform su a n) /\ n_sub (perform su a n) = n_sub n.
Proof.
  intros Hs. destruct a as [c|t| |]; simpl.
  - case_decide as Hc; [|by split; [apply idle_refl|]]. split; [|done]. split; try done.
    + by apply append_commit_log_ok.
    + exists [c]. split; [done|]. constructor; [apply Hc|constructor].
  - destruct (p_todo (n_pipe n)) as [|c todo]; [by split; [apply idle_refl|]|].
    case_decide; [|by split; [apply idle_refl|]]. split; [|done]. split; try done.
    + by intros [].
    + exists []. by rewrite app_nil_r.
  - unfold receive. rewrite Hs. simpl. by split; [apply idle_refl|].
  - split; [|done]. split; try done.
    + by intros [].
    + exists []. by rewrite app_nil_r.
Qed.

Lemma idle_interfere (n : node V) :
  n_streaming n = false -> idle_since n (interfere su n) /\ n_sub (interfere su n) = n_sub n.
Proof.
  intros Hs. unfold interfere, perform_all. destruct (n_oracle n) as [|l o];
    [by split; [apply idle_refl|]|].
  assert (Hset : idle_since n (set_oracle o n) /\ n_sub (set_oracle o n) = n_sub n).
  { split; [|done]. split; try done. exists []. by rewrite app_nil_r. }
  revert Hset. generalize (set_oracle o n). induction l as [|a l IH]; intros m [Hm Hsub]; [done|].
  apply IH. destruct (idle_perform a m) as [Hp Hsub']; [apply Hm|].
  split; [by eapply idle_trans|congruence].
Qed.

Lemma idle_outer (v : V) (n0 n : node V) :
  idle_since n0 n -> effects v = effects n0 -> idle_since n0 (set_outer v n).
Proof. intros [] Hv. by split. Qed.

(** A node in which a stream has just been started. *)
Record started (n0 n : node V) : Prop := {
  sd_log_ok : log_ok (n_pipe n0) -> log_ok (n_pipe n);
  sd_log : exists new, p_log (n_pipe n) = p_log (n_pipe n0) ++ new /\
    Forall (fun c => p_slot (n_pipe n0) <= c_lsn c)%Z new;
  sd_slot : p_slot (n_pipe n) = p_slot (n_pipe n0);
  sd_session : log_ok (n_pipe n0) ->
    p_session (n_pipe n) = from_position (p_slot (n_pipe n)) (p_log (n_pipe n));
  sd_todo : p_todo (n_pipe n) = p_session (n_pipe n);
  sd_wire : p_wire (n_pipe n) = [];
  sd_chan : p_chan (n_pipe n) = [] /\ p_emitted (n_pipe n) = [];
  sd_effects : effects n = effects n0;
}.

Lemma sorted_filter (P : commit -> Prop) `{!forall c, Decision (P c)} (cs : list commit) :
  StronglySorted before cs -> StronglySorted before (filter P cs).
Proof.
  induction 1 as [|c cs Hs IH Hall]; [constructor|]. rewrite filter_cons. case_decide; [|done].
  constructor; [done|]. rewrite Forall_forall in Hall |- *.
  intros d [_ Hd]%list_elem_of_filter. by apply Hall.
Qed.

Lemma start_session_log_ok (lsn : LSN) (p : pipe) : log_ok p -> log_ok (start_session lsn p).
Proof.
  intros [Hlog Hls Hsess Hsub Hpos]. split; simpl; try done.
  - by apply sorted_filter.
  - intros c [_ Hc]%list_elem_of_filter. done.
Qed.

Lemma started_ok (n0 n : node V) : log_ok (n_pipe n0) -> started n0 n -> node_ok 0%Z n.
Proof.
  intros Hl [Hlog _ _ Hs Ht Hw [_ He] _]. specialize (Hs Hl). specialize (Hlog Hl).
  exists [], None, [], []. rewrite Ht, Hw, He. repeat split; [constructor| |].
  - rewrite Hs. simpl. apply Forall_forall. intros c [Hc _]%list_elem_of_filter.
    pose proof (lo_slot _ Hlog). unfold LSN in *. lia.
  - left. apply (lo_slot _ Hlog).
Qed.

Lemma Connect_idle (ctx : Context) (db : DBConfig) (n : node V) :
  n_streaming n = false -> n_sub n = NewSubscriber ->
  wp (sub_Connect ctx db) (fun r n' => idle_since n n' /\
    (r = None -> s_lastAckedLSN (n_sub n') = 0%Z)) n.
Proof.
  intros Hs Hsub. destruct (idle_interfere n Hs) as [Hidle Hsub1]. rewrite Hsub in Hsub1.
  eapply wp_mono; [apply (wp_on_sub _ (fun s r p => p = n_pipe (interfere su n) /\
    (r = None -> s_lastAckedLSN s = 0%Z)))|].
  - rewrite Hsub1. generalize (n_pipe (interfere su n)). intros p.
    assert (Hp : wp (Connect ctx db NewSubscriber) (fun _ p' => p' = p) p).
    { unfold Connect. simpl. repeat (go_step; simplify_eq/=; try done). }
    assert (Hok : subscriber_ok NewSubscriber) by (split; [intros []|]; done).
    eapply wp_mono;
      [exact (wp_and _ _ _ _ Hp (apply_op_spec (OpConnect ctx db) NewSubscriber p Hok))|].
    intros [s r] p' [-> [_ Heff]]. split; [done|]. intros ->. apply Heff.
  - intros r n' (s & p & [-> Hr] & ->). split; [|exact Hr]. by destruct Hidle.
Qed.

(** Subscribing starts the stream, or changes nothing. *)
Lemma Subscribe_idle (ctx : Context) (slot : string) (tables : list string) (n : node V) :
  n_streaming n = false -> s_lastAckedLSN (n_sub n) = 0%Z ->
  wp (sub_Subscribe ctx slot tables) (fun r n' =>
    match r with None => started n n' | Some _ => idle_since n n' end) n.
Proof.
  intros Hs Hack. destruct (idle_interfere n Hs) as [Hidle Hsub1].
  destruct Hidle as [Hl Hlog Hslot Hch Hst Heff]. apply wp_bind.
  eapply wp_mono; [apply (wp_on_sub _ (fun s r p =>
    let p1 := n_pipe (interfere su n) in
    match r with None => p = make_chan (start_session 0%Z p1) | Some _ => p = p1 end))|].
  - generalize (n_pipe (interfere su n)). rewrite Hsub1. intros p. unfold Subscribe.
    destruct (s_replConn (n_sub n)) as [conn|]; [|by apply wp_ret].
    destruct (s_stream (n_sub n)); [by apply wp_ret|].
    destruct (is_blank _); [by apply wp_ret|]. apply wp_bind.
    apply (wp_mono _ (fun _ p' => p' = p)).
    { unfold ensurePublication. repeat (go_step; simplify_eq/=; try done). }
    intros [err|] p' ->; [by apply wp_ret|]. rewrite Hack.
    repeat (go_step; simplify_eq/=; try done).
  - intros [err|] n' (s & p & Hp & ->); simpl in Hp; subst p; unfold start_stream, wp.
    + by split.
    + split; simpl; try done.
      * intros Hl0. destruct (start_session_log_ok 0%Z _ (Hl Hl0)). by split.
      * intros Hl0. pose proof (lo_slot _ (Hl Hl0)). unfold LSN in *. f_equal. lia.
Qed.

Lemma wait_idle (ctx : Context) (d : Duration) (n n' : node V) (r : option error) :
  n_streaming n = false -> rt_wait ctx d n = (r, n') -> idle_since n n'.
Proof.
  intros Hs. destruct (idle_interfere n Hs) as [Hidle _]. simpl.
  pose proof (backend_wait ctx d (n_outer (interfere su n))) as Hw.
  destruct (rt_wait ctx d _) as [r' v]. intros [= <- <-]. apply idle_outer; [done|].
  simpl in Hw. by rewrite Hw, outer_interfere.
Qed.

(** Starting a process: it runs, with a new session, or it does not and nothing
    but the log has changed. *)
Lemma start_spec (dropped : list ChangeEvent) (n : node V) :
  n_streaming n = false -> n_sub n = NewSubscriber ->
  let st := start su n dropped in
  match sy_engine st with
  | Some e => e_buffer e = [] /\ is_Some (e_state e) /\ started n (sy_node st) /\
              sy_dropped st = dropped
  | None => exists n', idle_since n n' /\ st = ended [] dropped n'
  end.
Proof.
  intros Hs Hsub.
  assert (Hends : ends (Run 1 Background (New (su_cfg su) (su_metrics su)) []) (fun o n' =>
    match o with
    | Ret (e, None, _) => e_buffer e = [] /\ is_Some (e_state e) /\ started n n'
    | _ => idle_since n n'
    end) n).
  2:{ unfold start. unfold ends in Hends.
      destruct (Run _ _ _ _ n) as [[[[e [r|]] rest]|msg|] n']; simpl in *; [by exists n'| |by exists n'..].
      destruct Hends as (Hb & Hst & Hsd). by split; [|split; [|split]]. }
  destruct (idle_interfere n Hs) as [Hidle Hsub1].
  unfold Run. apply ends_bind. eapply ends_wp.
  { eapply wp_mono; [apply wp_lifted, backend_Load|]. intros r n1 Hr. exact Hr. }
  intros r n1 (v & Hv & ->).
  assert (Hidle1 : idle_since n (set_outer v (interfere su n))) by by apply idle_outer.
  assert (Hsub2 : n_sub (set_outer v (interfere su n)) = NewSubscriber) by (simpl; congruence).
  revert Hidle1 Hsub2. generalize (set_outer v (interfere su n)). clear v Hv. intros n1 Hidle1 Hsub2.
  destruct r as [rs|err]; [|exact Hidle1].
  apply ends_bind. unfold make_events. destruct (_ || _); [exact Hidle1|].
  unfold ends at 1. simpl. apply ends_bind. unfold Do. simpl. apply ends_bind.
  eapply ends_wp; [apply (Connect_idle _ _ n1); [apply Hidle1|done]|].
  intros r n2 [Hidle2 Hack]. pose proof (idle_trans _ _ _ Hidle1 Hidle2) as Hidle3.
  destruct r as [err|].
  { change (attempts_exhausted 0 0) with false. cbv iota.
    apply ends_bind. unfold ends at 1. simpl. apply ends_bind. eapply ends_wp.
    { apply wp_call. intros out n3 Hw. exact (wait_idle _ _ _ _ _ (is_streaming _ _ Hidle2) Hw). }
    intros out n3 Hidle4. destruct out; simpl; by eapply idle_trans. }
  unfold ends at 1. simpl. apply ends_bind.
  eapply ends_wp; [apply (Subscribe_idle _ _ _ n2); [apply Hidle2|auto]|].
  intros [err|] n3 Hsubscribed; unfold ends; simpl.
  - by eapply idle_trans.
  - split; [done|]. split; [by eexists|].
    destruct Hidle3 as [Hl1 (new1 & Hlog1 & Hn1) Hs1 Hc1 _ He1].
    destruct Hsubscribed as [Hl2 (new2 & Hlog2 & Hn2) Hs2 Hse Ht Hw Hc He2].
    split; auto; try congruence.
    exists (new1 ++ new2). rewrite Hlog2, Hlog1, app_assoc.
    split; [done|]. apply Forall_app. by rewrite Hs1 in Hn2.
Qed.

(** * Every reachable state *)

(** A process that runs, with [buf] buffered: what has been emitted is delivered
    or in its memory, and the transactions before its session are delivered or
    were dropped. *)
Record up_ok (dropped buf : list ChangeEvent) (n : node V) : Prop := {
  up_log : log_ok (n_pipe n);
  up_pipe : node_ok 0%Z n;
  up_memory : buf ++ p_chan (n_pipe n) ⊆ p_emitted (n_pipe n);
  up_emitted x : x ∈ p_emitted (n_pipe n) ->
    effect x ∈ effects n \/ x ∈ buf ++ p_chan (n_pipe n);
  up_settled c x : c ∈ p_log (n_pipe n) -> c ∉ p_session (n_pipe n) -> x ∈ c_changes c ->
    effect x ∈ effects n \/ x ∈ dropped;
}.

(** No process runs. *)
Record down_ok (dropped : list ChangeEvent) (n : node V) : Prop := {
  dn_log : log_ok (n_pipe n);
  dn_streaming : n_streaming n = false;
  dn_sub : n_sub n = NewSubscriber;
  dn_chan : p_chan (n_pipe n) = [];
  dn_settled c x : c ∈ p_log (n_pipe n) -> x ∈ c_changes c ->
    effect x ∈ effects n \/ x ∈ dropped \/ (p_slot (n_pipe n) <= c_lsn c)%Z;
}.

Definition system_ok (st : system V) : Prop :=
  match sy_engine st with
  | Some e => is_Some (e_state e) /\ up_ok (sy_dropped st) (e_buffer e) (sy_node st)
  | None => down_ok (sy_dropped st) (sy_node st)
  end.

Lemma up_step (dropped buf buf' pub : list ChangeEvent) (xs : list E) (B : LSN) (n n' : node V) :
  up_ok dropped buf n -> later B n n' -> node_ok B n -> (0 <= B)%Z ->
  effects n' = effects n ++ xs -> redelivers (effect <$> buf') (effect <$> buf) xs ->
  buf = pub ++ buf' -> up_ok dropped buf' n'.
Proof.
  intros [Hlog Hpipe Hmem Hem Hset] [Hl Hok (new & Hnew & Hsess & Hslot) (more & Hc & He) _]
    HB HB0 Heff Hre ->. split.
  - auto.
  - eapply pipe_ok_le; [exact HB0|by apply Hok].
  - intros x Hx. rewrite Hc in Hx. rewrite He. apply elem_of_app.
    rewrite app_assoc in Hx. apply elem_of_app in Hx as [Hx|Hx]; [left|by right].
    apply Hmem. apply elem_of_app in Hx as [Hx|Hx]; rewrite !elem_of_app; auto.
  - intros x Hx. rewrite He in Hx. rewrite Heff, Hc, !elem_of_app.
    apply elem_of_app in Hx as [Hx|Hx]; [|auto].
    destruct (Hem x Hx) as [?|Hin]; [auto|].
    apply elem_of_app in Hin as [Hin|?]; [|auto].
    apply elem_of_app in Hin as [Hin|Hin]; [|auto]. left. right.
    eapply redelivers_delivered; [exact Hre|by rewrite fmap_app|by apply list_elem_of_fmap_2].
  - intros c x Hcl Hcs Hx. rewrite Hnew in Hcl. rewrite Hsess in Hcs. rewrite Heff, elem_of_app.
    apply elem_of_app in Hcl as [Hcl|Hcl].
    + destruct (Hset c x) as [?|?]; auto. intros Hc'. apply Hcs, elem_of_app. by left.
    + exfalso. apply Hcs, elem_of_app. by right.
Qed.

(** A process ends. *)
Lemma up_ended (dropped buf : list ChangeEvent) (n : node V) :
  up_ok dropped buf n -> system_ok (ended buf dropped n).
Proof.
  intros [Hlog Hpipe Hmem Hem Hset]. split; simpl; try done.
  - by destruct Hlog.
  - intros c x Hc Hx. rewrite !elem_of_app.
    destruct (decide (c ∈ p_session (n_pipe n))) as [Hcs|Hcs].
    2:{ destruct (Hset c x Hc Hcs Hx); auto. }
    destruct Hpipe as (done & cur & part & ahead & Hs & He & Hw & Hf & _).
    rewrite Hs in Hcs. apply elem_of_app in Hcs as [Hcs|Hcs].
    + assert (Hxe : x ∈ p_emitted (n_pipe n)).
      { rewrite He. apply elem_of_app. left. apply elem_of_changes. by exists c. }
      destruct (Hem x Hxe) as [?|Hx']; [by left|]. apply elem_of_app in Hx'. tauto.
    + rewrite Forall_forall in Hf. destruct (Hf c Hcs) as [? _]. auto.
Qed.

(** ** Steps *)

Lemma may_confirm_ok (e : Engine) (i : loop_input) (dropped : list ChangeEvent) (n : node V) :
  up_ok dropped (e_buffer e ++ received_by i) n ->
  node_ok (may_confirm e i) n /\ (0 <= may_confirm e i)%Z.
Proof.
  intros [Hlog Hpipe Hmem _ _]. unfold may_confirm. rewrite before_flush_buffer. split.
  - apply pipe_ok_batch; [done..|]. intros x Hx. apply Hmem, elem_of_app. by left.
  - unfold batch_maxLSN. apply batch_extent_LSN.
Qed.

(** What an iteration of the engine makes of the system. *)
Lemma engine_step_cases (e : Engine) (i : loop_input) (n : node V) (dropped : list ChangeEvent) :
  is_Some (e_state e) -> up_ok dropped (e_buffer e ++ received_by i) n ->
  exists e' n' pub xs, is_Some (e_state e') /\ later (may_confirm e i) n n' /\
    e_buffer e ++ received_by i = pub ++ e_buffer e' /\
    effects n' = effects n ++ xs /\
    redelivers (effect <$> e_buffer e') (effect <$> e_buffer e ++ received_by i) xs /\
    up_ok dropped (e_buffer e') n' /\
    (engine_step su e i n dropped = mkSystem (Some e') n' dropped \/
     engine_step su e i n dropped = ended (e_buffer e') dropped n').
Proof.
  intros [rs Hrs] Hup. destruct (may_confirm_ok _ _ _ _ Hup) as [HB HB0].
  destruct (wp_run _ _ _ (wp_loop_delivers Hdecode e rs i n Hrs))
    as ([[e' r] rest] & n' & Hrun & Hlater & Hst & (pub & Hpub) & xs & Heff & Hre).
  exists e', n', pub, xs. do 5 (split; [done|]). split; [by eapply up_step|].
  unfold engine_step. rewrite Hrun. destruct r; auto.
Qed.

Lemma engine_step_ok (e : Engine) (i : loop_input) (n : node V) (dropped : list ChangeEvent) :
  is_Some (e_state e) -> up_ok dropped (e_buffer e ++ received_by i) n ->
  system_ok (engine_step su e i n dropped).
Proof.
  intros Hst Hup.
  destruct (engine_step_cases e i n dropped Hst Hup)
    as (e' & n' & pub & xs & Hst' & _ & _ & _ & _ & Hup' & [-> | ->]); [done|].
  by apply up_ended.
Qed.

(** What is left when a process is killed in an iteration. *)
Lemma killed_cases (k : nat) (e : Engine) (i : loop_input) (left : list ChangeEvent) (n : node V)
    (dropped : list ChangeEvent) :
  stop_input i = false -> left = e_buffer e ++ received_by i ->
  is_Some (e_state e) -> up_ok dropped left n ->
  exists n' xs, later (may_confirm e i) n n' /\ effects n' = effects n ++ xs /\
    redelivers (effect <$> left) (effect <$> left) xs /\ up_ok dropped left n' /\
    killed su k e i left n dropped = ended left dropped n'.
Proof.
  intros Hns -> [rs Hrs] Hup. destruct (may_confirm_ok _ _ _ _ Hup) as [HB HB0].
  destruct (wp_run _ _ _ (wp_loop_killed_delivers Hdecode k e rs i n Hns Hrs))
    as (r & n' & Hrun & Hlater & xs & Heff & Hre).
  exists n', xs. do 3 (split; [done|]). split; [by eapply (up_step _ _ _ [])|].
  unfold killed. by rewrite Hrun.
Qed.

Lemma killed_ok (k : nat) (e : Engine) (i : loop_input) (left : list ChangeEvent) (n : node V)
    (dropped : list ChangeEvent) :
  stop_input i = false -> left = e_buffer e ++ received_by i ->
  is_Some (e_state e) -> up_ok dropped left n -> system_ok (killed su k e i left n dropped).
Proof.
  intros Hns Hleft Hst Hup.
  destruct (killed_cases k e i left n dropped Hns Hleft Hst Hup) as (n' & xs & _ & _ & _ & Hup' & ->).
  by apply up_ended.
Qed.

(** The engine takes the event at the head of the channel. *)
Lemma up_take (dropped buf : list ChangeEvent) (ev : ChangeEvent) (ch : list ChangeEvent) (n : node V) :
  p_chan (n_pipe n) = ev :: ch -> up_ok dropped buf n ->
  up_ok dropped (buf ++ [ev]) (set_pipe (set_chan ch (n_pipe n)) n).
Proof.
  intros Hch [Hlog Hpipe Hmem Hem Hset]. rewrite Hch in Hmem, Hem. split; simpl.
  - by destruct Hlog.
  - done.
  - by rewrite <- app_assoc.
  - intros x Hx. rewrite <- app_assoc. by apply Hem.
  - done.
Qed.

(** The log of a node without a process, or before its session, is accounted for. *)
Lemma settled_grows (dropped : list ChangeEvent) (n n' : node V) (new : list commit) :
  down_ok dropped n -> p_log (n_pipe n') = p_log (n_pipe n) ++ new ->
  Forall (fun c => p_slot (n_pipe n) <= c_lsn c)%Z new ->
  p_slot (n_pipe n') = p_slot (n_pipe n) -> effects n' = effects n ->
  forall c x, c ∈ p_log (n_pipe n') -> x ∈ c_changes c ->
    effect x ∈ effects n' \/ x ∈ dropped \/ (p_slot (n_pipe n') <= c_lsn c)%Z.
Proof.
  intros Hd Hlog Hnew Hslot Heff c x Hc Hx. rewrite Hlog in Hc. rewrite Hslot, Heff.
  apply elem_of_app in Hc as [Hc|Hc]; [by apply (dn_settled _ _ Hd)|].
  rewrite Forall_forall in Hnew. auto.
Qed.

Lemma idle_down (dropped : list ChangeEvent) (n n' : node V) :
  down_ok dropped n -> idle_since n n' -> n_sub n' = NewSubscriber -> down_ok dropped n'.
Proof.
  intros Hd [Hl (new & Hlog & Hnew) Hslot Hch' Hst' Heff] Hsub'.
  split; [by apply Hl, Hd|done|done|by rewrite Hch'; apply Hd|].
  by apply (settled_grows dropped n n' new).
Qed.

Lemma started_up (dropped : list ChangeEvent) (n n' : node V) :
  down_ok dropped n -> started n n' -> up_ok dropped [] n'.
Proof.
  intros Hd Hsd. pose proof (dn_log _ _ Hd) as Hl. pose proof (started_ok _ _ Hl Hsd) as Hok.
  destruct Hsd as [Hl' (new & Hlog & Hnew) Hslot Hse _ _ [Hch Hem] Heff].
  split; [auto|done| | |].
  - rewrite Hch, Hem. done.
  - rewrite Hem. by intros x ?%elem_of_nil.
  - intros c x Hc Hcs Hx. rewrite (Hse Hl) in Hcs.
    destruct (settled_grows dropped n n' new Hd Hlog Hnew Hslot Heff c x Hc Hx) as [?|[?|?]]; auto.
    exfalso. apply Hcs. by apply list_elem_of_filter.
Qed.

Lemma exec_ok (st : system V) (i : input) : system_ok st -> system_ok (exec su st i).
Proof.
  destruct st as [[e|] n dropped]; unfold system_ok; simpl.
  - intros [Hst Hup]. destruct i as [a|timer| |timer| |k|k|]; simpl; try done.
    + split; [done|]. eapply (up_step dropped (e_buffer e) (e_buffer e) [] []);
        [done|by apply (later_perform su Hdecode 0%Z a)|apply Hup|done| |constructor|done].
      simpl. by rewrite outer_perform, app_nil_r.
    + unfold take. destruct (p_chan (n_pipe n)) as [|ev ch] eqn:Hch.
      * destruct (n_streaming n); [done|]. apply engine_step_ok; [done|].
        simpl. by rewrite app_nil_r.
      * apply engine_step_ok; [done|]. by apply up_take.
    + apply engine_step_ok; [done|]. simpl. by rewrite app_nil_r.
    + apply engine_step_ok; [done|]. simpl. by rewrite app_nil_r.
    + by apply up_ended.
    + destruct (p_chan (n_pipe n)) as [|ev ch] eqn:Hch; [done|].
      apply (killed_ok k e (Event ev)); [done..|by apply up_take].
    + apply (killed_ok k e Tick); [done|by rewrite app_nil_r|done..].
  - intros Hd. destruct i as [a|timer| |timer| |k|k|]; simpl; try done.
    + destruct (idle_perform a n) as [Hidle Hsub]; [apply Hd|].
      eapply idle_down; [exact Hd|done|]. rewrite Hsub. apply Hd.
    + pose proof (start_spec dropped n (dn_streaming _ _ Hd) (dn_sub _ _ Hd)) as Hstart.
      simpl in Hstart. destruct (sy_engine (start su n dropped)) as [e|].
      * destruct Hstart as (-> & Hst & Hsd & ->). split; [done|]. by eapply started_up.
      * destruct Hstart as (n' & Hidle & ->). simpl.
        rewrite (is_chan _ _ Hidle), (dn_chan _ _ Hd), app_nil_r.
        eapply idle_down; [exact Hd| |done]. destruct Hidle as [Hl Hlog Hs Hc Ht He].
        split; try done; simpl.
        -- intros Hl0. by destruct (Hl Hl0).
        -- by rewrite (dn_chan _ _ Hd).
Qed.

Lemma execute_ok (ins : list input) (st : system V) : system_ok st -> system_ok (execute su ins st).
Proof.
  revert st. induction ins as [|i ins IH]; intros st Hok; [done|]. by apply IH, exec_ok.
Qed.

Lemma initial_ok (v : V) (oracle : list (list action)) : system_ok (initial v oracle).
Proof.
  split; simpl; try done.
  - split; simpl; try done; constructor.
  - by intros c x ?%elem_of_nil.
Qed.
End runs.
