(* ===== verification/PipelineProps.v ===== *)
(** The properties of the pipeline, from the log of the local database to the
    cloud. *)
From stdpp Require Import sorting countable.
From S2P Require Import Prelude GoErrors GoTime GoStrings Interfaces Coordinator Subscriber.
From S2P Require Import Config State Metrics CircuitBreaker Halting Engine Trace Delivery.
From S2P Require Import SubscriberSpec EngineSpec EngineInvariants Publisher PublisherSpec Pipeline.
From S2P Require Import PipelineSpec PipelineEngine PipelineRuns ExampleWorld ExampleDatabase.
From Stdlib Require Import Ascii.

Section pipeline.
Context {V E : Type} `{Runtime V, ReplicationPublisher V, StateStore V, !Delivery V E}.
Context `{!Backend V E} `{!DeliveringPublisher V E} {su : setup}.
(** The decoders read what the server writes. *)
Context (Hdecode : forall m, decoded (ParseXLogData su) (Parse su) (su_encode su m) m).

(** * One life of a process *)

(** What of the session has not been received yet. *)
Definition to_come (n : node V) : list ChangeEvent := coming (n_pipe n) (n_vars n) (n_rels n).

Section life.
(** [R rest all xs]: [xs] deliver [all] down to [rest], in one way or another. *)
Context (R : list E -> list E -> list E -> Prop).
Context (R_refl : forall all, R all all []).
Context (R_trans : forall rest mid all xs ys,
  R mid all xs -> R rest mid ys -> R rest all (xs ++ ys)).
Context (R_frame : forall rest all xs after, R rest all xs -> R (rest ++ after) (all ++ after) xs).
Context (R_step : forall (e : Engine) rs i (n : node V), e_state e = Some rs ->
  wp (loop e [i]) (fun '(e', r, _) n' =>
    later (may_confirm e i) n n' /\ is_Some (e_state e') /\
    (r = None -> exists xs, effects n' = effects n ++ xs /\
      R (effect <$> e_buffer e') (effect <$> e_buffer e ++ received_by i) xs)) n).

(** A session that began at position [s0], when the cloud had [E0]. *)
Record life (E0 : list E) (s0 : LSN) (buf : list ChangeEvent) (n : node V) : Prop := {
  lf_delivered : exists xs, effects n = E0 ++ xs /\
    R (effect <$> buf ++ p_chan (n_pipe n)) (effect <$> p_emitted (n_pipe n)) xs;
  lf_session : p_session (n_pipe n) = from_position s0 (p_log (n_pipe n));
  lf_slot : (s0 <= p_slot (n_pipe n))%Z;
}.

Lemma life_step (E0 : list E) (s0 B : LSN) (buf buf' : list ChangeEvent) (n n' : node V)
    (xs : list E) :
  life E0 s0 buf n -> later B n n' ->
  effects n' = effects n ++ xs -> R (effect <$> buf') (effect <$> buf) xs ->
  life E0 s0 buf' n'.
Proof.
  intros [(ys & Hex & HR) Hse Hs0] [_ _ (new & Hlog & Hsess & Hnew) (more & Hch & Hem) Hslot]
    Heff Hxs. split.
  - exists (ys ++ xs). split; [by rewrite Heff, Hex, app_assoc|].
    rewrite Hch, Hem, (fmap_app _ (p_emitted _)), app_assoc, (fmap_app _ (buf' ++ _)).
    apply R_frame. eapply R_trans; [exact HR|]. rewrite !fmap_app. by apply R_frame.
  - rewrite Hsess, Hlog, Hse. unfold from_position. rewrite filter_app. f_equal. symmetry.
    apply filter_all. eapply Forall_impl; [exact Hnew|]. intros c Hc. simpl in Hc.
    unfold LSN in *. lia.
  - unfold LSN in *. lia.
Qed.

Definition life_ok (E0 : list E) (s0 : LSN) (st : system V) : Prop :=
  match sy_engine st with
  | Some e => is_Some (e_state e) /\ life E0 s0 (e_buffer e) (sy_node st)
  | None => True
  end.

Lemma engine_step_life (E0 : list E) (s0 : LSN) (e : Engine) (i : loop_input) (n : node V)
    (dropped : list ChangeEvent) :
  is_Some (e_state e) -> life E0 s0 (e_buffer e ++ received_by i) n ->
  life_ok E0 s0 (engine_step su e i n dropped).
Proof.
  intros [rs Hrs] Hlife.
  destruct (wp_run _ _ _ (R_step e rs i n Hrs)) as ([[e' r] rest] & n' & Hrun & Hlater & Hst & Hx).
  unfold engine_step. rewrite Hrun. destruct r as [r|]; [done|].
  destruct (Hx eq_refl) as (xs & Heff & HR). split; [done|]. by eapply life_step.
Qed.

Lemma exec_life (E0 : list E) (s0 : LSN) (st : system V) (i : input) :
  i <> Start -> life_ok E0 s0 st -> life_ok E0 s0 (exec su st i).
Proof.
  destruct st as [[e|] n dropped]; unfold life_ok at 1; simpl; [|by destruct i].
  intros Hi [Hst Hl]. destruct i as [a|timer| |timer| |k|k|]; simpl; try done.
  - split; [done|].
    eapply life_step; [done|by apply (later_perform su Hdecode 0%Z a)| |apply R_refl].
    simpl. by rewrite outer_perform, app_nil_r.
  - unfold take. destruct (p_chan (n_pipe n)) as [|ev ch] eqn:Hch.
    + destruct (n_streaming n); [done|]. apply engine_step_life; [done|].
      simpl. by rewrite app_nil_r.
    + apply engine_step_life; [done|]. destruct Hl as [(xs & Hex & HR) Hse Hs0].
      split; simpl; try done. exists xs. split; [done|]. by rewrite Hch in HR; rewrite <- app_assoc.
  - apply engine_step_life; [done|]. simpl. by rewrite app_nil_r.
  - apply engine_step_life; [done|]. simpl. by rewrite app_nil_r.
  - by destruct (p_chan (n_pipe n)).
Qed.

Lemma execute_life (E0 : list E) (s0 : LSN) (ins : list input) (st : system V) :
  Start ∉ ins -> life_ok E0 s0 st -> life_ok E0 s0 (execute su ins st).
Proof.
  revert st. induction ins as [|i ins IH]; intros st Hns Hl; [done|].
  apply not_elem_of_cons in Hns as [Hi Hns]. apply IH; [done|]. by apply exec_life.
Qed.

(** A life from its start: what has been delivered of the log, and what is left. *)
Lemma life_delivers (v : V) (oracle : list (list action)) (ins0 ins : list input) (e : Engine) :
  let st0 := execute su ins0 (initial v oracle) in
  let st := execute su (Start :: ins) st0 in
  let n := sy_node st in
  sy_engine st0 = None -> Start ∉ ins -> sy_engine st = Some e ->
  exists xs, effects n = effects (sy_node st0) ++ xs /\
    R (effect <$> e_buffer e ++ p_chan (n_pipe n) ++ to_come n)
      (effect <$> changes (from_position (p_slot (n_pipe (sy_node st0))) (p_log (n_pipe n)))) xs.
Proof.
  intros st0 st n Hdown Hns He.
  pose proof (execute_ok Hdecode ins0 _ (initial_ok v oracle)) as Hok. fold st0 in Hok.
  assert (Hlife : life_ok (effects (sy_node st0)) (p_slot (n_pipe (sy_node st0)))
                    (exec su st0 Start)).
  { unfold system_ok in Hok. rewrite Hdown in Hok. unfold exec. rewrite Hdown.
    pose proof (start_spec (sy_dropped st0) _ (dn_streaming _ _ Hok) (dn_sub _ _ Hok)) as Hstart.
    simpl in Hstart. unfold life_ok. destruct (sy_engine (start _ _ _)) as [e1|]; [|done].
    destruct Hstart as (-> & Hst & [_ _ Hslot Hse _ _ [Hch Hem] Heff] & _). split; [done|].
    split; [|by rewrite <- Hslot; apply Hse, Hok|by rewrite Hslot].
    exists []. rewrite Hch, Hem, Heff, app_nil_r. split; [done|apply R_refl]. }
  pose proof (execute_life _ _ ins _ Hns Hlife) as Hl. unfold life_ok in Hl.
  change (execute su ins (exec su st0 Start)) with st in Hl. rewrite He in Hl.
  destruct Hl as [_ [(xs & Hex & HR) Hse _]].
  pose proof (execute_ok Hdecode (Start :: ins) st0 Hok) as Hok'. fold st in Hok'.
  unfold system_ok in Hok'. rewrite He in Hok'. destruct Hok' as [_ [_ Hpipe _ _ _]].
  fold n in Hex, HR, Hse, Hpipe. exists xs. split; [done|].
  rewrite <- Hse, <- (emitted_coming _ _ _ _ Hpipe), app_assoc.
  rewrite (fmap_app _ (p_emitted _)), (fmap_app _ (_ ++ p_chan _)).
  by apply R_frame.
Qed.
End life.

Lemma life_redelivers (v : V) (oracle : list (list action)) (ins0 ins : list input) (e : Engine) :
  let st0 := execute su ins0 (initial v oracle) in
  let st := execute su (Start :: ins) st0 in
  let n := sy_node st in
  sy_engine st0 = None -> Start ∉ ins -> sy_engine st = Some e ->
  exists xs, effects n = effects (sy_node st0) ++ xs /\
    redelivers (effect <$> e_buffer e ++ p_chan (n_pipe n) ++ to_come n)
      (effect <$> changes (from_position (p_slot (n_pipe (sy_node st0))) (p_log (n_pipe n)))) xs.
Proof.
  apply life_delivers; [apply RdStop|apply redelivers_trans|apply redelivers_frame|].
  intros e1 rs i n Hrs. eapply wp_mono; [by apply (wp_loop_delivers Hdecode e1 rs i n)|].
  intros [[e' r] rest] n' (Hlater & Hst & _ & Hxs). auto.
Qed.

(** C10: over an atomic publisher, exactly once.  If a call of [Publish] that
    fails leaves nothing behind in the cloud (the repository's own does that when
    the list is one batch and a failed commit has not taken effect), then as
    long as the process lives, what the cloud received since the start, followed
    by the buffer, the channel and what is still to come, is exactly the changes
    of the transactions in the log from the slot's position on, in commit
    order. *)
Theorem pipeline_exactly_once `{!AtomicPublisher V E} (v : V) (oracle : list (list action))
    (ins0 ins : list input) (e : Engine) :
  let st0 := execute su ins0 (initial v oracle) in
  let st := execute su (Start :: ins) st0 in
  let n := sy_node st in
  sy_engine st0 = None -> Start ∉ ins -> sy_engine st = Some e ->
  effects n ++ (effect <$> e_buffer e ++ p_chan (n_pipe n) ++ to_come n) =
  effects (sy_node st0) ++
    (effect <$> changes (from_position (p_slot (n_pipe (sy_node st0))) (p_log (n_pipe n)))).
Proof.
  intros st0 st n Hdown Hns He.
  destruct (life_delivers (fun rest all xs => all = xs ++ rest)) with v oracle ins0 ins e
    as (xs & Heff & Hxs); [..|done|done|done|].
  - done.
  - intros rest mid all xs ys -> ->. by rewrite app_assoc.
  - intros rest all xs after ->. by rewrite app_assoc.
  - intros e1 rs i n1 Hrs. by apply (wp_loop_exact Hdecode e1 rs i n1).
  - fold st0 st n in Heff, Hxs. by rewrite Heff, Hxs, <- app_assoc.
Qed.

(** * Any number of lives *)

(** C2: no change is forgotten.  Whatever happens, processes being started,
    terminated and killed between any two calls: every change in the log has reached
    the cloud, or is in the memory of the running process, or will be sent
    again because its transaction is not before the slot's position, or was in
    the memory of a process when that ended. *)
Theorem pipeline_accounts_for_changes (v : V) (oracle : list (list action)) (ins : list input)
    (c : commit) (x : ChangeEvent) :
  let st := execute su ins (initial v oracle) in
  let n := sy_node st in
  c ∈ p_log (n_pipe n) -> x ∈ c_changes c ->
  effect x ∈ effects n \/
  (exists e, sy_engine st = Some e /\ x ∈ e_buffer e ++ p_chan (n_pipe n)) \/
  (p_slot (n_pipe n) <= c_lsn c)%Z \/ x ∈ sy_dropped st.
Proof.
  intros st n Hc Hx.
  pose proof (execute_ok Hdecode ins _ (initial_ok v oracle)) as Hok. fold st in Hok.
  unfold system_ok in Hok. destruct (sy_engine st) as [e|] eqn:He.
  - destruct Hok as [_ [Hlog Hpipe Hmem Hem Hset]].
    destruct (decide (c ∈ p_session (n_pipe n))) as [Hcs|Hcs].
    2:{ destruct (Hset c x Hc Hcs Hx); auto. }
    destruct Hpipe as (done & cur & part & ahead & Hs & Hemit & Hw & Hf & _). fold n in Hs, Hemit, Hf.
    rewrite Hs in Hcs. apply elem_of_app in Hcs as [Hcs|Hcs].
    + assert (Hxe : x ∈ p_emitted (n_pipe n)).
      { rewrite Hemit. apply elem_of_app. left. apply elem_of_changes. by exists c. }
      destruct (Hem x Hxe) as [?|?]; [by left|]. right. left. eauto.
    + rewrite Forall_forall in Hf. destruct (Hf c Hcs) as [? _]. auto.
  - destruct (dn_settled _ _ Hok c x Hc Hx) as [?|[?|?]]; auto.
Qed.

(** ** What is lost *)

(** [x] has not reached the cloud, and nothing will send it again. *)
Definition gone (x : ChangeEvent) (st : system V) : Prop :=
  (effect x ∉ effects (sy_node st)) /\ (ev_LSN x < p_slot (n_pipe (sy_node st)))%Z /\
  (is_Some (sy_engine st) ->
   Forall (fun c => ev_LSN x < c_lsn c)%Z (p_session (n_pipe (sy_node st)))).

Lemma memory_lsn (lsn : LSN) (dropped buf : list ChangeEvent) (n : node V) (y : ChangeEvent) :
  up_ok dropped buf n -> Forall (fun c => lsn < c_lsn c)%Z (p_session (n_pipe n)) ->
  y ∈ buf -> (lsn < ev_LSN y)%Z.
Proof.
  intros [Hlog Hpipe Hmem _ _] Hf Hy.
  assert (Hys : y ∈ p_emitted (n_pipe n)) by (apply Hmem, elem_of_app; by left).
  apply (emitted_session _ _ _ _ _ Hpipe), elem_of_changes in Hys as (c & Hc & Hyc).
  rewrite (change_lsn _ _ _ Hlog (lo_sub _ Hlog _ Hc) Hyc). rewrite Forall_forall in Hf. auto.
Qed.

Lemma session_later (lsn B : LSN) (n n' : node V) :
  later B n n' -> (lsn < p_slot (n_pipe n))%Z ->
  Forall (fun c => lsn < c_lsn c)%Z (p_session (n_pipe n)) ->
  (lsn < p_slot (n_pipe n'))%Z /\ Forall (fun c => lsn < c_lsn c)%Z (p_session (n_pipe n')).
Proof.
  intros [_ _ (new & _ & -> & Hnew) _ Hslot] Hlt Hf. split; [unfold LSN in *; lia|].
  apply Forall_app. split; [done|]. eapply Forall_impl; [exact Hnew|].
  intros c Hc. simpl in Hc. unfold LSN in *. lia.
Qed.

(** The effect of [x] tells [x]. *)
Definition telling (x : ChangeEvent) : Prop := forall y, effect y = effect x -> y = x.

Lemma delivered_gone (x : ChangeEvent) (B : LSN) (dropped buf : list ChangeEvent) (n n' : node V)
    (rest xs : list E) :
  telling x -> up_ok dropped buf n -> effect x ∉ effects n ->
  (ev_LSN x < p_slot (n_pipe n))%Z ->
  Forall (fun c => ev_LSN x < c_lsn c)%Z (p_session (n_pipe n)) -> later B n n' ->
  effects n' = effects n ++ xs -> redelivers rest (effect <$> buf) xs ->
  (effect x ∉ effects n') /\ (ev_LSN x < p_slot (n_pipe n'))%Z /\
  Forall (fun c => ev_LSN x < c_lsn c)%Z (p_session (n_pipe n')).
Proof.
  intros Htell Hup Hno Hslot Hf Hlater Heff Hre.
  split; [|by eapply session_later].
  rewrite Heff, elem_of_app. intros [?|Hx]; [done|].
  apply (redelivers_only _ _ _ _ Hre) in Hx. apply list_elem_of_fmap in Hx as (y & Hy & Hyb).
  symmetry in Hy. apply Htell in Hy as ->.
  pose proof (memory_lsn _ _ _ _ _ Hup Hf Hyb). unfold LSN in *. lia.
Qed.

Lemma killed_gone (x : ChangeEvent) (k : nat) (e : Engine) (i : loop_input)
    (left : list ChangeEvent) (n : node V) (dropped : list ChangeEvent) :
  stop_input i = false -> left = e_buffer e ++ received_by i ->
  telling x -> is_Some (e_state e) -> up_ok dropped left n ->
  effect x ∉ effects n -> (ev_LSN x < p_slot (n_pipe n))%Z ->
  Forall (fun c => ev_LSN x < c_lsn c)%Z (p_session (n_pipe n)) ->
  gone x (killed su k e i left n dropped).
Proof.
  intros Hns Hleft Htell Hst Hup Hno Hslot Hf.
  destruct (killed_cases Hdecode k e i left n dropped Hns Hleft Hst Hup)
    as (n' & xs & Hlater & Heff & Hre & _ & ->).
  destruct (delivered_gone x _ _ _ _ _ _ _ Htell Hup Hno Hslot Hf Hlater Heff Hre)
    as (? & ? & _).
  repeat split; [done..|by intros []].
Qed.

Lemma engine_step_gone (x : ChangeEvent) (e : Engine) (i : loop_input) (n : node V)
    (dropped : list ChangeEvent) :
  telling x -> is_Some (e_state e) -> up_ok dropped (e_buffer e ++ received_by i) n ->
  effect x ∉ effects n -> (ev_LSN x < p_slot (n_pipe n))%Z ->
  Forall (fun c => ev_LSN x < c_lsn c)%Z (p_session (n_pipe n)) ->
  gone x (engine_step su e i n dropped).
Proof.
  intros Htell Hst Hup Hno Hslot Hf.
  destruct (engine_step_cases Hdecode e i n dropped Hst Hup)
    as (e' & n' & pub & xs & Hst' & Hlater & _ & Heff & Hre & Hup' & Hcases).
  destruct (delivered_gone x _ _ _ _ _ _ _ Htell Hup Hno Hslot Hf Hlater Heff Hre)
    as (Hno' & Hslot' & Hf').
  destruct Hcases as [-> | ->]; by repeat split.
Qed.

Lemma idle_gone (x : ChangeEvent) (st st' : system V) :
  sy_engine st' = None -> p_slot (n_pipe (sy_node st')) = p_slot (n_pipe (sy_node st)) ->
  effects (sy_node st') = effects (sy_node st) -> gone x st -> gone x st'.
Proof. intros He Hs Heff (Hno & Hslot & _). split; [by rewrite Heff|]. rewrite Hs, He. split; [done|by intros []]. Qed.

Lemma exec_gone (x : ChangeEvent) (st : system V) (i : input) :
  telling x -> system_ok st -> gone x st -> gone x (exec su st i).
Proof.
  intros Htell. destruct st as [[e|] n dropped]; unfold system_ok; simpl.
  - intros [Hst Hup] Hgone. pose proof Hgone as (Hno & Hslot & Hf). simpl in *.
    specialize (Hf ltac:(by eexists)).
    destruct i as [a|timer| |timer| |k|k|]; simpl; try done.
    + destruct (session_later _ 0%Z _ _ (later_perform su Hdecode 0%Z a n) Hslot Hf).
      repeat split; simpl; try done. by rewrite outer_perform.
    + unfold take. destruct (p_chan (n_pipe n)) as [|ev ch] eqn:Hch.
      * destruct (n_streaming n); [done|]. apply engine_step_gone; try done.
        simpl. by rewrite app_nil_r.
      * apply engine_step_gone; try done. by apply up_take.
    + apply engine_step_gone; try done. simpl. by rewrite app_nil_r.
    + apply engine_step_gone; try done. simpl. by rewrite app_nil_r.
    + destruct (p_chan (n_pipe n)) as [|ev ch] eqn:Hch; [done|].
      apply killed_gone; try done. by apply up_take.
    + apply killed_gone; try done. simpl. by rewrite app_nil_r.
  - intros Hd Hgone. destruct i as [a|timer| |timer| |k|k|]; simpl; try done.
    + destruct (idle_perform a n) as [Hidle _]; [apply Hd|].
      apply (idle_gone x (mkSystem None n dropped)); [done| | |done]; apply Hidle.
    + pose proof (start_spec dropped n (dn_streaming _ _ Hd) (dn_sub _ _ Hd)) as Hstart.
      simpl in Hstart. destruct (start su n dropped) as [[e|] n' dropped']; simpl in *.
      * destruct Hstart as (_ & _ & [_ _ Hslot Hse _ _ _ Heff] & _).
        destruct Hgone as (Hno & Hlt & _). simpl in *.
        split; simpl; [by rewrite Heff|].
        rewrite Hslot. split; [done|]. intros _. rewrite Hse by apply Hd. apply Forall_forall.
        intros c [Hc _]%list_elem_of_filter. rewrite Hslot in Hc. unfold LSN in *. lia.
      * destruct Hstart as (n1 & Hidle & [= -> ->]).
        apply (idle_gone x (mkSystem None n dropped)); [done|apply Hidle|apply Hidle|done].
Qed.

Lemma execute_gone (x : ChangeEvent) (ins : list input) (st : system V) :
  telling x -> system_ok st -> gone x st -> effect x ∉ effects (sy_node (execute su ins st)).
Proof.
  intros Htell. revert st. induction ins as [|i ins IH]; intros st Hok Hgone; [apply Hgone|].
  apply IH; [by apply exec_ok|by apply exec_gone].
Qed.

(** C31: what is confirmed and not delivered when a process ends is lost for
    ever.  If no process runs, and a change of a transaction before the slot's
    position has not reached the cloud, it never will, whatever happens. *)
Theorem confirmed_loss_is_permanent (v : V) (oracle : list (list action)) (ins0 ins : list input)
    (c : commit) (x : ChangeEvent) :
  let st := execute su ins0 (initial v oracle) in
  let n := sy_node st in
  sy_engine st = None -> c ∈ p_log (n_pipe n) -> x ∈ c_changes c ->
  (c_lsn c < p_slot (n_pipe n))%Z -> effect x ∉ effects n ->
  (forall y, effect y = effect x -> y = x) ->
  effect x ∉ effects (sy_node (execute su ins st)).
Proof.
  intros st n He Hc Hx Hlt Hno Htell.
  pose proof (execute_ok Hdecode ins0 _ (initial_ok v oracle)) as Hok. fold st in Hok.
  apply execute_gone; [done|done|]. unfold system_ok in Hok. rewrite He in Hok.
  split; [done|]. rewrite (change_lsn _ _ _ (dn_log _ _ Hok) Hc Hx), He.
  split; [done|by intros []].
Qed.

(** C32: an orderly shutdown loses what is in the channel.  A change that has
    been put into the channel and whose transaction is already confirmed is
    lost when the engine receives a signal, even if the flush of the shutdown
    succeeds: only the buffer is flushed. *)
Theorem shutdown_loses_channel (v : V) (oracle : list (list action)) (ins0 ins : list input)
    (timer : option nat) (e : Engine) (x : ChangeEvent) :
  let st := execute su ins0 (initial v oracle) in
  let n := sy_node st in
  sy_engine st = Some e -> x ∈ p_chan (n_pipe n) -> x ∉ e_buffer e ->
  (ev_LSN x < p_slot (n_pipe n))%Z -> effect x ∉ effects n ->
  (forall y, effect y = effect x -> y = x) ->
  effect x ∉ effects (sy_node (execute su (Terminate timer :: ins) st)).
Proof.
  intros st n He Hx Hbuf Hlt Hno Htell.
  pose proof (execute_ok Hdecode ins0 _ (initial_ok v oracle)) as Hok. fold st in Hok.
  change (execute su (Terminate timer :: ins) st)
    with (execute su ins (exec su st (Terminate timer))).
  apply execute_gone; [done|by apply exec_ok|].
  unfold system_ok in Hok. rewrite He in Hok. destruct Hok as [[rs Hrs] Hup].
  unfold exec. rewrite He. fold n.
  assert (Hup' : up_ok (sy_dropped st) (e_buffer e ++ received_by (CtxDone Background timer)) n)
    by (simpl; by rewrite app_nil_r).
  destruct (may_confirm_ok _ _ _ _ Hup') as [HB _].
  destruct (wp_run _ _ _ (wp_loop_delivers Hdecode e rs (CtxDone Background timer) n Hrs))
    as ([[e' r] rest] & n' & Hrun & Hlater & _ & _ & xs & Heff & Hre).
  simpl in Hre. rewrite app_nil_r in Hre.
  unfold engine_step. rewrite Hrun.
  assert (exists err, r = Some err) as [err ->].
  { cbn [loop loop_iter] in Hrun. apply bind_Ret_inv in Hrun as ([e1 r1] & n1 & Hiter & Hrun).
    apply bind_Ret_inv in Hiter as ([e2 err] & n2 & _ & [= <- <- <-]).
    injection Hrun as _ <- _ _. by exists err. }
  split; [|split; [|by intros []]]; simpl.
  - change (effects (n_outer n')) with (effects n'). rewrite Heff, elem_of_app.
    intros [?|Hin]; [done|]. apply (redelivers_only _ _ _ _ Hre) in Hin.
    apply list_elem_of_fmap in Hin as (y & Hy & Hyb). symmetry in Hy. by apply Htell in Hy as ->.
  - pose proof (lt_slot _ _ _ Hlater). unfold LSN in *. lia.
Qed.
End pipeline.

(** * Over PostgreSQL *)

Section over_postgres.
Context {V : Type} `{PgxPool V, !TransactionalDB V, Runtime V, StateStore V} (p : Publisher).
#[local] Existing Instance publisher_instance.
#[local] Existing Instance db_delivery.
Context {su : setup}.
Context (Hdecode : forall m, decoded (ParseXLogData su) (Parse su) (su_encode su m) m).

(** C1: from the log of the local database to what is committed in the cloud,
    at least once and in order.  The publisher is the repository's, with a
    connection and a positive batch size, over a database with transactions.
    Take any state in which no process runs and start one; then let the server,
    the stream goroutine, the ticker and the engine act in any order, the stream
    and the server also between any two calls of the engine.  As long as the
    process lives, the statements committed since the start are those of the
    changes in the log from the slot's position on, in commit order, up to the
    changes that are in the buffer, in the channel and still to come; except
    that a retry may commit a prefix of what was next once more. *)
Theorem pipeline_delivers `{!Backend V (option stmt) (H0 := publisher_instance p)} (v : V)
    (oracle : list (list action)) (ins0 ins : list input) (e : Engine) :
  pool p = true -> (0 < batchSize p)%Z ->
  let st0 := execute (H0 := publisher_instance p) su ins0 (initial v oracle) in
  let st := execute (H0 := publisher_instance p) su (Start :: ins) st0 in
  let n := sy_node st in
  sy_engine st0 = None -> Start ∉ ins -> sy_engine st = Some e ->
  exists again,
    (Some <$> db_committed (n_outer n)) = (Some <$> db_committed (n_outer (sy_node st0))) ++ again /\
    redelivers (stmt_of <$> e_buffer e ++ p_chan (n_pipe n) ++ to_come n)
      (stmt_of <$> changes (from_position (p_slot (n_pipe (sy_node st0))) (p_log (n_pipe n))))
      again.
Proof.
  intros Hp Hb. pose proof (publisher_delivers p Hp Hb) as Hdel.
  intros st0 st n Hdown Hns He.
  exact (life_redelivers Hdecode v oracle ins0 ins e Hdown Hns He).
Qed.
End over_postgres.

(** * On a concrete system *)

(** An encoder and its decoders: a message is numbered, and the number written
    in binary. *)
Definition message_sum : Type :=
  (LSN * Time) + (LSN + ((Z * string * string * list (option string)) + ((Z * option TupleData) +
  ((Z * option TupleData * option TupleData) + ((Z * option TupleData) + unit))))).

Definition message_in (m : Message) : message_sum :=
  match m with
  | BeginMessage l t => inl (l, t)
  | CommitMessage l => inr (inl l)
  | RelationMessage i a b cs => inr (inr (inl (i, a, b, cs)))
  | InsertMessage i t => inr (inr (inr (inl (i, t))))
  | UpdateMessage i o t => inr (inr (inr (inr (inl (i, o, t)))))
  | DeleteMessage i o => inr (inr (inr (inr (inr (inl (i, o))))))
  | OtherMessage => inr (inr (inr (inr (inr (inr tt)))))
  end.

Definition message_out (m : message_sum) : Message :=
  match m with
  | inl (l, t) => BeginMessage l t
  | inr (inl l) => CommitMessage l
  | inr (inr (inl (i, a, b, cs))) => RelationMessage i a b cs
  | inr (inr (inr (inl (i, t)))) => InsertMessage i t
  | inr (inr (inr (inr (inl (i, o, t))))) => UpdateMessage i o t
  | inr (inr (inr (inr (inr (inl (i, o)))))) => DeleteMessage i o
  | inr (inr (inr (inr (inr (inr tt))))) => OtherMessage
  end.

#[local] Instance column_eq_dec : EqDecision TupleDataColumn.
Proof. solve_decision. Defined.
#[local] Instance column_countable : Countable TupleDataColumn.
Proof.
  apply (inj_countable' (fun c => (DataType c, Data c)) (fun p => mkTupleDataColumn p.1 p.2)).
  by intros [].
Defined.
#[local] Instance message_eq_dec : EqDecision Message.
Proof. unfold EqDecision, LSN, Time, TupleData. solve_decision. Defined.
#[local] Instance message_countable : Countable Message.
Proof.
  unfold LSN, Time, TupleData in *.
  refine (inj_countable' (A := message_sum) message_in message_out _). by intros [].
Defined.

Fixpoint bits (p : positive) : string :=
  match p with xH => "" | xO p => String "0" (bits p) | xI p => String "1" (bits p) end.

Fixpoint unbits (s : string) : positive :=
  match s with
  | EmptyString => xH
  | String "0" s => xO (unbits s)
  | String _ s => xI (unbits s)
  end.

Lemma unbits_bits (p : positive) : unbits (bits p) = p.
Proof. induction p as [p IH|p IH|]; simpl; by rewrite ?IH. Qed.

Definition sample_setup : setup := {|
  ParsePrimaryKeepaliveMessage := fun _ => Ok false;
  ParseXLogData := Ok;
  Parse := fun s => match decode (unbits s) with
                    | Some m => Ok m
                    | None => Err (ErrorsNew "unknown message")
                    end;
  su_encode := fun m => String XLogDataByteID (bits (encode m));
  su_cfg := sample_config 2;
  su_metrics := None;
|}.

#[local] Existing Instance sample_setup.

Lemma sample_decode (m : Message) :
  decoded (ParseXLogData sample_setup) (Parse sample_setup) (su_encode sample_setup m) m.
Proof.
  exists (bits (encode m)), (bits (encode m)). repeat split. simpl.
  by rewrite unbits_bits, decode_encode.
Qed.

#[local] Instance world_backend : Backend world ChangeEvent.
Proof. by split. Qed.

(** Two transactions: the first announces the table. *)
Definition sample_row (lsn : LSN) (id : string) : ChangeEvent :=
  mkChangeEvent lsn Second "public.accounts" OperationInsert ∅ {["id" := Str id]}.
Definition row_message (id : string) : Message :=
  InsertMessage 7 (Some [Some (mkTupleDataColumn "t" id)]).
Definition table_message : Message := RelationMessage 7 "public" "accounts" [Some "id"].

Definition first_commit : commit := mkCommit 40%Z Second [sample_row 40%Z "1"].
Definition second_commit : commit := mkCommit 50%Z Second [sample_row 50%Z "2"].
Definition first_tx : transaction := mkTransaction 40%Z Second [table_message; row_message "1"].
Definition second_tx : transaction := mkTransaction 50%Z Second [row_message "2"].
Definition second_tx_again : transaction :=
  mkTransaction 50%Z Second [table_message; row_message "2"].

Definition receives (k : nat) : list input := repeat (Env Receive) k.

(** Both transactions are received, and then the engine takes the first event. *)
Definition sample_received : list input :=
  [Env (Commit first_commit); Env (Send first_tx)] ++ receives 4 ++
  [Env (Commit second_commit); Env (Send second_tx)] ++ receives 3.
Definition sample_run : list input := sample_received ++ [Take None].

(** The process is started again, receives what the server sends, and is
    terminated in good order. *)
Definition sample_restart : list input :=
  [Start; Env (Send second_tx_again)] ++ receives 4 ++ [Take None; Terminate None].

Definition sample_world : world := mkWorld (100 * Second) [] [] [].
Definition sample_oracle : list (list action) := [[]; [Break]; []].

(** The state after a run, from the beginning. *)
Abbreviation after_run ins :=
  (execute sample_setup ins (initial sample_world sample_oracle)).

Lemma sample_run_starts_once : Start ∉ sample_run.
Proof.
  cbn. repeat (apply not_elem_of_cons; split; [discriminate|]). apply not_elem_of_nil.
Qed.

Lemma sample_runs : exists e, sy_engine (execute sample_setup (Start :: sample_run) (after_run [])) = Some e.
Proof. eexists. vm_compute. reflexivity. Qed.

Lemma pipeline_exactly_once_witness :
  exists e, let n := sy_node (execute sample_setup (Start :: sample_run) (after_run [])) in
    effects n ++ (effect <$> e_buffer e ++ p_chan (n_pipe n) ++ to_come n) =
    effects (sy_node (after_run [])) ++ (effect <$> changes
      (from_position (p_slot (n_pipe (sy_node (after_run [])))) (p_log (n_pipe n)))).
Proof.
  destruct sample_runs as [e He]. exists e.
  exact (pipeline_exactly_once sample_decode sample_world sample_oracle [] sample_run e
    eq_refl sample_run_starts_once He).
Defined.

(** The same run over the database of ExampleDatabase. *)
#[local] Instance database_backend :
  Backend (H0 := publisher_instance sample_publisher) (H2 := db_delivery)
    database (option stmt).
Proof. by split. Qed.

Abbreviation run_db ins st :=
  (execute (H0 := publisher_instance sample_publisher) sample_setup ins st).
Abbreviation before_db := (run_db [] (initial empty_database sample_oracle)).

Lemma sample_runs_db : exists e, sy_engine (run_db (Start :: sample_run) before_db) = Some e.
Proof. eexists. vm_compute. reflexivity. Qed.

Lemma pipeline_delivers_witness :
  exists e again, let n := sy_node (run_db (Start :: sample_run) before_db) in
    (Some <$> db_committed (n_outer n)) =
      (Some <$> db_committed (n_outer (sy_node before_db))) ++ again /\
    redelivers (stmt_of <$> e_buffer e ++ p_chan (n_pipe n) ++ to_come n)
      (stmt_of <$> changes (from_position (p_slot (n_pipe (sy_node before_db))) (p_log (n_pipe n))))
      again.
Proof.
  destruct sample_runs_db as [e He]. exists e.
  exact (pipeline_delivers sample_publisher sample_decode empty_database
    sample_oracle [] sample_run e eq_refl eq_refl eq_refl sample_run_starts_once He).
Defined.

(** The first event is in the buffer when the process is killed. *)
Definition until_crash : list input := Start :: sample_run ++ [Crash].

Lemma first_in_log : first_commit ∈ p_log (n_pipe (sy_node (after_run until_crash))).
Proof.
  assert (p_log (n_pipe (sy_node (after_run until_crash))) = [first_commit; second_commit]) as ->
    by (vm_compute; reflexivity). left.
Qed.

Lemma pipeline_accounts_for_changes_witness :
  let st := after_run until_crash in
  effect (sample_row 40%Z "1") ∈ effects (sy_node st) \/
  (exists e, sy_engine st = Some e /\
     sample_row 40%Z "1" ∈ e_buffer e ++ p_chan (n_pipe (sy_node st))) \/
  (p_slot (n_pipe (sy_node st)) <= c_lsn first_commit)%Z \/ sample_row 40%Z "1" ∈ sy_dropped st.
Proof.
  exact (pipeline_accounts_for_changes sample_decode sample_world sample_oracle until_crash
    first_commit (sample_row 40%Z "1") first_in_log ltac:(left)).
Defined.

Lemma crashed_before_delivery : effects (sy_node (after_run until_crash)) = [].
Proof. vm_compute. reflexivity. Qed.

(** After a restart only the second event arrives. *)
Lemma restart_delivers_second :
  effects (sy_node (execute sample_setup sample_restart (after_run until_crash))) =
  [sample_row 50%Z "2"].
Proof. vm_compute. reflexivity. Qed.

Lemma crash_stops : sy_engine (after_run until_crash) = None.
Proof. vm_compute. reflexivity. Qed.

Lemma crash_slot : (40 < p_slot (n_pipe (sy_node (after_run until_crash))))%Z.
Proof. vm_compute. reflexivity. Qed.

Lemma crash_lost : effect (sample_row 40%Z "1") ∉ effects (sy_node (after_run until_crash)).
Proof. rewrite crashed_before_delivery. by intros ?%elem_of_nil. Qed.

Lemma confirmed_loss_is_permanent_witness :
  effect (sample_row 40%Z "1") ∉
    effects (sy_node (execute sample_setup sample_restart (after_run until_crash))).
Proof.
  exact (confirmed_loss_is_permanent sample_decode sample_world sample_oracle until_crash
    sample_restart first_commit (sample_row 40%Z "1") crash_stops first_in_log ltac:(left)
    crash_slot crash_lost (fun y Hy => Hy)).
Defined.

(** A signal while both events are in the channel. *)
Lemma received_state :
  exists e, sy_engine (after_run (Start :: sample_received)) = Some e /\ e_buffer e = [] /\
    p_chan (n_pipe (sy_node (after_run (Start :: sample_received)))) =
      [sample_row 40%Z "1"; sample_row 50%Z "2"] /\
    p_slot (n_pipe (sy_node (after_run (Start :: sample_received)))) = 50%Z /\
    effects (sy_node (after_run (Start :: sample_received))) = [].
Proof.
  eexists. split; [vm_compute; reflexivity|]. split; [reflexivity|].
  split; [|split]; vm_compute; reflexivity.
Qed.

Lemma shutdown_loses_channel_witness :
  effect (sample_row 40%Z "1") ∉ effects (sy_node (execute sample_setup
    (Terminate None :: sample_restart) (after_run (Start :: sample_received)))).
Proof.
  destruct received_state as (e & He & Hbuf & Hch & Hslot & Heff).
  apply (shutdown_loses_channel sample_decode sample_world sample_oracle (Start :: sample_received)
    sample_restart None e (sample_row 40%Z "1") He).
  - rewrite Hch. left.
  - rewrite Hbuf. by intros ?%elem_of_nil.
  - rewrite Hslot. reflexivity.
  - rewrite Heff. by intros ?%elem_of_nil.
  - intros y Hy. exact Hy.
Defined.
